(** * Multi-portal tender scraper: a shallow embedding and its properties

    The development follows [production_portal_scraper.py] and
    [production_orchestrator.py].  Python [str] values are modelled as
    Rocq strings holding their UTF-8 bytes, so [key.encode()] is the
    identity on the model.  A Python call that may raise is a value of
    [outcome]; SQLite tables are lists of rows in rowid order; Python
    dicts are [gmap]s. *)

From Stdlib Require Import ZArith NArith String Ascii List Lia Bool.
From Stdlib Require Import DecimalString DecimalNat DecimalFacts Sorted.
From stdpp Require Import gmap strings list.

Local Open Scope string_scope.
Local Open Scope list_scope.

(** ** Python results *)

(** A call either returns a value or raises an [Exception] whose
    [str(e)] is [msg]. *)
Inductive outcome (A : Type) : Type :=
| Ok (a : A)
| Raise (msg : string).
Arguments Ok {A} a.
Arguments Raise {A} msg.

#[global] Instance outcome_ret : MRet outcome := fun A a => Ok a.

#[global] Instance outcome_bind : MBind outcome := fun A B k c =>
  match c with
  | Ok a => k a
  | Raise e => Raise e
  end.

Definition returns {A : Type} (c : outcome A) : bool :=
  match c with Ok _ => true | Raise _ => false end.

(** ** hashlib.md5 (RFC 1321), on 32-bit words held in [Z] *)

Module MD5.

Local Open Scope Z_scope.

Definition mask32 : Z := 4294967295.

Definition add32 (a b : Z) : Z := (a + b) mod 4294967296.

Definition not32 (a : Z) : Z := Z.lxor a mask32.

Definition rotl32 (x c : Z) : Z :=
  Z.lor (Z.land (Z.shiftl x c) mask32) (Z.shiftr x (32 - c)).

Definition shifts : list Z :=
  [7; 12; 17; 22; 7; 12; 17; 22; 7; 12; 17; 22; 7; 12; 17; 22;
   5; 9; 14; 20; 5; 9; 14; 20; 5; 9; 14; 20; 5; 9; 14; 20;
   4; 11; 16; 23; 4; 11; 16; 23; 4; 11; 16; 23; 4; 11; 16; 23;
   6; 10; 15; 21; 6; 10; 15; 21; 6; 10; 15; 21; 6; 10; 15; 21].

(** [K[i] = floor(2^32 * abs(sin(i + 1)))]. *)
Definition sines : list Z :=
  [3614090360; 3905402710; 606105819; 3250441966; 4118548399; 1200080426;
   2821735955; 4249261313; 1770035416; 2336552879; 4294925233; 2304563134;
   1804603682; 4254626195; 2792965006; 1236535329; 4129170786; 3225465664;
   643717713; 3921069994; 3593408605; 38016083; 3634488961; 3889429448;
   568446438; 3275163606; 4107603335; 1163531501; 2850285829; 4243563512;
   1735328473; 2368359562; 4294588738; 2272392833; 1839030562; 4259657740;
   2763975236; 1272893353; 4139469664; 3200236656; 681279174; 3936430074;
   3572445317; 76029189; 3654602809; 3873151461; 530742520; 3299628645;
   4096336452; 1126891415; 2878612391; 4237533241; 1700485571; 2399980690;
   4293915773; 2240044497; 1873313359; 4264355552; 2734768916; 1309151649;
   4149444226; 3174756917; 718787259; 3951481745].

Record state : Type := State { sa : Z; sb : Z; sc : Z; sd : Z }.

Definition init : state :=
  State 1732584193 4023233417 2562383102 271733878.

(** The round function and the message-word index of step [i]. *)
Definition mix (i : nat) (b c d : Z) : Z * nat :=
  if Nat.ltb i 16 then (Z.lor (Z.land b c) (Z.land (not32 b) d), i)
  else if Nat.ltb i 32 then
    (Z.lor (Z.land d b) (Z.land (not32 d) c), Nat.modulo (5 * i + 1) 16)
  else if Nat.ltb i 48 then
    (Z.lxor b (Z.lxor c d), Nat.modulo (3 * i + 5) 16)
  else (Z.lxor c (Z.lor b (not32 d)), Nat.modulo (7 * i) 16).

Definition step (m : list Z) (st : state) (i : nat) : state :=
  let '(f, g) := mix i (sb st) (sc st) (sd st) in
  let f' := add32 (add32 (add32 f (sa st)) (nth i sines 0)) (nth g m 0) in
  State (sd st) (add32 (sb st) (rotl32 f' (nth i shifts 0))) (sb st) (sc st).

Definition compress (st : state) (m : list Z) : state :=
  let r := fold_left (step m) (seq 0 64) st in
  State (add32 (sa st) (sa r)) (add32 (sb st) (sb r))
        (add32 (sc st) (sc r)) (add32 (sd st) (sd r)).

(** Little-endian bytes of a word, and back. *)
Definition le_bytes (n : nat) (x : Z) : list Z :=
  map (fun k => Z.land (Z.shiftr x (8 * Z.of_nat k)) 255) (seq 0 n).

Fixpoint le_word (bs : list Z) : Z :=
  match bs with
  | [] => 0
  | b :: r => b + 256 * le_word r
  end.

Fixpoint words (n : nat) (bs : list Z) : list Z :=
  match n with
  | O => []
  | S n' => le_word (firstn 4 bs) :: words n' (skipn 4 bs)
  end.

(** Message padding: one [0x80] byte, zeros up to 56 mod 64, then the
    bit length on 8 little-endian bytes. *)
Definition pad (bs : list Z) : list Z :=
  let len := length bs in
  let zeros := Nat.modulo (119 - Nat.modulo len 64) 64 in
  bs ++ [128] ++ repeat 0 zeros
     ++ le_bytes 8 ((8 * Z.of_nat len) mod 18446744073709551616).

Fixpoint blocks (n : nat) (bs : list Z) (st : state) : state :=
  match n with
  | O => st
  | S n' => blocks n' (skipn 64 bs) (compress st (words 16 (firstn 64 bs)))
  end.

Definition bytes_of (s : string) : list Z :=
  map (fun a => Z.of_N (N_of_ascii a)) (list_ascii_of_string s).

Definition digest (s : string) : state :=
  let p := pad (bytes_of s) in
  blocks (Nat.div (length p) 64) p init.

Definition hex_digit (x : Z) : ascii :=
  nth (Z.to_nat x)
      (list_ascii_of_string "0123456789abcdef") "0"%char.

Definition hex_byte (b : Z) : list ascii :=
  [hex_digit (Z.shiftr b 4); hex_digit (Z.land b 15)].

Definition hex_state (st : state) : string :=
  string_of_list_ascii
    (concat (map hex_byte
       (le_bytes 4 (sa st) ++ le_bytes 4 (sb st)
        ++ le_bytes 4 (sc st) ++ le_bytes 4 (sd st)))).

(** [hashlib.md5(s.encode()).hexdigest()] *)
Definition hexdigest (s : string) : string := hex_state (digest s).

End MD5.

(** ** Tender dicts and the identity hash *)

(** [d.get(k, dflt)] *)
Definition dict_get (d : gmap string string) (k dflt : string) : string :=
  default dflt (d !! k).

(** [d[k]], which raises [KeyError(k)] on a missing key. *)
Definition dict_item (d : gmap string string) (k : string) : outcome string :=
  match d !! k with
  | Some v => Ok v
  | None => Raise ("'" +:+ k +:+ "'")
  end.

Definition K_PORTAL_SOURCE : string := "Portal Source".
Definition K_S_NO : string := "S.No.".
Definition K_PUBLISHED : string := "e-Published Date".
Definition K_CLOSING : string := "Bid Submission Closing Date".
Definition K_OPENING : string := "Tender Opening Date".
Definition K_TITLE : string := "Title and Ref.No./Tender ID".
Definition K_ORG : string := "Organisation Chain".
Definition K_URL : string := "Details URL".
Definition K_WORK : string := "Work Description".
Definition K_RUN_DATE : string := "Run Date".
Definition K_HASH : string := "Identity Hash".

(** The f-string [key] of [create_identity_hash]. *)
Definition identity_key (tender_data : gmap string string) : string :=
  dict_get tender_data K_TITLE "" +:+ "_"
  +:+ dict_get tender_data K_PUBLISHED "" +:+ "_"
  +:+ dict_get tender_data K_ORG "".

Definition create_identity_hash (tender_data : gmap string string) : string :=
  MD5.hexdigest (identity_key tender_data).

(** The three fields the hash reads. *)
Definition identity_fields : list string := [K_TITLE; K_PUBLISHED; K_ORG].

(** The claim "changing one of the three fields changes the hash",
    for every tender dict, every identity field and every new value. *)
Definition hash_sensitive : Prop :=
  forall (d : gmap string string) (k v : string),
    In k identity_fields ->
    dict_get d k "" <> v ->
    create_identity_hash (<[k := v]> d) <> create_identity_hash d.

(** An injective family of titles: the binary digits of [n + 1],
    least significant first. *)
Fixpoint bits (p : positive) : string :=
  match p with
  | xH => "1"
  | xO q => String "0" (bits q)
  | xI q => String "1" (bits q)
  end.

Definition nth_title (n : N) : string := bits (N.succ_pos n).

(** The four state words of a digest as one 128-bit number. *)
Definition pack (st : MD5.state) : N :=
  Z.to_N (MD5.sa st + 4294967296 * (MD5.sb st + 4294967296 *
            (MD5.sc st + 4294967296 * MD5.sd st)))%Z.

Definition word32 (x : Z) : Prop := (0 <= x < 4294967296)%Z.

Definition state_ok (st : MD5.state) : Prop :=
  word32 (MD5.sa st) /\ word32 (MD5.sb st)
  /\ word32 (MD5.sc st) /\ word32 (MD5.sd st).

(** Two dicts read alike by [create_identity_hash]. *)
Definition same_identity_fields (d d' : gmap string string) : Prop :=
  forall k, In k identity_fields -> dict_get d k "" = dict_get d' k "".

(** Two dicts that differ, among the identity fields, exactly at [k]. *)
Definition differ_only_at (k : string) (d d' : gmap string string) : Prop :=
  In k identity_fields
  /\ dict_get d k "" <> dict_get d' k ""
  /\ forall k', In k' identity_fields -> k' <> k ->
       dict_get d k' "" = dict_get d' k' "".

(** ** The SQLite store *)

(** One row of table [tenders]; [row_id] is column [id]. *)
Record tender_row : Type := TenderRow {
  row_id : nat;
  portal_id : string;
  identity_hash : string;
  portal_source : string;
  s_no : string;
  e_published_date : string;
  closing_date : string;
  opening_date : string;
  title : string;
  org_chain : string;
  details_url : string;
  work_description : string;
  run_date : string;
  phase1_status : string;
  phase2_status : string;
  ai_filtered : Z;
  created_at : nat;
  updated_at : nat }.

(** One row of table [failed_urls]. *)
Record failed_url : Type := FailedUrl {
  f_portal_id : string;
  f_tender_id : nat;
  f_details_url : string;
  f_failure_reason : string;
  f_last_retry_at : nat }.

(** One row of table [portal_execution_log]. *)
Record execution_row : Type := ExecutionRow {
  x_portal_id : string;
  x_status : string;
  x_total_extracted : nat;
  x_total_filtered : nat;
  x_total_kept : nat;
  x_phase2_success : nat;
  x_phase2_failed : nat;
  x_pages_scraped : nat;
  x_error_message : option string }.

(** The database file.  [tenders_seq] is the AUTOINCREMENT counter of
    [tenders]; [scraping_metadata] has UNIQUE(portal_id, key) and is only
    written with INSERT OR REPLACE, so it is a map from (portal_id, key). *)
Record DB : Type := MkDB {
  tenders : list tender_row;
  tenders_seq : nat;
  scraping_metadata : gmap (string * string) string;
  failed_urls : list failed_url;
  portal_execution_log : list execution_row }.

Definition empty_db : DB := MkDB [] 0 ∅ [] [].

(** The store between calls: the committed file, and the number of SQL
    statements run so far (it indexes the clock and the fault oracle). *)
Record Store : Type := MkStore { db : DB; tick : nat }.

(** What SQLite does besides the tables: [now k] is CURRENT_TIMESTAMP at
    statement [k]; [fault k = Some msg] makes statement [k] raise
    [sqlite3.Error(msg)] (locked file, full disk, ...). *)
Record SqlEnv : Type := MkSqlEnv {
  now : nat -> nat;
  fault : nat -> option string }.

Definition no_faults_from (env : SqlEnv) (k0 : nat) : Prop :=
  forall k, k0 <= k -> fault env k = None.

(** An open connection: the committed file, this connection's view with
    its uncommitted changes, and the statement counter. *)
Record Conn : Type := MkConn { durable : DB; working : DB; clock : nat }.

(** Code running on a connection: it returns or raises, and leaves the
    connection in a new state either way. *)
Definition sql (A : Type) : Type := Conn -> outcome A * Conn.

#[global] Instance sql_ret : MRet sql := fun A a c => (Ok a, c).

#[global] Instance sql_bind : MBind sql := fun A B k m c =>
  match m c with
  | (Ok a, c') => k a c'
  | (Raise e, c') => (Raise e, c')
  end.

(** A Python expression evaluated between statements. *)
Definition py {A : Type} (r : outcome A) : sql A := fun c => (r, c).

Definition get_connection (s : Store) : Conn :=
  MkConn (db s) (db s) (tick s).

(** [conn.close()]: uncommitted changes are dropped. *)
Definition close (c : Conn) : Store := MkStore (durable c) (clock c).

Definition rollback (c : Conn) : Conn :=
  MkConn (durable c) (durable c) (clock c).

Definition matches (pid h : string) (r : tender_row) : bool :=
  String.eqb (portal_id r) pid && String.eqb (identity_hash r) h.

(** The nine parameters shared by the UPDATE and the INSERT. *)
Record source_fields : Type := SourceFields {
  p_portal_source : string;
  p_s_no : string;
  p_e_published_date : string;
  p_closing_date : string;
  p_opening_date : string;
  p_title : string;
  p_org_chain : string;
  p_details_url : string;
  p_run_date : string }.

Definition set_source (p : source_fields) (t : nat) (r : tender_row)
  : tender_row :=
  TenderRow (row_id r) (portal_id r) (identity_hash r)
    (p_portal_source p) (p_s_no p) (p_e_published_date p) (p_closing_date p)
    (p_opening_date p) (p_title p) (p_org_chain p) (p_details_url p)
    (work_description r) (p_run_date p) (phase1_status r) (phase2_status r)
    (ai_filtered r) (created_at r) t.

Definition set_work_description (wd st : string) (t : nat) (r : tender_row)
  : tender_row :=
  TenderRow (row_id r) (portal_id r) (identity_hash r)
    (portal_source r) (s_no r) (e_published_date r) (closing_date r)
    (opening_date r) (title r) (org_chain r) (details_url r)
    wd (run_date r) (phase1_status r) st
    (ai_filtered r) (created_at r) t.

Definition set_ai_filtered (v : Z) (t : nat) (r : tender_row) : tender_row :=
  TenderRow (row_id r) (portal_id r) (identity_hash r)
    (portal_source r) (s_no r) (e_published_date r) (closing_date r)
    (opening_date r) (title r) (org_chain r) (details_url r)
    (work_description r) (run_date r) (phase1_status r) (phase2_status r)
    v (created_at r) t.

Definition set_tenders (d : DB) (ts : list tender_row) (sq : nat) : DB :=
  MkDB ts sq (scraping_metadata d) (failed_urls d) (portal_execution_log d).

(** UPDATE tenders SET ... WHERE portal_id = ? AND identity_hash = ?;
    the result is [cursor.rowcount]. *)
Definition update_where (pid h : string) (f : tender_row -> tender_row)
    (d : DB) : nat * DB :=
  (length (filter (fun r => matches pid h r = true) (tenders d)),
   set_tenders d
     (map (fun r => if matches pid h r then f r else r) (tenders d))
     (tenders_seq d)).

Section Statements.

Variable env : SqlEnv.

(** [cursor.execute(...)] of one statement. *)
Definition execute {A : Type} (stmt : nat -> DB -> outcome (A * DB)) : sql A :=
  fun c =>
    let k := clock c in
    match fault env k with
    | Some e => (Raise e, MkConn (durable c) (working c) (S k))
    | None =>
        match stmt (now env k) (working c) with
        | Ok (a, d) => (Ok a, MkConn (durable c) d (S k))
        | Raise e => (Raise e, MkConn (durable c) (working c) (S k))
        end
    end.

Definition commit : sql unit := fun c =>
  let k := clock c in
  match fault env k with
  | Some e => (Raise e, MkConn (durable c) (working c) (S k))
  | None => (Ok tt, MkConn (working c) (working c) (S k))
  end.

(** SELECT id FROM tenders WHERE portal_id = ? AND identity_hash = ?,
    then [fetchone()]. *)
Definition select_existing (pid h : string) : sql (option nat) :=
  execute (fun _ d =>
    Ok (row_id <$> List.find (matches pid h) (tenders d), d)).

Definition update_source (pid h : string) (p : source_fields) : sql nat :=
  execute (fun t d => Ok (update_where pid h (set_source p t) d)).

(** INSERT INTO tenders (...); the columns left out take their DEFAULT.
    UNIQUE(portal_id, identity_hash) is checked by SQLite. *)
Definition insert_tender (pid h : string) (p : source_fields) (wd status : string)
  : sql nat :=
  execute (fun t d =>
    if existsb (matches pid h) (tenders d)
    then Raise "UNIQUE constraint failed: tenders.portal_id, tenders.identity_hash"
    else
      let i := S (tenders_seq d) in
      Ok (1, set_tenders d
               (tenders d ++
                [TenderRow i pid h (p_portal_source p) (p_s_no p)
                   (p_e_published_date p) (p_closing_date p)
                   (p_opening_date p) (p_title p) (p_org_chain p)
                   (p_details_url p) wd (p_run_date p) status "pending"
                   0%Z t t])
               i)).

(** The tuple of [tender[...]] lookups, left to right. *)
Definition read_source (tender : gmap string string) : outcome source_fields :=
  a ← dict_item tender K_PORTAL_SOURCE;
  b ← dict_item tender K_S_NO;
  c ← dict_item tender K_PUBLISHED;
  d ← dict_item tender K_CLOSING;
  e ← dict_item tender K_OPENING;
  f ← dict_item tender K_TITLE;
  g ← dict_item tender K_ORG;
  h ← dict_item tender K_URL;
  i ← dict_item tender K_RUN_DATE;
  mret (SourceFields a b c d e f g h i).

(** The parameters of the INSERT: the work description sits between the
    URL and the run date. *)
Definition read_insert (tender : gmap string string)
  : outcome (source_fields * string) :=
  a ← dict_item tender K_PORTAL_SOURCE;
  b ← dict_item tender K_S_NO;
  c ← dict_item tender K_PUBLISHED;
  d ← dict_item tender K_CLOSING;
  e ← dict_item tender K_OPENING;
  f ← dict_item tender K_TITLE;
  g ← dict_item tender K_ORG;
  h ← dict_item tender K_URL;
  let wd := dict_get tender K_WORK "" in
  i ← dict_item tender K_RUN_DATE;
  mret (SourceFields a b c d e f g h i, wd).

(** The body of the [for tender in tenders] loop, with the two counters. *)
Fixpoint upsert_loop (pid : string) (batch : list (gmap string string))
    (inserted updated : nat) : sql (nat * nat) :=
  match batch with
  | [] => mret (inserted, updated)
  | tender :: rest =>
      h ← py (dict_item tender K_HASH);
      existing ← select_existing pid h;
      match existing with
      | Some _ =>
          p ← py (read_source tender);
          rowcount ← update_source pid h p;
          upsert_loop pid rest inserted
            (if Nat.ltb 0 rowcount then S updated else updated)
      | None =>
          pw ← py (read_insert tender);
          rowcount ← insert_tender pid h pw.1 pw.2 "extracted";
          upsert_loop pid rest
            (if Nat.ltb 0 rowcount then S inserted else inserted) updated
      end
  end.

(** [upsert_tenders_batch]: the loop and the commit are the [try] body;
    [except] rolls back and re-raises; [finally] closes. *)
Definition upsert_tenders_batch (pid : string)
    (batch : list (gmap string string)) (s : Store)
  : outcome (nat * nat) * Store :=
  let body := (r ← upsert_loop pid batch 0 0; _ ← commit; mret r) in
  match body (get_connection s) with
  | (Ok r, c) => (Ok r, close c)
  | (Raise e, c) => (Raise e, close (rollback c))
  end.

End Statements.

(** *** Vocabulary for the upsert properties *)

(** The columns the UPDATE of [upsert_tenders_batch] leaves alone. *)
Definition frame_eq (r r' : tender_row) : Prop :=
  row_id r' = row_id r
  /\ portal_id r' = portal_id r
  /\ identity_hash r' = identity_hash r
  /\ work_description r' = work_description r
  /\ phase1_status r' = phase1_status r
  /\ phase2_status r' = phase2_status r
  /\ ai_filtered r' = ai_filtered r
  /\ created_at r' = created_at r.

Definition row_key (r : tender_row) : string * string :=
  (portal_id r, identity_hash r).

(** A tender dict that has every key the upsert reads with [tender[...]]. *)
Definition readable (tender : gmap string string) : Prop :=
  exists h p, dict_item tender K_HASH = Ok h /\ read_source tender = Ok p.

(** Row [r] of portal [pid] is named by some record of the batch. *)
Definition covered (pid : string) (batch : list (gmap string string))
    (r : tender_row) : Prop :=
  portal_id r = pid
  /\ exists t, In t batch /\ dict_item t K_HASH = Ok (identity_hash r).

(** Row [r'] is row [r] overwritten from a record of the batch that
    carries its hash, at the time of some statement. *)
Definition touched (env : SqlEnv) (pid : string)
    (batch : list (gmap string string)) (r r' : tender_row) : Prop :=
  portal_id r = pid
  /\ exists t p k,
       In t batch
       /\ dict_item t K_HASH = Ok (identity_hash r)
       /\ read_source t = Ok p
       /\ r' = set_source p (now env k) r.

Definition upd_rel (env : SqlEnv) (pid : string)
    (batch : list (gmap string string)) (r r' : tender_row) : Prop :=
  r' = r \/ touched env pid batch r r'.

(** The three tables the upsert never writes. *)
Definition other_tables (d : DB) :=
  (scraping_metadata d, failed_urls d, portal_execution_log d).

(** The hash of a record is stored under [pid] in a table. *)
Definition present (pid : string) (l : list tender_row)
    (t : gmap string string) : Prop :=
  exists h, dict_item t K_HASH = Ok h /\ existsb (matches pid h) l = true.

(** What the upsert loop does to one row that was there before it: the
    row is overwritten from the batch or left as it is, and when the loop
    returns every covered row has been overwritten. *)
Definition row_post (env : SqlEnv) (pid : string)
    (batch : list (gmap string string)) (ok : bool) (r r' : tender_row)
  : Prop :=
  upd_rel env pid batch r r'
  /\ (ok = true -> covered pid batch r -> touched env pid batch r r').

(** The state of the connection when the loop, started in [c] with the
    counters [i] and [u], stops in [c'] with result [r]. *)
Definition loop_post (env : SqlEnv) (pid : string)
    (batch : list (gmap string string)) (i u : nat) (c : Conn)
    (r : outcome (nat * nat)) (c' : Conn) : Prop :=
  durable c' = durable c
  /\ clock c <= clock c'
  /\ other_tables (working c') = other_tables (working c)
  /\ exists olds news,
       tenders (working c') = olds ++ news
       /\ Forall2 (row_post env pid batch (returns r))
                  (tenders (working c)) olds
       /\ Forall (covered pid batch) news
       /\ forall i' u', r = Ok (i', u') ->
            i' = i + length news
            /\ i' + u' = i + u + length batch
            /\ Forall readable batch
            /\ Forall (present pid (tenders (working c'))) batch.

(** The store [s'] is the store [s] with every record of the batch
    applied: rows that were there are overwritten when covered and kept
    otherwise, [inserted] rows are appended, and afterwards every record
    of the batch has its row. *)
Definition batch_applied (env : SqlEnv) (pid : string)
    (batch : list (gmap string string)) (s s' : Store)
    (inserted updated : nat) : Prop :=
  inserted + updated = length batch
  /\ Forall readable batch
  /\ Forall (present pid (tenders (db s'))) batch
  /\ other_tables (db s') = other_tables (db s)
  /\ (forall k, tick s <= k < tick s' -> fault env k = None)
  /\ exists olds news,
       tenders (db s') = olds ++ news
       /\ Forall2 (row_post env pid batch true) (tenders (db s)) olds
       /\ Forall (covered pid batch) news
       /\ inserted = length news.

(** *** Sample data *)

Definition sample_tender (t p o u sn : string) : gmap string string :=
  let d := <[K_PORTAL_SOURCE := "West Bengal"]> (<[K_S_NO := sn]>
           (<[K_PUBLISHED := p]> (<[K_CLOSING := "10-Jan-2025 03:00 PM"]>
           (<[K_OPENING := "12-Jan-2025 03:00 PM"]> (<[K_TITLE := t]>
           (<[K_ORG := o]> (<[K_URL := u]> (<[K_WORK := ""]>
           (<[K_RUN_DATE := "2025-01-02"]> ∅))))))))) in
  <[K_HASH := create_identity_hash d]> d.

Definition sample_batch : list (gmap string string) :=
  [sample_tender "Supply of pumps" "01-Jan-2025" "PWD" "/t?id=1" "1.";
   sample_tender "Road repair" "01-Jan-2025" "PWD" "/t?id=2" "2.";
   sample_tender "Supply of pumps" "01-Jan-2025" "PWD" "/t?id=3" "3."].

(** A clock that advances with every statement, and no fault. *)
Definition sample_env : SqlEnv := MkSqlEnv (fun k => 1000 + k) (fun _ => None).

(** The same clock, with the fourth statement failing. *)
Definition faulty_env : SqlEnv :=
  MkSqlEnv (fun k => 1000 + k)
           (fun k => if Nat.eqb k 3 then Some "database is locked" else None).

Definition empty_store : Store := MkStore empty_db 0.

Definition sample_store : Store :=
  (upsert_tenders_batch sample_env "WB" sample_batch empty_store).2.

(** The first row of [sample_store]. *)
Definition sample_row : tender_row :=
  TenderRow 1 "WB" "b888364ff2c2dd2efb9149e4d1acb481"
    "West Bengal" "3." "01-Jan-2025" "10-Jan-2025 03:00 PM"
    "12-Jan-2025 03:00 PM" "Supply of pumps" "PWD" "/t?id=3" ""
    "2025-01-02" "extracted" "pending" 0 1001 1005.

(** ** The listing page and its "next" control *)

(** [s.lower()], on the ASCII letters. *)
Definition lower_ascii (a : ascii) : ascii :=
  let n := nat_of_ascii a in
  if Nat.leb 65 n && Nat.leb n 90 then ascii_of_nat (n + 32) else a.

Fixpoint lower (s : string) : string :=
  match s with
  | EmptyString => EmptyString
  | String a r => String (lower_ascii a) (lower r)
  end.

(** [sub in s] *)
Fixpoint contains (sub s : string) : bool :=
  String.prefix sub s
  || match s with
     | EmptyString => false
     | String _ r => contains sub r
     end.

(** [s.startswith(p)] *)
Definition startswith (p s : string) : bool := String.prefix p s.

(** An element handle as the driver shows it: every introspection call
    returns or raises. *)
Record Element : Type := MkElement {
  is_visible : outcome bool;
  attr_class : outcome (option string);
  attr_disabled : outcome (option string);
  is_enabled : outcome bool;
  attr_href : outcome (option string) }.

(** One row of the listing table after [clean_text]: the texts of the
    six cells, the title joined with its reference number, and the href
    of the title link already resolved against the base URL. *)
Record listing_row : Type := ListingRow {
  c_s_no : string;
  c_e_published : string;
  c_closing_date : string;
  c_opening_date : string;
  c_full_title : string;
  c_details_url : string;
  c_org_chain : string }.

(** A loaded listing page.  [page_rows] is what
    [query_selector_all("tr.even, tr.odd")] gives, with [None] for a row of
    fewer than six cells or whose cells raise; [link_fwd k] is the result
    of the [k]-th call of [query_selector("a#linkFwd")] on this page, so a
    handle can go stale between two calls. *)
Record Page : Type := MkPage {
  page_rows : outcome (list (option listing_row));
  link_fwd : nat -> outcome (option Element) }.

(** [__init__]: the delays, in seconds, and the retry bound. *)
Definition pagination_delay : nat := 1.
Definition max_stale_retries : nat := 3.
Definition stale_retry_delay : nat := 2.
Definition session_refresh_every : nat := 10.

(** What the worker does besides writing the store. *)
Inductive event : Type :=
| EvSleep (seconds : nat)
| EvAttempt (attempt : nat)
| EvVisit (page_num : nat) (shown : Page)
| EvClassify (uncached : list string)
| EvRefresh
| EvFetch (hash url : string) (at_store : Store).

(** [href] is missing, empty or a placeholder. *)
Definition invalid_href (href : option string) : bool :=
  match href with
  | None => true
  | Some h => String.eqb h "" || String.eqb h "#"
              || String.eqb h "javascript:void(0)"
  end.

(** [is_next_button_available], on the result [q] of its
    [query_selector("a#linkFwd")]; the [try] body first. *)
Definition next_button_checks (q : outcome (option Element))
  : outcome (bool * string) :=
  next_link ← q;
  match next_link with
  | None => mret (false, "next_link_not_found")
  | Some el =>
      visible ← is_visible el;
      if negb visible then mret (false, "next_link_hidden") else
      cls ← attr_class el;
      let classes := default "" cls in
      disabled_attr ← attr_disabled el;
      if contains "disabled" (lower classes) || bool_decide (is_Some disabled_attr)
      then mret (false, "next_link_disabled") else
      if match is_enabled el with Ok false => true | _ => false end
      then mret (false, "next_link_not_enabled") else
      href ← attr_href el;
      if invalid_href href then mret (false, "next_link_invalid_href")
      else mret (true, "available")
  end.

Definition is_next_button_available (q : outcome (option Element))
  : bool * string :=
  match next_button_checks q with
  | Ok r => r
  | Raise e => (false, "check_error: " +:+ e)
  end.

(** One iteration of the [for attempt] loop of
    [get_next_page_link_with_retry]: the [try] body, on the two queries
    it makes. *)
Definition next_link_body (base_url : string)
    (q1 q2 : outcome (option Element)) : outcome (option string) :=
  let '(available, reason) := is_next_button_available q1 in
  if negb available then mret None else
  next_link ← q2;
  match next_link with
  | None => mret None
  | Some el =>
      href ← attr_href el;
      match href with
      | None => mret None
      | Some h =>
          if String.eqb h "" then mret None
          else mret (Some (if startswith "/" h then base_url +:+ h else h))
      end
  end.

(** [str(e).lower()] names a stale or detached element. *)
Definition is_stale (e : string) : bool :=
  let error_msg := lower e in
  contains "stale" error_msg || contains "detached" error_msg.

(** The [for attempt in range(1, max_stale_retries + 1)] loop, over the
    attempts still to make; the result comes with the sleeps and attempts
    made.  Attempt [a] makes the queries [2 (a - 1)] and [2 (a - 1) + 1]
    of the page. *)
Fixpoint next_link_attempts (base_url : string) (page : Page)
    (attempts : list nat) : outcome (option string) * list event :=
  match attempts with
  | [] => (Ok None, [])
  | attempt :: rest =>
      let q1 := link_fwd page (2 * (attempt - 1)) in
      let q2 := link_fwd page (2 * (attempt - 1) + 1) in
      let evs := [EvAttempt attempt; EvSleep pagination_delay] in
      match next_link_body base_url q1 q2 with
      | Ok r => (Ok r, evs)
      | Raise e =>
          if is_stale e then
            if Nat.ltb attempt max_stale_retries then
              let '(r, evs') := next_link_attempts base_url page rest in
              (r, evs ++ EvSleep stale_retry_delay :: evs')
            else (Ok None, evs)
          else (Ok None, evs)
      end
  end.

Definition get_next_page_link_with_retry (base_url : string) (page : Page)
  : outcome (option string) * list event :=
  next_link_attempts base_url page (seq 1 max_stale_retries).

(** ** The store: the other methods of [IsolatedDatabaseManager] *)

Section Methods.

Variable env : SqlEnv.
Variable pid : string.

(** A method that opens a connection, runs [body] and closes: what is
    not committed when it raises is lost with the connection. *)
Definition with_connection {A : Type} (body : sql A) (s : Store)
  : outcome A * Store :=
  let '(r, c) := body (get_connection s) in (r, close c).

Definition set_metadata (key value : string) : Store -> outcome unit * Store :=
  with_connection
    (_ ← execute env (fun _ d =>
           Ok (tt, MkDB (tenders d) (tenders_seq d)
                        (<[(pid, key) := value]> (scraping_metadata d))
                        (failed_urls d) (portal_execution_log d)));
     commit env).

Definition get_metadata (key : string)
  : Store -> outcome (option string) * Store :=
  with_connection
    (execute env (fun _ d => Ok (scraping_metadata d !! (pid, key), d))).

Definition update_work_description (h work_desc status : string)
  : Store -> outcome unit * Store :=
  with_connection
    (_ ← execute env (fun t d =>
           Ok (tt, (update_where pid h
                      (set_work_description work_desc status t) d).2));
     commit env).

Definition mark_ai_filtered (h : string) (keep : bool)
  : Store -> outcome unit * Store :=
  with_connection
    (_ ← execute env (fun t d =>
           Ok (tt, (update_where pid h
                      (set_ai_filtered (if keep then 1 else -1)%Z t) d).2));
     commit env).

Definition in_portal (r : tender_row) : bool := String.eqb (portal_id r) pid.

Definition get_phase1_count : Store -> outcome nat * Store :=
  with_connection
    (execute env (fun _ d =>
       Ok (length (List.filter
                     (fun r => in_portal r
                               && String.eqb (phase1_status r) "extracted")
                     (tenders d)), d))).

(** The rows awaiting classification, as (hash, title). *)
Definition unfiltered (r : tender_row) : bool :=
  in_portal r && Z.eqb (ai_filtered r) 0.

Definition get_tenders_for_ai_filtering
  : Store -> outcome (list (string * string)) * Store :=
  with_connection
    (execute env (fun _ d =>
       Ok (map (fun r => (identity_hash r, title r))
               (List.filter unfiltered (tenders d)), d))).

(** A row of [get_tenders_for_phase2]. *)
Record phase2_tender : Type := Phase2Tender {
  e_id : nat; e_hash : string; e_url : string; e_s_no : string }.

Definition needs_phase2 (r : tender_row) : bool :=
  in_portal r
  && (Z.eqb (ai_filtered r) 1 || Z.eqb (ai_filtered r) 0)
  && (String.eqb (phase2_status r) "pending"
      || String.eqb (phase2_status r) "failed")
  && negb (String.eqb (details_url r) "").

Definition get_tenders_for_phase2
  : Store -> outcome (list phase2_tender) * Store :=
  with_connection
    (execute env (fun _ d =>
       Ok (map (fun r => Phase2Tender (row_id r) (identity_hash r)
                                      (details_url r) (s_no r))
               (List.filter needs_phase2 (tenders d)), d))).

Definition add_failed_url (tender_id : nat) (url reason : string)
  : Store -> outcome unit * Store :=
  with_connection
    (_ ← execute env (fun t d =>
           Ok (tt, MkDB (tenders d) (tenders_seq d) (scraping_metadata d)
                        (failed_urls d ++ [FailedUrl pid tender_id url reason t])
                        (portal_execution_log d)));
     commit env).

(** [get_statistics]: five counts over the rows of the portal. *)
Record statistics : Type := Statistics {
  total_extracted : nat;
  ai_kept : nat;
  ai_rejected : nat;
  phase2_success : nat;
  phase2_failed : nat }.

Definition count_rows (f : tender_row -> bool) : sql nat :=
  execute env (fun _ d =>
    Ok (length (List.filter (fun r => in_portal r && f r) (tenders d)), d)).

Definition get_statistics : Store -> outcome statistics * Store :=
  with_connection
    (total ← count_rows (fun _ => true);
     kept ← count_rows (fun r => Z.eqb (ai_filtered r) 1);
     filtered ← count_rows (fun r => Z.eqb (ai_filtered r) (-1));
     ok ← count_rows (fun r => String.eqb (phase2_status r) "success");
     failed ← count_rows (fun r => String.eqb (phase2_status r) "failed");
     mret (Statistics total kept filtered ok failed)).

Definition log_execution (status : string) (stats : statistics)
    (pages_scraped : nat) (error_msg : option string)
  : Store -> outcome unit * Store :=
  with_connection
    (_ ← execute env (fun _ d =>
           Ok (tt, MkDB (tenders d) (tenders_seq d) (scraping_metadata d)
                        (failed_urls d)
                        (portal_execution_log d ++
                         [ExecutionRow pid status (total_extracted stats)
                            (ai_rejected stats) (ai_kept stats)
                            (phase2_success stats) (phase2_failed stats)
                            pages_scraped error_msg])));
     commit env).

End Methods.

(** ** The scraper *)

(** [PortalConfig] *)
Record PortalConfig : Type := MkPortalConfig {
  cfg_portal_id : string;
  cfg_name : string;
  cfg_base_url : string;
  cfg_portal_url : string;
  cfg_pre_condition : option string }.

(** The world outside the worker: the portal and the services.
    [landing] is the page shown once [navigate_to_closing_within_7_days]
    has gone through, [None] when it returns False; [load url k] is the
    [k]-th attempt of [page.goto(url)] within one navigation;
    [service n uncached] is the parsed JSON answer of the [n]-th call of
    the classification service, or its failure; [detail url] is what
    [fetch_work_description] returns (it catches every exception);
    [today] is [datetime.now().strftime("%Y-%m-%d")]. *)
Record Outside : Type := MkOutside {
  landing : option Page;
  load : string -> nat -> outcome Page;
  service : nat -> list string -> outcome (gmap string string);
  detail : string -> string;
  today : string }.

(** The worker's own state: the shared store, the page shown in its tab,
    the classifier cache, the number of service calls made,
    [self.pages_scraped], and what it did so far (latest event last). *)
Record World : Type := MkWorld {
  w_store : Store;
  w_page : option Page;
  w_cache : gmap string bool;
  w_calls : nat;
  w_pages_scraped : nat;
  w_events : list event }.

Definition prog (A : Type) : Type := World -> outcome A * World.

#[global] Instance prog_ret : MRet prog := fun A a w => (Ok a, w).

#[global] Instance prog_bind : MBind prog := fun A B k m w =>
  match m w with
  | (Ok a, w') => k a w'
  | (Raise e, w') => (Raise e, w')
  end.

Definition on_store {A : Type} (f : Store -> outcome A * Store) : prog A :=
  fun w =>
    let '(r, s) := f (w_store w) in
    (r, MkWorld s (w_page w) (w_cache w) (w_calls w) (w_pages_scraped w)
                (w_events w)).

Definition emit (evs : list event) : prog unit := fun w =>
  (Ok tt, MkWorld (w_store w) (w_page w) (w_cache w) (w_calls w)
                  (w_pages_scraped w) (w_events w ++ evs)).

Definition set_page (p : option Page) : prog unit := fun w =>
  (Ok tt, MkWorld (w_store w) p (w_cache w) (w_calls w)
                  (w_pages_scraped w) (w_events w)).

Definition set_pages_scraped (n : nat) : prog unit := fun w =>
  (Ok tt, MkWorld (w_store w) (w_page w) (w_cache w) (w_calls w) n
                  (w_events w)).

Definition set_cache (cache : gmap string bool) (calls : nat) : prog unit :=
  fun w =>
    (Ok tt, MkWorld (w_store w) (w_page w) cache calls (w_pages_scraped w)
                    (w_events w)).

(** Code that reads the worker's state. *)
Definition with_world {A : Type} (f : World -> prog A) : prog A :=
  fun w => f w w.

(** A Python expression evaluated by the worker. *)
Definition eval {A : Type} (r : outcome A) : prog A := fun w => (r, w).

Definition raise {A : Type} (e : string) : prog A := eval (Raise e).

(** A page with no table and no control: what a tab shows before any
    navigation. *)
Definition blank_page : Page := MkPage (Ok []) (fun _ => Ok None).

Definition current_page (w : World) : Page := default blank_page (w_page w).

(** [str(n)] and [int(s)] *)
Definition str (n : nat) : string := NilEmpty.string_of_uint (Nat.to_uint n).

Definition int (s : string) : outcome nat :=
  match NilEmpty.uint_of_string s with
  | Some u => if String.eqb s "" then Raise "invalid literal for int()"
              else Ok (Nat.of_uint u)
  | None => Raise "invalid literal for int()"
  end.

(** Truth of an [Optional[str]]. *)
Definition truthy (o : option string) : bool :=
  match o with
  | Some s => negb (String.eqb s "")
  | None => false
  end.

Section Scraper.

Variable env : SqlEnv.
Variable out : Outside.
Variable config : PortalConfig.

Definition portal : string := cfg_portal_id config.

(** The dict built for one listing row, with its hash. *)
Definition tender_of_row (r : listing_row) : gmap string string :=
  let tender_data : gmap string string :=
    <[K_RUN_DATE := today out]> (<[K_WORK := ""]>
    (<[K_URL := c_details_url r]> (<[K_ORG := c_org_chain r]>
    (<[K_TITLE := c_full_title r]> (<[K_OPENING := c_opening_date r]>
    (<[K_CLOSING := c_closing_date r]> (<[K_PUBLISHED := c_e_published r]>
    (<[K_S_NO := c_s_no r]> (<[K_PORTAL_SOURCE := cfg_name config]> ∅)))))))))
  in
  <[K_HASH := create_identity_hash tender_data]> tender_data.

(** [extract_tenders_from_page]: skipped rows are dropped; a failure of
    the row query gives the empty list. *)
Definition extract_tenders_from_page (page : Page)
  : list (gmap string string) :=
  match page_rows page with
  | Ok rows => map tender_of_row (omap (fun r => r) rows)
  | Raise _ => []
  end.

(** The navigation to the next page: up to three [goto], a reload and a
    one-second sleep after each failure but the last. *)
Fixpoint navigate_attempts (next_url : string) (attempts : list nat)
  : prog bool :=
  match attempts with
  | [] => mret false
  | attempt :: rest =>
      match load out next_url attempt with
      | Ok p =>
          _ ← set_page (Some p);
          _ ← emit [EvSleep pagination_delay];
          mret true
      | Raise _ =>
          _ ← (if Nat.ltb attempt 3 then emit [EvSleep 1] else mret tt);
          navigate_attempts next_url rest
      end
  end.

(** One iteration of the [while True] loop of [run_phase1] at page
    [page_num]: the URL of the next page once it is loaded, or [None] at
    a [break], with the new [total_extracted].  The Excel exports are
    left out: they read the store and write files of the reporting
    layer. *)
Definition phase1_iteration (page_num total_extracted : nat)
  : prog (option string * nat) :=
  with_world (fun w0 =>
    let page := current_page w0 in
    let page_tenders := extract_tenders_from_page page in
    _ ← emit [EvVisit page_num page];
    total ← (match page_tenders with
             | [] => mret total_extracted
             | _ =>
                 _ ← on_store (upsert_tenders_batch env portal page_tenders);
                 total ← on_store (get_phase1_count env portal);
                 _ ← on_store (set_metadata env portal "last_page_extracted"
                                            (str page_num));
                 mret total
             end);
    _ ← set_pages_scraped page_num;
    let '(r, evs) :=
      get_next_page_link_with_retry (cfg_base_url config) page in
    _ ← emit evs;
    next_url ← eval r;
    if negb (truthy next_url) then mret (None, total)
    else
      success ← navigate_attempts (default "" next_url) [1; 2; 3];
      if (success : bool) then mret (next_url, total)
      else mret (None, total)).

(** The loop, with [fuel] iterations at most: [None] when they do not
    suffice. *)
Fixpoint phase1_loop (fuel : nat) (page_num total_extracted : nat)
  : World -> option (outcome nat * World) :=
  match fuel with
  | O => fun _ => None
  | S fuel' => fun w =>
      match phase1_iteration page_num total_extracted w with
      | (Raise e, w') => Some (Raise e, w')
      | (Ok (None, total), w') => Some (Ok total, w')
      | (Ok (Some _, total), w') => phase1_loop fuel' (S page_num) total w'
      end
  end.

(** Code that may not terminate, run with a bound on its loop. *)
Definition fprog (A : Type) : Type := World -> option (outcome A * World).

Definition fret {A : Type} (a : A) : fprog A := fun w => Some (Ok a, w).

Definition fbind {A B : Type} (m : fprog A) (k : A -> fprog B) : fprog B :=
  fun w =>
    match m w with
    | None => None
    | Some (Ok a, w') => k a w'
    | Some (Raise e, w') => Some (Raise e, w')
    end.

Definition lift {A : Type} (m : prog A) : fprog A := fun w => Some (m w).

(** [run_phase1] *)
Definition run_phase1 (fuel : nat) : fprog nat :=
  fbind (lift (on_store (get_metadata env portal "last_page_extracted")))
    (fun last_page_str =>
  fbind (lift (eval (if truthy last_page_str
                     then n ← int (default "" last_page_str); mret (n + 1)
                     else mret 1)))
    (fun start_page =>
  fbind (lift (on_store (get_phase1_count env portal)))
    (fun total_extracted =>
  fbind (phase1_loop fuel start_page total_extracted)
    (fun total_extracted =>
  fbind (lift (on_store (set_metadata env portal "phase1_complete" "true")))
    (fun _ => fret total_extracted))))).

(** *** The classifier and its cache *)

(** [{t: self.cache[t] for t in titles}] *)
Fixpoint cache_items (cache : gmap string bool) (titles : list string)
  : outcome (gmap string bool) :=
  match titles with
  | [] => Ok ∅
  | t :: rest =>
      match cache !! t with
      | None => Raise ("'" +:+ t +:+ "'")
      | Some v => m ← cache_items cache rest; mret (<[t := v]> m)
      end
  end.

(** [{t: self.cache.get(t, True) for t in titles}] *)
Definition cache_get_all (cache : gmap string bool) (titles : list string)
  : gmap string bool :=
  list_to_map (map (fun t => (t, default true (cache !! t))) titles).

(** The loop over [enumerate(uncached, 1)] that stores the answers. *)
Fixpoint store_answers (results : gmap string string) (i : nat)
    (uncached : list string) (cache : gmap string bool) : gmap string bool :=
  match uncached with
  | [] => cache
  | t :: rest =>
      let is_meaningful :=
        String.eqb (default "meaningful" (results !! str i)) "meaningful" in
      store_answers results (S i) rest (<[t := is_meaningful]> cache)
  end.

(** The [except] branch of [check_titles], on the cache as it is then. *)
Definition check_titles_fallback (uncached titles : list string)
    (cache : gmap string bool) : gmap string bool * gmap string bool :=
  let fallback : gmap string bool :=
    list_to_map (map (fun t => (t, true)) uncached) in
  let cache' := fallback ∪ cache in
  (cache', cache_get_all cache' titles).

(** [[t for t in titles if t not in self.cache]] *)
Definition uncached_of (cache : gmap string bool) (titles : list string)
  : list string :=
  List.filter (fun t => bool_decide (cache !! t = None)) titles.

Definition check_titles (titles : list string) : prog (gmap string bool) :=
  fun w =>
    let cache := w_cache w in
    let uncached := uncached_of cache titles in
    match uncached with
    | [] => eval (cache_items cache titles) w
    | _ =>
        let '(cache', r) :=
          match service out (w_calls w) uncached with
          | Raise _ => check_titles_fallback uncached titles cache
          | Ok results =>
              let cache1 := store_answers results 1 uncached cache in
              match cache_items cache1 titles with
              | Ok r => (cache1, r)
              | Raise _ => check_titles_fallback uncached titles cache1
              end
          end in
        (Ok r, MkWorld (w_store w) (w_page w) cache' (S (w_calls w))
                       (w_pages_scraped w)
                       (w_events w ++ [EvClassify uncached]))
    end.

Variable ai_checker : bool.

(** The inner loop of [run_ai_filtering] over one batch of
    (hash, title). *)
Fixpoint mark_batch (results : gmap string bool)
    (batch : list (string * string)) : prog unit :=
  match batch with
  | [] => mret tt
  | tender :: rest =>
      let is_meaningful := default false (results !! tender.2) in
      let keep := negb is_meaningful in
      _ ← on_store (mark_ai_filtered env portal tender.1 keep);
      mark_batch results rest
  end.

Definition filter_batch (batch : list (string * string)) : prog unit :=
  results ← check_titles (map snd batch);
  mark_batch results batch.

(** The slices [l[i:i+size]] for [i] in [range(0, len(l), size)]. *)
Definition batches {A : Type} (size : nat) (l : list A) : list (list A) :=
  map (fun k => take size (drop (k * size) l))
      (seq 0 (Nat.div (length l + size - 1) size)).

Fixpoint for_each {A : Type} (f : A -> prog unit) (l : list A) : prog unit :=
  match l with
  | [] => mret tt
  | x :: rest => _ ← f x; for_each f rest
  end.

(** [run_ai_filtering]; the export of the kept rows is left out. *)
Definition run_ai_filtering : prog unit :=
  if negb ai_checker then mret tt else
  tenders_to_filter ← on_store (get_tenders_for_ai_filtering env portal);
  match tenders_to_filter with
  | [] => mret tt
  | _ =>
      _ ← for_each filter_batch (batches 50 tenders_to_filter);
      _ ← on_store (get_statistics env portal);
      on_store (set_metadata env portal "ai_filtering_complete" "true")
  end.

(** *** Phase 2 *)

Definition try_except {A : Type} (body : prog A) (handler : string -> prog A)
  : prog A :=
  fun w =>
    match body w with
    | (Ok a, w') => (Ok a, w')
    | (Raise e, w') => handler e w'
    end.

Definition is_failure_text (work_desc : string) : bool :=
  startswith "ERROR" work_desc || startswith "FETCH" work_desc
  || startswith "WORK_DESCRIPTION" work_desc.

(** One iteration of the loop of [run_phase2].  The event of the fetch
    carries the store as it is at that time. *)
Definition enrich_one (idx : nat) (tender : phase2_tender) : prog unit :=
  _ ← (if Nat.eqb (Nat.modulo idx session_refresh_every) 1 && Nat.ltb 1 idx
       then emit [EvRefresh] else mret tt);
  try_except
    (_ ← with_world (fun w =>
           emit [EvFetch (e_hash tender) (e_url tender) (w_store w)]);
     let work_desc := detail out (e_url tender) in
     if is_failure_text work_desc then
       _ ← on_store (update_work_description env portal (e_hash tender)
                                             work_desc "failed");
       on_store (add_failed_url env portal (e_id tender) (e_url tender) work_desc)
     else
       on_store (update_work_description env portal (e_hash tender)
                                         work_desc "success"))
    (fun e =>
       on_store (update_work_description env portal (e_hash tender)
                   ("PROCESSING_ERROR: " +:+ substring 0 100 e) "failed")).

Fixpoint enrich_loop (idx : nat) (l : list phase2_tender) : prog unit :=
  match l with
  | [] => mret tt
  | tender :: rest => _ ← enrich_one idx tender; enrich_loop (S idx) rest
  end.

(** [run_phase2]; the exports are left out. *)
Definition run_phase2 : prog unit :=
  l ← on_store (get_tenders_for_phase2 env portal);
  match l with
  | [] => mret tt
  | _ =>
      _ ← enrich_loop 1 l;
      on_store (set_metadata env portal "phase2_complete" "true")
  end.

(** *** [run] *)

(** [navigate_to_closing_within_7_days] *)
Definition navigate_to_closing_within_7_days : prog bool :=
  match landing out with
  | Some p => _ ← set_page (Some p); mret true
  | None => mret false
  end.

(** The three [if] of the [try] of [run], one per phase. *)
Definition extract_block (fuel : nat) : fprog unit :=
  fbind (lift (on_store (get_metadata env portal "phase1_complete")))
    (fun done1 =>
  if negb (truthy done1) then
    fbind (lift navigate_to_closing_within_7_days) (fun ok =>
      if (ok : bool) then fbind (run_phase1 fuel) (fun _ => fret tt)
      else lift (raise "Navigation failed"))
  else
    lift (last_page ← on_store (get_metadata env portal "last_page_extracted");
          if truthy last_page
          then n ← eval (int (default "" last_page)); set_pages_scraped n
          else mret tt)).

Definition classify_block : prog unit :=
  if ai_checker then
    done_ai ← on_store (get_metadata env portal "ai_filtering_complete");
    if negb (truthy done_ai) then run_ai_filtering else mret tt
  else mret tt.

Definition enrich_block : prog unit :=
  done2 ← on_store (get_metadata env portal "phase2_complete");
  if negb (truthy done2) then run_phase2 else mret tt.

Definition run_phases (fuel : nat) : fprog unit :=
  fbind (extract_block fuel) (fun _ =>
  fbind (lift classify_block) (fun _ => lift enrich_block)).

(** What [run] returns: the statistics, with the status and the error. *)
Record run_result : Type := RunResult {
  r_status : string;
  r_error : option string;
  r_stats : statistics }.

Definition run (fuel : nat) : fprog run_result :=
  fun w =>
    match run_phases fuel w with
    | None => None
    | Some (r, w') =>
        let '(status, error) :=
          match r with
          | Ok _ => ("success", None)
          | Raise e => ("error", Some e)
          end in
        let finish : prog run_result :=
          final_stats ← on_store (get_statistics env portal);
          _ ← with_world (fun w =>
                 on_store (log_execution env portal status final_stats
                                         (w_pages_scraped w) error));
          mret (RunResult status error final_stats) in
        Some (finish w')
    end.

End Scraper.

(** *** Vocabulary for the pagination properties *)

(** What the [try] body of attempt [a] does on a page. *)
Definition attempt_result (base_url : string) (page : Page) (a : nat)
  : outcome (option string) :=
  next_link_body base_url (link_fwd page (2 * (a - 1)))
                 (link_fwd page (2 * (a - 1) + 1)).

(** The sleeps and attempts of a call that makes [n] attempts. *)
Definition retry_trace (n : nat) : list event :=
  [EvAttempt 1; EvSleep pagination_delay]
  ++ concat (map (fun a => [EvSleep stale_retry_delay; EvAttempt a;
                            EvSleep pagination_delay])
                 (seq 2 (n - 1))).

(** The claim that an error of another class reaches the caller. *)
Definition other_errors_propagate : Prop :=
  forall (base_url : string) (page : Page) (e : string),
    attempt_result base_url page 1 = Raise e ->
    is_stale e = false ->
    (get_next_page_link_with_retry base_url page).1 = Raise e.

(** A control that is there for the check and times out when queried
    again. *)
Definition sample_link : Element :=
  MkElement (Ok true) (Ok (Some "nav")) (Ok None) (Ok true)
            (Ok (Some "/nicgep/app?page=2")).

Definition timeout_page : Page :=
  MkPage (Ok [])
         (fun k => if Nat.even k then Ok (Some sample_link)
                   else Raise "Timeout 45000ms exceeded.").

(** The four ways the "next" control says there is no next page. *)
Inductive end_of_data (q : outcome (option Element)) : Prop :=
| control_absent :
    q = Ok None -> end_of_data q
| control_hidden (el : Element) :
    q = Ok (Some el) -> is_visible el = Ok false -> end_of_data q
| control_disabled_class (el : Element) (c : string) :
    q = Ok (Some el) -> attr_class el = Ok (Some c) ->
    contains "disabled" (lower c) = true -> end_of_data q
| control_disabled_attr (el : Element) (v : string) :
    q = Ok (Some el) -> attr_disabled el = Ok (Some v) -> end_of_data q
| control_not_navigable (el : Element) (href : option string) :
    q = Ok (Some el) -> attr_href el = Ok href ->
    invalid_href href = true -> end_of_data q.

(** A control that is present, visible, enabled and leads to [href]. *)
Definition control_available (q : outcome (option Element)) (href : string)
  : Prop :=
  exists el cls,
    q = Ok (Some el)
    /\ is_visible el = Ok true
    /\ attr_class el = Ok cls
    /\ contains "disabled" (lower (default "" cls)) = false
    /\ attr_disabled el = Ok None
    /\ is_enabled el <> Ok false
    /\ attr_href el = Ok (Some href)
    /\ invalid_href (Some href) = false.

(** [href] resolved against the base URL. *)
Definition resolve (base_url href : string) : string :=
  if startswith "/" href then base_url +:+ href else href.

(** *** A sample portal of three listing pages *)

Definition wb_config : PortalConfig :=
  MkPortalConfig "WB" "West Bengal" "https://wbtenders.gov.in"
                 "https://wbtenders.gov.in/nicgep/app" None.

Definition link_to (href : string) : Element :=
  MkElement (Ok true) (Ok (Some "nav")) (Ok None) (Ok true) (Ok (Some href)).

Definition hidden_link : Element :=
  MkElement (Ok false) (Ok (Some "nav")) (Ok None) (Ok true)
            (Ok (Some "/nicgep/app?page=2")).

Definition disabled_link : Element :=
  MkElement (Ok true) (Ok (Some "nav Disabled")) (Ok None) (Ok true)
            (Ok (Some "/nicgep/app?page=2")).

Definition placeholder_link : Element :=
  MkElement (Ok true) (Ok None) (Ok None) (Ok true) (Ok (Some "#")).

(** A page whose control does not change between queries. *)
Definition stable_page (rows : list listing_row) (next : option Element)
  : Page :=
  MkPage (Ok (map Some rows)) (fun _ => Ok next).

Definition row_of (sn t : string) : listing_row :=
  ListingRow sn "01-Jan-2025 09:00 AM" "10-Jan-2025 03:00 PM"
             "12-Jan-2025 03:00 PM" t
             ("https://wbtenders.gov.in/nicgep/app?tender=" +:+ sn) "PWD".

Definition page1 : Page :=
  stable_page [row_of "1." "Supply of pumps"; row_of "2." "Road repair"]
              (Some (link_to "/nicgep/app?page=2")).

Definition page2 : Page :=
  stable_page [row_of "3." "Bridge painting"]
              (Some (link_to "/nicgep/app?page=3")).

Definition page3 : Page :=
  stable_page [row_of "4." "Canal desilting"] (Some disabled_link).

Definition sample_out : Outside :=
  MkOutside (Some page1)
    (fun url _ =>
       if String.eqb url "https://wbtenders.gov.in/nicgep/app?page=2"
       then Ok page2
       else if String.eqb url "https://wbtenders.gov.in/nicgep/app?page=3"
       then Ok page3
       else Raise "net::ERR_NAME_NOT_RESOLVED")
    (fun _ _ => Raise "service unavailable")
    (fun _ => "Supply, installation and commissioning")
    "2025-01-02".

(** A worker that has just been started on a store. *)
Definition fresh_world (s : Store) : World := MkWorld s None ∅ 0 0 [].

(** A worker whose tab shows page [p]. *)
Definition world_at (p : Page) (s : Store) : World :=
  MkWorld s (Some p) ∅ 0 0 [].

(** *** A worker killed during phase 1 *)

(** The store of a worker that was killed after it had extracted pages 1
    and 2 of the sample portal and loaded page 3. *)
Definition interrupted_store : Store :=
  let w1 := (phase1_iteration sample_env sample_out wb_config 1 0
               (world_at page1 empty_store)).2 in
  let w2 := (phase1_iteration sample_env sample_out wb_config 2 2 w1).2 in
  w_store w2.

(** The serial numbers of the rows of a page. *)
Definition serials (p : Page) : list string :=
  match page_rows p with
  | Ok rows => map c_s_no (omap (fun r => r) rows)
  | Raise _ => []
  end.

(** The pages the loop went through: the number it gave each one, and
    the rows the tab showed. *)
Definition visits (evs : list event) : list (nat * list string) :=
  omap (fun e => match e with
                 | EvVisit n p => Some (n, serials p)
                 | _ => None
                 end) evs.

(** What is left of a run: the visits, the checkpoint, [pages_scraped]
    and the keys of the stored rows. *)
Definition run_summary (o : option (outcome run_result * World))
  : option (list (nat * list string) * option string * nat
            * list (string * string)) :=
  match o with
  | Some (Ok _, w) =>
      Some (visits (w_events w),
            scraping_metadata (db (w_store w)) !! ("WB", "last_page_extracted"),
            w_pages_scraped w,
            map (fun r => (s_no r, identity_hash r)) (tenders (db (w_store w))))
  | _ => None
  end.

(** ** The orchestrator ([production_orchestrator.py]) *)

Module Orchestrator.

(** How a worker process ends: the [try] body of [run_portal_instance]
    (the lookup of the portal, the construction of the scraper and
    [scraper.run()]) returns or raises, or the process is killed by a
    signal before that. *)
Inductive process_end : Type :=
| Exits (body : outcome run_result)
| Killed (signal : nat).

(** The dict [run_portal_instance] returns. *)
Record instance_result : Type := InstanceResult {
  i_portal_id : string;
  i_status : string;
  i_error : option string }.

(** [run_portal_instance]: its [except Exception] returns a dict too. *)
Definition run_portal_instance (portal_id : string) (body : outcome run_result)
  : outcome instance_result :=
  match body with
  | Ok _ => Ok (InstanceResult portal_id "success" None)
  | Raise e => Ok (InstanceResult portal_id "error" (Some e))
  end.

(** [Process.exitcode] of [multiprocessing]: 0 when the target returns
    (its value is dropped), 1 when it raises, [-N] when signal [N] killed
    the process. *)
Definition exitcode (portal_id : string) (p : process_end) : Z :=
  match p with
  | Exits body =>
      match run_portal_instance portal_id body with
      | Ok _ => 0
      | Raise _ => 1
      end
  | Killed signal => - Z.of_nat signal
  end.

(** A started worker.  The monitoring loop polls every five seconds;
    [w_finish] is the first poll at which [is_alive()] is False, all the
    [is_alive()] calls of one poll seeing the same instant. *)
Record worker : Type := Worker {
  w_portal_id : string;
  w_name : string;
  w_finish : nat;
  w_end : process_end }.

Definition is_alive (poll : nat) (p : worker) : bool :=
  Nat.ltb poll (w_finish p).

(** The two lists of [run_all_portals]. *)
Record summary : Type := Summary {
  completed : list string;
  failed : list (string * Z) }.

Definition classified (s : summary) : list string :=
  completed s ++ map fst (failed s).

(** The [for portal_info in processes] loop of one poll. *)
Fixpoint classify (poll : nat) (processes : list worker) (s : summary)
  : summary :=
  match processes with
  | [] => s
  | p :: rest =>
      let s' :=
        if negb (is_alive poll p)
           && negb (bool_decide (w_portal_id p ∈ classified s))
        then
          if Z.eqb (exitcode (w_portal_id p) (w_end p)) 0
          then Summary (completed s ++ [w_portal_id p]) (failed s)
          else Summary (completed s)
                       (failed s ++ [(w_portal_id p,
                                      exitcode (w_portal_id p) (w_end p))])
        else s in
      classify poll rest s'
  end.

(** [while any(p['process'].is_alive() for p in processes)], with [fuel]
    polls at most. *)
Fixpoint monitor (fuel poll : nat) (processes : list worker) (s : summary)
  : option summary :=
  match fuel with
  | O => None
  | S fuel' =>
      if existsb (is_alive poll) processes
      then monitor fuel' (S poll) processes (classify poll processes s)
      else Some s
  end.

(** [run_all_portals], once the workers are started: no worker is alive
    after the poll [max w_finish], so that many polls and one suffice. *)
Definition run_all_portals (processes : list worker) : option summary :=
  monitor (S (list_max (map w_finish processes))) 0 processes
          (Summary [] []).

(** [__main__]: the exit code.  [analysis] is what
    [analyze_portal_errors] does; an exception in the [try] gives 1. *)
Definition main (processes : list worker) (analysis : outcome unit)
  : option Z :=
  match run_all_portals processes with
  | None => None
  | Some results =>
      match analysis with
      | Raise _ => Some 1%Z
      | Ok _ =>
          match failed results with
          | [] => Some 0%Z
          | _ => Some 1%Z
          end
      end
  end.

(** Four workers, the first of which hits a fatal error. *)
Definition clean : process_end :=
  Exits (Ok (RunResult "success" None (Statistics 4 2 2 2 0))).

Definition fatal_workers : list worker :=
  [Worker "WB" "West Bengal" 3 (Exits (Raise "database is locked"));
   Worker "BHEL" "BHEL" 5 clean;
   Worker "COAL" "Coal India" 7 clean;
   Worker "NTPC" "NTPC" 9 clean].

(** Four workers, the last to end being killed. *)
Definition killed_last_workers : list worker :=
  [Worker "WB" "West Bengal" 3 clean;
   Worker "BHEL" "BHEL" 5 clean;
   Worker "COAL" "Coal India" 7 clean;
   Worker "NTPC" "NTPC" 9 (Killed 9)].

(** The same, the killed worker ending first. *)
Definition killed_first_workers : list worker :=
  [Worker "WB" "West Bengal" 3 (Killed 9);
   Worker "BHEL" "BHEL" 5 clean;
   Worker "COAL" "Coal India" 7 clean;
   Worker "NTPC" "NTPC" 9 clean].

End Orchestrator.

(** *** Vocabulary for the classification properties *)

(** Every row of the portal has been classified. *)
Definition all_classified (pid : string) (d : DB) : Prop :=
  forall row, In row (tenders d) -> portal_id row = pid ->
    ai_filtered row <> 0%Z.

(** The value [mark_ai_filtered] writes for a title the classifier
    calls meaningful or not. *)
Definition mark_of (is_meaningful : bool) : Z :=
  if is_meaningful then (-1)%Z else 1%Z.

(** The claim that a batch whose service call fails is rejected as a
    whole. *)
Definition failed_batch_all_rejected : Prop :=
  forall (env : SqlEnv) (out : Outside) (config : PortalConfig)
         (batch : list (string * string)) (w w' : World) (e : string),
    uncached_of (w_cache w) (map snd batch) <> [] ->
    service out (w_calls w) (uncached_of (w_cache w) (map snd batch))
    = Raise e ->
    filter_batch env out config batch w = (Ok tt, w') ->
    forall h t row,
      In (h, t) batch ->
      In row (tenders (db (w_store w'))) ->
      portal_id row = cfg_portal_id config ->
      identity_hash row = h ->
      ai_filtered row = (-1)%Z.

(** *** A sample store of 52 unclassified rows *)

(** Rows 1 and 51 carry the same title, published on different days. *)
Definition ai_title (k : nat) : string :=
  if Nat.eqb k 1 || Nat.eqb k 51 then "REF-001"
  else if Nat.eqb k 52 then "Repair of road"
  else "Tender " +:+ str k.

Definition ai_listing_row (k : nat) : listing_row :=
  ListingRow (str k) ("Day " +:+ str k) "10-Jan-2025 03:00 PM"
             "12-Jan-2025 03:00 PM" (ai_title k)
             ("https://wbtenders.gov.in/nicgep/app?tender=" +:+ str k) "PWD".

(** The classification service answers its first call, calling title 1
    unmeaningful, and fails afterwards. *)
Definition ai_out : Outside :=
  MkOutside (landing sample_out) (load sample_out)
    (fun n _ => if Nat.eqb n 0 then Ok {[ "1" := "unmeaningful" ]}
                else Raise "503 Service Unavailable")
    (detail sample_out) (today sample_out).

Definition ai_store : Store :=
  (upsert_tenders_batch sample_env "WB"
     (map (fun k => tender_of_row ai_out wb_config (ai_listing_row k))
          (seq 1 52))
     empty_store).2.

(** The batches of [run_ai_filtering] on that store, and the worker
    after the first one. *)
Definition ai_batches : list (list (string * string)) :=
  match (get_tenders_for_ai_filtering sample_env "WB" ai_store).1 with
  | Ok l => batches 50 l
  | Raise _ => []
  end.

Definition after_first_batch : World :=
  (filter_batch sample_env ai_out wb_config (default [] (ai_batches !! 0))
     (fresh_world ai_store)).2.

(** The classification of the rows of a store, by serial number. *)
Definition marks (s : Store) : list (string * Z) :=
  map (fun r => (s_no r, ai_filtered r)) (tenders (db s)).

(** The worker after the second batch, whose service call fails, and
    row 51 of its store. *)
Definition after_second_batch : World :=
  (filter_batch sample_env ai_out wb_config (default [] (ai_batches !! 1))
     after_first_batch).2.

Definition row51 : tender_row :=
  default sample_row (tenders (db (w_store after_second_batch)) !! 50).

(** What the marking of a batch of (hash, title) does to one row: its
    keys stay; its classification stays or becomes the mark of a title of
    the batch filed under its hash; and when the marking returns, a row of
    the portal whose hash is in the batch is classified, by the title
    paired with its hash when the hashes of the batch are distinct. *)
Definition mark_rel (pid : string) (results : gmap string bool)
    (batch : list (string * string)) (ok : bool) (r r' : tender_row) : Prop :=
  portal_id r' = portal_id r
  /\ identity_hash r' = identity_hash r
  /\ (ai_filtered r' = ai_filtered r
      \/ (portal_id r = pid
          /\ exists t, In (identity_hash r, t) batch
                       /\ ai_filtered r'
                          = mark_of (default false (results !! t))))
  /\ (ok = true -> portal_id r = pid ->
      forall t, In (identity_hash r, t) batch -> NoDup (map fst batch) ->
        ai_filtered r' = mark_of (default false (results !! t)))
  /\ (ok = true -> portal_id r = pid ->
      In (identity_hash r) (map fst batch) -> ai_filtered r' <> 0%Z).

(** The part of the worker that only [check_titles] writes, and the
    part that the store methods leave alone. *)
Definition same_cache (w w' : World) : Prop :=
  w_cache w' = w_cache w /\ w_calls w' = w_calls w.

Definition same_session (w w' : World) : Prop :=
  same_cache w w' /\ w_page w' = w_page w
  /\ w_pages_scraped w' = w_pages_scraped w /\ w_events w' = w_events w.

(** *** Vocabulary for the ordering of the phases *)

(** The value of a checkpoint of a portal. *)
Definition meta (s : Store) (pid key : string) : option string :=
  scraping_metadata (db s) !! (pid, key).

(** What the checkpoints say of a store the workers have written: the
    classification is marked complete only after phase 1 is, and then no
    row of the portal is unclassified. *)
Definition phase_invariant (pid : string) (s : Store) : Prop :=
  truthy (meta s pid "ai_filtering_complete") = true ->
  truthy (meta s pid "phase1_complete") = true
  /\ all_classified pid (db s).

(** Every detail page was fetched at a time when no row of the portal
    was unclassified. *)
Definition fetches_classified (pid : string) (evs : list event) : Prop :=
  forall h u st, In (EvFetch h u st) evs -> all_classified pid (db st).

Definition no_fetch (evs : list event) : Prop :=
  forall h u st, ~ In (EvFetch h u st) evs.

(** A property of the worker's state that a piece of code keeps. *)
Definition keeps {A : Type} (P : World -> Prop) (m : prog A) : Prop :=
  forall w r w', P w -> m w = (r, w') -> P w'.

Definition fkeeps {A : Type} (P : World -> Prop) (m : fprog A) : Prop :=
  forall w r w', P w -> m w = Some (r, w') -> P w'.

(** A service that calls every title meaningful, and a detail page. *)
Definition kind_out : Outside :=
  MkOutside (landing sample_out) (load sample_out)
    (fun _ _ => Ok {[ "1" := "unmeaningful"; "3" := "unmeaningful" ]})
    (detail sample_out) (today sample_out).

(** The fetches of a run, with the classification of the fetched row at
    the time of the fetch. *)
Definition fetch_marks (evs : list event) : list (string * list Z) :=
  omap (fun e => match e with
                 | EvFetch h u st =>
                     Some (u, map ai_filtered
                                (List.filter (fun r => String.eqb (identity_hash r) h)
                                             (tenders (db st))))
                 | _ => None
                 end) evs.

(** The state of a worker that has fetched no detail page yet, with the
    value [v] of the checkpoint of the classification. *)
Definition before_enrich (pid : string) (v : option string) (w : World)
  : Prop :=
  no_fetch (w_events w)
  /\ meta (w_store w) pid "ai_filtering_complete" = v.

(** The state of a worker during phase 2 when the classifier has run. *)
Definition enriching (pid : string) (w : World) : Prop :=
  all_classified pid (db (w_store w))
  /\ fetches_classified pid (w_events w).

(** What the classification of a list of batches does to one row: keys
    stay, a classified row stays classified, and when the code returns a
    row of the portal whose hash is among [hashes] is classified. *)
Definition batch_rel (pid : string) (hashes : list string) (ok : bool)
    (r r' : tender_row) : Prop :=
  portal_id r' = portal_id r
  /\ identity_hash r' = identity_hash r
  /\ (ai_filtered r <> 0%Z -> ai_filtered r' <> 0%Z)
  /\ (ok = true -> portal_id r = pid -> In (identity_hash r) hashes ->
      ai_filtered r' <> 0%Z).

(** A run of the three phases on the sample portal, with a classifier. *)
Definition classified_run_world : World :=
  match run_phases sample_env kind_out wb_config true 10
                   (fresh_world empty_store) with
  | Some (_, w) => w
  | None => fresh_world empty_store
  end.

(** *** Vocabulary for the errors and the invariants of the upsert *)

(** The keys [upsert_tenders_batch] reads with [tender[...]]; 'Work
    Description' is read with [get] and may be missing. *)
Definition upsert_keys : list string :=
  [K_HASH; K_PORTAL_SOURCE; K_S_NO; K_PUBLISHED; K_CLOSING; K_OPENING;
   K_TITLE; K_ORG; K_URL; K_RUN_DATE].

(** [str(KeyError(key))] *)
Definition key_error (key : string) : string := "'" +:+ key +:+ "'".

(** The record lacks one of the keys the upsert needs, and [e] is the
    message of the [KeyError]. *)
Definition missing_key (t : gmap string string) (e : string) : Prop :=
  exists key, In key upsert_keys /\ t !! key = None /\ e = key_error key.

(** The row the INSERT of the upsert writes at time [t] under id [i]. *)
Definition inserted_row (pid h : string) (p : source_fields) (wd : string)
    (t i : nat) : tender_row :=
  TenderRow i pid h (p_portal_source p) (p_s_no p) (p_e_published_date p)
    (p_closing_date p) (p_opening_date p) (p_title p) (p_org_chain p)
    (p_details_url p) wd (p_run_date p) "extracted" "pending" 0%Z t t.

(** What the schema promises of table [tenders]: UNIQUE(portal_id,
    identity_hash), and ids that grow with the rows and stay below the
    AUTOINCREMENT counter. *)
Definition table_ok (d : DB) : Prop :=
  NoDup (map row_key (tenders d))
  /\ StronglySorted lt (map row_id (tenders d))
  /\ Forall (fun r => row_id r <= tenders_seq d) (tenders d).

(** The source fields of a stored row. *)
Definition source_of (r : tender_row) : source_fields :=
  SourceFields (portal_source r) (s_no r) (e_published_date r)
    (closing_date r) (opening_date r) (title r) (org_chain r)
    (details_url r) (run_date r).

(** Row [r] was inserted from a record of the batch: it is filed under
    [pid] and that record's hash, it is extracted, pending and
    unclassified, its work description is the one of a record of the
    batch with its hash, and so are its source fields. *)
Definition inserted_from (pid : string) (batch : list (gmap string string))
    (r : tender_row) : Prop :=
  portal_id r = pid
  /\ phase1_status r = "extracted"
  /\ phase2_status r = "pending"
  /\ ai_filtered r = 0%Z
  /\ (exists t, In t batch /\ dict_item t K_HASH = Ok (identity_hash r)
                /\ work_description r = dict_get t K_WORK "")
  /\ (exists t, In t batch /\ dict_item t K_HASH = Ok (identity_hash r)
                /\ read_source t = Ok (source_of r)).
(** *** Vocabulary for the queues and the counts *)

(** What [get_tenders_for_ai_filtering] and [get_tenders_for_phase2]
    select from a database. *)
Definition ai_queue (pid : string) (d : DB) : list (string * string) :=
  map (fun r => (identity_hash r, title r))
      (List.filter (unfiltered pid) (tenders d)).

Definition phase2_queue (pid : string) (d : DB) : list phase2_tender :=
  map (fun r => Phase2Tender (row_id r) (identity_hash r)
                             (details_url r) (s_no r))
      (List.filter (needs_phase2 pid) (tenders d)).

(** The rows of a portal. *)
Definition rows_of (pid : string) (d : DB) : list tender_row :=
  List.filter (in_portal pid) (tenders d).

(** The number of rows of a portal that satisfy [f]. *)
Definition count_in (pid : string) (f : tender_row -> bool) (d : DB) : nat :=
  length (List.filter (fun r => in_portal pid r && f r) (tenders d)).

(** The three values column [ai_filtered] takes. *)
Definition classification_ok (r : tender_row) : Prop :=
  ai_filtered r = 0%Z \/ ai_filtered r = 1%Z \/ ai_filtered r = (-1)%Z.
(** *** Vocabulary for the classifier *)

(** The answer of the service for the title at position [i] of the
    prompt, which is numbered from 1; a missing answer counts as
    meaningful, and so does no other text than "meaningful". *)
Definition answer_at (results : gmap string string) (i : nat) : bool :=
  String.eqb (default "meaningful" (results !! str i)) "meaningful".
(** *** Vocabulary for the invariants of a run *)

(** A property of the database that every write of the worker keeps:
    the upsert, the two single-row updates with the values the worker
    passes, and any change to the other tables. *)
Definition worker_invariant (Q : DB -> Prop) : Prop :=
  (forall env pid batch s r s',
     upsert_tenders_batch env pid batch s = (r, s') -> Q (db s) -> Q (db s'))
  /\ (forall pid h (keep : bool) t d,
        Q d ->
        Q (update_where pid h
             (set_ai_filtered (if keep then 1 else -1)%Z t) d).2)
  /\ (forall pid h wd st t d,
        st = "success" \/ st = "failed" ->
        Q d -> Q (update_where pid h (set_work_description wd st t) d).2)
  /\ (forall d d',
        tenders d' = tenders d -> tenders_seq d' = tenders_seq d ->
        Q d -> Q d').

(** [Q] holds of the database of the worker's store. *)
Definition on_db (Q : DB -> Prop) (w : World) : Prop := Q (db (w_store w)).

(** The values the three status columns take. *)
Definition columns_ok (d : DB) : Prop :=
  Forall (fun r => phase1_status r = "extracted"
                   /\ (phase2_status r = "pending"
                       \/ phase2_status r = "success"
                       \/ phase2_status r = "failed")
                   /\ classification_ok r)
         (tenders d).
(** *** Vocabulary for the end of a run *)

(** What [get_statistics] counts in a database. *)
Definition statistics_of (pid : string) (d : DB) : statistics :=
  Statistics
    (count_in pid (fun _ => true) d)
    (count_in pid (fun r => Z.eqb (ai_filtered r) 1) d)
    (count_in pid (fun r => Z.eqb (ai_filtered r) (-1)) d)
    (count_in pid (fun r => String.eqb (phase2_status r) "success") d)
    (count_in pid (fun r => String.eqb (phase2_status r) "failed") d).

(** The status and the error [run] records for the way its phases
    ended. *)
Definition status_of {A : Type} (r : outcome A) : string :=
  match r with Ok _ => "success" | Raise _ => "error" end.

Definition error_of {A : Type} (r : outcome A) : option string :=
  match r with Ok _ => None | Raise e => Some e end.

(** The database with one more row in [portal_execution_log]. *)
Definition logged (d : DB) (x : execution_row) : DB :=
  MkDB (tenders d) (tenders_seq d) (scraping_metadata d) (failed_urls d)
       (portal_execution_log d ++ [x]).
(** *** Vocabulary for phase 2 *)

(** Phase 2 has settled a row: its fetch succeeded or failed. *)
Definition settled (r : tender_row) : Prop :=
  phase2_status r = "success" \/ phase2_status r = "failed".

(** The columns phase 2 leaves alone: all but [work_description],
    [phase2_status] and [updated_at]. *)
Definition phase2_frame (r r' : tender_row) : Prop :=
  row_id r' = row_id r
  /\ row_key r' = row_key r
  /\ source_of r' = source_of r
  /\ phase1_status r' = phase1_status r
  /\ ai_filtered r' = ai_filtered r
  /\ created_at r' = created_at r.

(** What the enrichment of the tenders of [hashes] does to one row: the
    frame stays; the status stays or the row is settled; and when the
    code returns, a row of the portal with one of the hashes is
    settled. *)
Definition enrich_rel (pid : string) (hashes : list string) (ok : bool)
    (r r' : tender_row) : Prop :=
  phase2_frame r r'
  /\ (phase2_status r' = phase2_status r \/ settled r')
  /\ (settled r -> settled r')
  /\ (ok = true -> portal_id r = pid -> In (identity_hash r) hashes ->
      settled r').

Definition enrich_step (pid : string) (hashes : list string) (ok : bool)
    (w w' : World) : Prop :=
  Forall2 (enrich_rel pid hashes ok)
          (tenders (db (w_store w))) (tenders (db (w_store w')))
  /\ scraping_metadata (db (w_store w')) = scraping_metadata (db (w_store w))
  /\ w_events w' = w_events w.

(** The detail pages fetched, as (hash, url), in order. *)
Definition fetched (evs : list event) : list (string * string) :=
  omap (fun e => match e with
                 | EvFetch h u _ => Some (h, u)
                 | _ => None
                 end) evs.
(** *** Vocabulary for the monitoring loop *)


(** ** Text read from a page *)

(** A Python [str] read from the page, as the list of its code points. *)
Definition text : Type := list N.

(** The code points of a literal. *)
Definition chars (s : string) : text :=
  map N_of_ascii (list_ascii_of_string s).

(** [c.isspace()]: the characters [str.strip] and [str.split] take for
    whitespace. *)
Definition isspace (c : N) : bool :=
  existsb (N.eqb c)
    [9; 10; 11; 12; 13; 28; 29; 30; 31; 32; 133; 160; 5760; 8192; 8193; 8194;
     8195; 8196; 8197; 8198; 8199; 8200; 8201; 8202; 8232; 8233; 8239; 8287;
     12288]%N.

Fixpoint lstrip (s : text) : text :=
  match s with
  | [] => []
  | c :: r => if isspace c then lstrip r else s
  end.

Definition rstrip (s : text) : text := rev (lstrip (rev s)).

(** [s.strip()] *)
Definition strip (s : text) : text := rstrip (lstrip s).

(** [p] is a prefix of [s]. *)
Fixpoint starts (p s : text) : bool :=
  match p, s with
  | [], _ => true
  | a :: p', b :: s' => N.eqb a b && starts p' s'
  | _ :: _, [] => false
  end.

(** [sub in s] *)
Fixpoint text_contains (sub s : text) : bool :=
  starts sub s
  || match s with
     | [] => false
     | _ :: r => text_contains sub r
     end.

(** [s.replace(old, new)] for a non-empty [old]: the occurrences are
    taken from the left and do not overlap; [skip] counts the characters
    of the occurrence at hand still to pass. *)
Fixpoint replace_from (old new : text) (skip : nat) (s : text) : text :=
  match s with
  | [] => []
  | c :: r =>
      match skip with
      | S k => replace_from old new k r
      | O =>
          if starts old s
          then new ++ replace_from old new (length old - 1) r
          else c :: replace_from old new 0 r
      end
  end.

Definition replace (old new s : text) : text := replace_from old new 0 s.

(** [clean_text] *)
Definition clean_text (t : text) : text :=
  match t with
  | [] => []
  | _ => replace [32; 32]%N [32]%N
           (replace [9]%N [32]%N (replace [10]%N [32]%N (strip t)))
  end.

(** [s.split()]: the maximal runs of characters that are not
    whitespace; [cur] is the run at hand, latest character first. *)
Fixpoint split_from (cur : text) (s : text) : list text :=
  match s with
  | [] => match cur with [] => [] | _ => [rev cur] end
  | c :: r =>
      if isspace c
      then match cur with
           | [] => split_from [] r
           | _ => rev cur :: split_from [] r
           end
      else split_from (c :: cur) r
  end.

Definition split (s : text) : list text := split_from [] s.

(** [sep.join(l)] *)
Fixpoint join (sep : text) (l : list text) : text :=
  match l with
  | [] => []
  | [x] => x
  | x :: r => x ++ sep ++ join sep r
  end.

(** [" ".join(s.split())] *)
Definition squash (s : text) : text := join [32%N] (split s).

(** [s.split('\n')] *)
Fixpoint split_lines_from (cur : text) (s : text) : list text :=
  match s with
  | [] => [rev cur]
  | c :: r =>
      if N.eqb c 10 then rev cur :: split_lines_from [] r
      else split_lines_from (c :: cur) r
  end.

Definition split_lines (s : text) : list text := split_lines_from [] s.

(** [s.encode()]: the UTF-8 bytes of a text. *)
Definition utf8_char (c : N) : list N :=
  (if c <? 128 then [c]
   else if c <? 2048 then [192 + c / 64; 128 + c mod 64]
   else if c <? 65536
   then [224 + c / 4096; 128 + (c / 64) mod 64; 128 + c mod 64]
   else [240 + c / 262144; 128 + (c / 4096) mod 64; 128 + (c / 64) mod 64;
         128 + c mod 64])%N.

Definition utf8 (t : text) : string :=
  string_of_list_ascii (map ascii_of_N (flat_map utf8_char t)).

(** *** Vocabulary for the text functions *)

(** The text neither starts nor ends with whitespace. *)
Definition trimmed (t : text) : Prop :=
  (forall c, head t = Some c -> isspace c = false)
  /\ (forall c, last t = Some c -> isspace c = false).

(** [s.replace("  ", " ")], written out. *)
Fixpoint squeeze (s : text) : text :=
  match s with
  | [] => []
  | c :: r =>
      match r with
      | d :: r' =>
          if N.eqb c 32 && N.eqb d 32 then 32%N :: squeeze r'
          else c :: squeeze r
      | [] => [c]
      end
  end.

(** A word: not empty, and free of whitespace. *)
Definition word (w : text) : Prop :=
  w <> [] /\ forallb (fun c => negb (isspace c)) w = true.

(** No two whitespace characters in a row. *)
Fixpoint single_spaces (s : text) : bool :=
  match s with
  | a :: r =>
      match r with
      | b :: _ => negb (isspace a && isspace b) && single_spaces r
      | [] => true
      end
  | [] => true
  end.

(** ** The cells of a listing row *)

(** What the driver shows of the [a] of a title cell and of a [td]:
    every call returns or raises.  The page stands still while one row is
    read, so that [inner_text] called twice on a cell gives one text. *)
Record Anchor : Type := MkAnchor {
  a_inner_text : outcome text;
  a_href : outcome (option text) }.

Record Cell : Type := MkCell {
  td_inner_text : outcome text;
  td_anchor : outcome (option Anchor) }.

(** [details_url], from [get_attribute("href")]. *)
Definition details_url_of (base_url : string) (href : option text) : string :=
  match href with
  | Some ((_ :: _) as h) =>
      if starts [47%N] h then base_url +:+ utf8 h else utf8 h
  | _ => ""
  end.

(** [full_title], from the cleaned title and the text of the title
    cell: the reference number is the second line of the cell. *)
Definition full_title_of (title_text cell_text : text) : text :=
  let ref_texts := split_lines cell_text in
  let ref_no := match ref_texts with
                | _ :: second :: _ => clean_text second
                | _ => []
                end in
  match ref_no with
  | [] => title_text
  | _ => title_text ++ [10%N] ++ ref_no
  end.

(** The body of the loop of [extract_tenders_from_page] on the cells of
    one row, up to the dict: [None] when the row is skipped, for having
    fewer than six cells or for a call that raises. *)
Definition extract_row (base_url : string) (cells : outcome (list Cell))
  : option listing_row :=
  match cells with
  | Ok (c0 :: c1 :: c2 :: c3 :: title_cell :: c5 :: _) =>
      let row : outcome listing_row :=
        s_no ← td_inner_text c0;
        e_published ← td_inner_text c1;
        closing_date ← td_inner_text c2;
        opening_date ← td_inner_text c3;
        link_elem ← td_anchor title_cell;
        link ← match link_elem with
               | Some a =>
                   title_text ← a_inner_text a;
                   href ← a_href a;
                   Ok (clean_text title_text, details_url_of base_url href)
               | None =>
                   title_text ← td_inner_text title_cell;
                   Ok (clean_text title_text, "")
               end;
        cell_text ← td_inner_text title_cell;
        org_chain ← td_inner_text c5;
        Ok (ListingRow (utf8 (clean_text s_no))
                       (utf8 (clean_text e_published))
                       (utf8 (clean_text closing_date))
                       (utf8 (clean_text opening_date))
                       (utf8 (full_title_of link.1 cell_text))
                       link.2
                       (utf8 (clean_text org_chain))) in
      match row with
      | Ok r => Some r
      | Raise _ => None
      end
  | _ => None
  end.

(** The rows of a listing page, from what
    [query_selector_all("tr.even, tr.odd")] and, on each row,
    [query_selector_all("td")] give. *)
Definition rows_of_cells (base_url : string)
    (rows : outcome (list (outcome (list Cell))))
  : outcome (list (option listing_row)) :=
  rows ← rows; Ok (map (extract_row base_url) rows).

(** A field as [clean_text] leaves it. *)
Definition clean (t : text) : Prop :=
  ~ In 10%N t /\ ~ In 9%N t /\ trimmed t.



(** The cells of a row with a reference number under the title link. *)
Definition sample_cells : list Cell :=
  let td (s : string) := MkCell (Ok (chars s)) (Ok None) in
  [td "1."; td "01-Jan-2025 09:00 AM"; td "08-Jan-2025 03:00 PM";
   td "09-Jan-2025 03:00 PM";
   MkCell (Ok (chars "[Supply of pumps]" ++ [10%N]
               ++ chars "[REF/12][2025_WB_1]"))
          (Ok (Some (MkAnchor (Ok (chars "[Supply of pumps]"))
                              (Ok (Some (chars "/nicgep/app?id=1"))))));
   td "Irrigation Dept"].

(** ** The page of one tender *)

(** What the driver shows of the page of a tender once [goto] has gone
    through: [page.url], [wait_for_selector("td.td_caption")], the
    [inner_text] of the field next to the caption, and the rows of
    [query_selector_all("tbody tr")], each with the texts of its cells.
    Every call returns or raises. *)
Record DetailPage : Type := MkDetailPage {
  dp_url : string;
  dp_caption : outcome unit;
  dp_field : outcome text;
  dp_rows : outcome (list (outcome (list (outcome text)))) }.

(** A tab of the browser: [tab_close k] is the [k]-th call of
    [page.close()] on it. *)
Record Tab : Type := MkTab {
  tab_set_default_timeout : outcome unit;
  tab_goto : outcome DetailPage;
  tab_close : nat -> outcome unit }.

(** [s[:n]] of a [str] held as its UTF-8 bytes: the bytes of the first
    [n] characters.  A byte from 128 to 191 continues a character. *)
Fixpoint take_chars (n : nat) (s : string) : string :=
  match s with
  | EmptyString => ""
  | String b r =>
      if (N.leb 128 (N_of_ascii b) && N.ltb (N_of_ascii b) 192)%N
      then String b (take_chars n r)
      else match n with
           | S k => String b (take_chars k r)
           | O => ""
           end
  end.

Definition fetch_error (e : string) : string :=
  "FETCH_ERROR: " +:+ take_chars 100 e.

(** Method 1, the CSS selector: the description when it is found and not
    blank. *)
Definition method1 (p : DetailPage) : option text :=
  match (_ ← dp_caption p; dp_field p) with
  | Ok raw_text =>
      match squash raw_text with
      | [] => None
      | cleaned_text => Some cleaned_text
      end
  | Raise _ => None
  end.

(** The loop of method 2 over the rows. *)
Fixpoint method2_rows (rows : list (outcome (list (outcome text))))
  : outcome (option text) :=
  match rows with
  | [] => Ok None
  | row :: rest =>
      cells ← row;
      match cells with
      | c0 :: c1 :: _ =>
          caption ← c0;
          if text_contains (chars "Work Description") caption then
            work_desc ← c1;
            match squash (strip work_desc) with
            | [] => method2_rows rest
            | cleaned => Ok (Some cleaned)
            end
          else method2_rows rest
      | _ => method2_rows rest
      end
  end.

(** Method 2, the fallback. *)
Definition method2 (p : DetailPage) : option text :=
  match (rows ← dp_rows p; method2_rows rows) with
  | Ok found => found
  | Raise _ => None
  end.

(** What [fetch_work_description] returns once the page is loaded. *)
Definition read_description (p : DetailPage) : string :=
  if contains "CommonErrorPage" (dp_url p) then "ERROR: Session expired"
  else match method1 p with
       | Some cleaned_text => utf8 cleaned_text
       | None =>
           match method2 p with
           | Some cleaned => utf8 cleaned
           | None => "WORK_DESCRIPTION_NOT_FOUND"
           end
       end.

(** The [finally] clause: the [k]-th [close] of the tab, whose failure
    takes the place of the result. *)
Definition finally_close (tab : Tab) (k : nat) (result : string)
  : outcome string :=
  match tab_close tab k with
  | Ok _ => Ok result
  | Raise e => Raise e
  end.

(** [fetch_work_description]; [new_page retry] is what
    [context.new_page()] gives in the call with this [retry], and [fuel]
    bounds the depth of the recursion.  The sleeps are left out. *)
Fixpoint fetch_work_description (fuel : nat) (new_page : nat -> outcome Tab)
    (retry : nat) : option (outcome string) :=
  match fuel with
  | O => None
  | S fuel' =>
      match new_page retry with
      | Raise e => Some (Ok (fetch_error e))
      | Ok page =>
          match tab_set_default_timeout page with
          | Raise e => Some (finally_close page 0 (fetch_error e))
          | Ok _ =>
              match tab_goto page with
              | Ok p => Some (finally_close page 0 (read_description p))
              | Raise e =>
                  if Nat.ltb retry 2 then
                    match tab_close page 0 with
                    | Raise e' => Some (finally_close page 1 (fetch_error e'))
                    | Ok _ =>
                        match fetch_work_description fuel' new_page
                                (S retry) with
                        | None => None
                        | Some (Ok result) =>
                            Some (finally_close page 1 result)
                        | Some (Raise e') =>
                            Some (finally_close page 1 (fetch_error e'))
                        end
                    end
                  else Some (finally_close page 0 (fetch_error e))
              end
          end
      end
  end.

(** No [close] of a tab raises. *)
Definition closes_quietly (new_page : nat -> outcome Tab) : Prop :=
  forall retry page k, new_page retry = Ok page ->
    exists u, tab_close page k = Ok u.

(** A page whose field holds the description, and a portal that answers
    at the third attempt. *)
Definition sample_detail : DetailPage :=
  MkDetailPage "https://wbtenders.gov.in/nicgep/app?id=1" (Ok tt)
    (Ok ([160; 10]%N ++ chars "Supply  of" ++ [9; 10]%N ++ chars "pumps "))
    (Ok []).

Definition slow_portal (retry : nat) : outcome Tab :=
  Ok (MkTab (Ok tt)
            (if Nat.ltb retry 2 then Raise "Timeout 30000ms exceeded"
             else Ok sample_detail)
            (fun _ => Ok tt)).

(** What [fetch_work_description] may return: one of its three failure
    texts, or a description that was found on the page, joined from its
    words and not empty. *)
Definition fetch_result (d : string) : Prop :=
  (is_failure_text d = true
   /\ (d = "ERROR: Session expired" \/ d = "WORK_DESCRIPTION_NOT_FOUND"
       \/ exists e, d = fetch_error e))
  \/ exists raw, squash raw <> [] /\ d = utf8 (squash raw).

(** *** Vocabulary for the pagination *)

(** The numbers under which pages were visited, in order. *)
Definition visited (evs : list event) : list nat :=
  omap (fun e => match e with
                 | EvVisit page_num _ => Some page_num
                 | _ => None
                 end) evs.

(** What [get_phase1_count] counts: the rows of the portal whose
    [phase1_status] is 'extracted'. *)
Definition extracted_count (pid : string) (d : DB) : nat :=
  count_in pid (fun r => String.eqb (phase1_status r) "extracted") d.

(** [start_page] of [run_phase1], from the checkpoint. *)
Definition start_page_of (last_page_str : option string) : outcome nat :=
  if truthy last_page_str
  then n ← int (default "" last_page_str); mret (n + 1)
  else mret 1.

(** Pages that never end: each shows a next control, available and
    steady, whose target loads at the first attempt and is such a page
    again. *)
Definition endless (out : Outside) (base_url : string) (P : Page -> Prop)
  : Prop :=
  forall p, P p ->
    exists href p',
      control_available (link_fwd p 0) href
      /\ link_fwd p 1 = link_fwd p 0
      /\ load out (resolve base_url href) 1 = Ok p' /\ P p'.

(** A portal whose next control always leads back to the first page. *)
Definition circular_out : Outside :=
  MkOutside (Some page1) (fun _ _ => Ok page1) (service sample_out)
            (detail sample_out) (today sample_out).

(* ================================================================== *)
(** * Properties *)
(* ================================================================== *)

(** ** MD5 test vectors (RFC 1321 and [hashlib]) *)

Example md5_empty : MD5.hexdigest "" = "d41d8cd98f00b204e9800998ecf8427e".
Proof. vm_compute. reflexivity. Qed.

Example md5_abc : MD5.hexdigest "abc" = "900150983cd24fb0d6963f7d28e17f72".
Proof. vm_compute. reflexivity. Qed.

Example md5_two_blocks :
  MD5.hexdigest "xxxxxxxxxxxxxxxxxxxxxxxxxxxxxxxxxxxxxxxxxxxxxxxxxxxxxxxx"
  = "668a72d5ba17f08e62dabcafad6db14b".
Proof. vm_compute. reflexivity. Qed.

Example identity_hash_example :
  create_identity_hash
    (<[K_TITLE := "Supply of pumps
REF/1"]> (<[K_PUBLISHED := "01-Jan-2025 10:00 AM"]>
       (<[K_ORG := "PWD||Roads"]> (<[K_URL := "https://x/y"]> ∅))))
  = "16206a6dfffdfd9a218857a51fc669f1".
Proof. vm_compute. reflexivity. Qed.

(** ** Identity hash *)

Lemma append_cons (c : ascii) (a b : string) :
  String c a +:+ b = String c (a +:+ b).
Proof. reflexivity. Qed.

Lemma append_cancel_l (p a b : string) : p +:+ a = p +:+ b -> a = b.
Proof.
  induction p as [|c p IH]; intros H; [exact H|].
  rewrite !append_cons in H. apply IH. congruence.
Qed.

Lemma append_length (a b : string) :
  String.length (a +:+ b) = String.length a + String.length b.
Proof.
  induction a as [|c a IH]; [reflexivity|].
  rewrite append_cons. simpl. congruence.
Qed.

Lemma append_cancel_r (a b s : string) : a +:+ s = b +:+ s -> a = b.
Proof.
  revert b. induction a as [|c a IH]; intros [|c' b] H.
  - reflexivity.
  - apply (f_equal String.length) in H.
    rewrite !append_length in H. simpl in H. lia.
  - apply (f_equal String.length) in H.
    rewrite !append_length in H. simpl in H. lia.
  - rewrite !append_cons in H. injection H as -> H. f_equal. apply IH, H.
Qed.

(** The key string separates each field when the other two are fixed. *)
Lemma identity_key_title (t t' p o : string) :
  t +:+ "_" +:+ p +:+ "_" +:+ o = t' +:+ "_" +:+ p +:+ "_" +:+ o -> t = t'.
Proof. apply append_cancel_r. Qed.

Lemma identity_key_published (t p p' o : string) :
  t +:+ "_" +:+ p +:+ "_" +:+ o = t +:+ "_" +:+ p' +:+ "_" +:+ o -> p = p'.
Proof.
  intros H. apply append_cancel_l in H. apply append_cancel_l in H.
  revert H. apply append_cancel_r.
Qed.

Lemma identity_key_org (t p o o' : string) :
  t +:+ "_" +:+ p +:+ "_" +:+ o = t +:+ "_" +:+ p +:+ "_" +:+ o' -> o = o'.
Proof.
  intros H. do 4 apply append_cancel_l in H. exact H.
Qed.

(** Every digest is four 32-bit words. *)
Lemma add32_word (a b : Z) : word32 (MD5.add32 a b).
Proof. unfold word32, MD5.add32. apply Z.mod_pos_bound. lia. Qed.

Lemma compress_ok (st : MD5.state) (m : list Z) : state_ok (MD5.compress st m).
Proof.
  unfold MD5.compress, state_ok.
  cbn [MD5.sa MD5.sb MD5.sc MD5.sd]. auto using add32_word.
Qed.

Lemma blocks_ok (n : nat) : forall bs st,
  state_ok st -> state_ok (MD5.blocks n bs st).
Proof.
  induction n as [|n IH]; intros bs st Hst; simpl; [exact Hst|].
  apply IH, compress_ok.
Qed.

Lemma digest_ok (s : string) : state_ok (MD5.digest s).
Proof.
  unfold MD5.digest. apply blocks_ok.
  unfold state_ok, word32; simpl; lia.
Qed.

Lemma pack_bound (st : MD5.state) :
  state_ok st -> (pack st < 340282366920938463463374607431768211456)%N.
Proof.
  unfold state_ok, word32, pack. intros (Ha & Hb & Hc & Hd). lia.
Qed.

Lemma pack_inj (st st' : MD5.state) :
  state_ok st -> state_ok st' -> pack st = pack st' -> st = st'.
Proof.
  destruct st as [a b c d], st' as [a' b' c' d'].
  unfold state_ok, word32, pack; simpl.
  intros (Ha & Hb & Hc & Hd) (Ha' & Hb' & Hc' & Hd') H.
  apply Z2N.inj in H; [|lia|lia].
  assert (a = a') by lia. assert (b = b') by lia.
  assert (c = c') by lia. assert (d = d') by lia. congruence.
Qed.

(** Pigeonhole on [N]: [k + 1] values below [k] cannot all differ. *)
Lemma bounded_search (f : N -> N) (v : N) (n : N) :
  (exists i, (i < n)%N /\ f i = v) \/ (forall i, (i < n)%N -> f i <> v).
Proof.
  induction n as [|n IH] using N.peano_ind.
  - right. intros i Hi. lia.
  - destruct IH as [(i & Hi & E)|IH].
    + left. exists i. split; [lia|exact E].
    + destruct (N.eq_dec (f n) v) as [E|NE].
      * left. exists n. split; [lia|exact E].
      * right. intros i Hi. destruct (N.eq_dec i n) as [->|]; [exact NE|].
        apply IH. lia.
Qed.

Lemma pigeonhole_N (k : N) : forall f : N -> N,
  (forall i, (i <= k)%N -> (f i < k)%N) ->
  exists i j, (i < j <= k)%N /\ f i = f j.
Proof.
  induction k as [|k IH] using N.peano_ind; intros f Hf.
  - specialize (Hf 0%N). lia.
  - destruct (bounded_search f (f (N.succ k)) (N.succ k))
      as [(i & Hi & E)|Hne].
    + exists i, (N.succ k). split; [lia|exact E].
    + set (v := f (N.succ k)) in *.
      destruct (IH (fun i => if (f i <? v)%N then f i else N.pred (f i)))
        as (i & j & Hij & E).
      * intros i Hi.
        assert (Hv : (v < N.succ k)%N) by (apply Hf; lia).
        specialize (Hf i). specialize (Hne i).
        destruct (N.ltb_spec (f i) v); lia.
      * exists i, j. split; [lia|].
        pose proof (Hne i) as Hi. pose proof (Hne j) as Hj.
        destruct (N.ltb_spec (f i) v), (N.ltb_spec (f j) v); lia.
Qed.

Lemma bits_nonempty (p : positive) : bits p <> "".
Proof. destruct p; discriminate. Qed.

Lemma bits_inj (p : positive) : forall q, bits p = bits q -> p = q.
Proof.
  induction p as [p IH|p IH|]; intros [q|q|] H; simpl in H;
    try discriminate; try reflexivity.
  - injection H as H. f_equal. apply IH, H.
  - injection H as H. exfalso. exact (bits_nonempty p H).
  - injection H as H. f_equal. apply IH, H.
  - injection H as H. exfalso. symmetry in H. exact (bits_nonempty q H).
Qed.

Lemma nth_title_inj (i j : N) : nth_title i = nth_title j -> i = j.
Proof.
  unfold nth_title. intros H. apply bits_inj in H.
  apply (f_equal Pos.pred_N) in H. rewrite !N.pos_pred_succ in H. exact H.
Qed.

(** Two different titles with one digest, whatever the other fields. *)
Lemma title_collision (d : gmap string string) :
  exists t t' : string,
    t <> t' /\
    create_identity_hash (<[K_TITLE := t]> d)
    = create_identity_hash (<[K_TITLE := t']> d).
Proof.
  destruct (pigeonhole_N 340282366920938463463374607431768211456
    (fun i => pack (MD5.digest (identity_key (<[K_TITLE := nth_title i]> d)))))
    as (i & j & Hij & E).
  - intros i _. apply pack_bound, digest_ok.
  - exists (nth_title i), (nth_title j). split.
    + intros H. apply nth_title_inj in H. lia.
    + unfold create_identity_hash, MD5.hexdigest. f_equal.
      apply pack_inj; auto using digest_ok.
Qed.

(** C6, as stated, fails: sensitivity of the 128-bit hash to every change
    of one identity field would make it injective on infinitely many
    titles. *)
Lemma hash_sensitive_fails : ~ hash_sensitive.
Proof.
  intros H. destruct (title_collision ∅) as (t & t' & Hne & E).
  apply (H (<[K_TITLE := t]> ∅) K_TITLE t').
  - left. reflexivity.
  - unfold dict_get. rewrite lookup_insert_eq. exact Hne.
  - rewrite insert_insert_eq. symmetry. exact E.
Qed.

(** C6, amended: [create_identity_hash] is the MD5 hex digest of a key
    string built from the title, e-published date and organisation chain
    alone; dicts that agree on the three fields get the same hash, and
    dicts that differ in exactly one of them get different key strings
    (hence different hashes unless MD5 collides on the two keys). *)
Theorem create_identity_hash_fields (d d' : gmap string string) :
  create_identity_hash d = MD5.hexdigest (identity_key d)
  /\ (same_identity_fields d d' ->
      create_identity_hash d = create_identity_hash d')
  /\ (forall k, differ_only_at k d d' -> identity_key d <> identity_key d').
Proof.
  split; [reflexivity|]. split.
  - intros H. unfold create_identity_hash, identity_key.
    rewrite (H K_TITLE), (H K_PUBLISHED), (H K_ORG);
      unfold identity_fields; simpl; auto.
  - intros k (Hk & Hne & Hsame) E. unfold identity_key in E.
    assert (Hs : forall k', In k' identity_fields -> k' <> k ->
              dict_get d k' "" = dict_get d' k' "") by exact Hsame.
    destruct Hk as [<-|[<-|[<-|[]]]].
    + rewrite (Hs K_PUBLISHED), (Hs K_ORG) in E;
        [|simpl; auto|discriminate|simpl; auto|discriminate].
      apply identity_key_title in E. contradiction.
    + rewrite (Hs K_TITLE), (Hs K_ORG) in E;
        [|simpl; auto|discriminate|simpl; auto|discriminate].
      apply identity_key_published in E. contradiction.
    + rewrite (Hs K_TITLE), (Hs K_PUBLISHED) in E;
        [|simpl; auto|discriminate|simpl; auto|discriminate].
      apply identity_key_org in E. contradiction.
Qed.

Lemma create_identity_hash_fields_witness :
  let d := <[K_TITLE := "Supply of pumps"]> (<[K_PUBLISHED := "01-Jan-2025"]>
             (<[K_ORG := "PWD"]> (<[K_URL := "/a?id=1"]> ∅))) in
  let d1 := <[K_URL := "/a?id=2"]> (<[K_S_NO := "7."]> d) in
  let d2 := <[K_PUBLISHED := "02-Jan-2025"]> d in
  create_identity_hash d = create_identity_hash d1
  /\ identity_key d <> identity_key d2.
Proof.
  intros d d1 d2. split.
  - apply (proj1 (proj2 (create_identity_hash_fields d d1))).
    intros k [<-|[<-|[<-|[]]]]; reflexivity.
  - apply (proj2 (proj2 (create_identity_hash_fields d d2)) K_PUBLISHED).
    split; [right; left; reflexivity|]. split; [discriminate|].
    intros k' [<-|[<-|[<-|[]]]] Hne; try reflexivity. contradiction.
Defined.

(** ** The store: statements *)

Lemma matches_true (pid h : string) (r : tender_row) :
  matches pid h r = true <-> portal_id r = pid /\ identity_hash r = h.
Proof.
  unfold matches. rewrite andb_true_iff, !String.eqb_eq. reflexivity.
Qed.

Lemma find_matches (pid h : string) (l : list tender_row) :
  match List.find (matches pid h) l with
  | Some r => In r l /\ matches pid h r = true
  | None => forall r, In r l -> matches pid h r = false
  end.
Proof.
  destruct (List.find (matches pid h) l) as [r|] eqn:E.
  - apply find_some in E. exact E.
  - intros r Hr. exact (find_none _ _ E r Hr).
Qed.

Lemma existsb_matches (pid h : string) (l : list tender_row) :
  existsb (matches pid h) l = true <->
  exists r, In r l /\ portal_id r = pid /\ identity_hash r = h.
Proof.
  rewrite existsb_exists. split; intros (r & Hr & Hm); exists r;
    (split; [exact Hr|]); apply matches_true; exact Hm.
Qed.

(** What one [execute] does to the connection. *)
Lemma execute_inv {A : Type} (env : SqlEnv)
    (stmt : nat -> DB -> outcome (A * DB)) (c c' : Conn) (r : outcome A) :
  execute env stmt c = (r, c') ->
  durable c' = durable c /\ clock c' = S (clock c)
  /\ ((exists e, r = Raise e /\ working c' = working c)
      \/ (exists a, r = Ok a /\ fault env (clock c) = None
            /\ stmt (now env (clock c)) (working c) = Ok (a, working c'))).
Proof.
  unfold execute. intros H.
  destruct (fault env (clock c)) as [e|].
  - inversion H; subst; simpl. eauto 6.
  - destruct (stmt (now env (clock c)) (working c)) as [[a d]|e].
    + inversion H; subst; simpl. split; [reflexivity|]. split; [reflexivity|].
      right. eauto.
    + inversion H; subst; simpl. eauto 6.
Qed.

Lemma execute_no_fault {A : Type} (env : SqlEnv)
    (stmt : nat -> DB -> outcome (A * DB)) (c : Conn) (a : A) (d : DB) :
  fault env (clock c) = None ->
  stmt (now env (clock c)) (working c) = Ok (a, d) ->
  execute env stmt c = (Ok a, MkConn (durable c) d (S (clock c))).
Proof. intros Hf Hs. unfold execute. rewrite Hf, Hs. reflexivity. Qed.

Lemma frame_eq_refl (r : tender_row) : frame_eq r r.
Proof. unfold frame_eq. tauto. Qed.

Lemma frame_eq_set_source (p : source_fields) (t : nat) (r : tender_row) :
  frame_eq r (set_source p t r).
Proof. unfold frame_eq. simpl. tauto. Qed.

Lemma set_source_absorb (p p' : source_fields) (t t' : nat) (r : tender_row) :
  set_source p' t' (set_source p t r) = set_source p' t' r.
Proof. reflexivity. Qed.

Lemma upd_rel_frame (env : SqlEnv) (pid : string)
    (batch : list (gmap string string)) (r r' : tender_row) :
  upd_rel env pid batch r r' -> frame_eq r r'.
Proof.
  intros [->|(_ & t & p & k & _ & _ & _ & ->)].
  - apply frame_eq_refl.
  - apply frame_eq_set_source.
Qed.

Lemma touched_mono (env : SqlEnv) (pid : string)
    (b b' : list (gmap string string)) (r r' : tender_row) :
  (forall t, In t b -> In t b') ->
  touched env pid b r r' -> touched env pid b' r r'.
Proof.
  intros Hsub (Hp & t & p & k & Ht & Hh & Hs & ->).
  split; [exact Hp|]. exists t, p, k. auto.
Qed.

Lemma upd_rel_mono (env : SqlEnv) (pid : string)
    (b b' : list (gmap string string)) (r r' : tender_row) :
  (forall t, In t b -> In t b') ->
  upd_rel env pid b r r' -> upd_rel env pid b' r r'.
Proof.
  intros Hsub [->|H]; [left; reflexivity|right].
  eapply touched_mono; eauto.
Qed.

(** Two overwrites in a row are one overwrite by the later record. *)
Lemma upd_rel_trans (env : SqlEnv) (pid : string)
    (t : gmap string string) (rest : list (gmap string string))
    (r r1 r2 : tender_row) :
  upd_rel env pid [t] r r1 -> upd_rel env pid rest r1 r2 ->
  upd_rel env pid (t :: rest) r r2.
Proof.
  intros H1 H2. destruct H2 as [->|(Hp & t' & p' & k' & Ht' & Hh' & Hs' & ->)].
  - eapply upd_rel_mono; [|exact H1]. intros x [<-|[]]. left. reflexivity.
  - right. destruct H1 as [->|(Hp1 & t1 & p1 & k1 & _ & _ & _ & ->)].
    + split; [exact Hp|]. exists t', p', k'. simpl. auto.
    + split; [exact Hp1|]. exists t', p', k'. simpl in *. auto.
Qed.

(** ** The store: the upsert loop *)

Lemma sql_bind_inv {A B : Type} (m : sql A) (k : A -> sql B)
    (c c' : Conn) (r : outcome B) :
  (m ≫= k) c = (r, c') ->
  (exists e, m c = (Raise e, c') /\ r = Raise e)
  \/ (exists a c1, m c = (Ok a, c1) /\ k a c1 = (r, c')).
Proof.
  unfold mbind, sql_bind. destruct (m c) as [[a|e] c1]; intros H.
  - right. eauto.
  - left. inversion H; subst. eauto.
Qed.

Lemma py_inv {A : Type} (o : outcome A) (c c' : Conn) (r : outcome A) :
  py o c = (r, c') -> r = o /\ c' = c.
Proof. unfold py. intros H. inversion H. auto. Qed.

Lemma read_insert_source (t : gmap string string) (p : source_fields)
    (wd : string) :
  read_insert t = Ok (p, wd) -> read_source t = Ok p.
Proof.
  unfold read_insert, read_source, mbind, outcome_bind, mret, outcome_ret.
  repeat (match goal with
          | |- context [dict_item ?d ?k] => destruct (dict_item d k)
          end; try discriminate).
  intros H. inversion H. reflexivity.
Qed.

Lemma Forall2_map_same {A : Type} (R : A -> A -> Prop) (g : A -> A)
    (l : list A) :
  (forall x, In x l -> R x (g x)) -> Forall2 R l (map g l).
Proof.
  induction l as [|x l IH]; intros H; simpl; constructor.
  - apply H. left. reflexivity.
  - apply IH. intros y Hy. apply H. right. exact Hy.
Qed.

Lemma Forall2_map_left {A B : Type} (R : A -> B -> Prop) (g : A -> A)
    (l : list A) : forall k,
  Forall2 R (map g l) k -> Forall2 (fun x y => R (g x) y) l k.
Proof.
  induction l as [|x l IH]; intros k H; simpl in H; inversion H; subst;
    constructor; auto.
Qed.

Lemma Forall2_impl_In_l {A B : Type} (R S : A -> B -> Prop)
    (l : list A) (k : list B) :
  Forall2 R l k -> (forall x y, In x l -> R x y -> S x y) -> Forall2 S l k.
Proof.
  induction 1 as [|x y l k Hxy _ IH]; intros HS; constructor.
  - apply HS; [left; reflexivity|exact Hxy].
  - apply IH. intros a b Ha. apply HS. right. exact Ha.
Qed.

Lemma Forall2_singleton_l {A B : Type} (R : A -> B -> Prop) (x : A)
    (k : list B) :
  Forall2 R [x] k -> exists y, k = [y] /\ R x y.
Proof.
  intros H. inversion H as [|a b l1 l2 Hxy Hrest]. inversion Hrest. eauto.
Qed.

Lemma Forall2_same {A : Type} (R : A -> A -> Prop) (l : list A) :
  (forall x, In x l -> R x x) -> Forall2 R l l.
Proof.
  intros H. rewrite <- (map_id l) at 2. apply Forall2_map_same. exact H.
Qed.

Lemma present_frame (pid : string) (l l' ext : list tender_row)
    (t : gmap string string) :
  Forall2 frame_eq l l' -> present pid l t -> present pid (l' ++ ext) t.
Proof.
  intros HF (h & Hh & Hp). exists h. split; [exact Hh|].
  apply existsb_matches in Hp as (r & Hr & Hpid & Hhash).
  apply existsb_matches.
  apply list_elem_of_In, list_elem_of_lookup in Hr as [n Hn].
  destruct (Forall2_lookup_l _ _ _ n r HF Hn) as (r' & Hn' & Hfr).
  exists r'. split.
  - apply in_or_app. left. apply list_elem_of_In.
    eapply list_elem_of_lookup_2. exact Hn'.
  - destruct Hfr as (_ & Hp' & Hh' & _). split; congruence.
Qed.

Lemma select_existing_inv (env : SqlEnv) (pid h : string) (c c' : Conn)
    (r : outcome (option nat)) :
  select_existing env pid h c = (r, c') ->
  durable c' = durable c /\ working c' = working c
  /\ clock c' = S (clock c)
  /\ forall o, r = Ok o ->
       o = row_id <$> List.find (matches pid h) (tenders (working c)).
Proof.
  intros H. apply execute_inv in H as (Hd & Hc & [(e & -> & Hw)|(a & -> & _ & Hs)]).
  - repeat split; auto. discriminate.
  - inversion Hs as [[Ha Hw]]. repeat split; auto. intros o Ho. congruence.
Qed.

Lemma update_source_inv (env : SqlEnv) (pid h : string) (p : source_fields)
    (c c' : Conn) (r : outcome nat) :
  update_source env pid h p c = (r, c') ->
  durable c' = durable c /\ clock c' = S (clock c)
  /\ ((exists e, r = Raise e /\ working c' = working c)
      \/ (r = Ok (update_where pid h (set_source p (now env (clock c)))
                               (working c)).1
          /\ working c'
             = (update_where pid h (set_source p (now env (clock c)))
                             (working c)).2)).
Proof.
  intros H. apply execute_inv in H as (Hd & Hc & [(e & -> & Hw)|(a & -> & _ & Hs)]).
  - eauto 6.
  - split; [exact Hd|]. split; [exact Hc|right]. cbv beta in Hs.
    destruct (update_where pid h (set_source p (now env (clock c))) (working c))
      as [n d] eqn:E.
    inversion Hs; subst. auto.
Qed.

Lemma insert_tender_inv (env : SqlEnv) (pid h : string) (p : source_fields)
    (wd st : string) (c c' : Conn) (r : outcome nat) :
  insert_tender env pid h p wd st c = (r, c') ->
  durable c' = durable c /\ clock c' = S (clock c)
  /\ ((exists e, r = Raise e /\ working c' = working c)
      \/ (r = Ok 1
          /\ exists row,
               portal_id row = pid /\ identity_hash row = h
               /\ working c'
                  = set_tenders (working c) (tenders (working c) ++ [row])
                                (S (tenders_seq (working c))))).
Proof.
  intros H. apply execute_inv in H as (Hd & Hc & [(e & -> & Hw)|(a & -> & _ & Hs)]).
  - eauto 6.
  - split; [exact Hd|]. split; [exact Hc|right].
    destruct (existsb (matches pid h) (tenders (working c))); [discriminate|].
    inversion Hs as [[Ha Hw]]. split; [reflexivity|].
    eexists. split; [|split; [|reflexivity]]; reflexivity.
Qed.

Lemma rowcount_positive (pid h : string) (l : list tender_row)
    (r : tender_row) :
  In r l -> matches pid h r = true ->
  Nat.ltb 0 (length (filter (fun r => matches pid h r = true) l)) = true.
Proof.
  intros Hr Hm. apply Nat.ltb_lt.
  assert (Hin : r ∈ filter (fun r => matches pid h r = true) l).
  { apply list_elem_of_filter. split; [exact Hm|]. apply list_elem_of_In, Hr. }
  destruct (filter _ l); [inversion Hin|simpl; lia].
Qed.

(** A loop that stops on an exception before writing. *)
Lemma loop_post_raise (env : SqlEnv) (pid : string)
    (batch : list (gmap string string)) (i u : nat) (c c' : Conn) (e : string) :
  durable c' = durable c -> clock c <= clock c' -> working c' = working c ->
  loop_post env pid batch i u c (Raise e) c'.
Proof.
  intros Hd Hc Hw. unfold loop_post. rewrite Hw.
  split; [exact Hd|]. split; [exact Hc|]. split; [reflexivity|].
  exists (tenders (working c)), []. split; [rewrite app_nil_r; reflexivity|].
  split; [|split; [constructor|discriminate]].
  apply Forall2_same. intros x _. split; [left; reflexivity|discriminate].
Qed.

Lemma touched_then_upd (env : SqlEnv) (pid : string)
    (t : gmap string string) (rest : list (gmap string string))
    (r r1 r2 : tender_row) :
  touched env pid [t] r r1 -> upd_rel env pid rest r1 r2 ->
  touched env pid (t :: rest) r r2.
Proof.
  intros (Hp & t1 & p1 & k1 & Ht1 & Hh1 & Hs1 & ->) H2.
  destruct H2 as [->|(_ & t' & p' & k' & Ht' & Hh' & Hs' & ->)].
  - split; [exact Hp|]. exists t1, p1, k1.
    destruct Ht1 as [<-|[]]. simpl. auto.
  - split; [exact Hp|]. exists t', p', k'. simpl in *. auto.
Qed.

Lemma covered_cons_inv (pid : string) (t : gmap string string)
    (rest : list (gmap string string)) (h : string) (r : tender_row) :
  dict_item t K_HASH = Ok h -> covered pid (t :: rest) r ->
  matches pid h r = true \/ covered pid rest r.
Proof.
  intros Hh (Hp & t0 & [<-|Ht0] & Hh0).
  - left. apply matches_true. split; [exact Hp|]. congruence.
  - right. split; [exact Hp|]. eauto.
Qed.

Lemma covered_mono (pid : string) (b b' : list (gmap string string))
    (r : tender_row) :
  (forall t, In t b -> In t b') -> covered pid b r -> covered pid b' r.
Proof. intros Hsub (Hp & t & Ht & Hh). split; [exact Hp|]. eauto. Qed.

Lemma covered_frame (pid : string) (b : list (gmap string string))
    (r r' : tender_row) :
  frame_eq r r' -> covered pid b r -> covered pid b r'.
Proof.
  intros (_ & Hp & Hh & _) (Hpid & t & Ht & Hd).
  split; [congruence|]. exists t. split; [exact Ht|]. congruence.
Qed.

(** Composition of the first iteration with the rest of the loop, on a
    row that the first iteration maps to [g r]. *)
Lemma row_post_cons (env : SqlEnv) (pid : string) (t : gmap string string)
    (rest : list (gmap string string)) (ok : bool) (h : string)
    (r r1 r2 : tender_row) :
  dict_item t K_HASH = Ok h ->
  (r1 = r /\ matches pid h r = false
   \/ touched env pid [t] r r1) ->
  row_post env pid rest ok r1 r2 ->
  row_post env pid (t :: rest) ok r r2.
Proof.
  intros Hh H1 (Hu & Hc). split.
  - destruct H1 as [(-> & _)|H1].
    + eapply upd_rel_mono; [|exact Hu]. intros x Hx. right. exact Hx.
    + right. eapply touched_then_upd; eauto.
  - intros Hok Hcov. destruct H1 as [(-> & Hm)|H1].
    + destruct (covered_cons_inv _ _ _ _ _ Hh Hcov) as [Hm'|Hcov'];
        [congruence|].
      eapply touched_mono; [|exact (Hc Hok Hcov')].
      intros x Hx. right. exact Hx.
    + eapply touched_then_upd; eauto.
Qed.

Lemma upsert_loop_spec (env : SqlEnv) (pid : string)
    (batch : list (gmap string string)) :
  forall i u c r c',
    upsert_loop env pid batch i u c = (r, c') ->
    loop_post env pid batch i u c r c'.
Proof.
  induction batch as [|t rest IH]; intros i u c r c' H.
  - simpl in H. inversion H; subst.
    unfold loop_post. split; [reflexivity|]. split; [lia|].
    split; [reflexivity|].
    exists (tenders (working c')), []. rewrite app_nil_r.
    split; [reflexivity|]. split.
    + apply Forall2_same. intros x _. split; [left; reflexivity|].
      intros _ (_ & t & [] & _).
    + split; [constructor|]. intros i' u' E. inversion E; subst. simpl.
      repeat split; try lia; constructor.
  - simpl in H.
    apply sql_bind_inv in H as [(e & H1 & ->)|(h & c1 & H1 & H)].
    { apply py_inv in H1 as [_ ->]. apply loop_post_raise; auto. }
    apply py_inv in H1 as [Hh ->]. symmetry in Hh.
    apply sql_bind_inv in H as [(e & H2 & ->)|(ex & c2 & H2 & H)].
    { apply select_existing_inv in H2 as (Hd & Hw & Hc & _).
      apply loop_post_raise; auto; lia. }
    apply select_existing_inv in H2 as (Hd2 & Hw2 & Hc2 & Hex).
    specialize (Hex _ eq_refl).
    pose proof (find_matches pid h (tenders (working c))) as Hfind.
    destruct (List.find (matches pid h) (tenders (working c))) as [r0|];
      simpl in Hex; subst ex.
    + destruct Hfind as [Hr0 Hm0].
      apply sql_bind_inv in H as [(e & H3 & ->)|(p & c3 & H3 & H)].
      { apply py_inv in H3 as [_ ->]. apply loop_post_raise; auto; lia. }
      apply py_inv in H3 as [Hp ->]. symmetry in Hp.
      apply sql_bind_inv in H as [(e & H4 & ->)|(rc & c4 & H4 & H)].
      { apply update_source_inv in H4 as (Hd4 & Hc4 & [(e' & _ & Hw4)|(E & _)]);
          [|discriminate].
        apply loop_post_raise; [congruence|lia|congruence]. }
      apply update_source_inv in H4 as (Hd4 & Hc4 & [(e' & E & _)|(Erc & Hw4)]);
        [discriminate|].
      injection Erc as ->. rewrite Hw2 in *.
      rewrite (rowcount_positive _ _ _ r0 Hr0 Hm0) in H.
      apply IH in H.
      destruct H as (Hd & Hc & Ho & olds & news & Ht & HF & Hnews & Hok).
      unfold loop_post. split; [congruence|]. split; [lia|].
      split; [rewrite Ho, Hw4; reflexivity|].
      exists olds, news. split; [exact Ht|].
      assert (HF' := HF). rewrite Hw4 in HF. simpl in HF.
      split.
      { apply Forall2_map_left in HF.
        eapply Forall2_impl; [exact HF|]. intros x y Hxy. simpl in Hxy.
        eapply row_post_cons; [exact Hh| |exact Hxy].
        destruct (matches pid h x) eqn:Hm; [right|left; auto].
        apply matches_true in Hm as [Hpx Hhx].
        split; [exact Hpx|]. exists t, p, (clock c2).
        split; [left; reflexivity|]. split; [congruence|]. auto. }
      split.
      { eapply Forall_impl; [exact Hnews|].
        intros x Hx. eapply covered_mono; [|exact Hx]. intros; right; auto. }
      intros i' u' E. destruct (Hok _ _ E) as (Hi & Hsum & Hread & Hpres).
      split; [exact Hi|]. split; [simpl; lia|]. split.
      { constructor; [exists h, p; auto|exact Hread]. }
      constructor; [|exact Hpres].
      rewrite Ht. eapply present_frame.
      { eapply Forall2_impl; [exact HF'|].
        intros x y [Hu _]. eapply upd_rel_frame, Hu. }
      exists h. split; [exact Hh|]. apply existsb_matches.
      rewrite Hw4. simpl.
      exists (set_source p (now env (clock c2)) r0). split.
      { apply in_map_iff. exists r0. rewrite Hm0. auto. }
      apply matches_true in Hm0. simpl. exact Hm0.
    + apply sql_bind_inv in H as [(e & H3 & ->)|([p wd] & c3 & H3 & H)].
      { apply py_inv in H3 as [_ ->]. apply loop_post_raise; auto; lia. }
      apply py_inv in H3 as [Hp ->]. symmetry in Hp. simpl in H.
      apply sql_bind_inv in H as [(e & H4 & ->)|(rc & c4 & H4 & H)].
      { apply insert_tender_inv in H4
          as (Hd4 & Hc4 & [(e' & _ & Hw4)|(E & _)]); [|discriminate].
        apply loop_post_raise; [congruence|lia|congruence]. }
      apply insert_tender_inv in H4
        as (Hd4 & Hc4 & [(e' & E & _)|(Erc & row & Hrp & Hrh & Hw4)]);
        [discriminate|].
      injection Erc as ->. simpl in H. rewrite Hw2 in *.
      apply IH in H.
      destruct H as (Hd & Hc & Ho & olds & news & Ht & HF & Hnews & Hok).
      rewrite Hw4 in HF. simpl in HF.
      apply Forall2_app_inv_l in HF as (o1 & o2 & HF1 & HF2 & ->).
      apply Forall2_singleton_l in HF2 as (row' & -> & Hrow).
      assert (Hfr : frame_eq row row') by (eapply upd_rel_frame, Hrow).
      unfold loop_post. split; [congruence|]. split; [lia|].
      split; [rewrite Ho, Hw4; reflexivity|].
      exists o1, (row' :: news).
      split; [rewrite Ht, <- app_assoc; reflexivity|].
      split.
      { eapply Forall2_impl_In_l; [exact HF1|]. intros x y Hx Hxy.
        eapply row_post_cons; [exact Hh| |exact Hxy].
        left. auto. }
      split.
      { constructor.
        - eapply covered_frame; [exact Hfr|]. split; [exact Hrp|].
          exists t. split; [left; reflexivity|]. congruence.
        - eapply Forall_impl; [exact Hnews|].
          intros x Hx. eapply covered_mono; [|exact Hx]. intros; right; auto. }
      intros i' u' E. destruct (Hok _ _ E) as (Hi & Hsum & Hread & Hpres).
      split; [simpl; lia|]. split; [simpl; lia|]. split.
      { constructor; [|exact Hread]. exists h, p. split; [exact Hh|].
        eapply read_insert_source, Hp. }
      constructor; [|exact Hpres].
      exists h. split; [exact Hh|]. apply existsb_matches.
      exists row'. rewrite Ht. split.
      { apply in_or_app. left. apply in_or_app. right. left. reflexivity. }
      destruct Hfr as (_ & Hp' & Hh' & _). split; congruence.
Qed.

(** *** A batch whose hashes are all stored already *)

Lemma update_where_frame (pid h : string) (p : source_fields) (ts : nat)
    (d : DB) :
  Forall2 frame_eq (tenders d) (tenders (update_where pid h (set_source p ts) d).2).
Proof.
  simpl. apply Forall2_map_same. intros x _.
  destruct (matches pid h x);
    [apply frame_eq_set_source|apply frame_eq_refl].
Qed.

Lemma present_update_where (pid h' : string) (p : source_fields) (ts : nat)
    (d : DB) (batch : list (gmap string string)) :
  Forall (present pid (tenders d)) batch ->
  Forall (present pid (tenders (update_where pid h' (set_source p ts) d).2))
         batch.
Proof.
  intros H. eapply Forall_impl; [exact H|]. intros t Ht.
  rewrite <- (app_nil_r (tenders _)).
  eapply present_frame; [apply update_where_frame|exact Ht].
Qed.

Lemma present_find (pid h : string) (l : list tender_row)
    (t : gmap string string) :
  dict_item t K_HASH = Ok h -> present pid l t ->
  exists r0, List.find (matches pid h) l = Some r0
             /\ In r0 l /\ matches pid h r0 = true.
Proof.
  intros Hh (h' & Hh' & Hp). assert (h' = h) as -> by congruence.
  pose proof (find_matches pid h l) as Hf.
  destruct (List.find (matches pid h) l) as [r0|].
  - exists r0. tauto.
  - apply existsb_exists in Hp as (r & Hr & Hm).
    rewrite (Hf r Hr) in Hm. discriminate.
Qed.

Lemma upsert_loop_again (env : SqlEnv) (pid : string)
    (batch : list (gmap string string)) :
  forall i u c r c',
    Forall (present pid (tenders (working c))) batch ->
    upsert_loop env pid batch i u c = (r, c') ->
    length (tenders (working c')) = length (tenders (working c))
    /\ forall i' u', r = Ok (i', u') -> i' = i /\ u' = u + length batch.
Proof.
  induction batch as [|t rest IH]; intros i u c r c' Hpres H.
  - simpl in H. inversion H; subst. split; [reflexivity|].
    intros i' u' E. inversion E. simpl. lia.
  - simpl in H. inversion Hpres as [|? ? Ht Hrest]; subst.
    apply sql_bind_inv in H as [(e & H1 & ->)|(h & c1 & H1 & H)].
    { apply py_inv in H1 as [_ ->]. split; [reflexivity|discriminate]. }
    apply py_inv in H1 as [Hh ->]. symmetry in Hh.
    apply sql_bind_inv in H as [(e & H2 & ->)|(ex & c2 & H2 & H)].
    { apply select_existing_inv in H2 as (_ & Hw & _).
      rewrite Hw. split; [reflexivity|discriminate]. }
    apply select_existing_inv in H2 as (Hd2 & Hw2 & Hc2 & Hex).
    specialize (Hex _ eq_refl).
    destruct (present_find pid h _ t Hh Ht) as (r0 & Hfind & Hr0 & Hm0).
    rewrite Hfind in Hex. simpl in Hex. subst ex.
    apply sql_bind_inv in H as [(e & H3 & ->)|(p & c3 & H3 & H)].
    { apply py_inv in H3 as [_ ->]. rewrite Hw2.
      split; [reflexivity|discriminate]. }
    apply py_inv in H3 as [Hp ->].
    apply sql_bind_inv in H as [(e & H4 & ->)|(rc & c4 & H4 & H)].
    { apply update_source_inv in H4 as (_ & _ & [(e' & _ & Hw4)|(E & _)]);
        [|discriminate].
      rewrite Hw4, Hw2. split; [reflexivity|discriminate]. }
    apply update_source_inv in H4 as (Hd4 & Hc4 & [(e' & E & _)|(Erc & Hw4)]);
      [discriminate|].
    injection Erc as ->. rewrite Hw2 in *.
    rewrite (rowcount_positive _ _ _ r0 Hr0 Hm0) in H.
    apply IH in H.
    + destruct H as [Hlen Hcnt]. split.
      * rewrite Hlen, Hw4. simpl. apply length_map.
      * intros i' u' E. destruct (Hcnt _ _ E). simpl. lia.
    + rewrite Hw4. apply present_update_where. exact Hrest.
Qed.

Lemma upsert_loop_returns (env : SqlEnv) (pid : string)
    (batch : list (gmap string string)) :
  forall i u c,
    Forall readable batch ->
    Forall (present pid (tenders (working c))) batch ->
    no_faults_from env (clock c) ->
    exists c', upsert_loop env pid batch i u c = (Ok (i, u + length batch), c')
               /\ clock c <= clock c'.
Proof.
  induction batch as [|t rest IH]; intros i u c Hread Hpres Hnf.
  - exists c. simpl. rewrite Nat.add_0_r. split; [reflexivity|lia].
  - inversion Hread as [|? ? (h & p & Hh & Hp) Hread']; subst.
    inversion Hpres as [|? ? Ht Hrest]; subst.
    destruct (present_find pid h _ t Hh Ht) as (r0 & Hfind & Hr0 & Hm0).
    assert (Hf0 : fault env (clock c) = None) by (apply Hnf; lia).
    assert (Hf1 : fault env (S (clock c)) = None) by (apply Hnf; lia).
    destruct (IH i (S u)
      (MkConn (durable c)
         (update_where pid h (set_source p (now env (S (clock c)))) (working c)).2
         (S (S (clock c)))) Hread') as (c' & E & Hc').
    { apply present_update_where. exact Hrest. }
    { intros k Hk. apply Hnf. simpl in Hk. lia. }
    exists c'. split; [|simpl in Hc'; lia].
    simpl. unfold mbind at 1, sql_bind, py. rewrite Hh.
    unfold mbind at 1, sql_bind, select_existing.
    erewrite execute_no_fault; [|exact Hf0|reflexivity].
    rewrite Hfind. simpl.
    unfold mbind at 1, sql_bind, py. rewrite Hp.
    unfold mbind at 1, sql_bind, update_source.
    erewrite execute_no_fault; [|exact Hf1|reflexivity].
    simpl. rewrite (rowcount_positive _ _ _ r0 Hr0 Hm0).
    replace (u + S (length rest)) with (S u + length rest) by lia.
    exact E.
Qed.

(** *** [upsert_tenders_batch] *)

Lemma upsert_loop_faultless (env : SqlEnv) (pid : string)
    (batch : list (gmap string string)) :
  forall i u c r c',
    upsert_loop env pid batch i u c = (Ok r, c') ->
    forall k, clock c <= k < clock c' -> fault env k = None.
Proof.
  induction batch as [|t rest IH]; intros i u c r c' H k Hk.
  - simpl in H. inversion H; subst. lia.
  - simpl in H.
    apply sql_bind_inv in H as [(e & _ & E)|(h & c1 & H1 & H)];
      [discriminate|].
    apply py_inv in H1 as [_ ->].
    apply sql_bind_inv in H as [(e & _ & E)|(ex & c2 & H2 & H)];
      [discriminate|].
    apply execute_inv in H2 as (_ & Hc2 & [(e & E & _)|(a & _ & Hf2 & _)]);
      [discriminate|].
    destruct ex as [x|].
    + apply sql_bind_inv in H as [(e & _ & E)|(p & c3 & H3 & H)];
        [discriminate|].
      apply py_inv in H3 as [_ ->].
      apply sql_bind_inv in H as [(e & _ & E)|(rc & c4 & H4 & H)];
        [discriminate|].
      apply execute_inv in H4 as (_ & Hc4 & [(e & E & _)|(a' & _ & Hf4 & _)]);
        [discriminate|].
      destruct (Nat.eq_dec k (clock c)) as [->|]; [exact Hf2|].
      destruct (Nat.eq_dec k (clock c2)) as [->|]; [exact Hf4|].
      eapply IH; [exact H|]. lia.
    + apply sql_bind_inv in H as [(e & _ & E)|(p & c3 & H3 & H)];
        [discriminate|].
      apply py_inv in H3 as [_ ->].
      apply sql_bind_inv in H as [(e & _ & E)|(rc & c4 & H4 & H)];
        [discriminate|].
      apply execute_inv in H4 as (_ & Hc4 & [(e & E & _)|(a' & _ & Hf4 & _)]);
        [discriminate|].
      destruct (Nat.eq_dec k (clock c)) as [->|]; [exact Hf2|].
      destruct (Nat.eq_dec k (clock c2)) as [->|]; [exact Hf4|].
      eapply IH; [exact H|]. lia.
Qed.

Lemma commit_inv (env : SqlEnv) (c c' : Conn) (r : outcome unit) :
  commit env c = (r, c') ->
  clock c' = S (clock c)
  /\ ((exists e, r = Raise e /\ durable c' = durable c)
      \/ (r = Ok tt /\ fault env (clock c) = None /\ durable c' = working c)).
Proof.
  unfold commit. destruct (fault env (clock c)) as [e|]; intros H;
    inversion H; subst; simpl; eauto 6.
Qed.

(** The two ways out of [upsert_tenders_batch]. *)
Lemma upsert_tenders_batch_inv (env : SqlEnv) (pid : string)
    (batch : list (gmap string string)) (s s' : Store)
    (r : outcome (nat * nat)) :
  upsert_tenders_batch env pid batch s = (r, s') ->
  (exists e, r = Raise e /\ db s' = db s /\ tick s <= tick s')
  \/ (exists i u c',
        r = Ok (i, u)
        /\ upsert_loop env pid batch 0 0 (get_connection s) = (Ok (i, u), c')
        /\ fault env (clock c') = None
        /\ db s' = working c' /\ tick s' = S (clock c')).
Proof.
  unfold upsert_tenders_batch. intros H.
  destruct ((upsert_loop env pid batch 0 0 ≫= _) (get_connection s))
    as [r0 c0] eqn:E.
  apply sql_bind_inv in E as [(e & E1 & ->)|([i u] & c1 & E1 & E)].
  - left. inversion H; subst.
    apply upsert_loop_spec in E1 as (Hd & Hc & _). simpl in *.
    exists e. auto.
  - pose proof (upsert_loop_spec _ _ _ _ _ _ _ _ E1) as (Hd & Hc & _).
    apply sql_bind_inv in E as [(e & E2 & ->)|([] & c2 & E2 & E)].
    + left. inversion H; subst.
      apply commit_inv in E2 as (Hc2 & [(e' & _ & Hd2)|(E' & _)]);
        [|discriminate].
      simpl in *. exists e. split; [reflexivity|]. split; [congruence|lia].
    + apply commit_inv in E2 as (Hc2 & [(e' & E' & _)|(_ & Hf & Hd2)]);
        [discriminate|].
      inversion E; subst. inversion H; subst. simpl.
      right. exists i, u, c1. auto.
Qed.

Lemma row_post_true (env : SqlEnv) (pid : string)
    (batch : list (gmap string string)) (r : outcome (nat * nat))
    (l k : list tender_row) :
  returns r = true ->
  Forall2 (row_post env pid batch (returns r)) l k ->
  Forall2 (row_post env pid batch true) l k.
Proof. intros ->. auto. Qed.

(** What a call of [upsert_tenders_batch] leaves behind, by result. *)
Lemma upsert_tenders_batch_outcome (env : SqlEnv) (pid : string)
    (batch : list (gmap string string)) (s : Store) :
  match upsert_tenders_batch env pid batch s with
  | (Ok (inserted, updated), s') =>
      batch_applied env pid batch s s' inserted updated
  | (Raise e, s') => db s' = db s
  end.
Proof.
  destruct (upsert_tenders_batch env pid batch s) as [r s'] eqn:E.
  apply upsert_tenders_batch_inv in E
    as [(e & -> & Hdb & _)|(i & u & c' & -> & Hloop & Hf & Hdb & Htick)].
  - exact Hdb.
  - pose proof (upsert_loop_faultless _ _ _ _ _ _ _ _ Hloop) as Hfl.
    apply upsert_loop_spec in Hloop
      as (Hd & Hc & Ho & olds & news & Ht & HF & Hnews & Hok).
    destruct (Hok _ _ eq_refl) as (Hi & Hsum & Hread & Hpres).
    simpl in *. unfold batch_applied. rewrite Hdb.
    split; [lia|]. split; [exact Hread|]. split; [exact Hpres|].
    split; [exact Ho|]. split.
    + intros k Hk. destruct (Nat.eq_dec k (clock c')) as [->|];
        [exact Hf|]. apply Hfl. lia.
    + exists olds, news. auto.
Qed.

(** C4: [upsert_tenders_batch] is atomic.  Whatever the batch, the store
    and the faults of SQLite, either the call returns its two counters and
    every record of the batch has been applied and committed, or it raises
    and the committed store is the store from before the call. *)
Theorem upsert_tenders_batch_atomic (env : SqlEnv) (pid : string)
    (batch : list (gmap string string)) (s : Store) :
  match upsert_tenders_batch env pid batch s with
  | (Ok (inserted, updated), s') =>
      batch_applied env pid batch s s' inserted updated
  | (Raise e, s') => db s' = db s
  end.
Proof.
  pose proof (upsert_tenders_batch_outcome env pid batch s) as H.
  destruct (upsert_tenders_batch env pid batch s) as [[[inserted updated]|e] s'].
  - exact H.
  - exact H.
Qed.

Example upsert_fault_rolls_back :
  upsert_tenders_batch faulty_env "WB" sample_batch empty_store
  = (Raise "database is locked", MkStore empty_db 4).
Proof. vm_compute. reflexivity. Qed.

Example upsert_missing_key_rolls_back :
  upsert_tenders_batch sample_env "WB"
    [sample_tender "Supply of pumps" "01-Jan-2025" "PWD" "/t?id=1" "1.";
     delete K_URL (sample_tender "Road repair" "01-Jan-2025" "PWD" "" "2.")]
    empty_store
  = (Raise "'Details URL'", MkStore empty_db 3).
Proof. vm_compute. reflexivity. Qed.

Lemma Forall2_frame_length (l k : list tender_row) :
  Forall2 frame_eq l k -> map row_key l = map row_key k.
Proof.
  induction 1 as [|x y l k (_ & Hp & Hh & _) _ IH]; simpl; [reflexivity|].
  unfold row_key at 1 3. rewrite Hp, Hh, IH. reflexivity.
Qed.

(** C3: [upsert_tenders_batch] is idempotent.  After one successful
    application of a batch, a second application inserts no row: if it
    returns, it returns (0, len(batch)); it leaves the same rows under the
    same keys, changing at most their source fields and updated_at; and it
    does return when SQLite raises no error. *)
Theorem upsert_tenders_batch_idempotent (env : SqlEnv) (pid : string)
    (batch : list (gmap string string)) (s s1 : Store) (r1 : nat * nat) :
  upsert_tenders_batch env pid batch s = (Ok r1, s1) ->
  (forall r2 s2,
     upsert_tenders_batch env pid batch s1 = (r2, s2) ->
     Forall2 frame_eq (tenders (db s1)) (tenders (db s2))
     /\ map row_key (tenders (db s2)) = map row_key (tenders (db s1))
     /\ length (tenders (db s2)) = length (tenders (db s1))
     /\ other_tables (db s2) = other_tables (db s1)
     /\ forall i u, r2 = Ok (i, u) -> i = 0 /\ u = length batch)
  /\ (no_faults_from env (tick s1) ->
      exists s2,
        upsert_tenders_batch env pid batch s1 = (Ok (0, length batch), s2)).
Proof.
  intros H1.
  pose proof (upsert_tenders_batch_outcome env pid batch s) as Hat.
  rewrite H1 in Hat. destruct r1 as [i1 u1].
  destruct Hat as (_ & Hread & Hpres & _).
  split.
  - intros r2 s2 H2.
    apply upsert_tenders_batch_inv in H2
      as [(e & -> & Hdb & _)|(i & u & c' & -> & Hloop & Hf & Hdb & Htick)].
    + rewrite Hdb. split; [apply Forall2_same; intros; apply frame_eq_refl|].
      repeat split; discriminate.
    + pose proof (upsert_loop_again env pid batch 0 0 (get_connection s1)
                    _ _ Hpres Hloop)
        as [Hlen Hcnt].
      apply upsert_loop_spec in Hloop
        as (_ & _ & Ho & olds & news & Ht & HF & _).
      simpl in *. rewrite Hdb.
      assert (HF' : Forall2 frame_eq (tenders (db s1)) olds).
      { eapply Forall2_impl; [exact HF|].
        intros x y [Hu _]. eapply upd_rel_frame, Hu. }
      assert (news = []) as ->.
      { pose proof (Forall2_length _ _ _ HF') as Hl.
        rewrite Ht, length_app in Hlen.
        destruct news; [reflexivity|simpl in Hlen; lia]. }
      rewrite app_nil_r in Ht. rewrite Ht.
      split; [exact HF'|]. split; [symmetry; apply Forall2_frame_length, HF'|].
      split; [symmetry; eapply Forall2_length, HF'|].
      split; [exact Ho|].
      intros i' u' E. inversion E; subst. destruct (Hcnt _ _ eq_refl). lia.
  - intros Hnf.
    destruct (upsert_loop_returns env pid batch 0 0 (get_connection s1)
                Hread Hpres Hnf) as (c' & E & Hc').
    unfold upsert_tenders_batch.
    unfold mbind at 1, sql_bind. rewrite E.
    unfold mbind at 1, sql_bind, commit.
    rewrite (Hnf (clock c')) by exact Hc'. simpl. eauto.
Qed.

Lemma upsert_tenders_batch_idempotent_witness :
  exists s2,
    upsert_tenders_batch sample_env "WB" sample_batch sample_store
    = (Ok (0, 3), s2).
Proof.
  refine (proj2 (upsert_tenders_batch_idempotent sample_env "WB" sample_batch
                   empty_store sample_store (2, 1) _) _).
  - vm_compute. reflexivity.
  - intros k _. reflexivity.
Defined.

(** C5: for every row already stored under (portal_id, identity_hash),
    a successful [upsert_tenders_batch] keeps id, keys, work_description,
    phase1_status, phase2_status, ai_filtered and created_at; a row named
    by the batch gets its nine source fields from a record of the batch
    with its hash and a new updated_at; any other row is left as it is. *)
Theorem upsert_existing_frame (env : SqlEnv) (pid : string)
    (batch : list (gmap string string)) (s s' : Store) (i u : nat) :
  upsert_tenders_batch env pid batch s = (Ok (i, u), s') ->
  forall (n : nat) (row : tender_row),
    tenders (db s) !! n = Some row ->
    exists row',
      tenders (db s') !! n = Some row'
      /\ frame_eq row row'
      /\ (covered pid batch row -> touched env pid batch row row')
      /\ (~ covered pid batch row -> row' = row).
Proof.
  intros H n row Hn.
  pose proof (upsert_tenders_batch_outcome env pid batch s) as Hat.
  rewrite H in Hat.
  destruct Hat as (_ & _ & _ & _ & _ & olds & news & Ht & HF & _).
  destruct (Forall2_lookup_l _ _ _ n row HF Hn) as (row' & Hn' & Hu & Hc).
  exists row'. split.
  - rewrite Ht. apply lookup_app_l_Some. exact Hn'.
  - split; [eapply upd_rel_frame, Hu|]. split; [auto|].
    intros Hnc. destruct Hu as [->|Ht']; [reflexivity|].
    exfalso. apply Hnc. destruct Ht' as (Hp & t & p & k & Hin & Hh & _).
    split; [exact Hp|]. eauto.
Qed.

Lemma upsert_existing_frame_witness :
  exists row',
    tenders (db (upsert_tenders_batch sample_env "WB" sample_batch
                   sample_store).2) !! 0 = Some row'
    /\ frame_eq sample_row row'
    /\ (covered "WB" sample_batch sample_row ->
        touched sample_env "WB" sample_batch sample_row row')
    /\ (~ covered "WB" sample_batch sample_row -> row' = sample_row).
Proof.
  assert (H : upsert_tenders_batch sample_env "WB" sample_batch sample_store
              = (Ok (0, 3),
                 (upsert_tenders_batch sample_env "WB" sample_batch
                    sample_store).2))
    by (vm_compute; reflexivity).
  assert (Hrow : tenders (db sample_store) !! 0 = Some sample_row)
    by (vm_compute; reflexivity).
  exact (upsert_existing_frame sample_env "WB" sample_batch sample_store
           _ 0 3 H 0 sample_row Hrow).
Defined.

(** ** Pagination: the stale-element retry *)

Example retry_trace_three :
  retry_trace 3
  = [EvAttempt 1; EvSleep 1; EvSleep 2; EvAttempt 2; EvSleep 1;
     EvSleep 2; EvAttempt 3; EvSleep 1].
Proof. reflexivity. Qed.

(** C9, as stated, fails: an error that is not of the stale class is
    caught and turned into "no next page". *)
Lemma other_errors_do_not_propagate : ~ other_errors_propagate.
Proof.
  intros H.
  specialize (H "https://wbtenders.gov.in" timeout_page
                "Timeout 45000ms exceeded." eq_refl eq_refl).
  vm_compute in H. discriminate H.
Qed.

(** The ways through the retry loop. *)
Lemma get_next_page_link_cases (base_url : string) (page : Page) :
  exists (n : nat) (r : option string),
    1 <= n <= max_stale_retries
    /\ get_next_page_link_with_retry base_url page = (Ok r, retry_trace n)
    /\ (forall a, 1 <= a < n ->
          exists e, attempt_result base_url page a = Raise e
                    /\ is_stale e = true)
    /\ (attempt_result base_url page n = Ok r
        \/ exists e, attempt_result base_url page n = Raise e
                     /\ r = None
                     /\ (is_stale e = false \/ n = max_stale_retries)).
Proof.
  unfold get_next_page_link_with_retry, max_stale_retries. simpl seq.
  cbn [next_link_attempts].
  fold (attempt_result base_url page 1) (attempt_result base_url page 2)
       (attempt_result base_url page 3).
  destruct (attempt_result base_url page 1) as [r1|e1] eqn:E1.
  { exists 1, r1. split; [lia|]. split; [reflexivity|].
    split; [intros a Ha; lia|]. left. exact E1. }
  destruct (is_stale e1) eqn:S1.
  2:{ exists 1, None. split; [lia|]. split; [reflexivity|].
      split; [intros a Ha; lia|]. right. exists e1. auto. }
  change (Nat.ltb 1 max_stale_retries) with true. cbv iota.
  destruct (attempt_result base_url page 2) as [r2|e2] eqn:E2.
  { exists 2, r2. split; [lia|]. split; [reflexivity|]. split.
    - intros a Ha. assert (a = 1) as -> by lia. eauto.
    - left. exact E2. }
  destruct (is_stale e2) eqn:S2.
  2:{ exists 2, None. split; [lia|]. split; [reflexivity|]. split.
      - intros a Ha. assert (a = 1) as -> by lia. eauto.
      - right. exists e2. auto. }
  change (Nat.ltb 2 max_stale_retries) with true. cbv iota.
  assert (Hprev : forall a, 1 <= a < 3 ->
            exists e, attempt_result base_url page a = Raise e
                      /\ is_stale e = true).
  { intros a Ha. assert (a = 1 \/ a = 2) as [-> | ->] by lia; eauto. }
  destruct (attempt_result base_url page 3) as [r3|e3] eqn:E3.
  { exists 3, r3. split; [lia|]. split; [reflexivity|]. split; [exact Hprev|].
    left. exact E3. }
  exists 3, None. split; [lia|]. split.
  - destruct (is_stale e3); reflexivity.
  - split; [exact Hprev|]. right. exists e3. auto.
Qed.

(** C9, amended: [get_next_page_link_with_retry] never raises.  It makes
    [n] attempts with [1 <= n <= 3]; every attempt before the last raised
    an error of the stale class and was followed by the 2-second sleep;
    the last attempt either returned the result, or raised and the call
    returns None, which happens for an error of another class at once and
    for a stale error at the third attempt. *)
Theorem get_next_page_link_retry_policy (base_url : string) (page : Page) :
  exists (n : nat) (r : option string),
    1 <= n <= max_stale_retries
    /\ get_next_page_link_with_retry base_url page = (Ok r, retry_trace n)
    /\ (forall a, 1 <= a < n ->
          exists e, attempt_result base_url page a = Raise e
                    /\ is_stale e = true)
    /\ (attempt_result base_url page n = Ok r
        \/ exists e, attempt_result base_url page n = Raise e
                     /\ r = None
                     /\ (is_stale e = false \/ n = max_stale_retries)).
Proof.
  destruct (get_next_page_link_cases base_url page) as (n & r & H).
  exists n, r. exact H.
Qed.

(** ** Pagination: the end-of-data check *)

Lemma end_of_data_unavailable (q : outcome (option Element)) :
  end_of_data q -> (is_next_button_available q).1 = false.
Proof.
  unfold is_next_button_available, next_button_checks.
  intros [->|el -> Hv|el c -> Hc Hd|el v -> Ha|el href -> Hh Hi];
    cbn [mbind outcome_bind mret outcome_ret].
  - reflexivity.
  - rewrite Hv. reflexivity.
  - rewrite Hc. destruct (is_visible el) as [[|]|]; try reflexivity.
    cbn [negb mbind outcome_bind]. change (default "" (Some c)) with c.
    rewrite Hd.
    destruct (attr_disabled el); reflexivity.
  - rewrite Ha. destruct (is_visible el) as [[|]|]; try reflexivity.
    cbn [negb]. destruct (attr_class el) as [cls|]; [|reflexivity].
    cbn [mbind outcome_bind].
    rewrite (bool_decide_eq_true_2 _ (ltac:(eauto) : is_Some (Some v))).
    rewrite orb_true_r. reflexivity.
  - rewrite Hh. destruct (is_visible el) as [[|]|]; try reflexivity.
    cbn [negb]. destruct (attr_class el) as [cls|]; [|reflexivity].
    cbn [mbind outcome_bind].
    destruct (attr_disabled el) as [da|]; [|reflexivity].
    cbn [mbind outcome_bind].
    destruct (_ || _); [reflexivity|].
    destruct (is_enabled el) as [[|]|]; try reflexivity;
      cbn [mbind outcome_bind]; rewrite Hi; reflexivity.
Qed.

Lemma available_check (q : outcome (option Element)) (href : string) :
  control_available q href ->
  is_next_button_available q = (true, "available").
Proof.
  intros (el & cls & -> & Hv & Hc & Hd & Ha & He & Hh & Hi).
  unfold is_next_button_available, next_button_checks.
  cbn [mbind outcome_bind mret outcome_ret].
  rewrite Hv. cbn [negb]. rewrite Hc. cbn [mbind outcome_bind].
  rewrite Ha. cbn [mbind outcome_bind]. rewrite Hd.
  rewrite bool_decide_eq_false_2 by (intros [x Hx]; discriminate).
  cbn [orb]. rewrite Hh.
  destruct (is_enabled el) as [[|]|]; try congruence;
    cbn [mbind outcome_bind]; rewrite Hi; reflexivity.
Qed.

(** The check answers True only for an available control. *)
Lemma check_available (q : outcome (option Element)) (reason : string) :
  is_next_button_available q = (true, reason) ->
  exists href, control_available q href.
Proof.
  unfold is_next_button_available, next_button_checks.
  destruct q as [[el|]|]; cbn [mbind outcome_bind mret outcome_ret];
    try discriminate.
  destruct (is_visible el) as [[|]|] eqn:Hv; try discriminate. cbn [negb].
  destruct (attr_class el) as [cls|] eqn:Hc; try discriminate.
  cbn [mbind outcome_bind].
  destruct (attr_disabled el) as [da|] eqn:Ha; try discriminate.
  cbn [mbind outcome_bind].
  destruct (contains "disabled" (lower (default "" cls))) eqn:Hd;
    [discriminate|]. cbn [orb].
  destruct (bool_decide (is_Some da)) eqn:Hda; [discriminate|].
  assert (da = None) as ->.
  { destruct da; [|reflexivity]. apply bool_decide_eq_false_1 in Hda.
    exfalso. apply Hda. eauto. }
  destruct (attr_href el) as [[href|]|] eqn:Hh;
    cbn [mbind outcome_bind mret outcome_ret].
  - destruct (invalid_href (Some href)) eqn:Hi.
    { destruct (is_enabled el) as [[|]|]; discriminate. }
    intros H. exists href, el, cls.
    assert (He : is_enabled el <> Ok false).
    { intros E. rewrite E in H. discriminate. }
    repeat split; auto.
  - destruct (is_enabled el) as [[|]|]; discriminate.
  - destruct (is_enabled el) as [[|]|]; discriminate.
Qed.

Lemma unavailable_body (base_url : string) (q1 q2 : outcome (option Element)) :
  (is_next_button_available q1).1 = false ->
  next_link_body base_url q1 q2 = Ok None.
Proof.
  unfold next_link_body. destruct (is_next_button_available q1) as [a r].
  simpl. intros ->. reflexivity.
Qed.

Lemma body_available (base_url : string) (q1 q2 : outcome (option Element))
    (u : string) :
  next_link_body base_url q1 q2 = Ok (Some u) ->
  exists href, control_available q1 href.
Proof.
  unfold next_link_body.
  destruct (is_next_button_available q1) as [[|] r] eqn:E.
  - intros _. eapply check_available, E.
  - discriminate.
Qed.

Lemma resolve_truthy (base_url href : string) :
  invalid_href (Some href) = false -> truthy (Some (resolve base_url href)) = true.
Proof.
  unfold invalid_href, truthy, resolve, startswith. intros H.
  apply orb_false_iff in H as [H _]. apply orb_false_iff in H as [H _].
  destruct href as [|c href]; [discriminate|].
  destruct (String.prefix "/" (String c href)); [|reflexivity].
  destruct base_url; reflexivity.
Qed.

Lemma available_body (base_url : string) (q : outcome (option Element))
    (href : string) :
  control_available q href ->
  next_link_body base_url q q = Ok (Some (resolve base_url href)).
Proof.
  intros H. unfold next_link_body. rewrite (available_check _ _ H).
  destruct H as (el & cls & -> & _ & _ & _ & _ & _ & Hh & Hi).
  cbn [negb mbind outcome_bind mret outcome_ret]. rewrite Hh.
  cbn [mbind outcome_bind].
  unfold invalid_href in Hi.
  apply orb_false_iff in Hi as [Hi _]. apply orb_false_iff in Hi as [Hi _].
  rewrite Hi. reflexivity.
Qed.

(** ** Phase 1: one iteration *)

Lemma prog_bind_inv {A B : Type} (m : prog A) (k : A -> prog B)
    (w w' : World) (r : outcome B) :
  (m ≫= k) w = (r, w') ->
  (exists e, m w = (Raise e, w') /\ r = Raise e)
  \/ (exists a w1, m w = (Ok a, w1) /\ k a w1 = (r, w')).
Proof.
  unfold mbind, prog_bind. destruct (m w) as [[a|e] w1]; intros H.
  - right. eauto.
  - left. inversion H; subst. eauto.
Qed.

Lemma navigate_attempts_inv (out : Outside) (url : string) (l : list nat) :
  forall w r w',
    navigate_attempts out url l w = (r, w') ->
    w_pages_scraped w' = w_pages_scraped w
    /\ w_store w' = w_store w
    /\ ((r = Ok true
         /\ exists a p, In a l /\ load out url a = Ok p /\ w_page w' = Some p)
        \/ (r = Ok false
            /\ forall a, In a l -> exists e, load out url a = Raise e)).
Proof.
  induction l as [|a l IH]; intros w r w' H; simpl in H.
  - inversion H; subst. split; [reflexivity|]. split; [reflexivity|].
    right. split; [reflexivity|]. intros a [].
  - destruct (load out url a) as [p|e] eqn:E.
    + inversion H; subst. simpl. split; [reflexivity|]. split; [reflexivity|].
      left. split; [reflexivity|]. exists a, p. auto.
    + apply prog_bind_inv in H as [(e' & H1 & _)|([] & w1 & H1 & H)].
      { destruct (Nat.ltb a 3); inversion H1. }
      assert (Hs : w_pages_scraped w1 = w_pages_scraped w
                   /\ w_store w1 = w_store w).
      { destruct (Nat.ltb a 3); inversion H1; subst; simpl; auto. }
      destruct Hs as [Hs1 Hs2].
      apply IH in H as (Hp & Hst & Hcase).
      split; [congruence|]. split; [congruence|].
      destruct Hcase as [(-> & a' & p & Ha' & Hl & Hw)|(-> & Hall)].
      * left. split; [reflexivity|]. exists a', p. simpl. auto.
      * right. split; [reflexivity|]. intros a' [<-|Ha']; eauto.
Qed.

Lemma emit_inv (evs : list event) (w w' : World) (r : outcome unit) :
  emit evs w = (r, w') ->
  r = Ok tt /\ w_pages_scraped w' = w_pages_scraped w
  /\ w_store w' = w_store w /\ w_page w' = w_page w
  /\ w_cache w' = w_cache w /\ w_calls w' = w_calls w
  /\ w_events w' = w_events w ++ evs.
Proof. unfold emit. intros H. inversion H. simpl. auto 10. Qed.

Lemma phase1_iteration_inv (env : SqlEnv) (out : Outside)
    (config : PortalConfig) (n t : nat) (w w' : World)
    (next : option string) (total : nat) :
  phase1_iteration env out config n t w = (Ok (next, total), w') ->
  exists rr evs,
    get_next_page_link_with_retry (cfg_base_url config) (current_page w)
    = (Ok rr, evs)
    /\ w_pages_scraped w' = n
    /\ match next with
       | Some u =>
           rr = Some u /\ truthy rr = true
           /\ exists a p, In a [1; 2; 3] /\ load out u a = Ok p
                          /\ w_page w' = Some p
       | None =>
           truthy rr = false
           \/ forall a, In a [1; 2; 3] ->
                exists e, load out (default "" rr) a = Raise e
       end.
Proof.
  unfold phase1_iteration, with_world. intros H.
  apply prog_bind_inv in H as [(e & _ & E)|([] & w1 & _ & H)];
    [discriminate|].
  apply prog_bind_inv in H as [(e & _ & E)|(total0 & w2 & _ & H)];
    [discriminate|].
  apply prog_bind_inv in H as [(e & _ & E)|([] & w3 & H3 & H)];
    [discriminate|].
  assert (Hps : w_pages_scraped w3 = n) by (inversion H3; reflexivity).
  destruct (get_next_page_link_with_retry (cfg_base_url config)
              (current_page w)) as [r evs].
  apply prog_bind_inv in H as [(e & _ & E)|([] & w4 & H4 & H)];
    [discriminate|].
  assert (Hps4 : w_pages_scraped w4 = n).
  { apply emit_inv in H4 as (_ & Hp4 & _). congruence. }
  apply prog_bind_inv in H as [(e & _ & E)|(rr & w5 & H5 & H)];
    [discriminate|].
  unfold eval in H5. inversion H5; subst r w5. clear H5.
  exists rr, evs. split; [reflexivity|].
  destruct (truthy rr) eqn:Htr; cbn [negb] in H.
  - apply prog_bind_inv in H as [(e & _ & E)|(success & w6 & H6 & H)];
      [discriminate|].
    apply navigate_attempts_inv in H6
      as (Hp6 & _ & [(Es & a & p & Ha & Hl & Hw)|(Es & Hall)]);
      injection Es as ->; inversion H; subst next total w'.
    + split; [congruence|]. destruct rr as [u|]; [|discriminate].
      split; [reflexivity|]. split; [reflexivity|]. exists a, p. auto.
    + split; [congruence|]. right. exact Hall.
  - inversion H; subst next total w'. split; [exact Hps4|]. left. reflexivity.
Qed.

Lemma first_attempt_none (base_url : string) (page : Page) :
  (is_next_button_available (link_fwd page 0)).1 = false ->
  get_next_page_link_with_retry base_url page
  = (Ok None, [EvAttempt 1; EvSleep pagination_delay]).
Proof.
  intros H. unfold get_next_page_link_with_retry. simpl.
  rewrite (unavailable_body _ _ _ H). reflexivity.
Qed.

Lemma first_attempt_some (base_url : string) (page : Page) (href : string) :
  control_available (link_fwd page 0) href ->
  link_fwd page 1 = link_fwd page 0 ->
  get_next_page_link_with_retry base_url page
  = (Ok (Some (resolve base_url href)),
     [EvAttempt 1; EvSleep pagination_delay]).
Proof.
  intros H Hst. unfold get_next_page_link_with_retry. simpl.
  rewrite Hst, (available_body _ _ _ H). reflexivity.
Qed.

(** C1: each of the four conditions on the "next" control (absent,
    hidden, disabled by class or attribute, empty or placeholder href)
    makes [is_next_button_available] answer False and ends the pagination
    loop at this page; a control that is present, visible, enabled and
    navigable makes it answer (True, "available"), and then the loop stops
    at this page only when the three navigation attempts all fail; and the
    loop goes on to the next page only after the check has found such a
    control. *)
Theorem end_of_data_four_way (env : SqlEnv) (out : Outside)
    (config : PortalConfig) (n t : nat) (w : World) :
  let page := current_page w in
  let q := link_fwd page 0 in
  let step := (phase1_iteration env out config n t w).1 in
  (end_of_data q ->
     (is_next_button_available q).1 = false
     /\ forall u total, step <> Ok (Some u, total))
  /\ (forall href, control_available q href ->
        is_next_button_available q = (true, "available")
        /\ (link_fwd page 1 = q ->
            forall total, step = Ok (None, total) ->
            forall a, In a [1; 2; 3] ->
              exists e, load out (resolve (cfg_base_url config) href) a
                        = Raise e))
  /\ (forall u total, step = Ok (Some u, total) ->
        exists a href,
          1 <= a <= max_stale_retries
          /\ control_available (link_fwd page (2 * (a - 1))) href).
Proof.
  intros page q step. subst step.
  destruct (phase1_iteration env out config n t w) as [r w'] eqn:E.
  cbn [fst]. split; [|split].
  - intros Hq. pose proof (end_of_data_unavailable q Hq) as Hf.
    split; [exact Hf|]. intros u total ->.
    apply phase1_iteration_inv in E as (rr & evs & Hn & _ & -> & _).
    rewrite (first_attempt_none _ _ Hf) in Hn. discriminate.
  - intros href Hav. split; [eapply available_check, Hav|].
    intros Hst total -> a Ha.
    apply phase1_iteration_inv in E as (rr & evs & Hn & _ & Hcase).
    rewrite (first_attempt_some _ _ _ Hav Hst) in Hn.
    injection Hn as <- _.
    destruct Hcase as [Htr|Hall]; [|apply Hall, Ha].
    destruct Hav as (_ & _ & _ & _ & _ & _ & _ & _ & _ & Hi).
    rewrite (resolve_truthy _ _ Hi) in Htr. discriminate.
  - intros u total ->.
    apply phase1_iteration_inv in E as (rr & evs & Hn & _ & -> & _).
    destruct (get_next_page_link_cases (cfg_base_url config) page)
      as (a & r & Ha & Hr & _ & Hlast).
    fold page in Hn. rewrite Hn in Hr. injection Hr as <- _.
    destruct Hlast as [Hok|(e & _ & Hnone & _)]; [|discriminate].
    apply body_available in Hok as (href & Hav).
    exists a, href. auto.
Qed.

Lemma end_of_data_four_way_witness :
  (is_next_button_available (Ok (Some hidden_link))).1 = false
  /\ is_next_button_available (Ok (Some (link_to "/nicgep/app?page=2")))
     = (true, "available").
Proof.
  split.
  - refine (proj1 (proj1 (end_of_data_four_way sample_env sample_out wb_config
              1 0 (world_at (stable_page [] (Some hidden_link)) empty_store))
              _)).
    apply (control_hidden _ hidden_link); reflexivity.
  - refine (proj1 (proj1 (proj2 (end_of_data_four_way sample_env sample_out
              wb_config 1 0 (world_at page1 empty_store)))
              "/nicgep/app?page=2" _)).
    exists (link_to "/nicgep/app?page=2"), (Some "nav").
    repeat split; try reflexivity. discriminate.
Defined.

Example four_conditions_on_samples :
  is_next_button_available (Ok None) = (false, "next_link_not_found")
  /\ is_next_button_available (Ok (Some hidden_link))
     = (false, "next_link_hidden")
  /\ is_next_button_available (Ok (Some disabled_link))
     = (false, "next_link_disabled")
  /\ is_next_button_available (Ok (Some placeholder_link))
     = (false, "next_link_invalid_href")
  /\ is_next_button_available (Raise "Element is not attached to the DOM")
     = (false, "check_error: Element is not attached to the DOM").
Proof. repeat split. Qed.

(** ** Phase 1: resuming from the checkpoint *)

(** C2 (the code departs from the claim): with the checkpoint
    'last_page_extracted' = 2, [run_phase1] starts counting at page 3, but
    the tab shows the first listing page, which
    [navigate_to_closing_within_7_days] has just loaded: the "TODO:
    Navigate to resume point" is not written.  The rows of pages 1, 2, 3
    are extracted again under the numbers 3, 4, 5, and the checkpoint ends
    at 5 on a portal of three pages.  The stored keys are those of the
    uninterrupted run. *)
Theorem resume_restarts_at_first_page :
  scraping_metadata (db interrupted_store) !! ("WB", "last_page_extracted")
  = Some "2"
  /\ run_summary (run sample_env sample_out wb_config false 10
                    (fresh_world interrupted_store))
     = Some ([(3, ["1."; "2."]); (4, ["3."]); (5, ["4."])], Some "5", 5,
             [("1.", "4fa2c53bd01c488ff1e47d5b95fdb253");
              ("2.", "eced8e8188fa06603c98b0799b2f5add");
              ("3.", "3c79be83e8d16a00414545254e7f01bc");
              ("4.", "5f8afa9680f2b79233bea98573f0d6f5")])
  /\ run_summary (run sample_env sample_out wb_config false 10
                    (fresh_world empty_store))
     = Some ([(1, ["1."; "2."]); (2, ["3."]); (3, ["4."])], Some "3", 3,
             [("1.", "4fa2c53bd01c488ff1e47d5b95fdb253");
              ("2.", "eced8e8188fa06603c98b0799b2f5add");
              ("3.", "3c79be83e8d16a00414545254e7f01bc");
              ("4.", "5f8afa9680f2b79233bea98573f0d6f5")]).
Proof. vm_compute. repeat split. Qed.

(** ** The orchestrator's exit code *)

(** C7 (the code departs from the claim): a fatal error inside a worker
    is caught by [run_portal_instance], whose returned dict is dropped by
    [multiprocessing], so the process exits with code 0, is classified as
    completed, and the orchestrator exits with 0.  Besides, the worker
    that ends last is never classified, the loop stopping as soon as no
    process is alive: killed last, it leaves the failed list empty and the
    exit code 0; killed first, it is counted. *)
Theorem orchestrator_misses_worker_failure :
  Orchestrator.exitcode "WB" (Orchestrator.Exits (Raise "database is locked"))
  = 0%Z
  /\ Orchestrator.run_all_portals Orchestrator.fatal_workers
     = Some (Orchestrator.Summary ["WB"; "BHEL"; "COAL"] [])
  /\ Orchestrator.main Orchestrator.fatal_workers (Ok tt) = Some 0%Z
  /\ Orchestrator.run_all_portals Orchestrator.killed_last_workers
     = Some (Orchestrator.Summary ["WB"; "BHEL"; "COAL"] [])
  /\ Orchestrator.main Orchestrator.killed_last_workers (Ok tt) = Some 0%Z
  /\ Orchestrator.main Orchestrator.killed_first_workers (Ok tt) = Some 1%Z.
Proof. vm_compute. repeat split. Qed.

(** Whatever the [try] body of a worker does, the process exits with 0. *)
Lemma worker_exit_code_zero (portal_id : string) (body : outcome run_result) :
  Orchestrator.exitcode portal_id (Orchestrator.Exits body) = 0%Z.
Proof. destruct body; reflexivity. Qed.

(** ** Classification: the fallback of a failed service call *)

Example ai_filtering_on_sample :
  let fin := run_ai_filtering sample_env ai_out wb_config true
               (fresh_world ai_store) in
  fin.1 = Ok tt
  /\ w_calls fin.2 = 2
  /\ map length ai_batches = [50; 2]
  /\ filter (fun m => m.2 = 1%Z) (marks (w_store fin.2))
     = [("1", 1%Z); ("51", 1%Z)].
Proof. vm_compute. repeat split. Qed.

(** C10, as stated, fails: in a batch whose service call fails, a record
    whose title an earlier batch had cached as unmeaningful is kept. *)
Lemma failed_batch_is_not_all_rejected : ~ failed_batch_all_rejected.
Proof.
  intros H.
  assert (Hin : In row51 (tenders (db (w_store after_second_batch)))).
  { assert (Hl : tenders (db (w_store after_second_batch)) !! 50
                 = Some row51) by (vm_compute; reflexivity).
    exact (proj1 (list_elem_of_In _ _) (list_elem_of_lookup_2 _ _ _ Hl)). }
  assert (Hu : uncached_of (w_cache after_first_batch)
                 (map snd (default [] (ai_batches !! 1))) <> [])
    by (vm_compute; discriminate).
  assert (Hs : service ai_out (w_calls after_first_batch)
                 (uncached_of (w_cache after_first_batch)
                    (map snd (default [] (ai_batches !! 1))))
               = Raise "503 Service Unavailable")
    by (vm_compute; reflexivity).
  assert (Hf : filter_batch sample_env ai_out wb_config
                 (default [] (ai_batches !! 1)) after_first_batch
               = (Ok tt, after_second_batch))
    by (vm_compute; reflexivity).
  assert (Hb : In (identity_hash row51, "REF-001")
                  (default [] (ai_batches !! 1)))
    by (vm_compute; left; reflexivity).
  assert (Hp : portal_id row51 = cfg_portal_id wb_config)
    by (vm_compute; reflexivity).
  pose proof (H sample_env ai_out wb_config (default [] (ai_batches !! 1))
                after_first_batch after_second_batch
                "503 Service Unavailable" Hu Hs Hf
                (identity_hash row51) "REF-001" row51 Hb Hin Hp eq_refl)
    as H1.
  assert (H2 : ai_filtered row51 = 1%Z) by (vm_compute; reflexivity).
  rewrite H2 in H1. discriminate H1.
Qed.

(** ** The store: the methods that write one statement *)

Lemma write_method_inv {A : Type} (env : SqlEnv)
    (stmt : nat -> DB -> outcome (A * DB)) (s s' : Store)
    (r : outcome unit) :
  with_connection (_ ← execute env stmt; commit env) s = (r, s') ->
  match r with
  | Ok _ => exists a, stmt (now env (tick s)) (db s) = Ok (a, db s')
  | Raise _ => db s' = db s
  end.
Proof.
  unfold with_connection. intros H.
  destruct ((_ ← execute env stmt; commit env) (get_connection s))
    as [r0 c] eqn:E.
  inversion H; subst r0 s'. clear H.
  apply sql_bind_inv in E as [(e & E1 & ->)|(a & c1 & E1 & E)].
  - apply execute_inv in E1 as (Hd & _). simpl. exact Hd.
  - apply execute_inv in E1 as (Hd1 & Hc1 & [(e & Er & _)|(a' & Er & _ & Hs)]);
      [discriminate|].
    apply commit_inv in E as (_ & [(e & -> & Hd)|(-> & _ & Hd)]);
      simpl in *.
    + congruence.
    + exists a'. rewrite Hd. exact Hs.
Qed.

Lemma read_method_inv {A : Type} (env : SqlEnv)
    (stmt : nat -> DB -> outcome (A * DB)) (s s' : Store) (r : outcome A) :
  with_connection (execute env stmt) s = (r, s') ->
  db s' = db s
  /\ forall a, r = Ok a -> exists d, stmt (now env (tick s)) (db s) = Ok (a, d).
Proof.
  unfold with_connection. intros H.
  destruct (execute env stmt (get_connection s)) as [r0 c] eqn:E.
  inversion H; subst r0 s'. clear H.
  apply execute_inv in E as (Hd & _ & [(e & -> & _)|(a' & -> & _ & Hs)]).
  - split; [exact Hd|]. discriminate.
  - split; [exact Hd|]. intros a Ea. injection Ea as <-. eauto.
Qed.

Lemma mark_ai_filtered_inv (env : SqlEnv) (pid h : string) (keep : bool)
    (s s' : Store) (r : outcome unit) :
  mark_ai_filtered env pid h keep s = (r, s') ->
  match r with
  | Ok _ =>
      db s' = (update_where pid h
                 (set_ai_filtered (if keep then 1 else -1)%Z
                                  (now env (tick s))) (db s)).2
  | Raise _ => db s' = db s
  end.
Proof.
  intros H. apply write_method_inv in H. destruct r; [|exact H].
  destruct H as (x & H). injection H as _ H. symmetry. exact H.
Qed.

Lemma update_work_description_inv (env : SqlEnv) (pid h wd st : string)
    (s s' : Store) (r : outcome unit) :
  update_work_description env pid h wd st s = (r, s') ->
  db s' = db s
  \/ db s' = (update_where pid h
                (set_work_description wd st (now env (tick s))) (db s)).2.
Proof.
  intros H. apply write_method_inv in H. destruct r; [|left; exact H].
  destruct H as (x & H). injection H as _ H. right. symmetry. exact H.
Qed.

Lemma set_metadata_inv (env : SqlEnv) (pid key value : string)
    (s s' : Store) (r : outcome unit) :
  set_metadata env pid key value s = (r, s') ->
  tenders (db s') = tenders (db s)
  /\ (scraping_metadata (db s') = scraping_metadata (db s)
      \/ scraping_metadata (db s')
         = <[(pid, key) := value]> (scraping_metadata (db s))).
Proof.
  intros H. apply write_method_inv in H. destruct r.
  - destruct H as (x & H). injection H as _ H. rewrite <- H. simpl. auto.
  - rewrite H. auto.
Qed.

Lemma add_failed_url_inv (env : SqlEnv) (pid : string) (i : nat)
    (url reason : string) (s s' : Store) (r : outcome unit) :
  add_failed_url env pid i url reason s = (r, s') ->
  tenders (db s') = tenders (db s)
  /\ scraping_metadata (db s') = scraping_metadata (db s).
Proof.
  intros H. apply write_method_inv in H. destruct r.
  - destruct H as (x & H). injection H as _ H. rewrite <- H. simpl. auto.
  - rewrite H. auto.
Qed.

Lemma on_store_inv {A : Type} (f : Store -> outcome A * Store)
    (w w' : World) (r : outcome A) :
  on_store f w = (r, w') ->
  f (w_store w) = (r, w_store w') /\ same_session w w'.
Proof.
  unfold on_store. destruct (f (w_store w)) as [r0 s]. intros H.
  inversion H; subst. unfold same_session, same_cache. simpl. auto 10.
Qed.

(** ** Classification: marking a batch *)

Lemma mark_of_nonzero (b : bool) : mark_of b <> 0%Z.
Proof. destruct b; discriminate. Qed.

Lemma same_session_refl (w : World) : same_session w w.
Proof. unfold same_session, same_cache. auto. Qed.

Lemma same_session_trans (w1 w2 w3 : World) :
  same_session w1 w2 -> same_session w2 w3 -> same_session w1 w3.
Proof.
  unfold same_session, same_cache.
  intros ((? & ?) & ? & ? & ?) ((? & ?) & ? & ? & ?).
  repeat split; congruence.
Qed.

Lemma mark_rel_refl (pid : string) (results : gmap string bool)
    (batch : list (string * string)) (r : tender_row) :
  mark_rel pid results batch false r r.
Proof. unfold mark_rel. repeat split; auto; discriminate. Qed.

Lemma mark_rel_nil (pid : string) (results : gmap string bool) (ok : bool)
    (r : tender_row) :
  mark_rel pid results [] ok r r.
Proof.
  unfold mark_rel. repeat split; auto; intros; simpl in *; tauto.
Qed.

(** The first mark, then the marks of the rest of the batch. *)
Lemma mark_rel_cons (pid : string) (results : gmap string bool)
    (h t : string) (rest : list (string * string)) (ok : bool) (ts : nat)
    (r r' : tender_row) :
  mark_rel pid results rest ok
    (if matches pid h r
     then set_ai_filtered (if negb (default false (results !! t))
                           then 1 else -1)%Z ts r
     else r) r' ->
  mark_rel pid results ((h, t) :: rest) ok r r'.
Proof.
  assert (Hmark : (if negb (default false (results !! t)) then 1 else -1)%Z
                  = mark_of (default false (results !! t))).
  { destruct (default false (results !! t)); reflexivity. }
  rewrite Hmark.
  destruct (matches pid h r) eqn:Hm.
  - apply matches_true in Hm as [Hp Hh].
    intros (Kp & Kh & Kd & Kn & Kz). simpl in *.
    split; [exact Kp|]. split; [exact Kh|]. split; [|split].
    + right. split; [exact Hp|].
      destruct Kd as [Kd|(_ & t' & Ht' & Kd)].
      * exists t. split; [left; congruence|exact Kd].
      * exists t'. split; [right; exact Ht'|exact Kd].
    + intros Hok _ t0 [E|Hin] Hnd.
      * injection E as _ <-. inversion Hnd as [|? ? Hnin _]; subst.
        destruct Kd as [Kd|(_ & t' & Ht' & _)]; [exact Kd|].
        exfalso. apply Hnin. apply list_elem_of_In, in_map_iff.
        exists (identity_hash r, t'). auto.
      * inversion Hnd; subst. apply Kn; auto.
    + intros Hok _ _.
      destruct Kd as [Kd|(_ & t' & _ & Kd)]; rewrite Kd;
        apply mark_of_nonzero.
  - intros (Kp & Kh & Kd & Kn & Kz).
    assert (Hnm : portal_id r = pid -> identity_hash r <> h).
    { intros Hp Hh. assert (matches pid h r = true)
        by (apply matches_true; auto). congruence. }
    split; [exact Kp|]. split; [exact Kh|]. split; [|split].
    + destruct Kd as [Kd|(Hp & t' & Ht' & Kd)]; [left; exact Kd|].
      right. split; [exact Hp|]. exists t'. split; [right; exact Ht'|exact Kd].
    + intros Hok Hp t0 [E|Hin] Hnd.
      * injection E as E _. exfalso. apply (Hnm Hp). congruence.
      * inversion Hnd; subst. apply Kn; auto.
    + intros Hok Hp [E|Hin].
      * simpl in E. exfalso. apply (Hnm Hp). congruence.
      * apply Kz; auto.
Qed.

Lemma mark_rel_weaken (pid : string) (results : gmap string bool)
    (batch : list (string * string)) (r r' : tender_row) (ok : bool) :
  mark_rel pid results batch ok r r' -> mark_rel pid results batch false r r'.
Proof.
  intros (Kp & Kh & Kd & _). unfold mark_rel.
  repeat split; auto; discriminate.
Qed.

Lemma mark_batch_spec (env : SqlEnv) (config : PortalConfig)
    (results : gmap string bool) (batch : list (string * string)) :
  forall w r w',
    mark_batch env config results batch w = (r, w') ->
    same_session w w'
    /\ scraping_metadata (db (w_store w')) = scraping_metadata (db (w_store w))
    /\ Forall2 (mark_rel (cfg_portal_id config) results batch (returns r))
               (tenders (db (w_store w))) (tenders (db (w_store w'))).
Proof.
  induction batch as [|[h t] rest IH]; intros w r w' H; simpl in H.
  - inversion H; subst. split; [apply same_session_refl|].
    split; [reflexivity|].
    apply Forall2_same. intros x _. apply mark_rel_nil.
  - apply prog_bind_inv in H as [(e & H1 & ->)|([] & w1 & H1 & H)].
    + apply on_store_inv in H1 as [H1 Hs].
      apply mark_ai_filtered_inv in H1. rewrite H1.
      split; [exact Hs|]. split; [reflexivity|].
      apply Forall2_same. intros x _. apply mark_rel_refl.
    + apply on_store_inv in H1 as [H1 Hs].
      apply mark_ai_filtered_inv in H1.
      apply IH in H as (Hs' & Hm & HF).
      split; [eapply same_session_trans; eauto|].
      split; [rewrite Hm, H1; reflexivity|].
      rewrite H1 in HF. simpl in HF.
      apply Forall2_map_left in HF.
      eapply Forall2_impl; [exact HF|].
      intros x y Hxy. eapply mark_rel_cons. exact Hxy.
Qed.

(** ** Classification: [check_titles] *)

Lemma list_to_map_fun (f : string -> bool) (l : list string) (t : string) :
  In t l ->
  (list_to_map (map (fun x => (x, f x)) l) : gmap string bool) !! t
  = Some (f t).
Proof.
  induction l as [|x l IH]; intros H; [destruct H|].
  cbn [map list_to_map foldr]. unfold list_to_map in *.
  destruct (decide (x = t)) as [->|Hne].
  - simpl. apply lookup_insert_eq.
  - simpl. rewrite lookup_insert_ne by exact Hne. apply IH.
    destruct H as [H|H]; [contradiction|exact H].
Qed.

Lemma list_to_map_fun_None (f : string -> bool) (l : list string)
    (t : string) :
  ~ In t l ->
  (list_to_map (map (fun x => (x, f x)) l) : gmap string bool) !! t = None.
Proof.
  induction l as [|x l IH]; intros H; [apply lookup_empty|].
  cbn [map]. unfold list_to_map in *. simpl.
  rewrite lookup_insert_ne by (intros ->; apply H; left; reflexivity).
  apply IH. intros Hin. apply H. right. exact Hin.
Qed.

Lemma uncached_of_In (cache : gmap string bool) (titles : list string)
    (t : string) :
  In t (uncached_of cache titles) <-> In t titles /\ cache !! t = None.
Proof.
  unfold uncached_of. rewrite filter_In, bool_decide_eq_true. reflexivity.
Qed.

Lemma fallback_lookup (cache : gmap string bool) (uncached titles : list string)
    (t : string) :
  (forall x, In x uncached -> cache !! x = None) ->
  (forall x, In x titles -> cache !! x = None -> In x uncached) ->
  let cache' := (check_titles_fallback uncached titles cache).1 in
  (is_Some (cache !! t) -> cache' !! t = cache !! t)
  /\ (In t titles ->
      cache' !! t = Some (default true (cache !! t))
      /\ (check_titles_fallback uncached titles cache).2 !! t
         = Some (default true (cache !! t))).
Proof.
  intros Hu Ht. cbn [check_titles_fallback fst snd].
  assert (Hold : is_Some (cache !! t) ->
            (list_to_map (map (fun x => (x, true)) uncached) ∪ cache) !! t
            = cache !! t).
  { intros [v Hv]. apply lookup_union_r.
    apply (list_to_map_fun_None (fun _ => true)).
    intros Hin. rewrite (Hu _ Hin) in Hv. discriminate. }
  split; [exact Hold|]. intros Hin.
  assert (Hc : (list_to_map (map (fun x => (x, true)) uncached) ∪ cache) !! t
               = Some (default true (cache !! t))).
  { destruct (cache !! t) as [v|] eqn:Hv.
    - rewrite Hold by eauto. reflexivity.
    - simpl. apply lookup_union_Some_l.
      apply (list_to_map_fun (fun _ => true)). apply Ht; assumption. }
  split; [exact Hc|].
  unfold cache_get_all.
  rewrite (list_to_map_fun (fun x => default true (_ !! x)) titles t Hin).
  rewrite Hc. reflexivity.
Qed.

(** A failed service call: the answer and the cache. *)
Lemma check_titles_failed (out : Outside) (titles : list string) (w : World)
    (e : string) :
  uncached_of (w_cache w) titles <> [] ->
  service out (w_calls w) (uncached_of (w_cache w) titles) = Raise e ->
  exists results w',
    check_titles out titles w = (Ok results, w')
    /\ w_store w' = w_store w
    /\ (forall t, is_Some (w_cache w !! t) -> w_cache w' !! t = w_cache w !! t)
    /\ (forall t, In t titles ->
          w_cache w' !! t = Some (default true (w_cache w !! t))
          /\ results !! t = Some (default true (w_cache w !! t))).
Proof.
  intros Hne Hs. unfold check_titles.
  destruct (uncached_of (w_cache w) titles) as [|u us] eqn:Eu;
    [contradiction|].
  rewrite Hs.
  destruct (check_titles_fallback (u :: us) titles (w_cache w))
    as [cache' res] eqn:Ef.
  exists res, (MkWorld (w_store w) (w_page w) cache' (S (w_calls w))
                 (w_pages_scraped w) (w_events w ++ [EvClassify (u :: us)])).
  split; [reflexivity|]. split; [reflexivity|]. cbn [w_cache].
  assert (Hu : forall x, In x (u :: us) -> w_cache w !! x = None).
  { intros x Hx. rewrite <- Eu in Hx. apply uncached_of_In in Hx. tauto. }
  assert (Ht : forall x, In x titles -> w_cache w !! x = None ->
                 In x (u :: us)).
  { intros x Hx Hn. rewrite <- Eu. apply uncached_of_In. auto. }
  split.
  - intros t Hsome.
    pose proof (fallback_lookup _ _ titles t Hu Ht) as [H1 _].
    rewrite Ef in H1. apply H1, Hsome.
  - intros t Hin.
    pose proof (fallback_lookup _ _ titles t Hu Ht) as [_ H2].
    rewrite Ef in H2. apply H2, Hin.
Qed.

Lemma store_answers_grows (results : gmap string string) (l : list string) :
  forall i cache t,
    is_Some (cache !! t) ->
    is_Some (store_answers results i l cache !! t).
Proof.
  induction l as [|x l IH]; intros i cache t H; simpl; [exact H|].
  apply IH. apply lookup_insert_is_Some'. right. exact H.
Qed.

Lemma fallback_grows (uncached titles : list string)
    (cache : gmap string bool) (t : string) :
  is_Some (cache !! t) ->
  is_Some ((check_titles_fallback uncached titles cache).1 !! t).
Proof.
  intros H. cbn [check_titles_fallback fst].
  apply lookup_union_is_Some. right. exact H.
Qed.

(** The cache only grows. *)
Lemma check_titles_cache_grows (out : Outside) (titles : list string)
    (w w' : World) (r : outcome (gmap string bool)) :
  check_titles out titles w = (r, w') ->
  forall t, is_Some (w_cache w !! t) -> is_Some (w_cache w' !! t).
Proof.
  unfold check_titles. intros H t Ht.
  destruct (uncached_of (w_cache w) titles) as [|u us].
  { unfold eval in H. inversion H; subst. exact Ht. }
  destruct (service out (w_calls w) (u :: us)) as [results|e].
  - destruct (cache_items _ titles) as [res|e] eqn:Ec.
    + inversion H; subst. cbn [w_cache].
      exact (store_answers_grows results (u :: us) 1 (w_cache w) t Ht).
    + destruct (check_titles_fallback (u :: us) titles _) as [c' res] eqn:Ef.
      inversion H; subst. cbn [w_cache].
      change c' with (c', res).1. rewrite <- Ef.
      apply fallback_grows.
      exact (store_answers_grows results (u :: us) 1 (w_cache w) t Ht).
  - destruct (check_titles_fallback (u :: us) titles _) as [c' res] eqn:Ef.
    inversion H; subst. cbn [w_cache].
    change c' with (c', res).1. rewrite <- Ef. apply fallback_grows, Ht.
Qed.

(** C10, amended: when the service call of a batch raises, [check_titles]
    answers True for every title of the batch that was not cached and the
    cached value for the others, and caches the True values; every record
    of the batch whose title was not cached, or was cached as meaningful,
    is marked rejected (-1), and a record whose title was cached as
    unmeaningful is marked kept (1); the titles of the batch are in the
    cache from then on, the cache only grows, and a title in the cache is
    not submitted again. *)
Theorem failed_batch_fallback (env : SqlEnv) (out : Outside)
    (config : PortalConfig) (batch : list (string * string))
    (w w' : World) (e : string) :
  uncached_of (w_cache w) (map snd batch) <> [] ->
  service out (w_calls w) (uncached_of (w_cache w) (map snd batch))
  = Raise e ->
  NoDup (map fst batch) ->
  filter_batch env out config batch w = (Ok tt, w') ->
  (forall t, In t (map snd batch) ->
     w_cache w' !! t = Some (default true (w_cache w !! t)))
  /\ (forall h t row,
        In (h, t) batch ->
        In row (tenders (db (w_store w'))) ->
        portal_id row = cfg_portal_id config ->
        identity_hash row = h ->
        ai_filtered row = mark_of (default true (w_cache w !! t)))
  /\ (forall w2 titles2,
        (forall t, is_Some (w_cache w' !! t) -> is_Some (w_cache w2 !! t)) ->
        forall t, In t (map snd batch) ->
          ~ In t (uncached_of (w_cache w2) titles2))
  /\ (forall titles3 w3 r4 w4,
        check_titles out titles3 w3 = (r4, w4) ->
        forall t, is_Some (w_cache w3 !! t) -> is_Some (w_cache w4 !! t)).
Proof.
  intros Hne Hs Hnd H.
  destruct (check_titles_failed out (map snd batch) w e Hne Hs)
    as (results & w1 & Hc & Hst & Hold & Hnew).
  unfold filter_batch in H.
  apply prog_bind_inv in H as [(e' & _ & E)|(res & w1' & Hc' & H)];
    [discriminate|].
  rewrite Hc in Hc'. injection Hc' as <- <-.
  apply mark_batch_spec in H as (((Hcache & _) & _) & _ & HF).
  assert (Hcw : forall t, In t (map snd batch) ->
            w_cache w' !! t = Some (default true (w_cache w !! t))).
  { intros t Ht. rewrite Hcache. apply Hnew, Ht. }
  split; [exact Hcw|]. split; [|split].
  - intros h t row Hin Hrow Hp Hh.
    apply list_elem_of_In, list_elem_of_lookup in Hrow as [i Hi].
    destruct (Forall2_lookup_r _ _ _ i row HF Hi)
      as (r0 & _ & Kp & Kh & _ & Kn & _).
    rewrite (Kn eq_refl) with (t := t).
    + assert (Ht : In t (map snd batch)).
      { apply in_map_iff. exists (h, t). auto. }
      destruct (Hnew t Ht) as [_ ->]. reflexivity.
    + congruence.
    + congruence.
    + exact Hnd.
  - intros w2 titles2 Hext t Ht Hin.
    apply uncached_of_In in Hin as [_ Hnone].
    destruct (Hext t) as [v Hv]; [rewrite (Hcw t Ht); eauto|].
    congruence.
  - intros titles3 w3 r4 w4. apply check_titles_cache_grows.
Qed.

Lemma failed_batch_fallback_witness :
  ai_filtered row51 = mark_of false.
Proof.
  assert (Hin : In row51 (tenders (db (w_store after_second_batch)))).
  { assert (Hl : tenders (db (w_store after_second_batch)) !! 50
                 = Some row51) by (vm_compute; reflexivity).
    exact (proj1 (list_elem_of_In _ _) (list_elem_of_lookup_2 _ _ _ Hl)). }
  assert (Hnd : NoDup (map fst (default [] (ai_batches !! 1)))).
  { vm_compute. repeat constructor; intros H; inversion H; subst;
      match goal with H' : _ ∈ _ |- _ => inversion H' end. }
  assert (Hu : uncached_of (w_cache after_first_batch)
                 (map snd (default [] (ai_batches !! 1))) <> [])
    by (vm_compute; discriminate).
  assert (Hs : service ai_out (w_calls after_first_batch)
                 (uncached_of (w_cache after_first_batch)
                    (map snd (default [] (ai_batches !! 1))))
               = Raise "503 Service Unavailable")
    by (vm_compute; reflexivity).
  assert (Hf : filter_batch sample_env ai_out wb_config
                 (default [] (ai_batches !! 1)) after_first_batch
               = (Ok tt, after_second_batch))
    by (vm_compute; reflexivity).
  assert (Hb : In (identity_hash row51, "REF-001")
                  (default [] (ai_batches !! 1)))
    by (vm_compute; left; reflexivity).
  assert (Hp : portal_id row51 = cfg_portal_id wb_config)
    by (vm_compute; reflexivity).
  assert (Hc : default true (w_cache after_first_batch !! "REF-001") = false)
    by (vm_compute; reflexivity).
  rewrite <- Hc.
  exact (proj1 (proj2 (failed_batch_fallback sample_env ai_out wb_config
           (default [] (ai_batches !! 1)) after_first_batch
           after_second_batch "503 Service Unavailable" Hu Hs Hnd Hf))
           (identity_hash row51) "REF-001" row51 Hb Hin Hp eq_refl).
Defined.

(** ** The order of the phases *)

(** *** Properties kept by the worker's code *)

Lemma keeps_ret {A : Type} (P : World -> Prop) (a : A) :
  keeps P (mret a : prog A).
Proof. intros w r w' HP H. inversion H; subst. exact HP. Qed.

Lemma keeps_eval {A : Type} (P : World -> Prop) (o : outcome A) :
  keeps P (eval o).
Proof. intros w r w' HP H. inversion H; subst. exact HP. Qed.

Lemma keeps_bind {A B : Type} (P : World -> Prop) (m : prog A)
    (k : A -> prog B) :
  keeps P m -> (forall a, keeps P (k a)) -> keeps P (m ≫= k).
Proof.
  intros Hm Hk w r w' HP H.
  apply prog_bind_inv in H as [(e & H1 & _)|(a & w1 & H1 & H)].
  - eapply Hm; eauto.
  - eapply Hk; [|exact H]. eapply Hm; eauto.
Qed.

Lemma keeps_try {A : Type} (P : World -> Prop) (body : prog A)
    (handler : string -> prog A) :
  keeps P body -> (forall e, keeps P (handler e)) ->
  keeps P (try_except body handler).
Proof.
  intros Hb Hh w r w' HP H. unfold try_except in H.
  destruct (body w) as [[a|e] w1] eqn:E.
  - inversion H; subst. eapply Hb; eauto.
  - eapply Hh; [|exact H]. eapply Hb; eauto.
Qed.

Lemma keeps_with_world {A : Type} (P : World -> Prop) (f : World -> prog A) :
  (forall w0, P w0 -> keeps P (f w0)) -> keeps P (with_world f).
Proof. intros Hf w r w' HP H. exact (Hf w HP w r w' HP H). Qed.

Lemma keeps_if {A : Type} (P : World -> Prop) (b : bool) (m1 m2 : prog A) :
  keeps P m1 -> keeps P m2 -> keeps P (if b then m1 else m2).
Proof. destruct b; auto. Qed.

Lemma keeps_for_each {A : Type} (P : World -> Prop) (f : A -> prog unit)
    (l : list A) :
  (forall x, keeps P (f x)) -> keeps P (for_each f l).
Proof.
  intros Hf. induction l as [|x l IH]; simpl.
  - apply keeps_ret.
  - apply keeps_bind; [apply Hf|]. intros _. exact IH.
Qed.

(** A property of the store and of the events, under the methods of the
    store. *)
Lemma keeps_on_store {A : Type} (P : World -> Prop)
    (f : Store -> outcome A * Store) :
  (forall w r s', P w -> f (w_store w) = (r, s') ->
     P (MkWorld s' (w_page w) (w_cache w) (w_calls w) (w_pages_scraped w)
                (w_events w))) ->
  keeps P (on_store f).
Proof.
  intros Hf w r w' HP H. unfold on_store in H.
  destruct (f (w_store w)) as [r0 s'] eqn:E. inversion H; subst.
  eapply Hf; eauto.
Qed.

Lemma fkeeps_lift {A : Type} (P : World -> Prop) (m : prog A) :
  keeps P m -> fkeeps P (lift m).
Proof.
  intros Hm w r w' HP H. unfold lift in H. inversion H as [H1].
  eapply Hm; eauto.
Qed.

Lemma fkeeps_ret {A : Type} (P : World -> Prop) (a : A) : fkeeps P (fret a).
Proof. intros w r w' HP H. inversion H; subst. exact HP. Qed.

Lemma fkeeps_bind {A B : Type} (P : World -> Prop) (m : fprog A)
    (k : A -> fprog B) :
  fkeeps P m -> (forall a, fkeeps P (k a)) -> fkeeps P (fbind m k).
Proof.
  intros Hm Hk w r w' HP H. unfold fbind in H.
  destruct (m w) as [[[a|e] w1]|] eqn:E; [| |discriminate].
  - eapply Hk; [|exact H]. eapply Hm; eauto.
  - inversion H; subst. eapply Hm; eauto.
Qed.

(** *** What the methods of the store leave alone *)

Lemma get_metadata_db (env : SqlEnv) (pid key : string) (s s' : Store)
    (r : outcome (option string)) :
  get_metadata env pid key s = (r, s') ->
  db s' = db s /\ forall v, r = Ok v -> v = meta s pid key.
Proof.
  intros H. apply read_method_inv in H as [Hd Hr]. split; [exact Hd|].
  intros v Hv. destruct (Hr v Hv) as (d & E). inversion E. reflexivity.
Qed.

Lemma get_phase1_count_db (env : SqlEnv) (pid : string) (s s' : Store)
    (r : outcome nat) :
  get_phase1_count env pid s = (r, s') -> db s' = db s.
Proof. intros H. apply read_method_inv in H as [Hd _]. exact Hd. Qed.

Lemma get_tenders_for_ai_filtering_db (env : SqlEnv) (pid : string)
    (s s' : Store) (r : outcome (list (string * string))) :
  get_tenders_for_ai_filtering env pid s = (r, s') ->
  db s' = db s
  /\ forall l, r = Ok l ->
       l = map (fun r => (identity_hash r, title r))
               (List.filter (unfiltered pid) (tenders (db s))).
Proof.
  intros H. apply read_method_inv in H as [Hd Hr]. split; [exact Hd|].
  intros l Hl. destruct (Hr l Hl) as (d & E). inversion E. reflexivity.
Qed.

Lemma get_tenders_for_phase2_db (env : SqlEnv) (pid : string)
    (s s' : Store) (r : outcome (list phase2_tender)) :
  get_tenders_for_phase2 env pid s = (r, s') -> db s' = db s.
Proof. intros H. apply read_method_inv in H as [Hd _]. exact Hd. Qed.

(** Code on a connection that never commits. *)
Lemma uncommitted_bind {A B : Type} (m : sql A) (k : A -> sql B) :
  (forall c r c', m c = (r, c') -> durable c' = durable c) ->
  (forall a c r c', k a c = (r, c') -> durable c' = durable c) ->
  forall c r c', (m ≫= k) c = (r, c') -> durable c' = durable c.
Proof.
  intros Hm Hk c r c' H.
  apply sql_bind_inv in H as [(e & H1 & _)|(a & c1 & H1 & H)].
  - eapply Hm, H1.
  - rewrite (Hk _ _ _ _ H). eapply Hm, H1.
Qed.

Lemma count_rows_durable (env : SqlEnv) (pid : string)
    (f : tender_row -> bool) :
  forall c r c', count_rows env pid f c = (r, c') -> durable c' = durable c.
Proof. intros c r c' H. apply execute_inv in H as (Hd & _). exact Hd. Qed.

Lemma get_statistics_db (env : SqlEnv) (pid : string) (s s' : Store)
    (r : outcome statistics) :
  get_statistics env pid s = (r, s') -> db s' = db s.
Proof.
  unfold get_statistics, with_connection. intros H.
  match type of H with
  | (let '(_, _) := ?b (get_connection s) in _) = _ =>
      destruct (b (get_connection s)) as [r0 c] eqn:E
  end.
  inversion H; subst r0 s'. clear H. simpl.
  change (db s) with (durable (get_connection s)).
  revert E. apply uncommitted_bind; [apply count_rows_durable|intros total].
  apply uncommitted_bind; [apply count_rows_durable|intros kept].
  apply uncommitted_bind; [apply count_rows_durable|intros filtered].
  apply uncommitted_bind; [apply count_rows_durable|intros ok].
  apply uncommitted_bind; [apply count_rows_durable|intros failed].
  intros c0 r1 c1 E. inversion E. reflexivity.
Qed.

(** *** Phase 1 fetches nothing and leaves the classification checkpoint *)

Lemma no_fetch_app (l k : list event) :
  no_fetch l -> no_fetch k -> no_fetch (l ++ k).
Proof.
  intros Hl Hk h u st Hin. apply in_app_or in Hin as [Hin|Hin].
  - exact (Hl _ _ _ Hin).
  - exact (Hk _ _ _ Hin).
Qed.

Lemma no_fetch_nil : no_fetch [].
Proof. intros h u st []. Qed.

Lemma keeps_emit_before (pid : string) (v : option string)
    (evs : list event) :
  no_fetch evs -> keeps (before_enrich pid v) (emit evs).
Proof.
  intros Hevs w r w' [Hn Hm] H. apply emit_inv in H as (_ & _ & Hs & _ & _ & _ & He).
  split; [rewrite He; apply no_fetch_app; assumption|]. rewrite Hs. exact Hm.
Qed.

Lemma keeps_store_before {A : Type} (pid : string) (v : option string)
    (f : Store -> outcome A * Store) :
  (forall s r s', f s = (r, s') ->
     meta s' pid "ai_filtering_complete" = meta s pid "ai_filtering_complete") ->
  keeps (before_enrich pid v) (on_store f).
Proof.
  intros Hf. apply keeps_on_store. intros w r s' [Hn Hm] H.
  split; [exact Hn|]. simpl. rewrite (Hf _ _ _ H). exact Hm.
Qed.

Lemma upsert_meta (env : SqlEnv) (pid : string)
    (batch : list (gmap string string)) (s s' : Store)
    (r : outcome (nat * nat)) (p k : string) :
  upsert_tenders_batch env pid batch s = (r, s') ->
  meta s' p k = meta s p k.
Proof.
  intros H. pose proof (upsert_tenders_batch_outcome env pid batch s) as Ho.
  rewrite H in Ho. unfold meta. destruct r as [[i u]|e].
  - destruct Ho as (_ & _ & _ & Hot & _). unfold other_tables in Hot.
    injection Hot as -> _ _. reflexivity.
  - rewrite Ho. reflexivity.
Qed.

Lemma set_metadata_other (env : SqlEnv) (pid key value : string)
    (s s' : Store) (r : outcome unit) (k : string) :
  key <> k ->
  set_metadata env pid key value s = (r, s') ->
  meta s' pid k = meta s pid k.
Proof.
  intros Hne H. apply set_metadata_inv in H as (_ & [Hm|Hm]); unfold meta;
    rewrite Hm; [reflexivity|].
  apply lookup_insert_ne. congruence.
Qed.

Lemma next_link_attempts_no_fetch (base_url : string) (page : Page)
    (l : list nat) :
  no_fetch (next_link_attempts base_url page l).2.
Proof.
  induction l as [|a l IH]; simpl; [apply no_fetch_nil|].
  assert (H0 : no_fetch [EvAttempt a; EvSleep pagination_delay]).
  { intros h u st [E|[E|[]]]; discriminate. }
  destruct (next_link_body _ _ _) as [r|e]; [exact H0|].
  destruct (is_stale e); [|exact H0].
  destruct (Nat.ltb a max_stale_retries); [|exact H0].
  destruct (next_link_attempts base_url page l) as [r evs]. simpl in *.
  apply (no_fetch_app [_; _] (_ :: _)); [exact H0|].
  intros h u st [E|Hin]; [discriminate|]. exact (IH _ _ _ Hin).
Qed.

Lemma keeps_set_page_before (pid : string) (v : option string)
    (p : option Page) :
  keeps (before_enrich pid v) (set_page p).
Proof. intros w r w' HP H. inversion H; subst. exact HP. Qed.

Lemma keeps_set_pages_scraped_before (pid : string) (v : option string)
    (n : nat) :
  keeps (before_enrich pid v) (set_pages_scraped n).
Proof. intros w r w' HP H. inversion H; subst. exact HP. Qed.

Lemma keeps_navigate_before (out : Outside) (pid : string)
    (v : option string) (url : string) (l : list nat) :
  keeps (before_enrich pid v) (navigate_attempts out url l).
Proof.
  induction l as [|a l IH]; simpl; [apply keeps_ret|].
  destruct (load out url a) as [p|e].
  - apply keeps_bind; [apply keeps_set_page_before|intros _].
    apply keeps_bind; [|intros _; apply keeps_ret].
    apply keeps_emit_before. intros h u st [E|[]]; discriminate.
  - apply keeps_bind; [|intros _; exact IH].
    apply keeps_if; [|apply keeps_ret].
    apply keeps_emit_before. intros h u st [E|[]]; discriminate.
Qed.

Lemma keeps_phase1_iteration (env : SqlEnv) (out : Outside)
    (config : PortalConfig) (v : option string) (n t : nat) :
  keeps (before_enrich (cfg_portal_id config) v)
        (phase1_iteration env out config n t).
Proof.
  unfold phase1_iteration. apply keeps_with_world. intros w0 _.
  apply keeps_bind.
  { apply keeps_emit_before. intros h u st [E|[]]; discriminate. }
  intros _. apply keeps_bind.
  { destruct (extract_tenders_from_page out config (current_page w0));
      [apply keeps_ret|].
    apply keeps_bind.
    { apply keeps_store_before. intros s r s'. apply upsert_meta. }
    intros _. apply keeps_bind.
    { apply keeps_store_before. intros s r s' H.
      apply get_phase1_count_db in H. unfold meta. rewrite H. reflexivity. }
    intros total. apply keeps_bind; [|intros _; apply keeps_ret].
    apply keeps_store_before. intros s r s'.
    apply set_metadata_other. discriminate. }
  intros total. apply keeps_bind; [apply keeps_set_pages_scraped_before|].
  intros _.
  pose proof (next_link_attempts_no_fetch (cfg_base_url config)
                (current_page w0) (seq 1 max_stale_retries)) as Hnf.
  unfold get_next_page_link_with_retry.
  destruct (next_link_attempts _ _ _) as [r evs]. simpl in Hnf.
  apply keeps_bind; [apply keeps_emit_before, Hnf|]. intros _.
  apply keeps_bind; [apply keeps_eval|]. intros next_url.
  apply keeps_if; [apply keeps_ret|].
  apply keeps_bind; [apply keeps_navigate_before|]. intros success.
  destruct success; apply keeps_ret.
Qed.

Lemma fkeeps_phase1_loop (env : SqlEnv) (out : Outside)
    (config : PortalConfig) (v : option string) (fuel : nat) :
  forall n t,
    fkeeps (before_enrich (cfg_portal_id config) v)
           (phase1_loop env out config fuel n t).
Proof.
  induction fuel as [|fuel IH]; intros n t w r w' HP H; simpl in H;
    [discriminate|].
  destruct (phase1_iteration env out config n t w) as [r0 w1] eqn:E.
  pose proof (keeps_phase1_iteration env out config v n t w r0 w1 HP E) as H1.
  destruct r0 as [[[u|] total]|e].
  - eapply IH; eauto.
  - inversion H; subst. exact H1.
  - inversion H; subst. exact H1.
Qed.

Lemma fkeeps_run_phase1 (env : SqlEnv) (out : Outside)
    (config : PortalConfig) (v : option string) (fuel : nat) :
  fkeeps (before_enrich (cfg_portal_id config) v)
         (run_phase1 env out config fuel).
Proof.
  unfold run_phase1. apply fkeeps_bind.
  { apply fkeeps_lift, keeps_store_before. intros s r s' H.
    apply get_metadata_db in H as [H _]. unfold meta. rewrite H. reflexivity. }
  intros last. apply fkeeps_bind; [apply fkeeps_lift, keeps_eval|].
  intros start. apply fkeeps_bind.
  { apply fkeeps_lift, keeps_store_before. intros s r s' H.
    apply get_phase1_count_db in H. unfold meta. rewrite H. reflexivity. }
  intros total. apply fkeeps_bind; [apply fkeeps_phase1_loop|].
  intros total'. apply fkeeps_bind; [|intros _; apply fkeeps_ret].
  apply fkeeps_lift, keeps_store_before. intros s r s'.
  apply set_metadata_other. discriminate.
Qed.

(** *** The classification leaves no row of the portal unclassified *)

Lemma batches_cover {A : Type} (size : nat) (l : list A) (x : A) :
  0 < size -> In x l -> In x (concat (batches size l)).
Proof.
  intros Hs Hx. apply list_elem_of_In, list_elem_of_lookup in Hx as [i Hi].
  apply in_concat. exists (take size (drop (i / size * size) l)). split.
  - unfold batches. apply in_map_iff. exists (i / size). split; [reflexivity|].
    apply in_seq. split; [lia|]. simpl.
    apply Nat.Div0.div_lt_upper_bound.
    pose proof (lookup_lt_Some _ _ _ Hi) as Hlen.
    pose proof (Nat.div_mod_eq (length l + size - 1) size) as Hd.
    pose proof (Nat.mod_upper_bound (length l + size - 1) size) as Hm.
    lia.
  - apply list_elem_of_In. apply (list_elem_of_lookup_2 _ (i mod size)).
    rewrite lookup_take_lt by (apply Nat.mod_upper_bound; lia).
    rewrite lookup_drop.
    replace (i / size * size + i mod size) with i; [exact Hi|].
    pose proof (Nat.div_mod_eq i size). lia.
Qed.

Lemma Forall2_compose {A : Type} (R1 R2 R3 : A -> A -> Prop)
    (l k m : list A) :
  (forall x y z, R1 x y -> R2 y z -> R3 x z) ->
  Forall2 R1 l k -> Forall2 R2 k m -> Forall2 R3 l m.
Proof.
  intros Hc H1. revert m. induction H1 as [|x y l k Hxy _ IH]; intros m H2;
    inversion H2; subst; constructor; eauto.
Qed.

Lemma batch_rel_refl (pid : string) (hashes : list string) (r : tender_row) :
  batch_rel pid hashes false r r.
Proof. unfold batch_rel. repeat split; auto; discriminate. Qed.

Lemma mark_rel_batch_rel (pid : string) (results : gmap string bool)
    (batch : list (string * string)) (ok : bool) (r r' : tender_row) :
  mark_rel pid results batch ok r r' ->
  batch_rel pid (map fst batch) ok r r'.
Proof.
  intros (Kp & Kh & Kd & _ & Kz). split; [exact Kp|]. split; [exact Kh|].
  split; [|exact Kz].
  intros Hnz. destruct Kd as [->|(_ & t & _ & ->)];
    [exact Hnz|apply mark_of_nonzero].
Qed.

Lemma check_titles_store (out : Outside) (titles : list string) (w w' : World)
    (r : outcome (gmap string bool)) :
  check_titles out titles w = (r, w') ->
  w_store w' = w_store w
  /\ (no_fetch (w_events w) -> no_fetch (w_events w')).
Proof.
  unfold check_titles. intros H.
  destruct (uncached_of (w_cache w) titles) as [|u us].
  { unfold eval in H. inversion H; subst. auto. }
  match type of H with
  | (let '(_, _) := ?b in _) = _ => destruct b as [c' res]
  end.
  inversion H; subst. simpl. split; [reflexivity|].
  intros Hn. apply no_fetch_app; [exact Hn|].
  intros h x st [E|[]]. discriminate.
Qed.

Lemma filter_batch_spec (env : SqlEnv) (out : Outside)
    (config : PortalConfig) (batch : list (string * string))
    (w w' : World) (r : outcome unit) :
  filter_batch env out config batch w = (r, w') ->
  (no_fetch (w_events w) -> no_fetch (w_events w'))
  /\ Forall2 (batch_rel (cfg_portal_id config) (map fst batch) (returns r))
             (tenders (db (w_store w))) (tenders (db (w_store w'))).
Proof.
  unfold filter_batch. intros H.
  apply prog_bind_inv in H as [(e & H1 & ->)|(res & w1 & H1 & H)].
  - apply check_titles_store in H1 as [Hs Hn]. rewrite Hs.
    split; [exact Hn|]. apply Forall2_same. intros x _. apply batch_rel_refl.
  - apply check_titles_store in H1 as [Hs Hn].
    apply mark_batch_spec in H as ((_ & _ & _ & He) & _ & HF).
    split; [rewrite He; exact Hn|]. rewrite Hs in HF.
    eapply Forall2_impl; [exact HF|].
    intros x y. apply mark_rel_batch_rel.
Qed.

Lemma batch_rel_trans (pid : string) (h1 h2 : list string) (ok : bool)
    (x y z : tender_row) :
  batch_rel pid h1 true x y -> batch_rel pid h2 ok y z ->
  batch_rel pid (h1 ++ h2) ok x z.
Proof.
  intros (Ap & Ah & An & Az) (Bp & Bh & Bn & Bz).
  split; [congruence|]. split; [congruence|]. split; [auto|].
  intros Hok Hp Hin. apply in_app_or in Hin as [Hin|Hin].
  - apply Bn, Az; auto.
  - apply Bz; auto; congruence.
Qed.

Lemma batch_rel_weaken (pid : string) (h1 h2 : list string) (ok : bool)
    (x y : tender_row) :
  batch_rel pid h1 ok x y -> batch_rel pid h2 false x y.
Proof.
  intros (Ap & Ah & An & _). unfold batch_rel.
  repeat split; auto; discriminate.
Qed.

Lemma for_each_filter_spec (env : SqlEnv) (out : Outside)
    (config : PortalConfig) (bs : list (list (string * string))) :
  forall w r w',
    for_each (filter_batch env out config) bs w = (r, w') ->
    (no_fetch (w_events w) -> no_fetch (w_events w'))
    /\ Forall2 (batch_rel (cfg_portal_id config) (map fst (concat bs))
                          (returns r))
               (tenders (db (w_store w))) (tenders (db (w_store w'))).
Proof.
  induction bs as [|b bs IH]; intros w r w' H; simpl in H.
  - inversion H; subst. split; [auto|].
    apply Forall2_same. intros x _. unfold batch_rel.
    repeat split; auto; intros; simpl in *; tauto.
  - apply prog_bind_inv in H as [(e & H1 & ->)|([] & w1 & H1 & H)].
    + apply filter_batch_spec in H1 as [Hn HF]. split; [exact Hn|].
      eapply Forall2_impl; [exact HF|]. intros x y. apply batch_rel_weaken.
    + apply filter_batch_spec in H1 as [Hn HF].
      apply IH in H as [Hn' HF']. split; [auto|].
      simpl. rewrite map_app.
      eapply Forall2_compose; [|exact HF|exact HF'].
      intros x y z. apply batch_rel_trans.
Qed.

Lemma filter_nil_all {A : Type} (f : A -> bool) (l : list A) :
  List.filter f l = [] -> forall x, In x l -> f x = false.
Proof.
  induction l as [|y l IH]; intros H x Hx; [destruct Hx|].
  simpl in H. destruct (f y) eqn:E; [discriminate|].
  destruct Hx as [<-|Hx]; [exact E|auto].
Qed.

Lemma unfiltered_true (pid : string) (r : tender_row) :
  portal_id r = pid -> ai_filtered r = 0%Z -> unfiltered pid r = true.
Proof.
  intros Hp Ha. unfold unfiltered, in_portal.
  rewrite Hp, Ha, String.eqb_refl. reflexivity.
Qed.

Lemma run_ai_filtering_spec (env : SqlEnv) (out : Outside)
    (config : PortalConfig) (w w' : World) (r : outcome unit) :
  run_ai_filtering env out config true w = (r, w') ->
  (no_fetch (w_events w) -> no_fetch (w_events w'))
  /\ (r = Ok tt -> all_classified (cfg_portal_id config) (db (w_store w'))).
Proof.
  unfold run_ai_filtering, portal. cbn [negb]. intros H.
  apply prog_bind_inv in H as [(e & H1 & ->)|(l & w1 & H1 & H)].
  { apply on_store_inv in H1 as [_ (_ & _ & _ & He)].
    split; [rewrite He; auto|discriminate]. }
  apply on_store_inv in H1 as [H1 (_ & _ & _ & He1)].
  apply get_tenders_for_ai_filtering_db in H1 as [Hd1 Hl].
  specialize (Hl l eq_refl).
  destruct l as [|x l'] eqn:El.
  { inversion H; subst r w'. split; [rewrite He1; auto|]. intros _.
    intros row Hrow Hp Hz. rewrite Hd1 in Hrow.
    symmetry in Hl. apply map_eq_nil in Hl.
    pose proof (filter_nil_all _ _ Hl row Hrow) as Hf.
    rewrite (unfiltered_true _ _ Hp Hz) in Hf. discriminate. }
  rewrite <- El in *. clear El x l'.
  apply prog_bind_inv in H as [(e & H2 & ->)|([] & w2 & H2 & H)].
  { apply for_each_filter_spec in H2 as [Hn _].
    split; [rewrite He1 in Hn; exact Hn|discriminate]. }
  apply for_each_filter_spec in H2 as [Hn HF].
  apply prog_bind_inv in H as [(e & H3 & ->)|(st & w3 & H3 & H)].
  { apply on_store_inv in H3 as [_ (_ & _ & _ & He3)].
    split; [rewrite He3; rewrite He1 in Hn; exact Hn|discriminate]. }
  apply on_store_inv in H3 as [H3 (_ & _ & _ & He3)].
  apply get_statistics_db in H3.
  apply on_store_inv in H as [H4 (_ & _ & _ & He4)].
  apply set_metadata_inv in H4 as [Ht4 _].
  split; [rewrite He4, He3; rewrite He1 in Hn; exact Hn|]. intros _.
  intros row Hrow Hp. rewrite Ht4, H3 in Hrow.
  apply list_elem_of_In, list_elem_of_lookup in Hrow as [i Hi].
  destruct (Forall2_lookup_r _ _ _ i row HF Hi)
    as (r0 & Hi0 & Kp & Kh & Kn & Kz).
  destruct (Z.eq_dec (ai_filtered r0) 0%Z) as [Hz|Hnz]; [|auto].
  apply (Kz eq_refl); [congruence|].
  assert (Hin0 : In r0 (tenders (db (w_store w)))).
  { rewrite <- Hd1. apply list_elem_of_In.
    eapply list_elem_of_lookup_2, Hi0. }
  apply in_map_iff. exists (identity_hash r0, title r0). split; [reflexivity|].
  apply batches_cover; [lia|]. rewrite Hl.
  apply in_map_iff. exists r0. split; [reflexivity|].
  apply filter_In. split; [exact Hin0|].
  apply unfiltered_true; congruence.
Qed.

Lemma classify_block_spec (env : SqlEnv) (out : Outside)
    (config : PortalConfig) (w w' : World) (r : outcome unit) :
  classify_block env out config true w = (r, w') ->
  (no_fetch (w_events w) -> no_fetch (w_events w'))
  /\ ((truthy (meta (w_store w) (cfg_portal_id config)
                    "ai_filtering_complete") = true ->
       all_classified (cfg_portal_id config) (db (w_store w))) ->
      r = Ok tt ->
      all_classified (cfg_portal_id config) (db (w_store w'))).
Proof.
  unfold classify_block, portal. intros H.
  apply prog_bind_inv in H as [(e & H1 & ->)|(done_ai & w1 & H1 & H)].
  { apply on_store_inv in H1 as [_ (_ & _ & _ & He)].
    split; [rewrite He; auto|discriminate]. }
  apply on_store_inv in H1 as [H1 (_ & _ & _ & He1)].
  apply get_metadata_db in H1 as [Hd1 Hv]. specialize (Hv _ eq_refl).
  destruct (truthy done_ai) eqn:Htr; cbn [negb] in H.
  - inversion H; subst r w'. split; [rewrite He1; auto|].
    intros Hinv _. rewrite Hd1. apply Hinv. rewrite <- Hv. exact Htr.
  - apply run_ai_filtering_spec in H as [Hn Hp].
    split; [rewrite He1 in Hn; exact Hn|]. intros _. exact Hp.
Qed.

(** *** Phase 2 fetches classified rows only *)

Lemma all_classified_tenders (pid : string) (d d' : DB) :
  tenders d' = tenders d -> all_classified pid d -> all_classified pid d'.
Proof. unfold all_classified. intros ->. auto. Qed.

Lemma all_classified_update (pid pid' h wd st : string) (ts : nat) (d : DB) :
  all_classified pid d ->
  all_classified pid
    (update_where pid' h (set_work_description wd st ts) d).2.
Proof.
  intros H row Hrow Hp. simpl in Hrow. apply in_map_iff in Hrow as (r0 & E & Hr0).
  destruct (matches pid' h r0); subst row; simpl in *; apply (H r0); auto.
Qed.

Lemma keeps_store_enriching {A : Type} (pid : string)
    (f : Store -> outcome A * Store) :
  (forall s r s', f s = (r, s') ->
     all_classified pid (db s) -> all_classified pid (db s')) ->
  keeps (enriching pid) (on_store f).
Proof.
  intros Hf. apply keeps_on_store. intros w r s' [Ha He] H.
  split; [|exact He]. simpl. eapply Hf; eauto.
Qed.

Lemma keeps_update_work_description (env : SqlEnv) (pid h wd st : string) :
  keeps (enriching pid) (on_store (update_work_description env pid h wd st)).
Proof.
  apply keeps_store_enriching. intros s r s' H Ha.
  apply update_work_description_inv in H as [->| ->];
    [exact Ha|apply all_classified_update, Ha].
Qed.

Lemma keeps_enrich_one (env : SqlEnv) (out : Outside)
    (config : PortalConfig) (idx : nat) (t : phase2_tender) :
  keeps (enriching (cfg_portal_id config)) (enrich_one env out config idx t).
Proof.
  unfold enrich_one. apply keeps_bind.
  { apply keeps_if; [|apply keeps_ret].
    intros w r w' [Ha He] H. apply emit_inv in H as (_ & _ & Hs & _ & _ & _ & Hev).
    split; [rewrite Hs; exact Ha|].
    intros h u st Hin. rewrite Hev in Hin.
    apply in_app_or in Hin as [Hin|[E|[]]]; [eauto|discriminate]. }
  intros _. apply keeps_try.
  - apply keeps_bind.
    { apply keeps_with_world. intros w0 [Ha0 _] w r w' [Ha He] H.
      apply emit_inv in H as (_ & _ & Hs & _ & _ & _ & Hev).
      split; [rewrite Hs; exact Ha|].
      intros h u st Hin. rewrite Hev in Hin.
      apply in_app_or in Hin as [Hin|[E|[]]]; [eauto|].
      injection E as _ _ <-. exact Ha0. }
    intros _. apply keeps_if.
    + apply keeps_bind; [apply keeps_update_work_description|]. intros _.
      apply keeps_store_enriching. intros s r s' H.
      apply add_failed_url_inv in H as [Ht _].
      apply all_classified_tenders, Ht.
    + apply keeps_update_work_description.
  - intros e. apply keeps_update_work_description.
Qed.

Lemma keeps_enrich_loop (env : SqlEnv) (out : Outside)
    (config : PortalConfig) (l : list phase2_tender) :
  forall idx,
    keeps (enriching (cfg_portal_id config)) (enrich_loop env out config idx l).
Proof.
  induction l as [|t l IH]; intros idx; simpl; [apply keeps_ret|].
  apply keeps_bind; [apply keeps_enrich_one|]. intros _. apply IH.
Qed.

Lemma keeps_set_metadata_enriching (env : SqlEnv) (pid key value : string) :
  keeps (enriching pid) (on_store (set_metadata env pid key value)).
Proof.
  apply keeps_store_enriching. intros s r s' H.
  apply set_metadata_inv in H as [Ht _]. apply all_classified_tenders, Ht.
Qed.

Lemma keeps_enrich_block (env : SqlEnv) (out : Outside)
    (config : PortalConfig) :
  keeps (enriching (cfg_portal_id config)) (enrich_block env out config).
Proof.
  unfold enrich_block. apply keeps_bind.
  { apply keeps_store_enriching. intros s r s' H.
    apply get_metadata_db in H as [Hd _]. rewrite Hd. auto. }
  intros done2. apply keeps_if; [|apply keeps_ret].
  unfold run_phase2. apply keeps_bind.
  { apply keeps_store_enriching. intros s r s' H.
    apply get_tenders_for_phase2_db in H. rewrite H. auto. }
  intros l. destruct l as [|t l]; [apply keeps_ret|].
  apply keeps_bind; [apply keeps_enrich_loop|]. intros _.
  apply keeps_set_metadata_enriching.
Qed.

(** *** The whole run *)

Lemma fbind_inv {A B : Type} (m : fprog A) (k : A -> fprog B)
    (w w' : World) (r : outcome B) :
  fbind m k w = Some (r, w') ->
  (exists e, m w = Some (Raise e, w') /\ r = Raise e)
  \/ (exists a w1, m w = Some (Ok a, w1) /\ k a w1 = Some (r, w')).
Proof.
  unfold fbind. destruct (m w) as [[[a|e] w1]|]; intros H;
    [right; eauto| |discriminate].
  left. inversion H; subst. eauto.
Qed.

Lemma no_fetch_classified (pid : string) (evs : list event) :
  no_fetch evs -> fetches_classified pid evs.
Proof. intros H h u st Hin. destruct (H _ _ _ Hin). Qed.

Lemma extract_block_spec (env : SqlEnv) (out : Outside)
    (config : PortalConfig) (fuel : nat) (s : Store) (r : outcome unit)
    (w1 : World) :
  phase_invariant (cfg_portal_id config) s ->
  extract_block env out config fuel (fresh_world s) = Some (r, w1) ->
  no_fetch (w_events w1)
  /\ (truthy (meta (w_store w1) (cfg_portal_id config)
                   "ai_filtering_complete") = true ->
      all_classified (cfg_portal_id config) (db (w_store w1))).
Proof.
  intros Hinv H. unfold extract_block, portal in H.
  apply fbind_inv in H as [(e & H1 & _)|(done1 & w0 & H1 & H)].
  { unfold lift in H1. injection H1 as H1.
    apply on_store_inv in H1 as [H1 (_ & _ & _ & He)].
    apply get_metadata_db in H1 as [Hd _].
    split; [rewrite He; apply no_fetch_nil|].
    unfold meta. rewrite Hd. intros Htr. apply Hinv, Htr. }
  unfold lift in H1. injection H1 as H1.
  apply on_store_inv in H1 as [H1 (_ & _ & _ & He)].
  apply get_metadata_db in H1 as [Hd Hv]. specialize (Hv _ eq_refl).
  simpl in Hd, He.
  destruct (truthy done1) eqn:Htr; cbn [negb] in H.
  - assert (HP : no_fetch (w_events w0) /\ db (w_store w0) = db s).
    { split; [rewrite He; apply no_fetch_nil|exact Hd]. }
    assert (HP1 : no_fetch (w_events w1) /\ db (w_store w1) = db s).
    { revert HP H. generalize w0 r w1.
      change (fkeeps (fun w => no_fetch (w_events w) /\ db (w_store w) = db s)
                (lift (last_page ← on_store (get_metadata env
                         (cfg_portal_id config) "last_page_extracted");
                       if truthy last_page
                       then n ← eval (int (default "" last_page));
                            set_pages_scraped n
                       else mret tt))).
      apply fkeeps_lift, keeps_bind.
      - apply keeps_on_store. intros w r0 s' [Hn Hdb] Hg.
        apply get_metadata_db in Hg as [Hg _]. simpl. split; [exact Hn|].
        congruence.
      - intros last. apply keeps_if; [|apply keeps_ret].
        apply keeps_bind; [apply keeps_eval|]. intros n.
        intros w r0 w' HP0 Hs. inversion Hs; subst. exact HP0. }
    destruct HP1 as [Hn1 Hd1]. split; [exact Hn1|].
    unfold meta. rewrite Hd1. intros Ha. apply Hinv, Ha.
  - assert (HP : before_enrich (cfg_portal_id config)
                   (meta s (cfg_portal_id config) "ai_filtering_complete") w0).
    { split; [rewrite He; apply no_fetch_nil|]. unfold meta.
      rewrite Hd. reflexivity. }
    assert (HP1 : before_enrich (cfg_portal_id config)
                   (meta s (cfg_portal_id config) "ai_filtering_complete") w1).
    { revert HP H. generalize w0 r w1.
      change (fkeeps (before_enrich (cfg_portal_id config)
                (meta s (cfg_portal_id config) "ai_filtering_complete"))
                (fbind (lift (navigate_to_closing_within_7_days out))
                   (fun ok : bool =>
                      if ok then fbind (run_phase1 env out config fuel)
                                       (fun _ => fret tt)
                      else lift (raise "Navigation failed")))).
      apply fkeeps_bind.
      - apply fkeeps_lift. unfold navigate_to_closing_within_7_days.
        destruct (landing out); [|apply keeps_ret].
        apply keeps_bind; [apply keeps_set_page_before|].
        intros _. apply keeps_ret.
      - intros [|].
        + apply fkeeps_bind; [apply fkeeps_run_phase1|].
          intros _. apply fkeeps_ret.
        + apply fkeeps_lift, keeps_eval. }
    destruct HP1 as [Hn1 Hm1]. split; [exact Hn1|].
    rewrite Hm1. intros Ha. destruct (Hinv Ha) as [Hp1 _].
    cbn [fresh_world w_store] in Hv. rewrite <- Hv in Hp1. congruence.
Qed.

(** C8: with a classifier configured, on a store whose checkpoints say
    what the workers make them say, every detail page that [run] fetches
    in phase 2 is fetched when no row of the portal is unclassified, so the
    record being enriched has been classified; and without a classifier
    the classification step changes nothing and returns. *)
Theorem enrich_after_classify (env : SqlEnv) (out : Outside)
    (config : PortalConfig) :
  (forall (fuel : nat) (s : Store) (r : outcome unit) (w' : World),
     phase_invariant (cfg_portal_id config) s ->
     run_phases env out config true fuel (fresh_world s) = Some (r, w') ->
     fetches_classified (cfg_portal_id config) (w_events w'))
  /\ (forall w : World,
        classify_block env out config false w = (Ok tt, w)
        /\ run_ai_filtering env out config false w = (Ok tt, w)).
Proof.
  split; [|intros w; split; reflexivity].
  intros fuel s r w' Hinv H. unfold run_phases in H.
  apply fbind_inv in H as [(e & H1 & _)|([] & w1 & H1 & H)].
  { apply extract_block_spec in H1 as [Hn _]; [|exact Hinv].
    apply no_fetch_classified, Hn. }
  apply extract_block_spec in H1 as [Hn1 Ha1]; [|exact Hinv].
  apply fbind_inv in H as [(e & H2 & _)|([] & w2 & H2 & H)].
  { unfold lift in H2. injection H2 as H2.
    apply classify_block_spec in H2 as [Hn2 _].
    apply no_fetch_classified, Hn2, Hn1. }
  unfold lift in H2. injection H2 as H2.
  apply classify_block_spec in H2 as [Hn2 Ha2].
  unfold lift in H. injection H as H.
  assert (HE : enriching (cfg_portal_id config) w2).
  { split; [apply Ha2; auto|apply no_fetch_classified, Hn2, Hn1]. }
  exact (proj2 (keeps_enrich_block env out config w2 r w' HE H)).
Qed.

Lemma enrich_after_classify_witness :
  fetches_classified (cfg_portal_id wb_config) (w_events classified_run_world)
  /\ fetch_marks (w_events classified_run_world)
     = [("https://wbtenders.gov.in/nicgep/app?tender=1.", [1%Z]);
        ("https://wbtenders.gov.in/nicgep/app?tender=3.", [1%Z])].
Proof.
  assert (Hinv : phase_invariant (cfg_portal_id wb_config) empty_store).
  { intros H. vm_compute in H. discriminate H. }
  assert (Hrun : run_phases sample_env kind_out wb_config true 10
                   (fresh_world empty_store)
                 = Some (Ok tt, classified_run_world))
    by (vm_compute; reflexivity).
  split.
  - exact (proj1 (enrich_after_classify sample_env kind_out wb_config)
             10 empty_store (Ok tt) classified_run_world Hinv Hrun).
  - vm_compute. reflexivity.
Defined.

Example no_classifier_fetches_unclassified :
  match run_phases sample_env kind_out wb_config false 10
                   (fresh_world empty_store) with
  | Some (Ok _, w) =>
      map snd (fetch_marks (w_events w)) = [[0%Z]; [0%Z]; [0%Z]; [0%Z]]
      /\ marks (w_store w) = [("1.", 0%Z); ("2.", 0%Z); ("3.", 0%Z); ("4.", 0%Z)]
  | _ => False
  end.
Proof. vm_compute. split; reflexivity. Qed.

(* ================================================================== *)
(** * Further properties of the store, the worker and the orchestrator *)
(* ================================================================== *)

(** ** The store: reading back what was written *)

Lemma read_method_run {A : Type} (env : SqlEnv)
    (stmt : nat -> DB -> outcome (A * DB)) (s : Store) (a : A) (d : DB) :
  fault env (tick s) = None ->
  stmt (now env (tick s)) (db s) = Ok (a, d) ->
  with_connection (execute env stmt) s = (Ok a, MkStore (db s) (S (tick s))).
Proof.
  intros Hf Hs. unfold with_connection.
  rewrite (execute_no_fault env stmt (get_connection s) a d Hf Hs).
  reflexivity.
Qed.

(** X1. A checkpoint written by [set_metadata] is read back by
    [get_metadata] under the same portal and key, and no checkpoint of
    another key or another portal, no tender, failed URL or execution
    row is changed by the write. *)
Theorem metadata_round_trip (env : SqlEnv) (pid key value : string)
    (s s1 : Store) :
  set_metadata env pid key value s = (Ok tt, s1) ->
  meta s1 pid key = Some value
  /\ (forall p k, (p, k) <> (pid, key) -> meta s1 p k = meta s p k)
  /\ tenders (db s1) = tenders (db s)
  /\ failed_urls (db s1) = failed_urls (db s)
  /\ portal_execution_log (db s1) = portal_execution_log (db s)
  /\ (fault env (tick s1) = None ->
      exists s2, get_metadata env pid key s1 = (Ok (Some value), s2)
                 /\ db s2 = db s1).
Proof.
  intros H. apply write_method_inv in H as (x & H). injection H as _ H.
  symmetry in H.
  assert (Hm : meta s1 pid key = Some value).
  { unfold meta. rewrite H. simpl. apply lookup_insert_eq. }
  split; [exact Hm|]. split.
  { intros p k Hne. unfold meta. rewrite H. simpl.
    apply lookup_insert_ne. congruence. }
  split; [rewrite H; reflexivity|].
  split; [rewrite H; reflexivity|].
  split; [rewrite H; reflexivity|].
  intros Hf. eexists. split.
  - unfold get_metadata.
    apply (read_method_run _ _ _ _ (db s1)); [exact Hf|].
    fold (meta s1 pid key). rewrite Hm. reflexivity.
  - reflexivity.
Qed.

Lemma metadata_round_trip_witness :
  let s1 := (set_metadata sample_env "WB" "last_page_extracted" "2"
               empty_store).2 in
  meta s1 "WB" "last_page_extracted" = Some "2"
  /\ meta s1 "BHEL" "last_page_extracted" = meta empty_store "BHEL" "last_page_extracted".
Proof.
  intros s1.
  assert (H : set_metadata sample_env "WB" "last_page_extracted" "2" empty_store
              = (Ok tt, s1)) by reflexivity.
  destruct (metadata_round_trip _ _ _ _ _ _ H) as (H1 & H2 & _).
  split; [exact H1|].
  apply H2. discriminate.
Defined.

(** ** The upsert, one record at a time *)

Lemma dict_item_raise (t : gmap string string) (k e : string) :
  dict_item t k = Raise e -> t !! k = None /\ e = key_error k.
Proof.
  unfold dict_item. destruct (t !! k); [discriminate|].
  intros H. injection H as <-. auto.
Qed.

Lemma read_source_raise (t : gmap string string) (e : string) :
  read_source t = Raise e -> missing_key t e.
Proof.
  unfold read_source, missing_key, upsert_keys. intros H.
  repeat match type of H with
  | (mbind _ (dict_item t ?k)) = _ =>
      let E := fresh "E" in
      destruct (dict_item t k) eqn:E;
        [simpl in H
        |simpl in H; injection H as ->; apply dict_item_raise in E as [E ->];
         exists k; simpl; tauto]
  end.
  discriminate.
Qed.

Lemma read_insert_raise (t : gmap string string) (e : string) :
  read_insert t = Raise e -> missing_key t e.
Proof.
  unfold read_insert, missing_key, upsert_keys. intros H.
  repeat match type of H with
  | (mbind _ (dict_item t ?k)) = _ =>
      let E := fresh "E" in
      destruct (dict_item t k) eqn:E;
        [simpl in H
        |simpl in H; injection H as ->; apply dict_item_raise in E as [E ->];
         exists k; simpl; tauto]
  end.
  discriminate.
Qed.

Lemma read_insert_work (t : gmap string string) (p : source_fields)
    (wd : string) :
  read_insert t = Ok (p, wd) -> wd = dict_get t K_WORK "".
Proof.
  unfold read_insert. intros H.
  repeat match type of H with
  | (mbind _ (dict_item t ?k)) = _ =>
      destruct (dict_item t k); [simpl in H|discriminate]
  end.
  injection H as _ <-. reflexivity.
Qed.

Lemma execute_raise {A : Type} (env : SqlEnv)
    (stmt : nat -> DB -> outcome (A * DB)) (c c' : Conn) (e : string) :
  execute env stmt c = (Raise e, c') ->
  fault env (clock c) = Some e
  \/ (fault env (clock c) = None
      /\ stmt (now env (clock c)) (working c) = Raise e).
Proof.
  unfold execute. destruct (fault env (clock c)) as [e0|].
  - intros H. injection H as -> _. auto.
  - destruct (stmt (now env (clock c)) (working c)) as [[a d]|e0];
      intros H; [discriminate|]. injection H as -> _. auto.
Qed.

(** One turn of the loop of [upsert_tenders_batch]: it raises, for a
    missing key or a fault of one of its two statements, and leaves the
    connection's view as it was; or it updates the rows of the record's
    hash, or inserts a row when there is none, and goes on. *)
Lemma upsert_loop_step (env : SqlEnv) (pid : string)
    (t : gmap string string) (rest : list (gmap string string))
    (i u : nat) (c c' : Conn) (r : outcome (nat * nat)) :
  upsert_loop env pid (t :: rest) i u c = (r, c') ->
  (exists e, r = Raise e /\ working c' = working c
             /\ clock c <= clock c' <= S (S (clock c))
             /\ (missing_key t e
                 \/ exists k, clock c <= k < clock c' /\ fault env k = Some e))
  \/ (exists h p c1 i1 u1,
        dict_item t K_HASH = Ok h /\ read_source t = Ok p
        /\ durable c1 = durable c /\ clock c1 = S (S (clock c))
        /\ fault env (clock c) = None /\ fault env (S (clock c)) = None
        /\ upsert_loop env pid rest i1 u1 c1 = (r, c')
        /\ ((existsb (matches pid h) (tenders (working c)) = true
             /\ working c1
                = (update_where pid h (set_source p (now env (S (clock c))))
                                (working c)).2
             /\ i1 = i /\ u1 = S u)
            \/ (existsb (matches pid h) (tenders (working c)) = false
                /\ working c1
                   = set_tenders (working c)
                       (tenders (working c)
                        ++ [inserted_row pid h p (dict_get t K_WORK "")
                              (now env (S (clock c)))
                              (S (tenders_seq (working c)))])
                       (S (tenders_seq (working c)))
                /\ i1 = S i /\ u1 = u))).
Proof.
  intros H. simpl in H.
  apply sql_bind_inv in H as [(e & H1 & ->)|(h & c1 & H1 & H)].
  { apply py_inv in H1 as [Hh ->]. symmetry in Hh.
    left. exists e. split; [reflexivity|]. split; [reflexivity|].
    split; [lia|]. left. apply dict_item_raise in Hh as [Hn ->].
    exists K_HASH. unfold upsert_keys. simpl. auto. }
  apply py_inv in H1 as [Hh ->]. symmetry in Hh.
  apply sql_bind_inv in H as [(e & H2 & ->)|(ex & c2 & H2 & H)].
  { pose proof (execute_raise _ _ _ _ _ H2) as [Hf|[_ Hs]]; [|discriminate].
    apply select_existing_inv in H2 as (Hd & Hw & Hc & _).
    left. exists e. split; [reflexivity|]. split; [exact Hw|].
    split; [lia|]. right. exists (clock c). split; [lia|exact Hf]. }
  pose proof H2 as H2'.
  apply execute_inv in H2' as (_ & _ & [(e & E & _)|(a & _ & Hf2 & _)]);
    [discriminate|].
  apply select_existing_inv in H2 as (Hd2 & Hw2 & Hc2 & Hex).
  specialize (Hex _ eq_refl).
  pose proof (find_matches pid h (tenders (working c))) as Hfind.
  destruct (List.find (matches pid h) (tenders (working c))) as [r0|];
    simpl in Hex; subst ex.
  - destruct Hfind as [Hr0 Hm0].
    assert (Hex : existsb (matches pid h) (tenders (working c)) = true).
    { apply existsb_exists. exists r0. auto. }
    apply sql_bind_inv in H as [(e & H3 & ->)|(p & c3 & H3 & H)].
    { apply py_inv in H3 as [Hp ->]. symmetry in Hp.
      left. exists e. split; [reflexivity|]. split; [exact Hw2|].
      split; [lia|]. left. apply read_source_raise. exact Hp. }
    apply py_inv in H3 as [Hp ->]. symmetry in Hp.
    apply sql_bind_inv in H as [(e & H4 & ->)|(rc & c4 & H4 & H)].
    { pose proof (execute_raise _ _ _ _ _ H4) as [Hf|[_ Hs]]; [|discriminate].
      apply update_source_inv in H4 as (Hd4 & Hc4 & [(e' & _ & Hw4)|(E & _)]);
        [|discriminate].
      left. exists e. split; [reflexivity|]. split; [congruence|].
      split; [lia|]. right. exists (clock c2). split; [lia|exact Hf]. }
    pose proof H4 as H4'.
    apply execute_inv in H4' as (_ & _ & [(e & E & _)|(a' & _ & Hf4 & _)]);
      [discriminate|].
    apply update_source_inv in H4 as (Hd4 & Hc4 & [(e' & E & _)|(Erc & Hw4)]);
      [discriminate|].
    injection Erc as ->. rewrite Hw2 in *. rewrite Hc2 in *.
    rewrite (rowcount_positive _ _ _ r0 Hr0 Hm0) in H.
    right. exists h, p, c4, i, (S u).
    split; [exact Hh|]. split; [exact Hp|]. split; [congruence|].
    split; [lia|]. split; [exact Hf2|]. split; [exact Hf4|].
    split; [exact H|]. left. auto.
  - assert (Hex : existsb (matches pid h) (tenders (working c)) = false).
    { destruct (existsb (matches pid h) (tenders (working c))) eqn:E;
        [|reflexivity].
      apply existsb_exists in E as (x & Hx & Hm).
      rewrite (Hfind x Hx) in Hm. discriminate. }
    apply sql_bind_inv in H as [(e & H3 & ->)|([p wd] & c3 & H3 & H)].
    { apply py_inv in H3 as [Hp ->]. symmetry in Hp.
      left. exists e. split; [reflexivity|]. split; [exact Hw2|].
      split; [lia|]. left. apply read_insert_raise. exact Hp. }
    apply py_inv in H3 as [Hp ->]. symmetry in Hp. simpl in H.
    pose proof (read_insert_work _ _ _ Hp) as Hwd.
    apply read_insert_source in Hp.
    apply sql_bind_inv in H as [(e & H4 & ->)|(rc & c4 & H4 & H)].
    { pose proof (execute_raise _ _ _ _ _ H4) as [Hf|[_ Hs]].
      - apply insert_tender_inv in H4
          as (Hd4 & Hc4 & [(e' & _ & Hw4)|(E & _)]); [|discriminate].
        left. exists e. split; [reflexivity|]. split; [congruence|].
        split; [lia|]. right. exists (clock c2). split; [lia|exact Hf].
      - rewrite Hw2, Hex in Hs. discriminate. }
    unfold insert_tender in H4.
    apply execute_inv in H4 as (Hd4 & Hc4 & [(e & E & _)|(a' & Ea & Hf4 & Hs)]);
      [discriminate|].
    injection Ea as ->. rewrite Hw2, Hex in Hs. injection Hs as <- Hw4.
    simpl in H. rewrite Hc2 in *.
    right. exists h, p, c4, (S i), u.
    split; [exact Hh|]. split; [exact Hp|]. split; [congruence|].
    split; [lia|]. split; [exact Hf2|]. split; [exact Hf4|].
    split; [exact H|]. right. split; [exact Hex|].
    split; [|auto]. rewrite <- Hw4, Hwd. reflexivity.
Qed.

(** ** Why the upsert raises *)

Lemma upsert_loop_raise (env : SqlEnv) (pid : string)
    (batch : list (gmap string string)) :
  forall i u c r c',
    upsert_loop env pid batch i u c = (r, c') ->
    clock c <= clock c'
    /\ forall e, r = Raise e ->
         (exists t, In t batch /\ missing_key t e)
         \/ exists k, clock c <= k < clock c' /\ fault env k = Some e.
Proof.
  induction batch as [|t rest IH]; intros i u c r c' H.
  - simpl in H. inversion H; subst. split; [lia|discriminate].
  - apply upsert_loop_step in H
      as [(e & -> & _ & Hc & Hwhy)
         |(h & p & c1 & i1 & u1 & _ & _ & _ & Hc1 & _ & _ & H & _)].
    + split; [lia|]. intros e' E. injection E as <-.
      destruct Hwhy as [Hm|Hf]; [left|right; exact Hf].
      exists t. split; [left; reflexivity|exact Hm].
    + apply IH in H as [Hc Hwhy]. split; [lia|].
      intros e E. destruct (Hwhy e E) as [(t' & Ht' & Hm)|(k & Hk & Hf)].
      * left. exists t'. split; [right; exact Ht'|exact Hm].
      * right. exists k. split; [lia|exact Hf].
Qed.

Lemma missing_key_unreadable (t : gmap string string) (e : string) :
  missing_key t e -> ~ readable t.
Proof.
  intros (key & Hin & Hnone & _) (h & p & Hh & Hp).
  unfold upsert_keys in Hin. simpl in Hin.
  unfold read_source, dict_item in Hp. unfold dict_item in Hh.
  repeat (destruct Hin as [<-|Hin];
          [rewrite Hnone in *;
           repeat match type of Hp with
                  | context [match ?x with Some _ => _ | None => _ end] =>
                      destruct x; simpl in Hp; try discriminate
                  end; discriminate|]).
  destruct Hin.
Qed.

Lemma upsert_loop_raise_store (env : SqlEnv) (pid : string)
    (batch : list (gmap string string)) (s : Store) (e : string)
    (s' : Store) :
  upsert_tenders_batch env pid batch s = (Raise e, s') ->
  (exists t, In t batch /\ missing_key t e)
  \/ exists k, tick s <= k < tick s' /\ fault env k = Some e.
Proof.
  intros H. unfold upsert_tenders_batch in H.
  destruct ((upsert_loop env pid batch 0 0 ≫= _) (get_connection s))
    as [r0 c0] eqn:E.
  apply sql_bind_inv in E as [(e0 & E1 & ->)|([i u] & c1 & E1 & E)].
  - injection H as -> <-. apply upsert_loop_raise in E1 as [Hc Hwhy].
    destruct (Hwhy e eq_refl) as [Hm|(k & Hk & Hf)]; [left; exact Hm|].
    right. exists k. simpl in *. split; [lia|exact Hf].
  - apply upsert_loop_raise in E1 as [Hc _].
    apply sql_bind_inv in E as [(e0 & E2 & ->)|([] & c2 & E2 & E)].
    + injection H as -> <-. unfold commit in E2.
      destruct (fault env (clock c1)) as [e1|] eqn:Hf; [|discriminate].
      injection E2 as -> <-. right. exists (clock c1).
      simpl in *. split; [lia|exact Hf].
    + injection E as <- _. discriminate.
Qed.

(** X2. [upsert_tenders_batch] raises only for a record that lacks one
    of the keys it reads, with that [KeyError], or for a failure of
    SQLite during the call; the UNIQUE constraint of the table never
    fires, because the INSERT follows a SELECT that found nothing.  So a
    batch of complete records on a store without failures is applied. *)
Theorem upsert_raises_for_missing_key_or_fault (env : SqlEnv) (pid : string)
    (batch : list (gmap string string)) (s : Store) :
  (forall e s',
     upsert_tenders_batch env pid batch s = (Raise e, s') ->
     (exists t, In t batch /\ missing_key t e)
     \/ exists k, tick s <= k < tick s' /\ fault env k = Some e)
  /\ (Forall readable batch -> no_faults_from env (tick s) ->
      exists i u s', upsert_tenders_batch env pid batch s = (Ok (i, u), s')).
Proof.
  assert (Hraise : forall e s',
     upsert_tenders_batch env pid batch s = (Raise e, s') ->
     (exists t, In t batch /\ missing_key t e)
     \/ exists k, tick s <= k < tick s' /\ fault env k = Some e).
  { intros e s'. apply upsert_loop_raise_store. }
  split; [exact Hraise|]. intros Hread Hnf.
  destruct (upsert_tenders_batch env pid batch s) as [[[i u]|e] s'] eqn:E.
  - exists i, u, s'. reflexivity.
  - exfalso. destruct (Hraise e s' eq_refl) as [(t & Ht & Hm)|(k & Hk & Hf)].
    + apply (missing_key_unreadable _ _ Hm).
      rewrite Forall_forall in Hread. apply Hread, list_elem_of_In, Ht.
    + rewrite Hnf in Hf by lia. discriminate.
Qed.

(** ** The upsert keeps the constraints of the table *)

Lemma row_key_update (pid h : string) (f : tender_row -> tender_row)
    (l : list tender_row) :
  (forall r, row_key (f r) = row_key r) ->
  map row_key (map (fun r => if matches pid h r then f r else r) l)
  = map row_key l.
Proof.
  intros Hf. rewrite map_map. apply map_ext. intros r.
  destruct (matches pid h r); [apply Hf|reflexivity].
Qed.

Lemma row_id_update (pid h : string) (f : tender_row -> tender_row)
    (l : list tender_row) :
  (forall r, row_id (f r) = row_id r) ->
  map row_id (map (fun r => if matches pid h r then f r else r) l)
  = map row_id l.
Proof.
  intros Hf. rewrite map_map. apply map_ext. intros r.
  destruct (matches pid h r); [apply Hf|reflexivity].
Qed.

Lemma table_ok_update (pid h : string) (f : tender_row -> tender_row)
    (d : DB) :
  (forall r, row_key (f r) = row_key r) ->
  (forall r, row_id (f r) = row_id r) ->
  table_ok d -> table_ok (update_where pid h f d).2.
Proof.
  intros Hk Hi (H1 & H2 & H3). unfold table_ok. simpl.
  rewrite row_key_update, row_id_update by assumption.
  split; [exact H1|]. split; [exact H2|].
  rewrite Forall_forall in H3. apply Forall_forall. intros x Hx.
  apply list_elem_of_In, in_map_iff in Hx as (y & <- & Hy).
  apply list_elem_of_In in Hy.
  destruct (matches pid h y); [rewrite Hi|]; apply H3, Hy.
Qed.

Lemma sorted_snoc (l : list nat) (n : nat) :
  StronglySorted lt l -> Forall (fun x => x < n) l ->
  StronglySorted lt (l ++ [n]).
Proof.
  induction 1 as [|x l Hl IH Hx]; intros Hn; simpl.
  - repeat constructor.
  - inversion Hn; subst. constructor; [auto|].
    apply Forall_app. split; [exact Hx|]. repeat constructor. assumption.
Qed.

Lemma table_ok_insert (pid h : string) (row : tender_row) (d : DB) :
  existsb (matches pid h) (tenders d) = false ->
  row_key row = (pid, h) -> row_id row = S (tenders_seq d) ->
  table_ok d ->
  table_ok (set_tenders d (tenders d ++ [row]) (S (tenders_seq d))).
Proof.
  intros Hex Hk Hi (H1 & H2 & H3). unfold table_ok. simpl.
  rewrite !map_app. simpl. split; [|split].
  - apply NoDup_app. split; [exact H1|]. split.
    + intros k Hin Hin'. apply list_elem_of_In in Hin' as [<-|[]].
      apply list_elem_of_In, in_map_iff in Hin as (x & Hx & Hin).
      rewrite Hk in Hx. unfold row_key in Hx. injection Hx as Hp Hh.
      assert (Hm : matches pid h x = true) by (apply matches_true; auto).
      assert (existsb (matches pid h) (tenders d) = true).
      { apply existsb_exists. eauto. }
      congruence.
    + apply NoDup_singleton.
  - apply sorted_snoc; [exact H2|]. rewrite Hi.
    rewrite Forall_forall in H3. apply Forall_forall. intros x Hx.
    apply list_elem_of_In, in_map_iff in Hx as (y & <- & Hy).
    apply list_elem_of_In, H3 in Hy. lia.
  - apply Forall_app. split.
    + eapply Forall_impl; [exact H3|]. simpl. intros x Hx. lia.
    + constructor; [rewrite Hi; lia|constructor].
Qed.

Lemma upsert_loop_table_ok (env : SqlEnv) (pid : string)
    (batch : list (gmap string string)) :
  forall i u c r c',
    upsert_loop env pid batch i u c = (r, c') ->
    table_ok (working c) -> table_ok (working c').
Proof.
  induction batch as [|t rest IH]; intros i u c r c' H Hok.
  - simpl in H. inversion H; subst. exact Hok.
  - apply upsert_loop_step in H
      as [(e & -> & Hw & _)
         |(h & p & c1 & i1 & u1 & _ & _ & _ & _ & _ & _ & H & Hcase)].
    + rewrite Hw. exact Hok.
    + eapply IH; [exact H|].
      destruct Hcase as [(_ & -> & _)|(Hex & -> & _)].
      * apply table_ok_update; auto.
      * apply table_ok_insert with (pid := pid) (h := h); auto.
Qed.

(** X3. [upsert_tenders_batch] keeps the constraints of table
    [tenders]: no two rows share (portal_id, identity_hash), the ids
    grow with the rows, and none exceeds the AUTOINCREMENT counter;
    this holds whether the call returns or raises. *)
Theorem upsert_keeps_table_ok (env : SqlEnv) (pid : string)
    (batch : list (gmap string string)) (s s' : Store)
    (r : outcome (nat * nat)) :
  upsert_tenders_batch env pid batch s = (r, s') ->
  table_ok (db s) -> table_ok (db s').
Proof.
  intros H Hok. apply upsert_tenders_batch_inv in H
    as [(e & _ & -> & _)|(i & u & c' & _ & Hloop & _ & -> & _)];
    [exact Hok|].
  eapply upsert_loop_table_ok; [exact Hloop|exact Hok].
Qed.

Lemma upsert_keeps_table_ok_witness : table_ok (db sample_store).
Proof.
  apply (upsert_keeps_table_ok sample_env "WB" sample_batch empty_store
           sample_store
           (upsert_tenders_batch sample_env "WB" sample_batch empty_store).1).
  - unfold sample_store. apply surjective_pairing.
  - unfold table_ok. simpl. repeat constructor.
Defined.

(** ** The rows the upsert inserts *)

Lemma source_of_set_source (p : source_fields) (ts : nat) (r : tender_row) :
  source_of (set_source p ts r) = p.
Proof. destruct p. reflexivity. Qed.

Lemma inserted_from_update (pid : string) (all : list (gmap string string))
    (t : gmap string string) (h : string) (p : source_fields) (ts : nat)
    (r : tender_row) :
  In t all -> dict_item t K_HASH = Ok h -> read_source t = Ok p ->
  inserted_from pid all r ->
  inserted_from pid all (if matches pid h r then set_source p ts r else r).
Proof.
  intros Hin Hh Hp Hr. destruct (matches pid h r) eqn:Hm; [|exact Hr].
  apply matches_true in Hm as [_ Hhr].
  destruct Hr as (H1 & H2 & H3 & H4 & H5 & _).
  unfold inserted_from. simpl. repeat (split; [assumption|]).
  exists t. rewrite source_of_set_source. rewrite Hhr. auto.
Qed.

Lemma upsert_loop_inserted (env : SqlEnv) (pid : string)
    (all batch : list (gmap string string)) :
  forall i u c r c',
    (forall t, In t batch -> In t all) ->
    upsert_loop env pid batch i u c = (r, c') ->
    exists olds news,
      tenders (working c') = olds ++ news
      /\ Forall2 (fun x y => inserted_from pid all x -> inserted_from pid all y)
                 (tenders (working c)) olds
      /\ Forall (inserted_from pid all) news
      /\ forall i' u', r = Ok (i', u') -> i' = i + length news.
Proof.
  induction batch as [|t rest IH]; intros i u c r c' Hall H.
  - simpl in H. inversion H; subst.
    exists (tenders (working c')), []. rewrite app_nil_r.
    split; [reflexivity|]. split; [apply Forall2_same; auto|].
    split; [constructor|]. intros i' u' E. injection E as <- _. simpl. lia.
  - apply upsert_loop_step in H
      as [(e & -> & Hw & _)
         |(h & p & c1 & i1 & u1 & Hh & Hp & _ & _ & _ & _ & H & Hcase)].
    + exists (tenders (working c')), []. rewrite app_nil_r, Hw.
      split; [reflexivity|]. split; [apply Forall2_same; auto|].
      split; [constructor|]. discriminate.
    + apply IH in H as (olds & news & Ht & HF & Hnews & Hcnt);
        [|intros; apply Hall; right; assumption].
      assert (Hin : In t all) by (apply Hall; left; reflexivity).
      destruct Hcase as [(_ & Hw & -> & ->)|(Hex & Hw & -> & ->)];
        rewrite Hw in HF; simpl in HF.
      * exists olds, news. split; [exact Ht|]. split; [|split; assumption].
        apply Forall2_map_left in HF.
        eapply Forall2_impl; [exact HF|]. intros x y Hxy Hx. simpl in Hxy.
        apply Hxy. eapply inserted_from_update; eassumption.
      * apply Forall2_app_inv_l in HF as (o1 & o2 & HF1 & HF2 & ->).
        apply Forall2_singleton_l in HF2 as (row' & -> & Hrow).
        exists o1, (row' :: news).
        split; [rewrite Ht, <- app_assoc; reflexivity|].
        split; [exact HF1|]. split.
        { constructor; [|exact Hnews]. apply Hrow.
          unfold inserted_from. simpl. repeat (split; [reflexivity|]).
          split; exists t; [auto|].
          split; [exact Hin|]. split; [exact Hh|].
          rewrite Hp. f_equal. destruct p. reflexivity. }
        intros i' u' E. rewrite (Hcnt _ _ E). simpl. lia.
Qed.

(** X4. When [upsert_tenders_batch] returns [(inserted, updated)], the
    rows it found are still there, in their places, and exactly
    [inserted] rows follow them.  Each new row is filed under the portal
    and the hash of a record of the batch, with phase 1 status
    'extracted', phase 2 status 'pending' and no classification; its work
    description is that record's, or empty when the record has none, and
    its source fields are those of a record of the batch with its hash. *)
Theorem upsert_inserted_rows (env : SqlEnv) (pid : string)
    (batch : list (gmap string string)) (s s' : Store) (i u : nat) :
  upsert_tenders_batch env pid batch s = (Ok (i, u), s') ->
  exists olds news,
    tenders (db s') = olds ++ news
    /\ map row_key olds = map row_key (tenders (db s))
    /\ length news = i
    /\ Forall (inserted_from pid batch) news.
Proof.
  intros H.
  pose proof (upsert_tenders_batch_outcome env pid batch s) as Hout.
  rewrite H in Hout.
  destruct Hout as (_ & _ & _ & _ & _ & olds0 & news0 & Ht0 & HF0 & _ & Hi0).
  apply upsert_tenders_batch_inv in H
    as [(e & E & _)|(i0 & u0 & c' & E & Hloop & _ & Hdb & _)];
    [discriminate|].
  injection E as <- <-.
  apply upsert_loop_inserted with (all := batch) in Hloop
    as (olds & news & Ht & HF & Hnews & Hcnt); [|auto].
  specialize (Hcnt _ _ eq_refl). simpl in *.
  assert (Hlen : length olds = length olds0).
  { apply Forall2_length in HF, HF0. congruence. }
  assert (olds = olds0 /\ news = news0) as [-> ->].
  { rewrite Hdb, Ht in Ht0. apply app_inj_1 in Ht0; auto. }
  exists olds0, news0. split; [congruence|]. split.
  { symmetry. apply Forall2_frame_length.
    eapply Forall2_impl; [exact HF0|].
    intros x y [Hu _]. eapply upd_rel_frame, Hu. }
  split; [lia|exact Hnews].
Qed.

Lemma upsert_inserted_rows_witness :
  exists olds news,
    tenders (db sample_store) = olds ++ news
    /\ map row_key olds = map row_key (tenders (db empty_store))
    /\ length news = 2
    /\ Forall (inserted_from "WB" sample_batch) news.
Proof.
  apply (upsert_inserted_rows sample_env "WB" sample_batch empty_store
           sample_store 2 1).
  vm_compute. reflexivity.
Defined.

(** ** The queues of the two later phases *)

Lemma get_tenders_for_ai_filtering_run (env : SqlEnv) (pid : string)
    (s : Store) :
  fault env (tick s) = None ->
  get_tenders_for_ai_filtering env pid s
  = (Ok (ai_queue pid (db s)), MkStore (db s) (S (tick s))).
Proof.
  intros Hf. apply (read_method_run _ _ _ _ (db s)); [exact Hf|reflexivity].
Qed.

Lemma get_tenders_for_phase2_run (env : SqlEnv) (pid : string) (s : Store) :
  fault env (tick s) = None ->
  get_tenders_for_phase2 env pid s
  = (Ok (phase2_queue pid (db s)), MkStore (db s) (S (tick s))).
Proof.
  intros Hf. apply (read_method_run _ _ _ _ (db s)); [exact Hf|reflexivity].
Qed.

Lemma get_tenders_for_ai_filtering_ok (env : SqlEnv) (pid : string)
    (s s' : Store) (l : list (string * string)) :
  get_tenders_for_ai_filtering env pid s = (Ok l, s') ->
  l = ai_queue pid (db s).
Proof.
  intros H. apply read_method_inv in H as [_ H].
  destruct (H l eq_refl) as (d & E). injection E as <- _. reflexivity.
Qed.

Lemma get_tenders_for_phase2_ok (env : SqlEnv) (pid : string)
    (s s' : Store) (l : list phase2_tender) :
  get_tenders_for_phase2 env pid s = (Ok l, s') ->
  l = phase2_queue pid (db s).
Proof.
  intros H. apply read_method_inv in H as [_ H].
  destruct (H l eq_refl) as (d & E). injection E as <- _. reflexivity.
Qed.

Lemma in_queue_update {B : Type} (pid h : string)
    (f : tender_row -> tender_row) (q : tender_row -> bool)
    (g : tender_row -> B) (l : list tender_row) (y : B) :
  In y (map g (List.filter q
                 (map (fun r => if matches pid h r then f r else r) l)))
  <-> exists r, In r l
        /\ q (if matches pid h r then f r else r) = true
        /\ g (if matches pid h r then f r else r) = y.
Proof.
  rewrite in_map_iff. split.
  - intros (x & Hg & Hx). apply filter_In in Hx as [Hx Hq].
    apply in_map_iff in Hx as (r & <- & Hr). eauto.
  - intros (r & Hr & Hq & Hg). eexists. split; [exact Hg|].
    apply filter_In. split; [|exact Hq].
    apply in_map_iff. eauto.
Qed.

Lemma in_queue {B : Type} (q : tender_row -> bool) (g : tender_row -> B)
    (l : list tender_row) (y : B) :
  In y (map g (List.filter q l)) <-> exists r, In r l /\ q r = true /\ g r = y.
Proof.
  rewrite in_map_iff. split.
  - intros (x & Hg & Hx). apply filter_In in Hx as [Hx Hq]. eauto.
  - intros (r & Hr & Hq & Hg). exists r. split; [exact Hg|].
    apply filter_In. auto.
Qed.

Lemma rows_of_update (pid h p : string) (f : tender_row -> tender_row)
    (l : list tender_row) :
  p <> pid -> (forall r, portal_id (f r) = portal_id r) ->
  List.filter (in_portal p)
    (map (fun r => if matches pid h r then f r else r) l)
  = List.filter (in_portal p) l.
Proof.
  intros Hne Hf. induction l as [|r l IH]; [reflexivity|]. simpl.
  rewrite IH. destruct (matches pid h r) eqn:Hm; [|reflexivity].
  apply matches_true in Hm as [Hp _].
  unfold in_portal. rewrite Hf, Hp.
  destruct (String.eqb_spec pid p); [congruence|reflexivity].
Qed.

(** X5. Once [mark_ai_filtered] has run for a hash, the tender is no
    longer offered for classification, whatever its title; a tender it
    has rejected ([keep] false) is not offered for enrichment either.
    The tenders of other hashes stay in or out of both queues as they
    were, the rows of other portals are untouched, and so are the other
    tables. *)
Theorem mark_ai_filtered_queues (env : SqlEnv) (pid h : string) (keep : bool)
    (s s' : Store) :
  mark_ai_filtered env pid h keep s = (Ok tt, s') ->
  (forall l s2, get_tenders_for_ai_filtering env pid s' = (Ok l, s2) ->
     l = ai_queue pid (db s'))
  /\ (forall l s2, get_tenders_for_phase2 env pid s' = (Ok l, s2) ->
        l = phase2_queue pid (db s'))
  /\ (forall t, ~ In (h, t) (ai_queue pid (db s')))
  /\ (keep = false ->
      forall x, In x (phase2_queue pid (db s')) -> e_hash x <> h)
  /\ (forall h' t, h' <> h ->
        In (h', t) (ai_queue pid (db s')) <-> In (h', t) (ai_queue pid (db s)))
  /\ (forall x, e_hash x <> h ->
        In x (phase2_queue pid (db s')) <-> In x (phase2_queue pid (db s)))
  /\ (forall p, p <> pid -> rows_of p (db s') = rows_of p (db s))
  /\ other_tables (db s') = other_tables (db s).
Proof.
  intros H. apply mark_ai_filtered_inv in H.
  split; [intros l s2; apply get_tenders_for_ai_filtering_ok|].
  split; [intros l s2; apply get_tenders_for_phase2_ok|].
  unfold ai_queue, phase2_queue, rows_of. rewrite H. simpl.
  split; [|split; [|split; [|split; [|split]]]].
  - intros t Hin. apply in_queue_update in Hin as (r & _ & Hq & Hg).
    destruct (matches pid h r) eqn:Hm.
    + unfold unfiltered in Hq. simpl in Hq.
      apply andb_true_iff in Hq as [_ Hq]. destruct keep; discriminate.
    + injection Hg as Hh _. unfold unfiltered in Hq.
      apply andb_true_iff in Hq as [Hp _].
      apply String.eqb_eq in Hp.
      assert (matches pid h r = true) by (apply matches_true; auto).
      congruence.
  - intros -> x Hin Hx. apply in_queue_update in Hin as (r & _ & Hq & Hg).
    destruct (matches pid h r) eqn:Hm.
    + unfold needs_phase2 in Hq. simpl in Hq.
      rewrite !andb_true_iff in Hq. destruct Hq as [[[_ Hq] _] _].
      discriminate.
    + subst x. simpl in Hx. unfold needs_phase2 in Hq.
      rewrite !andb_true_iff in Hq. destruct Hq as [[[Hp _] _] _].
      apply String.eqb_eq in Hp.
      assert (matches pid h r = true) by (apply matches_true; auto).
      congruence.
  - intros h' t Hne. rewrite in_queue_update, in_queue.
    split; intros (r & Hr & Hq & Hg); exists r; (split; [exact Hr|]);
      destruct (matches pid h r) eqn:Hm; auto;
      apply matches_true in Hm as [_ Hh]; simpl in Hg; congruence.
  - intros x Hne. rewrite in_queue_update, in_queue.
    split; intros (r & Hr & Hq & Hg); exists r; (split; [exact Hr|]);
      destruct (matches pid h r) eqn:Hm; auto;
      apply matches_true in Hm as [_ Hh]; subst x; simpl in Hne; congruence.
  - intros p Hne. apply rows_of_update; auto.
  - reflexivity.
Qed.

Lemma mark_ai_filtered_queues_witness :
  let s' := (mark_ai_filtered sample_env "WB"
               "b888364ff2c2dd2efb9149e4d1acb481" false sample_store).2 in
  ~ In "b888364ff2c2dd2efb9149e4d1acb481"
       (map e_hash (phase2_queue "WB" (db s'))).
Proof.
  intros s'.
  assert (H : mark_ai_filtered sample_env "WB"
                "b888364ff2c2dd2efb9149e4d1acb481" false sample_store
              = (Ok tt, s')) by (vm_compute; reflexivity).
  clearbody s'.
  destruct (mark_ai_filtered_queues _ _ _ _ _ _ H) as (_ & _ & _ & H2 & _).
  intros Hin. apply in_map_iff in Hin as (x & Hx & Hin).
  exact (H2 eq_refl x Hin Hx).
Defined.

(** X6. Once [update_work_description] has run for a hash, its rows of
    the portal carry the description and the status given.  With a
    status other than 'pending' and 'failed' the tender is no longer
    selected by [get_tenders_for_phase2]; with 'failed' every tender
    that was selected still is, so a later run fetches it again.
    Tenders of other hashes and rows of other portals are as before. *)
Theorem update_work_description_queue (env : SqlEnv) (pid h wd st : string)
    (s s' : Store) :
  update_work_description env pid h wd st s = (Ok tt, s') ->
  (forall l s2, get_tenders_for_phase2 env pid s' = (Ok l, s2) ->
     l = phase2_queue pid (db s'))
  /\ (forall r, In r (tenders (db s')) -> portal_id r = pid ->
     identity_hash r = h -> work_description r = wd /\ phase2_status r = st)
  /\ (st <> "pending" -> st <> "failed" ->
      forall x, In x (phase2_queue pid (db s')) -> e_hash x <> h)
  /\ (st = "failed" ->
      forall x, In x (phase2_queue pid (db s)) ->
                In x (phase2_queue pid (db s')))
  /\ (forall x, e_hash x <> h ->
        In x (phase2_queue pid (db s')) <-> In x (phase2_queue pid (db s)))
  /\ (forall p, p <> pid -> rows_of p (db s') = rows_of p (db s))
  /\ other_tables (db s') = other_tables (db s).
Proof.
  intros H. apply write_method_inv in H as (x & H). injection H as _ H.
  split; [intros l s2; apply get_tenders_for_phase2_ok|].
  unfold phase2_queue, rows_of. rewrite <- H. simpl.
  split; [|split; [|split; [|split; [|split]]]].
  - intros r Hin Hp Hh. apply in_map_iff in Hin as (r0 & Hr & _).
    destruct (matches pid h r0) eqn:Hm.
    + subst r. simpl. auto.
    + subst r0.
      assert (matches pid h r = true) by (apply matches_true; auto).
      congruence.
  - intros Hn1 Hn2 y Hin Hy. apply in_queue_update in Hin as (r & _ & Hq & Hg).
    destruct (matches pid h r) eqn:Hm.
    + unfold needs_phase2 in Hq. simpl in Hq.
      rewrite !andb_true_iff in Hq. destruct Hq as [[_ Hq] _].
      apply orb_true_iff in Hq as [Hq|Hq]; apply String.eqb_eq in Hq;
        congruence.
    + subst y. simpl in Hy. unfold needs_phase2 in Hq.
      rewrite !andb_true_iff in Hq. destruct Hq as [[[Hp _] _] _].
      apply String.eqb_eq in Hp.
      assert (matches pid h r = true) by (apply matches_true; auto).
      congruence.
  - intros -> y. rewrite in_queue_update, in_queue.
    intros (r & Hr & Hq & Hg). exists r. split; [exact Hr|].
    destruct (matches pid h r) eqn:Hm; [|auto].
    split; [|exact Hg]. unfold needs_phase2 in *. simpl.
    rewrite !andb_true_iff in *. destruct Hq as [[[Hp Ha] _] Hu].
    repeat split; auto.
  - intros y Hne. rewrite in_queue_update, in_queue.
    split; intros (r & Hr & Hq & Hg); exists r; (split; [exact Hr|]);
      destruct (matches pid h r) eqn:Hm; auto;
      apply matches_true in Hm as [_ Hh]; subst y; simpl in Hne; congruence.
  - intros p Hne. apply rows_of_update; auto.
  - reflexivity.
Qed.

Lemma update_work_description_queue_witness :
  let s' := (update_work_description sample_env "WB"
               "b888364ff2c2dd2efb9149e4d1acb481"
               "WORK_DESCRIPTION_NOT_FOUND" "failed" sample_store).2 in
  incl (phase2_queue "WB" (db sample_store)) (phase2_queue "WB" (db s')).
Proof.
  intros s'.
  assert (H : update_work_description sample_env "WB"
                "b888364ff2c2dd2efb9149e4d1acb481"
                "WORK_DESCRIPTION_NOT_FOUND" "failed" sample_store
              = (Ok tt, s')) by (vm_compute; reflexivity).
  clearbody s'.
  destruct (update_work_description_queue _ _ _ _ _ _ _ H)
    as (_ & _ & _ & H3 & _).
  exact (H3 eq_refl).
Defined.

(** ** The statistics *)

Lemma count_rows_inv (env : SqlEnv) (pid : string) (f : tender_row -> bool)
    (c c' : Conn) (n : nat) :
  count_rows env pid f c = (Ok n, c') ->
  working c' = working c /\ durable c' = durable c
  /\ n = count_in pid f (working c).
Proof.
  intros H. apply execute_inv in H
    as (Hd & _ & [(e & E & _)|(a & E & _ & Hs)]); [discriminate|].
  injection E as <-. injection Hs as <- <-. auto.
Qed.

Lemma get_statistics_ok (env : SqlEnv) (pid : string) (s s' : Store)
    (st : statistics) :
  get_statistics env pid s = (Ok st, s') ->
  st = Statistics
         (count_in pid (fun _ => true) (db s))
         (count_in pid (fun r => Z.eqb (ai_filtered r) 1) (db s))
         (count_in pid (fun r => Z.eqb (ai_filtered r) (-1)) (db s))
         (count_in pid (fun r => String.eqb (phase2_status r) "success") (db s))
         (count_in pid (fun r => String.eqb (phase2_status r) "failed") (db s)).
Proof.
  unfold get_statistics, with_connection. intros H.
  destruct ((count_rows env pid (fun _ => true) ≫= _) (get_connection s))
    as [r0 c0] eqn:E.
  injection H as -> _.
  apply sql_bind_inv in E as [(e & _ & E)|(n1 & c1 & H1 & E)];
    [discriminate|apply count_rows_inv in H1 as (W1 & _ & ->)].
  apply sql_bind_inv in E as [(e & _ & E)|(n2 & c2 & H2 & E)];
    [discriminate|apply count_rows_inv in H2 as (W2 & _ & ->)].
  apply sql_bind_inv in E as [(e & _ & E)|(n3 & c3 & H3 & E)];
    [discriminate|apply count_rows_inv in H3 as (W3 & _ & ->)].
  apply sql_bind_inv in E as [(e & _ & E)|(n4 & c4 & H4 & E)];
    [discriminate|apply count_rows_inv in H4 as (W4 & _ & ->)].
  apply sql_bind_inv in E as [(e & _ & E)|(n5 & c5 & H5 & E)];
    [discriminate|apply count_rows_inv in H5 as (W5 & _ & ->)].
  injection E as <- _. rewrite W4, W3, W2, W1. reflexivity.
Qed.

Lemma count_split (p f g : tender_row -> bool) (l : list tender_row) :
  (forall r, f r = true -> g r = true -> False) ->
  length (List.filter (fun r => p r && f r) l)
  + length (List.filter (fun r => p r && g r) l)
  <= length (List.filter p l).
Proof.
  intros Hd. induction l as [|r l IH]; simpl; [lia|].
  destruct (p r); simpl; [|exact IH].
  destruct (f r) eqn:Hf, (g r) eqn:Hg; simpl; try lia.
  destruct (Hd r Hf Hg).
Qed.

Lemma count_three (p f g h : tender_row -> bool) (l : list tender_row) :
  (forall r, In r l -> p r = true ->
     (f r = true /\ g r = false /\ h r = false)
     \/ (f r = false /\ g r = true /\ h r = false)
     \/ (f r = false /\ g r = false /\ h r = true)) ->
  length (List.filter (fun r => p r && f r) l)
  + length (List.filter (fun r => p r && g r) l)
  + length (List.filter (fun r => p r && h r) l)
  = length (List.filter p l).
Proof.
  induction l as [|r l IH]; intros Hd; simpl; [lia|].
  specialize (IH (fun x Hx => Hd x (or_intror Hx))).
  destruct (p r) eqn:Hp; simpl; [|exact IH].
  destruct (Hd r (or_introl eq_refl) Hp)
    as [(-> & -> & ->)|[(-> & -> & ->)|(-> & -> & ->)]]; simpl; lia.
Qed.

Lemma count_in_true (pid : string) (d : DB) :
  count_in pid (fun _ => true) d = length (rows_of pid d).
Proof.
  unfold count_in, rows_of. f_equal. apply filter_ext.
  intros r. apply andb_true_r.
Qed.

(** X7. The counts [get_statistics] returns fit together: the total is
    the number of rows of the portal; kept and rejected tenders are
    disjoint parts of it, and so are the tenders whose phase 2 succeeded
    and failed.  When every row of the portal is unclassified, kept or
    rejected, the total is the sum of the kept, the rejected and those
    still awaiting classification.  The call changes nothing. *)
Theorem get_statistics_counts (env : SqlEnv) (pid : string) (s s' : Store)
    (st : statistics) :
  get_statistics env pid s = (Ok st, s') ->
  db s' = db s
  /\ total_extracted st = length (rows_of pid (db s))
  /\ ai_kept st + ai_rejected st <= total_extracted st
  /\ phase2_success st + phase2_failed st <= total_extracted st
  /\ (Forall classification_ok (rows_of pid (db s)) ->
      ai_kept st + ai_rejected st + length (ai_queue pid (db s))
      = total_extracted st).
Proof.
  intros H. pose proof (get_statistics_db _ _ _ _ _ H) as Hdb.
  apply get_statistics_ok in H. subst st. simpl.
  rewrite count_in_true. unfold count_in, rows_of.
  split; [exact Hdb|]. split; [reflexivity|]. split; [|split].
  - apply count_split. intros r H1 H2.
    apply Z.eqb_eq in H1, H2. congruence.
  - apply count_split. intros r H1 H2.
    apply String.eqb_eq in H1, H2. congruence.
  - intros Hok. unfold ai_queue. rewrite length_map.
    rewrite <- (count_three (in_portal pid)
                  (fun r => Z.eqb (ai_filtered r) 1)
                  (fun r => Z.eqb (ai_filtered r) (-1))
                  (fun r => Z.eqb (ai_filtered r) 0)); [reflexivity|].
    intros r Hr Hp. rewrite Forall_forall in Hok.
    assert (Hc : classification_ok r).
    { apply Hok, list_elem_of_In, filter_In. auto. }
    destruct Hc as [E | [E | E]]; rewrite E; simpl; auto.
Qed.

Lemma get_statistics_counts_witness :
  let st := Statistics 2 0 0 0 0 in
  total_extracted st = length (rows_of "WB" (db sample_store))
  /\ ai_kept st + ai_rejected st <= total_extracted st.
Proof.
  intros st.
  assert (H : get_statistics sample_env "WB" sample_store
              = (Ok st, (get_statistics sample_env "WB" sample_store).2))
    by (vm_compute; reflexivity).
  destruct (get_statistics_counts _ _ _ _ _ H) as (_ & H1 & H2 & _).
  split; [exact H1|exact H2].
Defined.

(** ** What the methods of the store leave alone *)

(** X8. The five reading methods of the store never write: whatever they
    return, and also when SQLite fails under them, the database after
    the call is the database before it. *)
Theorem reading_methods_never_write (env : SqlEnv) (pid : string)
    (s : Store) :
  (forall key, db (get_metadata env pid key s).2 = db s)
  /\ db (get_phase1_count env pid s).2 = db s
  /\ db (get_tenders_for_ai_filtering env pid s).2 = db s
  /\ db (get_tenders_for_phase2 env pid s).2 = db s
  /\ db (get_statistics env pid s).2 = db s.
Proof.
  split; [intros key|split; [|split; [|split]]].
  - destruct (get_metadata env pid key s) as [r s'] eqn:E.
    apply get_metadata_db in E as [E _]. exact E.
  - destruct (get_phase1_count env pid s) as [r s'] eqn:E.
    apply get_phase1_count_db in E. exact E.
  - destruct (get_tenders_for_ai_filtering env pid s) as [r s'] eqn:E.
    apply get_tenders_for_ai_filtering_db in E as [E _]. exact E.
  - destruct (get_tenders_for_phase2 env pid s) as [r s'] eqn:E.
    apply get_tenders_for_phase2_db in E. exact E.
  - destruct (get_statistics env pid s) as [r s'] eqn:E.
    apply get_statistics_db in E. exact E.
Qed.


Example commit_fault_drops_the_write :
  let env := MkSqlEnv (fun k => 1000 + k)
               (fun k => if Nat.eqb k (S (tick sample_store))
                         then Some "disk I/O error" else None) in
  (mark_ai_filtered env "WB" "b888364ff2c2dd2efb9149e4d1acb481" true
     sample_store).1 = Raise "disk I/O error"
  /\ db (mark_ai_filtered env "WB" "b888364ff2c2dd2efb9149e4d1acb481" true
           sample_store).2 = db sample_store.
Proof. vm_compute. split; reflexivity. Qed.

(** ** The records of a listing page *)

Ltac dict_lookup :=
  unfold dict_item, dict_get, K_HASH, K_PORTAL_SOURCE, K_S_NO, K_PUBLISHED,
    K_CLOSING, K_OPENING, K_TITLE, K_ORG, K_URL, K_WORK, K_RUN_DATE;
  repeat first [ rewrite lookup_insert_eq
               | rewrite lookup_insert_ne by discriminate ].

Lemma identity_hash_ignores_hash (d : gmap string string) (h : string) :
  create_identity_hash (<[K_HASH := h]> d) = create_identity_hash d.
Proof.
  unfold create_identity_hash, identity_key. f_equal.
  dict_lookup. reflexivity.
Qed.

Lemma tender_of_row_readable (out : Outside) (config : PortalConfig)
    (r : listing_row) :
  readable (tender_of_row out config r).
Proof.
  unfold readable, tender_of_row.
  eexists _, _. split.
  - dict_lookup. reflexivity.
  - unfold read_source. dict_lookup. reflexivity.
Qed.

(** X10. Every record [extract_tenders_from_page] builds has all the
    keys the upsert reads, an empty work description, the portal's name
    and today's date, and carries under 'Identity Hash' the hash
    [create_identity_hash] gives for the record itself; there is at most
    one record per row of the page.  So the upsert of an extracted page
    raises only when SQLite fails. *)
Theorem extracted_records_are_complete (out : Outside)
    (config : PortalConfig) (page : Page) :
  (forall t, In t (extract_tenders_from_page out config page) ->
     readable t
     /\ dict_item t K_HASH = Ok (create_identity_hash t)
     /\ t !! K_WORK = Some ""
     /\ t !! K_PORTAL_SOURCE = Some (cfg_name config)
     /\ t !! K_RUN_DATE = Some (today out))
  /\ (forall rows, page_rows page = Ok rows ->
        length (extract_tenders_from_page out config page) <= length rows)
  /\ (forall e, page_rows page = Raise e ->
        extract_tenders_from_page out config page = [])
  /\ (forall env pid s e s',
        upsert_tenders_batch env pid
          (extract_tenders_from_page out config page) s = (Raise e, s') ->
        exists k, tick s <= k < tick s' /\ fault env k = Some e).
Proof.
  assert (Hread : forall t,
            In t (extract_tenders_from_page out config page) -> readable t).
  { intros t Hin. unfold extract_tenders_from_page in Hin.
    destruct (page_rows page) as [rows|e]; [|destruct Hin].
    apply in_map_iff in Hin as (r & <- & _). apply tender_of_row_readable. }
  split; [|split; [|split]].
  - intros t Hin. split; [apply Hread, Hin|].
    unfold extract_tenders_from_page in Hin.
    destruct (page_rows page) as [rows|e]; [|destruct Hin].
    apply in_map_iff in Hin as (r & <- & _).
    unfold tender_of_row. rewrite identity_hash_ignores_hash.
    split; [dict_lookup; reflexivity|].
    unfold K_HASH, K_PORTAL_SOURCE, K_S_NO, K_PUBLISHED, K_CLOSING, K_OPENING,
      K_TITLE, K_ORG, K_URL, K_WORK, K_RUN_DATE.
    repeat split;
      repeat first [ rewrite lookup_insert_eq
                   | rewrite lookup_insert_ne by discriminate ];
      reflexivity.
  - intros rows Hrows. unfold extract_tenders_from_page. rewrite Hrows.
    rewrite length_map. clear Hrows.
    induction rows as [|[x|] rows IH]; cbn; lia.
  - intros e He. unfold extract_tenders_from_page. rewrite He. reflexivity.
  - intros env pid s e s' H.
    destruct (upsert_loop_raise_store env pid _ s e s' H)
      as [(t & Ht & Hm)|Hf]; [|exact Hf].
    destruct (missing_key_unreadable _ _ Hm (Hread t Ht)).
Qed.

Lemma extracted_records_are_complete_witness :
  Forall readable (extract_tenders_from_page sample_out wb_config page1).
Proof.
  apply Forall_forall. intros t Ht. apply list_elem_of_In in Ht.
  destruct (extracted_records_are_complete sample_out wb_config page1)
    as (H & _).
  apply (H t Ht).
Defined.

(** ** Page numbers as checkpoints *)

Lemma str_nonempty (n : nat) : str n <> "".
Proof.
  unfold str. intros H.
  assert (Hn : Nat.to_uint n <> Decimal.Nil).
  { rewrite <- (Unsigned.of_to n) at 1. rewrite Unsigned.to_of.
    apply unorm_nonnil. }
  destruct (Nat.to_uint n); try discriminate. apply Hn. reflexivity.
Qed.

(** X11. A page number written as a checkpoint is read back as the
    same number: [int(str(n))] is [n], the text [str(n)] is not empty (so
    it is truthy), and different numbers give different texts. *)
Theorem page_number_round_trip (n : nat) :
  int (str n) = Ok n
  /\ truthy (Some (str n)) = true
  /\ (forall m, str m = str n -> m = n).
Proof.
  assert (Hint : forall k, int (str k) = Ok k).
  { intros k. unfold int. unfold str at 1. rewrite NilEmpty.usu.
    destruct (String.eqb_spec (str k) "") as [E|_].
    - destruct (str_nonempty k E).
    - rewrite Unsigned.of_to. reflexivity. }
  split; [apply Hint|]. split.
  - simpl. destruct (String.eqb_spec (str n) "") as [E|_]; [|reflexivity].
    destruct (str_nonempty n E).
  - intros m E. pose proof (Hint m) as Hm. rewrite E, Hint in Hm.
    injection Hm as ->. reflexivity.
Qed.

(** ** The classifier answers every title *)

Lemma store_answers_other (results : gmap string string) (l : list string) :
  forall i cache t,
    ~ In t l -> store_answers results i l cache !! t = cache !! t.
Proof.
  induction l as [|x l IH]; intros i cache t Hn; simpl; [reflexivity|].
  rewrite IH by (intros H; apply Hn; right; exact H).
  apply lookup_insert_ne. intros ->. apply Hn. left. reflexivity.
Qed.

Lemma store_answers_covers (results : gmap string string) (l : list string) :
  forall i cache t,
    In t l -> is_Some (store_answers results i l cache !! t).
Proof.
  induction l as [|x l IH]; intros i cache t Hin; simpl; [destruct Hin|].
  destruct Hin as [->|Hin]; [|apply IH, Hin].
  apply store_answers_grows. rewrite lookup_insert_eq. eauto.
Qed.

Lemma store_answers_at (results : gmap string string) (l : list string) :
  forall i cache k t,
    l !! k = Some t ->
    (forall j, k < j -> l !! j <> Some t) ->
    store_answers results i l cache !! t = Some (answer_at results (i + k)).
Proof.
  induction l as [|x l IH]; intros i cache k t Hk Hlast; [discriminate|].
  destruct k as [|k]; simpl in *.
  - injection Hk as ->. rewrite store_answers_other.
    + rewrite lookup_insert_eq, Nat.add_0_r. reflexivity.
    + intros Hin. apply list_elem_of_In, list_elem_of_lookup in Hin as [j Hj].
      apply (Hlast (S j)); [lia|exact Hj].
  - rewrite (IH (S i) _ k t Hk).
    + f_equal. f_equal. lia.
    + intros j Hj. apply (Hlast (S j)). lia.
Qed.

Lemma cache_items_ok (cache : gmap string bool) (titles : list string) :
  (forall t, In t titles -> is_Some (cache !! t)) ->
  exists r, cache_items cache titles = Ok r
            /\ forall t, In t titles -> r !! t = cache !! t.
Proof.
  induction titles as [|x l IH]; intros H; simpl.
  - exists ∅. split; [reflexivity|]. intros t [].
  - destruct (H x (or_introl eq_refl)) as [v Hv]. rewrite Hv.
    destruct IH as (r & -> & Hr); [intros t Ht; apply H; right; exact Ht|].
    exists (<[x := v]> r). split; [reflexivity|].
    intros t Ht. destruct (decide (x = t)) as [->|Hne].
    + rewrite lookup_insert_eq. symmetry. exact Hv.
    + rewrite lookup_insert_ne by exact Hne.
      destruct Ht as [Ht|Ht]; [contradiction|]. apply Hr, Ht.
Qed.

Lemma uncached_nil (cache : gmap string bool) (titles : list string) :
  uncached_of cache titles = [] ->
  forall t, In t titles -> is_Some (cache !! t).
Proof.
  intros H t Ht. destruct (cache !! t) as [v|] eqn:E; [eauto|].
  assert (Hin : In t (uncached_of cache titles))
    by (apply uncached_of_In; auto).
  rewrite H in Hin. destruct Hin.
Qed.

Lemma answered_cache (results : gmap string string) (cache : gmap string bool)
    (titles : list string) :
  let cache1 := store_answers results 1 (uncached_of cache titles) cache in
  (forall t, In t titles -> is_Some (cache1 !! t))
  /\ (forall t, is_Some (cache !! t) -> cache1 !! t = cache !! t).
Proof.
  intros cache1. split.
  - intros t Ht. destruct (cache !! t) as [v|] eqn:E.
    + apply store_answers_grows. rewrite E. eauto.
    + apply store_answers_covers, uncached_of_In. auto.
  - intros t [v Hv]. apply store_answers_other.
    intros Hin. apply uncached_of_In in Hin as [_ Hn]. congruence.
Qed.

(** The three ways through [check_titles]. *)
Lemma check_titles_cases (out : Outside) (titles : list string) (w : World) :
  let uncached := uncached_of (w_cache w) titles in
  exists results cache' calls' evs,
    check_titles out titles w
    = (Ok results, MkWorld (w_store w) (w_page w) cache' calls'
                           (w_pages_scraped w) (w_events w ++ evs))
    /\ (forall t, In t titles -> results !! t = cache' !! t)
    /\ (forall t, In t titles -> is_Some (cache' !! t))
    /\ (forall t, is_Some (w_cache w !! t) -> cache' !! t = w_cache w !! t)
    /\ ((uncached = [] /\ cache' = w_cache w /\ calls' = w_calls w /\ evs = [])
        \/ (uncached <> [] /\ calls' = S (w_calls w)
            /\ evs = [EvClassify uncached]
            /\ ((exists e, service out (w_calls w) uncached = Raise e
                           /\ forall t, In t uncached -> cache' !! t = Some true)
                \/ (exists answers,
                      service out (w_calls w) uncached = Ok answers
                      /\ cache' = store_answers answers 1 uncached (w_cache w))))).
Proof.
  intros uncached. unfold check_titles. fold uncached.
  destruct uncached as [|u us] eqn:Eu.
  - destruct (cache_items_ok (w_cache w) titles (uncached_nil _ _ Eu))
      as (r & Hr & Hlook).
    exists r, (w_cache w), (w_calls w), [].
    unfold eval. rewrite Hr, app_nil_r. destruct w. simpl in *.
    split; [reflexivity|]. split; [exact Hlook|].
    split; [apply (uncached_nil _ _ Eu)|]. split; [auto|]. left. auto.
  - assert (Hu : forall x, In x (u :: us) -> w_cache w !! x = None).
    { intros x Hx. rewrite <- Eu in Hx. apply uncached_of_In in Hx. tauto. }
    assert (Ht : forall x, In x titles -> w_cache w !! x = None ->
                   In x (u :: us)).
    { intros x Hx Hn. rewrite <- Eu. apply uncached_of_In. auto. }
    destruct (service out (w_calls w) (u :: us)) as [answers|e] eqn:Es.
    + pose proof (answered_cache answers (w_cache w) titles) as [Hall Hold].
      fold uncached in Hall, Hold. rewrite Eu in Hall, Hold.
      destruct (cache_items_ok _ titles Hall) as (r & Hr & Hlook).
      rewrite Hr.
      exists r, (store_answers answers 1 (u :: us) (w_cache w)),
        (S (w_calls w)), [EvClassify (u :: us)].
      split; [reflexivity|]. split; [exact Hlook|]. split; [exact Hall|].
      split; [exact Hold|]. right. split; [discriminate|].
      split; [reflexivity|]. split; [reflexivity|]. right. eauto.
    + destruct (check_titles_fallback (u :: us) titles (w_cache w))
        as [cache' res] eqn:Ef.
      exists res, cache', (S (w_calls w)), [EvClassify (u :: us)].
      split; [reflexivity|].
      assert (Hfb : forall t,
        (is_Some (w_cache w !! t) -> cache' !! t = w_cache w !! t)
        /\ (In t titles ->
            cache' !! t = Some (default true (w_cache w !! t))
            /\ res !! t = Some (default true (w_cache w !! t)))).
      { intros t. pose proof (fallback_lookup _ _ titles t Hu Ht) as H.
        rewrite Ef in H. exact H. }
      split; [intros t Hin; destruct (Hfb t) as [_ H];
              destruct (H Hin) as [-> ->]; reflexivity|].
      split; [intros t Hin; destruct (Hfb t) as [_ H];
              destruct (H Hin) as [-> _]; eauto|].
      split; [intros t; apply Hfb|]. right. split; [discriminate|].
      split; [reflexivity|]. split; [reflexivity|]. left.
      exists e. split; [reflexivity|]. intros t Hin.
      destruct (Hfb t) as [_ H]. rewrite <- Eu in Hin.
      apply uncached_of_In in Hin as [Hin Hn].
      destruct (H Hin) as [-> _]. rewrite Hn. reflexivity.
Qed.

(** X12. [check_titles] never raises.  Whatever the service does, it
    returns an answer for every title it was given, and that answer is
    the one the cache holds afterwards; an answer already in the cache is
    never changed; the store and the tab are left alone.  When every
    title is cached the service is not called and nothing changes at all;
    otherwise it is called exactly once, with the uncached titles. *)
Theorem check_titles_answers_every_title (out : Outside)
    (titles : list string) (w : World) :
  exists results w',
    check_titles out titles w = (Ok results, w')
    /\ (forall t, In t titles ->
          is_Some (results !! t) /\ results !! t = w_cache w' !! t)
    /\ (forall t, is_Some (w_cache w !! t) -> w_cache w' !! t = w_cache w !! t)
    /\ w_store w' = w_store w /\ w_page w' = w_page w
    /\ (uncached_of (w_cache w) titles = [] -> w' = w)
    /\ (uncached_of (w_cache w) titles <> [] ->
        w_calls w' = S (w_calls w)
        /\ w_events w'
           = w_events w ++ [EvClassify (uncached_of (w_cache w) titles)]).
Proof.
  destruct (check_titles_cases out titles w)
    as (results & cache' & calls' & evs & E & Hres & Hall & Hold & Hcase).
  eexists results, _. split; [exact E|]. cbn [w_cache w_store w_page
    w_calls w_events].
  split; [intros t Ht; rewrite (Hres t Ht); auto|].
  split; [exact Hold|]. split; [reflexivity|]. split; [reflexivity|].
  split.
  - intros Hnil. destruct Hcase as [(_ & -> & -> & ->)|(Hne & _)];
      [|contradiction].
    rewrite app_nil_r. destruct w. reflexivity.
  - intros Hne. destruct Hcase as [(Hnil & _)|(_ & -> & -> & _)];
      [contradiction|auto].
Qed.

(** X13. When the service answers, each uncached title is filed by the
    answer at its position in the prompt, counted from 1: meaningful when
    the answer there is "meaningful" or is missing, unmeaningful for any
    other text.  When a title occurs more than once among the uncached
    titles, its last position decides.  The title is then in the cache
    with that value, and [check_titles] returns it. *)
Theorem service_answers_by_position (out : Outside) (titles : list string)
    (w : World) (answers : gmap string string) :
  service out (w_calls w) (uncached_of (w_cache w) titles) = Ok answers ->
  exists results w',
    check_titles out titles w = (Ok results, w')
    /\ forall k t,
         uncached_of (w_cache w) titles !! k = Some t ->
         (forall j, k < j -> uncached_of (w_cache w) titles !! j <> Some t) ->
         w_cache w' !! t = Some (answer_at answers (S k))
         /\ results !! t = Some (answer_at answers (S k)).
Proof.
  intros Hs.
  destruct (check_titles_cases out titles w)
    as (results & cache' & calls' & evs & E & Hres & Hall & Hold & Hcase).
  eexists results, _. split; [exact E|]. cbn [w_cache].
  intros k t Hk Hlast.
  assert (Hin : In t (uncached_of (w_cache w) titles)).
  { apply list_elem_of_In, list_elem_of_lookup. eauto. }
  destruct Hcase as [(Hnil & _)|(_ & _ & _ & [(e & He & _)|(a & Ha & ->)])].
  - rewrite Hnil in Hk. discriminate.
  - congruence.
  - assert (a = answers) as -> by congruence.
    assert (Hc : store_answers answers 1 (uncached_of (w_cache w) titles)
                   (w_cache w) !! t = Some (answer_at answers (S k))).
    { apply (store_answers_at answers _ 1 (w_cache w) k t Hk Hlast). }
    split; [exact Hc|]. rewrite Hres; [exact Hc|].
    apply uncached_of_In in Hin. tauto.
Qed.

Lemma service_answers_by_position_witness :
  exists results w',
    check_titles ai_out ["REF-001"; "Tender 2"] (fresh_world ai_store)
    = (Ok results, w')
    /\ results !! "REF-001" = Some false
    /\ results !! "Tender 2" = Some true.
Proof.
  destruct (service_answers_by_position ai_out ["REF-001"; "Tender 2"]
              (fresh_world ai_store) {[ "1" := "unmeaningful" ]} eq_refl)
    as (results & w' & E & H).
  exists results, w'. split; [exact E|]. split.
  - apply (H 0 "REF-001" eq_refl). intros [|[|j]] Hj; [lia| |]; discriminate.
  - apply (H 1 "Tender 2" eq_refl). intros [|[|j]] Hj; [lia|lia|discriminate].
Defined.

(** ** The batches of the classification *)

Lemma concat_slices {A : Type} (size : nat) (l : list A) (n : nat) :
  concat (map (fun k => take size (drop (k * size) l)) (seq 0 n))
  = take (n * size) l.
Proof.
  induction n as [|n IH]; [reflexivity|].
  rewrite seq_S, map_app, concat_app, IH. simpl. rewrite app_nil_r.
  rewrite take_take_drop. f_equal. lia.
Qed.

Lemma slices_bound (size len : nat) :
  0 < size ->
  len <= Nat.div (len + size - 1) size * size
  /\ (Nat.div (len + size - 1) size - 1) * size < len + Nat.b2n (Nat.eqb len 0).
Proof.
  intros Hs.
  pose proof (Nat.div_mod_eq (len + size - 1) size) as Hdm.
  pose proof (Nat.mod_upper_bound (len + size - 1) size) as Hm.
  destruct (Nat.eqb_spec len 0) as [->|Hne]; simpl.
  - rewrite Nat.div_small by lia. simpl. lia.
  - split; nia.
Qed.

(** X14. The slices [l[i:i+size]] for [i] in [range(0, len(l), size)]
    cut the list into consecutive pieces: put end to end they give the
    list back, none is empty, and each has [size] elements but possibly
    the last.  So every tender awaiting classification is in exactly one
    batch of [run_ai_filtering]. *)
Theorem batches_partition {A : Type} (size : nat) (l : list A) :
  0 < size ->
  concat (batches size l) = l
  /\ (forall k b, batches size l !! k = Some b ->
        0 < length b <= size
        /\ b = take size (drop (k * size) l)
        /\ (S k < length (batches size l) -> length b = size))
  /\ (l = [] -> batches size l = []).
Proof.
  intros Hs. unfold batches.
  destruct (slices_bound size (length l) Hs) as [Hge Hlt].
  set (n := Nat.div (length l + size - 1) size) in *.
  split; [|split].
  - rewrite concat_slices. apply take_ge. exact Hge.
  - intros k b Hk. rewrite length_map, length_seq.
    apply list_lookup_fmap_Some in Hk as (j & -> & Hj).
    apply lookup_seq in Hj as [-> Hkn]. simpl.
    assert (Hk' : k * size < length l).
    { destruct (Nat.eqb_spec (length l) 0) as [E|_].
      - rewrite E in *. subst n. rewrite Nat.div_small in Hkn by lia. lia.
      - simpl in Hlt. nia. }
    rewrite length_take, length_drop.
    split; [lia|]. split; [reflexivity|]. intros Hlast.
    assert (S k * size <= length l); [|simpl in *; lia].
    destruct (Nat.eqb_spec (length l) 0) as [E|_]; simpl in Hlt; nia.
  - intros ->. simpl. subst n. simpl. rewrite Nat.div_small by lia.
    reflexivity.
Qed.

Lemma batches_partition_witness :
  concat (batches 50 (seq 0 120)) = seq 0 120.
Proof.
  apply (batches_partition 50 (seq 0 120)). lia.
Defined.

(** ** Invariants of the database under a whole run *)

Section WorkerInvariant.

Variable Q : DB -> Prop.
Hypothesis HQ : worker_invariant Q.

Lemma keeps_db_read {A : Type} (f : Store -> outcome A * Store) :
  (forall s r s', f s = (r, s') -> db s' = db s) ->
  keeps (on_db Q) (on_store f).
Proof.
  intros Hf. apply keeps_on_store. intros w r s' HP H.
  unfold on_db in *. simpl. rewrite (Hf _ _ _ H). exact HP.
Qed.

Lemma keeps_db_other {A : Type} (f : Store -> outcome A * Store) :
  (forall s r s', f s = (r, s') ->
     tenders (db s') = tenders (db s)
     /\ tenders_seq (db s') = tenders_seq (db s)) ->
  keeps (on_db Q) (on_store f).
Proof.
  intros Hf. apply keeps_on_store. intros w r s' HP H.
  unfold on_db in *. simpl. destruct (Hf _ _ _ H) as [H1 H2].
  destruct HQ as (_ & _ & _ & Hother). eapply Hother; eauto.
Qed.

Lemma keeps_db_session {A : Type} (m : prog A) :
  (forall w r w', m w = (r, w') -> w_store w' = w_store w) ->
  keeps (on_db Q) m.
Proof.
  intros Hm w r w' HP H. unfold on_db in *. rewrite (Hm _ _ _ H). exact HP.
Qed.

Lemma keeps_db_emit (evs : list event) : keeps (on_db Q) (emit evs).
Proof.
  apply keeps_db_session. intros w r w' H.
  apply emit_inv in H as (_ & _ & Hs & _). exact Hs.
Qed.

Lemma keeps_db_set_metadata (env : SqlEnv) (pid key value : string) :
  keeps (on_db Q) (on_store (set_metadata env pid key value)).
Proof.
  apply keeps_db_other. intros s r s' H. apply write_method_inv in H.
  destruct r; [destruct H as (x & H); injection H as _ <-|rewrite H]; auto.
Qed.

Lemma keeps_db_add_failed_url (env : SqlEnv) (pid : string) (i : nat)
    (url reason : string) :
  keeps (on_db Q) (on_store (add_failed_url env pid i url reason)).
Proof.
  apply keeps_db_other. intros s r s' H. apply write_method_inv in H.
  destruct r; [destruct H as (x & H); injection H as _ <-|rewrite H]; auto.
Qed.

Lemma keeps_db_log_execution (env : SqlEnv) (pid status : string)
    (stats : statistics) (pages : nat) (err : option string) :
  keeps (on_db Q) (on_store (log_execution env pid status stats pages err)).
Proof.
  apply keeps_db_other. intros s r s' H. apply write_method_inv in H.
  destruct r; [destruct H as (x & H); injection H as _ <-|rewrite H]; auto.
Qed.

Lemma keeps_db_get_metadata (env : SqlEnv) (pid key : string) :
  keeps (on_db Q) (on_store (get_metadata env pid key)).
Proof.
  apply keeps_db_read. intros s r s' H.
  apply get_metadata_db in H as [H _]. exact H.
Qed.

Lemma keeps_db_upsert (env : SqlEnv) (pid : string)
    (batch : list (gmap string string)) :
  keeps (on_db Q) (on_store (upsert_tenders_batch env pid batch)).
Proof.
  apply keeps_on_store. intros w r s' HP H. unfold on_db in *. simpl.
  destruct HQ as (Hup & _). eapply Hup; eauto.
Qed.

Lemma keeps_db_mark (env : SqlEnv) (pid h : string) (keep : bool) :
  keeps (on_db Q) (on_store (mark_ai_filtered env pid h keep)).
Proof.
  apply keeps_on_store. intros w r s' HP H. unfold on_db in *. simpl.
  apply mark_ai_filtered_inv in H. destruct r; rewrite H; [|exact HP].
  destruct HQ as (_ & Hmark & _). apply Hmark, HP.
Qed.

Lemma keeps_db_work (env : SqlEnv) (pid h wd st : string) :
  st = "success" \/ st = "failed" ->
  keeps (on_db Q) (on_store (update_work_description env pid h wd st)).
Proof.
  intros Hst. apply keeps_on_store. intros w r s' HP H.
  unfold on_db in *. simpl.
  apply update_work_description_inv in H as [H|H]; rewrite H; [exact HP|].
  destruct HQ as (_ & _ & Hwork & _). apply Hwork; assumption.
Qed.

Lemma keeps_db_navigate (out : Outside) (url : string) (l : list nat) :
  keeps (on_db Q) (navigate_attempts out url l).
Proof.
  apply keeps_db_session. intros w r w' H.
  apply navigate_attempts_inv in H as (_ & Hs & _). exact Hs.
Qed.

Lemma keeps_db_phase1_iteration (env : SqlEnv) (out : Outside)
    (config : PortalConfig) (n t : nat) :
  keeps (on_db Q) (phase1_iteration env out config n t).
Proof.
  unfold phase1_iteration. apply keeps_with_world. intros w0 _.
  apply keeps_bind; [apply keeps_db_emit|]. intros _. apply keeps_bind.
  { destruct (extract_tenders_from_page out config (current_page w0));
      [apply keeps_ret|].
    apply keeps_bind; [apply keeps_db_upsert|]. intros _.
    apply keeps_bind.
    { apply keeps_db_read. intros s r s'. apply get_phase1_count_db. }
    intros total. apply keeps_bind; [|intros _; apply keeps_ret].
    apply keeps_db_set_metadata. }
  intros total. apply keeps_bind.
  { apply keeps_db_session. intros w r w' H. inversion H. reflexivity. }
  intros _. destruct (get_next_page_link_with_retry _ _) as [r evs].
  apply keeps_bind; [apply keeps_db_emit|]. intros _.
  apply keeps_bind; [apply keeps_eval|]. intros next_url.
  apply keeps_if; [apply keeps_ret|].
  apply keeps_bind; [apply keeps_db_navigate|]. intros success.
  destruct success; apply keeps_ret.
Qed.

Lemma fkeeps_db_phase1_loop (env : SqlEnv) (out : Outside)
    (config : PortalConfig) (fuel : nat) :
  forall n t, fkeeps (on_db Q) (phase1_loop env out config fuel n t).
Proof.
  induction fuel as [|fuel IH]; intros n t w r w' HP H; simpl in H;
    [discriminate|].
  destruct (phase1_iteration env out config n t w) as [r0 w1] eqn:E.
  pose proof (keeps_db_phase1_iteration env out config n t w r0 w1 HP E) as H1.
  destruct r0 as [[[u|] total]|e].
  - eapply IH; eauto.
  - inversion H; subst. exact H1.
  - inversion H; subst. exact H1.
Qed.

Lemma fkeeps_db_run_phase1 (env : SqlEnv) (out : Outside)
    (config : PortalConfig) (fuel : nat) :
  fkeeps (on_db Q) (run_phase1 env out config fuel).
Proof.
  unfold run_phase1. apply fkeeps_bind.
  { apply fkeeps_lift, keeps_db_get_metadata. }
  intros last. apply fkeeps_bind; [apply fkeeps_lift, keeps_eval|].
  intros start. apply fkeeps_bind.
  { apply fkeeps_lift, keeps_db_read. intros s r s'.
    apply get_phase1_count_db. }
  intros total. apply fkeeps_bind; [apply fkeeps_db_phase1_loop|].
  intros total'. apply fkeeps_bind; [|intros _; apply fkeeps_ret].
  apply fkeeps_lift, keeps_db_set_metadata.
Qed.

Lemma keeps_db_mark_batch (env : SqlEnv) (config : PortalConfig)
    (results : gmap string bool) (batch : list (string * string)) :
  keeps (on_db Q) (mark_batch env config results batch).
Proof.
  induction batch as [|t rest IH]; simpl; [apply keeps_ret|].
  apply keeps_bind; [apply keeps_db_mark|]. intros _. exact IH.
Qed.

Lemma keeps_db_filter_batch (env : SqlEnv) (out : Outside)
    (config : PortalConfig) (batch : list (string * string)) :
  keeps (on_db Q) (filter_batch env out config batch).
Proof.
  unfold filter_batch. apply keeps_bind.
  - apply keeps_db_session. intros w r w' H.
    apply check_titles_store in H as [H _]. exact H.
  - intros results. apply keeps_db_mark_batch.
Qed.

Lemma keeps_db_run_ai_filtering (env : SqlEnv) (out : Outside)
    (config : PortalConfig) (ai : bool) :
  keeps (on_db Q) (run_ai_filtering env out config ai).
Proof.
  unfold run_ai_filtering. destruct ai; simpl; [|apply keeps_ret].
  apply keeps_bind.
  { apply keeps_db_read. intros s r s' H.
    apply get_tenders_for_ai_filtering_db in H as [H _]. exact H. }
  intros [|t l]; [apply keeps_ret|].
  apply keeps_bind.
  { apply keeps_for_each. intros b. apply keeps_db_filter_batch. }
  intros _. apply keeps_bind.
  { apply keeps_db_read. intros s r s'. apply get_statistics_db. }
  intros _. apply keeps_db_set_metadata.
Qed.

Lemma keeps_db_enrich_one (env : SqlEnv) (out : Outside)
    (config : PortalConfig) (idx : nat) (t : phase2_tender) :
  keeps (on_db Q) (enrich_one env out config idx t).
Proof.
  unfold enrich_one. apply keeps_bind.
  { apply keeps_if; [apply keeps_db_emit|apply keeps_ret]. }
  intros _. apply keeps_try.
  - apply keeps_bind.
    { apply keeps_with_world. intros w0 _. apply keeps_db_emit. }
    intros _. apply keeps_if.
    + apply keeps_bind; [apply keeps_db_work; auto|].
      intros _. apply keeps_db_add_failed_url.
    + apply keeps_db_work. auto.
  - intros e. apply keeps_db_work. auto.
Qed.

Lemma keeps_db_enrich_loop (env : SqlEnv) (out : Outside)
    (config : PortalConfig) (l : list phase2_tender) :
  forall idx, keeps (on_db Q) (enrich_loop env out config idx l).
Proof.
  induction l as [|t l IH]; intros idx; simpl; [apply keeps_ret|].
  apply keeps_bind; [apply keeps_db_enrich_one|]. intros _. apply IH.
Qed.

Lemma keeps_db_run_phase2 (env : SqlEnv) (out : Outside)
    (config : PortalConfig) :
  keeps (on_db Q) (run_phase2 env out config).
Proof.
  unfold run_phase2. apply keeps_bind.
  { apply keeps_db_read. intros s r s'. apply get_tenders_for_phase2_db. }
  intros [|t l]; [apply keeps_ret|].
  apply keeps_bind; [apply keeps_db_enrich_loop|].
  intros _. apply keeps_db_set_metadata.
Qed.

Lemma fkeeps_db_run_phases (env : SqlEnv) (out : Outside)
    (config : PortalConfig) (ai : bool) (fuel : nat) :
  fkeeps (on_db Q) (run_phases env out config ai fuel).
Proof.
  unfold run_phases. apply fkeeps_bind.
  { unfold extract_block. apply fkeeps_bind.
    { apply fkeeps_lift, keeps_db_get_metadata. }
    intros done1. destruct (negb (truthy done1)).
    - apply fkeeps_bind.
      { apply fkeeps_lift. unfold navigate_to_closing_within_7_days.
        apply keeps_db_session. intros w r w' H.
        destruct (landing out); inversion H; reflexivity. }
      intros [|]; [|apply fkeeps_lift, keeps_eval].
      apply fkeeps_bind; [apply fkeeps_db_run_phase1|].
      intros _. apply fkeeps_ret.
    - apply fkeeps_lift. apply keeps_bind; [apply keeps_db_get_metadata|].
      intros last. apply keeps_if; [|apply keeps_ret].
      apply keeps_bind; [apply keeps_eval|]. intros n.
      apply keeps_db_session. intros w r w' H. inversion H. reflexivity. }
  intros _. apply fkeeps_bind.
  { apply fkeeps_lift. unfold classify_block. destruct ai; [|apply keeps_ret].
    apply keeps_bind; [apply keeps_db_get_metadata|]. intros done_ai.
    apply keeps_if; [apply keeps_db_run_ai_filtering|apply keeps_ret]. }
  intros _. apply fkeeps_lift. unfold enrich_block.
  apply keeps_bind; [apply keeps_db_get_metadata|]. intros done2.
  apply keeps_if; [apply keeps_db_run_phase2|apply keeps_ret].
Qed.

Lemma fkeeps_db_run (env : SqlEnv) (out : Outside) (config : PortalConfig)
    (ai : bool) (fuel : nat) :
  fkeeps (on_db Q) (run env out config ai fuel).
Proof.
  intros w r w' HP H. unfold run in H.
  destruct (run_phases env out config ai fuel w) as [[r0 w1]|] eqn:E;
    [|discriminate].
  pose proof (fkeeps_db_run_phases env out config ai fuel w r0 w1 HP E) as H1.
  destruct (match r0 with Ok _ => _ | Raise e => _ end) as [status error].
  injection H as H.
  match type of H with ?m w1 = _ => cut (keeps (on_db Q) m) end.
  { intros Hk. exact (Hk w1 r w' H1 H). }
  apply keeps_bind.
  { apply keeps_db_read. intros s r1 s'. apply get_statistics_db. }
  intros final_stats. apply keeps_bind; [|intros _; apply keeps_ret].
  apply keeps_with_world. intros w0 _. apply keeps_db_log_execution.
Qed.

End WorkerInvariant.

(** *** The constraints of the table *)

Lemma table_ok_invariant : worker_invariant table_ok.
Proof.
  split; [|split; [|split]].
  - intros env pid batch s r s' H Hok.
    apply upsert_tenders_batch_inv in H
      as [(e & _ & -> & _)|(i & u & c' & _ & Hloop & _ & -> & _)];
      [exact Hok|].
    eapply upsert_loop_table_ok; [exact Hloop|exact Hok].
  - intros pid h keep t d. apply table_ok_update; auto.
  - intros pid h wd st t d _. apply table_ok_update; auto.
  - intros d d' Ht Hs. unfold table_ok. rewrite Ht, Hs. auto.
Qed.

(** X15. A whole run of a worker keeps the constraints of table
    [tenders]: whatever the portal, the services and SQLite do, and
    however the run ends, no two rows share (portal_id, identity_hash)
    afterwards, ids grow with the rows, and none exceeds the
    AUTOINCREMENT counter, provided this held before. *)
Theorem run_keeps_table_ok (env : SqlEnv) (out : Outside)
    (config : PortalConfig) (ai : bool) (fuel : nat) (w w' : World)
    (r : outcome run_result) :
  table_ok (db (w_store w)) ->
  run env out config ai fuel w = Some (r, w') ->
  table_ok (db (w_store w')).
Proof.
  intros Hok H.
  exact (fkeeps_db_run table_ok table_ok_invariant env out config ai fuel
           w r w' Hok H).
Qed.

(** *** The values of the status columns *)

Lemma columns_ok_update (pid h : string) (f : tender_row -> tender_row)
    (d : DB) :
  (forall r, phase1_status (f r) = phase1_status r) ->
  (forall r, phase2_status (f r) = phase2_status r
             \/ phase2_status (f r) = "success"
             \/ phase2_status (f r) = "failed") ->
  (forall r, ai_filtered (f r) = ai_filtered r \/ classification_ok (f r)) ->
  columns_ok d -> columns_ok (update_where pid h f d).2.
Proof.
  intros H1 H2 H3 Hok. unfold columns_ok in *. simpl.
  rewrite Forall_forall in Hok. apply Forall_forall. intros x Hx.
  apply list_elem_of_In, in_map_iff in Hx as (y & <- & Hy).
  apply list_elem_of_In, Hok in Hy. destruct (matches pid h y); [|exact Hy].
  destruct Hy as (Hp1 & Hp2 & Hc). rewrite H1. split; [exact Hp1|]. split.
  - destruct (H2 y) as [->|[->| ->]]; auto.
  - destruct (H3 y) as [E|E]; [|exact E].
    unfold classification_ok. rewrite E. exact Hc.
Qed.

Lemma Forall2_In_r {A B : Type} (R : A -> B -> Prop) (l : list A)
    (k : list B) (y : B) :
  Forall2 R l k -> In y k -> exists x, In x l /\ R x y.
Proof.
  induction 1 as [|x y' l k Hxy HF IH]; intros Hin; [destruct Hin|].
  destruct Hin as [->|Hin].
  - exists x. split; [left; reflexivity|exact Hxy].
  - destruct (IH Hin) as (x' & Hx' & HR). exists x'. split; [right|]; auto.
Qed.

Lemma columns_ok_invariant : worker_invariant columns_ok.
Proof.
  split; [|split; [|split]].
  - intros env pid batch s r s' H Hok.
    pose proof (upsert_tenders_batch_outcome env pid batch s) as Hout.
    rewrite H in Hout. destruct r as [[i u]|e]; [|rewrite Hout; exact Hok].
    destruct Hout as (_ & _ & _ & _ & _ & olds0 & news0 & Ht0 & HF0 & _ & Hi0).
    apply upsert_tenders_batch_inv in H
      as [(e & E & _)|(i0 & u0 & c' & E & Hloop & _ & Hdb & _)];
      [discriminate|].
    apply upsert_loop_inserted with (all := batch) in Hloop
      as (olds & news & Ht & HF & Hnews & _); [|auto].
    simpl in *.
    assert (olds = olds0 /\ news = news0) as [-> ->].
    { rewrite Hdb, Ht in Ht0. apply app_inj_1 in Ht0; [auto|].
      apply Forall2_length in HF, HF0. congruence. }
    unfold columns_ok in *. rewrite Ht0. apply Forall_app. split.
    + rewrite Forall_forall in Hok. apply Forall_forall. intros y Hy.
      apply list_elem_of_In in Hy.
      destruct (Forall2_In_r _ _ _ _ HF0 Hy) as (x & Hx & [Hu _]).
      apply upd_rel_frame in Hu.
      destruct Hu as (_ & _ & _ & _ & E1 & E2 & E3 & _).
      apply list_elem_of_In, Hok in Hx. unfold classification_ok in *.
      rewrite E1, E2, E3. exact Hx.
    + eapply Forall_impl; [exact Hnews|].
      intros x (_ & E1 & E2 & E3 & _). unfold classification_ok.
      rewrite E1, E2, E3. auto.
  - intros pid h keep t d. apply columns_ok_update; simpl; auto.
    intros r. right. unfold classification_ok. simpl.
    destruct keep; auto.
  - intros pid h wd st t d Hst. apply columns_ok_update; simpl; auto.
  - intros d d' Ht _. unfold columns_ok. rewrite Ht. auto.
Qed.

(** X16. A whole run of a worker keeps the status columns within
    their values: afterwards every row still has phase 1 status
    'extracted', a phase 2 status among 'pending', 'success' and
    'failed', and a classification among 0, 1 and -1, provided this held
    before. *)
Theorem run_keeps_columns_ok (env : SqlEnv) (out : Outside)
    (config : PortalConfig) (ai : bool) (fuel : nat) (w w' : World)
    (r : outcome run_result) :
  columns_ok (db (w_store w)) ->
  run env out config ai fuel w = Some (r, w') ->
  columns_ok (db (w_store w')).
Proof.
  intros Hok H.
  exact (fkeeps_db_run columns_ok columns_ok_invariant env out config ai fuel
           w r w' Hok H).
Qed.

Lemma run_keeps_table_ok_witness :
  exists r w',
    run sample_env kind_out wb_config true 10 (fresh_world empty_store)
    = Some (r, w')
    /\ table_ok (db (w_store w')).
Proof.
  assert (Hs : match run sample_env kind_out wb_config true 10
                          (fresh_world empty_store) with
               | Some _ => true
               | None => false
               end = true) by (vm_compute; reflexivity).
  destruct (run sample_env kind_out wb_config true 10 (fresh_world empty_store))
    as [[r w']|] eqn:E; [|discriminate].
  exists r, w'. split; [reflexivity|].
  refine (run_keeps_table_ok _ _ _ _ _ (fresh_world empty_store) w' r _ E).
  unfold table_ok. simpl. repeat constructor.
Defined.

Lemma run_keeps_columns_ok_witness :
  exists r w',
    run sample_env kind_out wb_config true 10 (fresh_world empty_store)
    = Some (r, w')
    /\ columns_ok (db (w_store w')).
Proof.
  assert (Hs : match run sample_env kind_out wb_config true 10
                          (fresh_world empty_store) with
               | Some _ => true
               | None => false
               end = true) by (vm_compute; reflexivity).
  destruct (run sample_env kind_out wb_config true 10 (fresh_world empty_store))
    as [[r w']|] eqn:E; [|discriminate].
  exists r, w'. split; [reflexivity|].
  refine (run_keeps_columns_ok _ _ _ _ _ (fresh_world empty_store) w' r _ E).
  unfold columns_ok. simpl. constructor.
Defined.

(** ** The end of a run *)

Lemma sql_bind_ok {A B : Type} (m : sql A) (k : A -> sql B) (c c' : Conn)
    (a : A) :
  m c = (Ok a, c') -> (m ≫= k) c = k a c'.
Proof. intros H. unfold mbind, sql_bind. rewrite H. reflexivity. Qed.

Lemma count_rows_run (env : SqlEnv) (pid : string) (f : tender_row -> bool)
    (c : Conn) :
  fault env (clock c) = None ->
  count_rows env pid f c
  = (Ok (count_in pid f (working c)),
     MkConn (durable c) (working c) (S (clock c))).
Proof. intros Hf. apply execute_no_fault; [exact Hf|reflexivity]. Qed.

Lemma get_statistics_run (env : SqlEnv) (pid : string) (s : Store) :
  (forall k, tick s <= k < tick s + 5 -> fault env k = None) ->
  get_statistics env pid s
  = (Ok (statistics_of pid (db s)), MkStore (db s) (tick s + 5)).
Proof.
  intros Hf. unfold get_statistics, with_connection.
  assert (H0 : fault env (tick s) = None) by (apply Hf; lia).
  assert (H1 : fault env (S (tick s)) = None) by (apply Hf; lia).
  assert (H2 : fault env (S (S (tick s))) = None) by (apply Hf; lia).
  assert (H3 : fault env (S (S (S (tick s)))) = None) by (apply Hf; lia).
  assert (H4 : fault env (S (S (S (S (tick s))))) = None) by (apply Hf; lia).
  rewrite (sql_bind_ok _ _ _ _ _
             (count_rows_run env pid _ (get_connection s) H0)).
  rewrite (sql_bind_ok _ _ _ _ _
             (count_rows_run env pid _ (MkConn (db s) (db s) _) H1)).
  rewrite (sql_bind_ok _ _ _ _ _
             (count_rows_run env pid _ (MkConn (db s) (db s) _) H2)).
  rewrite (sql_bind_ok _ _ _ _ _
             (count_rows_run env pid _ (MkConn (db s) (db s) _) H3)).
  rewrite (sql_bind_ok _ _ _ _ _
             (count_rows_run env pid _ (MkConn (db s) (db s) _) H4)).
  simpl. unfold close. simpl. do 2 f_equal. lia.
Qed.

Lemma write_method_run {A : Type} (env : SqlEnv)
    (stmt : nat -> DB -> outcome (A * DB)) (s : Store) (a : A) (d : DB) :
  fault env (tick s) = None -> fault env (S (tick s)) = None ->
  stmt (now env (tick s)) (db s) = Ok (a, d) ->
  with_connection (_ ← execute env stmt; commit env) s
  = (Ok tt, MkStore d (S (S (tick s)))).
Proof.
  intros Hf1 Hf2 Hs. unfold with_connection.
  rewrite (sql_bind_ok _ _ _ _ _
             (execute_no_fault env stmt (get_connection s) a d Hf1 Hs)).
  unfold commit. simpl. rewrite Hf2. reflexivity.
Qed.

(** X17. [run] records every execution.  However its phases end, by
    returning or with any exception, [run] itself returns: its result
    carries the status 'success' or 'error', the message of the
    exception, and the statistics of the portal, and one row with that
    status, these statistics, the number of pages scraped and the
    message is appended to [portal_execution_log]; nothing else changes
    after the phases.  This needs the seven statements of the statistics
    and of the log to go through. *)
Theorem run_logs_every_execution (env : SqlEnv) (out : Outside)
    (config : PortalConfig) (ai : bool) (fuel : nat) (w w1 : World)
    (r : outcome unit) :
  run_phases env out config ai fuel w = Some (r, w1) ->
  (forall k, tick (w_store w1) <= k < tick (w_store w1) + 7 ->
     fault env k = None) ->
  let pid := cfg_portal_id config in
  let d1 := db (w_store w1) in
  let st := statistics_of pid d1 in
  exists w',
    run env out config ai fuel w
    = Some (Ok (RunResult (status_of r) (error_of r) st), w')
    /\ db (w_store w')
       = logged d1 (ExecutionRow pid (status_of r) (total_extracted st)
                      (ai_rejected st) (ai_kept st) (phase2_success st)
                      (phase2_failed st) (w_pages_scraped w1) (error_of r))
    /\ w_events w' = w_events w1
    /\ w_pages_scraped w' = w_pages_scraped w1.
Proof.
  intros H Hf pid d1 st. unfold run. rewrite H.
  assert (Hstat : get_statistics env pid (w_store w1)
                  = (Ok st, MkStore d1 (tick (w_store w1) + 5))).
  { apply get_statistics_run. intros k Hk. apply Hf. lia. }
  eexists. split.
  - replace (match r with Ok _ => ("success", None)
                        | Raise e => ("error", Some e) end)
      with (status_of r, error_of r) by (destruct r; reflexivity).
    f_equal. unfold mbind at 1, prog_bind, on_store at 1.
    unfold portal. fold pid. rewrite Hstat.
    unfold mbind at 1, prog_bind, with_world, on_store at 1.
    cbn [w_store w_pages_scraped].
    unfold log_execution.
    erewrite write_method_run;
      [|apply Hf; simpl; lia|apply Hf; simpl; lia|reflexivity].
    reflexivity.
  - simpl. auto.
Qed.

Lemma run_logs_every_execution_witness :
  let out := MkOutside None (load sample_out) (service sample_out)
                       (detail sample_out) (today sample_out) in
  exists res w',
    run sample_env out wb_config false 10 (fresh_world empty_store)
    = Some (Ok res, w')
    /\ r_status res = "error"
    /\ r_error res = Some "Navigation failed".
Proof.
  intros out.
  assert (Hs : exists x,
            run_phases sample_env out wb_config false 10
                       (fresh_world empty_store)
            = Some (Raise "Navigation failed", x))
    by (vm_compute; eexists; reflexivity).
  destruct Hs as (w1 & E).
  destruct (run_logs_every_execution _ _ _ _ _ _ _ _ E (fun _ _ => eq_refl))
    as (w' & Hrun & _).
  eexists _, w'. split; [exact Hrun|]. split; reflexivity.
Defined.

(** ** Checkpoints of the phases *)

Lemma on_store_db {A : Type} (f : Store -> outcome A * Store)
    (w w' : World) (r : outcome A) :
  (forall s r s', f s = (r, s') -> db s' = db s) ->
  on_store f w = (r, w') ->
  db (w_store w') = db (w_store w) /\ same_session w w'.
Proof.
  intros Hf H. apply on_store_inv in H as [H Hs]. split; [|exact Hs].
  eapply Hf, H.
Qed.

Lemma get_metadata_world (env : SqlEnv) (pid key : string) (w w' : World)
    (r : outcome (option string)) :
  on_store (get_metadata env pid key) w = (r, w') ->
  db (w_store w') = db (w_store w) /\ same_session w w'
  /\ forall v, r = Ok v -> v = meta (w_store w) pid key.
Proof.
  intros H. apply on_store_inv in H as [H Hs].
  apply get_metadata_db in H as [Hd Hv]. auto.
Qed.

Lemma set_metadata_ok (env : SqlEnv) (pid key value : string)
    (s s' : Store) :
  set_metadata env pid key value s = (Ok tt, s') ->
  meta s' pid key = Some value.
Proof.
  intros H. apply write_method_inv in H as (x & H). injection H as _ H.
  unfold meta. rewrite <- H. simpl. apply lookup_insert_eq.
Qed.

(** X18. The checkpoints make a finished phase run once.  Whenever
    [run_phase1] returns, also when it stopped because a next page would
    not load, 'phase1_complete' is set.  With that checkpoint set, the
    first block of [run] visits no page and changes nothing in the
    database; with 'ai_filtering_complete' set the second block calls no
    service and marks nothing; with 'phase2_complete' set the third
    block fetches nothing. *)
Theorem completed_phases_are_skipped (env : SqlEnv) (out : Outside)
    (config : PortalConfig) (ai : bool) (fuel : nat) (w : World) :
  let pid := cfg_portal_id config in
  (forall n w', run_phase1 env out config fuel w = Some (Ok n, w') ->
     meta (w_store w') pid "phase1_complete" = Some "true")
  /\ (truthy (meta (w_store w) pid "phase1_complete") = true ->
      forall r w', extract_block env out config fuel w = Some (r, w') ->
        db (w_store w') = db (w_store w) /\ w_events w' = w_events w
        /\ w_page w' = w_page w)
  /\ (truthy (meta (w_store w) pid "ai_filtering_complete") = true ->
      forall r w', classify_block env out config ai w = (r, w') ->
        db (w_store w') = db (w_store w) /\ same_session w w')
  /\ (truthy (meta (w_store w) pid "phase2_complete") = true ->
      forall r w', enrich_block env out config w = (r, w') ->
        db (w_store w') = db (w_store w) /\ same_session w w').
Proof.
  intros pid. subst pid. split; [|split; [|split]].
  - intros n w' H. unfold run_phase1, portal in H.
    apply fbind_inv in H as [(e & _ & E)|(last & w1 & _ & H)]; [discriminate|].
    apply fbind_inv in H as [(e & _ & E)|(start & w2 & _ & H)]; [discriminate|].
    apply fbind_inv in H as [(e & _ & E)|(total & w3 & _ & H)]; [discriminate|].
    apply fbind_inv in H as [(e & _ & E)|(total' & w4 & _ & H)]; [discriminate|].
    apply fbind_inv in H as [(e & _ & E)|([] & w5 & H5 & H)]; [discriminate|].
    unfold fret in H. injection H as _ <-. unfold lift in H5.
    injection H5 as H5. apply on_store_inv in H5 as [H5 _].
    apply set_metadata_ok in H5. exact H5.
  - intros Hdone r w' H. unfold extract_block, portal in H.
    apply fbind_inv in H as [(e & H1 & _)|(done1 & w1 & H1 & H)];
      unfold lift in H1; injection H1 as H1;
      apply get_metadata_world in H1 as (Hd1 & Hs1 & Hv1).
    { destruct Hs1 as (_ & Hp & _ & He). auto. }
    rewrite (Hv1 _ eq_refl) in H. rewrite Hdone in H.
    simpl in H. unfold lift in H. injection H as H.
    apply prog_bind_inv in H as [(e & H2 & _)|(last & w2 & H2 & H)];
      apply get_metadata_world in H2 as (Hd2 & Hs2 & _).
    { destruct Hs1 as (_ & Hp1 & _ & He1), Hs2 as (_ & Hp2 & _ & He2).
      repeat split; congruence. }
    assert (Hw2 : db (w_store w2) = db (w_store w)
                  /\ w_events w2 = w_events w /\ w_page w2 = w_page w).
    { destruct Hs1 as (_ & Hp1 & _ & He1), Hs2 as (_ & Hp2 & _ & He2).
      repeat split; congruence. }
    destruct (truthy last).
    + apply prog_bind_inv in H as [(e & H3 & _)|(n & w3 & H3 & H)];
        unfold eval in H3; injection H3 as _ <-; [exact Hw2|].
      unfold set_pages_scraped in H. injection H as _ <-. exact Hw2.
    + injection H as _ <-. exact Hw2.
  - intros Hdone r w' H. unfold classify_block, portal in H.
    destruct ai; [|injection H as _ <-; split;
                    [reflexivity|apply same_session_refl]].
    apply prog_bind_inv in H as [(e & H1 & _)|(done_ai & w1 & H1 & H)];
      apply get_metadata_world in H1 as (Hd1 & Hs1 & Hv1); [auto|].
    rewrite (Hv1 _ eq_refl) in H. rewrite Hdone in H.
    simpl in H. injection H as _ <-. auto.
  - intros Hdone r w' H. unfold enrich_block, portal in H.
    apply prog_bind_inv in H as [(e & H1 & _)|(done2 & w1 & H1 & H)];
      apply get_metadata_world in H1 as (Hd1 & Hs1 & Hv1); [auto|].
    rewrite (Hv1 _ eq_refl) in H. rewrite Hdone in H.
    simpl in H. injection H as _ <-. auto.
Qed.

(** X19. A phase with nothing to do writes no checkpoint.  When no
    tender of the portal awaits classification, [run_ai_filtering]
    returns without calling the service and without touching the
    database, so 'ai_filtering_complete' is not set; when no tender is
    selected for enrichment, [run_phase2] fetches nothing and leaves the
    database as it is, so 'phase2_complete' is not set either. *)
Theorem empty_queues_write_no_checkpoint (env : SqlEnv) (out : Outside)
    (config : PortalConfig) (w : World) :
  let pid := cfg_portal_id config in
  (ai_queue pid (db (w_store w)) = [] ->
   forall r w', run_ai_filtering env out config true w = (r, w') ->
     db (w_store w') = db (w_store w) /\ same_session w w')
  /\ (phase2_queue pid (db (w_store w)) = [] ->
      forall r w', run_phase2 env out config w = (r, w') ->
        db (w_store w') = db (w_store w) /\ same_session w w').
Proof.
  intros pid. subst pid. split.
  - intros Hq r w' H. unfold run_ai_filtering, portal in H. simpl in H.
    apply prog_bind_inv in H as [(e & H1 & _)|(l & w1 & H1 & H)];
      apply on_store_inv in H1 as [H1 Hs1];
      pose proof (get_tenders_for_ai_filtering_db _ _ _ _ _ H1) as [Hd1 _];
      [auto|].
    apply get_tenders_for_ai_filtering_ok in H1.
    rewrite Hq in H1. subst l. injection H as _ <-. auto.
  - intros Hq r w' H. unfold run_phase2, portal in H.
    apply prog_bind_inv in H as [(e & H1 & _)|(l & w1 & H1 & H)];
      apply on_store_inv in H1 as [H1 Hs1];
      pose proof (get_tenders_for_phase2_db _ _ _ _ _ H1) as Hd1;
      [auto|].
    apply get_tenders_for_phase2_ok in H1.
    rewrite Hq in H1. subst l. injection H as _ <-. auto.
Qed.

Lemma empty_queues_write_no_checkpoint_witness :
  meta (w_store (run_phase2 sample_env sample_out wb_config
                   (fresh_world empty_store)).2) "WB" "phase2_complete"
  = None.
Proof.
  destruct (run_phase2 sample_env sample_out wb_config
              (fresh_world empty_store)) as [r w'] eqn:H.
  destruct (empty_queues_write_no_checkpoint sample_env sample_out wb_config
              (fresh_world empty_store)) as [_ H2].
  destruct (H2 eq_refl r w' H) as [Hd _].
  unfold meta. simpl. rewrite Hd. reflexivity.
Defined.

(** ** Phase 2 settles the tenders it selects *)

Lemma phase2_frame_refl (r : tender_row) : phase2_frame r r.
Proof. unfold phase2_frame. tauto. Qed.

Lemma enrich_rel_refl (pid : string) (r : tender_row) (ok : bool) :
  enrich_rel pid [] ok r r.
Proof.
  split; [apply phase2_frame_refl|]. split; [auto|]. split; [auto|].
  intros _ _ [].
Qed.

Lemma enrich_rel_trans (pid : string) (h1 h2 hs : list string)
    (ok1 ok2 ok : bool) (x y z : tender_row) :
  (ok = true -> forall h, In h hs ->
     (ok1 = true /\ In h h1) \/ (ok2 = true /\ In h h2)) ->
  enrich_rel pid h1 ok1 x y -> enrich_rel pid h2 ok2 y z ->
  enrich_rel pid hs ok x z.
Proof.
  intros Hhs (F1 & S1 & M1 & P1) (F2 & S2 & M2 & P2).
  assert (Hk : row_key y = row_key x) by apply F1.
  unfold row_key in Hk. injection Hk as Hp Hh.
  split; [|split; [|split]].
  - destruct F1 as (a1 & a2 & a3 & a4 & a5 & a6),
             F2 as (b1 & b2 & b3 & b4 & b5 & b6).
    unfold phase2_frame. repeat split; congruence.
  - destruct S2 as [E|E]; [|right; exact E].
    rewrite E. destruct S1 as [E1|E1]; [left; exact E1|].
    right. unfold settled in *. rewrite E. exact E1.
  - auto.
  - intros Hok Hpid Hin. destruct (Hhs Hok _ Hin) as [[-> Hi]|[-> Hi]].
    + apply M2, P1; auto.
    + apply P2; auto; congruence.
Qed.

Lemma enrich_step_trans (pid : string) (h1 h2 hs : list string)
    (ok1 ok2 ok : bool) (w1 w2 w3 : World) :
  (ok = true -> forall h, In h hs ->
     (ok1 = true /\ In h h1) \/ (ok2 = true /\ In h h2)) ->
  enrich_step pid h1 ok1 w1 w2 -> enrich_step pid h2 ok2 w2 w3 ->
  enrich_step pid hs ok w1 w3.
Proof.
  intros Hhs (F1 & M1 & E1) (F2 & M2 & E2).
  split; [|split; congruence].
  eapply Forall2_compose; [|exact F1|exact F2].
  intros x y z. apply enrich_rel_trans. exact Hhs.
Qed.

Lemma enrich_step_refl (pid : string) (ok : bool) (w : World) :
  enrich_step pid [] ok w w.
Proof.
  split; [|auto]. apply Forall2_same. intros x _. apply enrich_rel_refl.
Qed.

Lemma enrich_step_same (pid : string) (ok : bool) (w w' : World) :
  tenders (db (w_store w')) = tenders (db (w_store w)) ->
  scraping_metadata (db (w_store w')) = scraping_metadata (db (w_store w)) ->
  w_events w' = w_events w ->
  enrich_step pid [] ok w w'.
Proof.
  intros Ht Hm He. split; [|auto]. rewrite Ht.
  apply Forall2_same. intros x _. apply enrich_rel_refl.
Qed.

Lemma enrich_step_update (env : SqlEnv) (pid h wd st : string)
    (w w' : World) (r : outcome unit) :
  st = "success" \/ st = "failed" ->
  on_store (update_work_description env pid h wd st) w = (r, w') ->
  enrich_step pid [h] (returns r) w w'.
Proof.
  intros Hst H. apply on_store_inv in H as [H (_ & _ & _ & He)].
  apply write_method_inv in H. destruct r as [[]|e].
  - destruct H as (x & H). injection H as _ H.
    split; [|rewrite <- H; simpl; auto].
    rewrite <- H. simpl. apply Forall2_map_same. intros x0 _.
    destruct (matches pid h x0) eqn:Hm.
    + split; [unfold phase2_frame; simpl; tauto|].
      unfold settled. simpl. auto.
    + split; [apply phase2_frame_refl|]. split; [auto|]. split; [auto|].
      intros _ Hp [Eh|[]].
      assert (matches pid h x0 = true) by (apply matches_true; auto).
      congruence.
  - unfold enrich_step. rewrite H. split; [|auto].
    apply Forall2_same. intros x _.
    split; [apply phase2_frame_refl|]. split; [auto|]. split; [auto|].
    discriminate.
Qed.

Lemma fetched_app (l k : list event) :
  fetched (l ++ k) = fetched l ++ fetched k.
Proof. unfold fetched. apply omap_app. Qed.

(** One turn of the loop of [run_phase2]. *)
Lemma enrich_one_spec (env : SqlEnv) (out : Outside) (config : PortalConfig)
    (idx : nat) (t : phase2_tender) (w w' : World) (r : outcome unit) :
  enrich_one env out config idx t w = (r, w') ->
  Forall2 (enrich_rel (cfg_portal_id config) [e_hash t] (returns r))
          (tenders (db (w_store w))) (tenders (db (w_store w')))
  /\ scraping_metadata (db (w_store w')) = scraping_metadata (db (w_store w))
  /\ fetched (w_events w') = fetched (w_events w) ++ [(e_hash t, e_url t)].
Proof.
  unfold enrich_one, portal. intros H.
  set (pid := cfg_portal_id config) in *.
  apply prog_bind_inv in H as [(e & H0 & _)|([] & w0 & H0 & H)].
  { destruct (_ && _); [apply emit_inv in H0 as (E & _)|injection H0 as E _];
      discriminate. }
  assert (Hw0 : w_store w0 = w_store w /\ fetched (w_events w0) = fetched (w_events w)).
  { destruct (_ && _).
    - apply emit_inv in H0 as (_ & _ & Hs & _ & _ & _ & He).
      rewrite He, fetched_app. simpl. rewrite app_nil_r. auto.
    - injection H0 as <-. auto. }
  destruct Hw0 as [Hs0 Hf0]. clear H0.
  unfold try_except in H.
  match type of H with
  | match ?b w0 with _ => _ end = _ => destruct (b w0) as [rb wb] eqn:Eb
  end.
  apply prog_bind_inv in Eb as [(e & H1 & _)|([] & w1 & H1 & Eb)].
  { unfold with_world in H1. apply emit_inv in H1 as (E & _). discriminate. }
  unfold with_world in H1.
  apply emit_inv in H1 as (_ & _ & Hs1 & _ & _ & _ & He1).
  assert (Hf1 : fetched (w_events w1)
                = fetched (w_events w) ++ [(e_hash t, e_url t)]).
  { rewrite He1, fetched_app, Hf0. reflexivity. }
  assert (Hbody : exists okb,
            enrich_step pid [e_hash t] okb w1 wb
            /\ (returns rb = true -> okb = true)).
  { destruct (is_failure_text (detail out (e_url t))).
    - apply prog_bind_inv in Eb as [(e & H2 & ->)|([] & w2 & H2 & Eb)].
      + exists false. split; [|discriminate].
        apply (enrich_step_update _ _ _ _ _ _ _ _ (or_intror eq_refl)) in H2.
        exact H2.
      + exists true. split; [|auto].
        apply (enrich_step_update _ _ _ _ _ _ _ _ (or_intror eq_refl)) in H2.
        apply on_store_inv in Eb as [Eb (_ & _ & _ & He)].
        apply add_failed_url_inv in Eb as [Ht Hm].
        eapply enrich_step_trans; [|exact H2|
          apply (enrich_step_same pid true _ _ Ht Hm He)].
        intros _ h Hin. left. auto.
    - exists (returns rb). split; [|auto].
      apply (enrich_step_update _ _ _ _ _ _ _ _ (or_introl eq_refl)) in Eb.
      exact Eb. }
  destruct Hbody as (okb & Hstep & Hokb).
  assert (Hfin : enrich_step pid [e_hash t] (returns r) w1 w').
  { destruct rb as [[]|e].
    - injection H as <- <-. rewrite (Hokb eq_refl) in Hstep. exact Hstep.
    - apply (enrich_step_update _ _ _ _ _ _ _ _ (or_intror eq_refl)) in H.
      eapply enrich_step_trans; [|exact Hstep|exact H].
      intros Hok h Hin. right. auto. }
  destruct Hfin as (HF & Hm & He). rewrite <- Hs0, <- Hs1.
  split; [exact HF|]. split; [exact Hm|]. rewrite He. exact Hf1.
Qed.

Lemma enrich_loop_spec (env : SqlEnv) (out : Outside) (config : PortalConfig)
    (l : list phase2_tender) :
  forall idx w w' r,
    enrich_loop env out config idx l w = (r, w') ->
    Forall2 (enrich_rel (cfg_portal_id config) (map e_hash l) (returns r))
            (tenders (db (w_store w))) (tenders (db (w_store w')))
    /\ scraping_metadata (db (w_store w')) = scraping_metadata (db (w_store w))
    /\ (r = Ok tt ->
        fetched (w_events w')
        = fetched (w_events w) ++ map (fun x => (e_hash x, e_url x)) l).
Proof.
  induction l as [|t l IH]; intros idx w w' r H; simpl in H.
  - injection H as <- <-. split; [|split; [reflexivity|]].
    + apply Forall2_same. intros x _. apply enrich_rel_refl.
    + intros _. simpl. rewrite app_nil_r. reflexivity.
  - apply prog_bind_inv in H as [(e & H1 & ->)|([] & w1 & H1 & H)].
    + apply enrich_one_spec in H1 as (HF & Hm & _).
      split; [|split; [exact Hm|discriminate]].
      eapply Forall2_impl; [exact HF|]. intros x y (F & S & M & _).
      split; [exact F|]. split; [exact S|]. split; [exact M|]. discriminate.
    + apply enrich_one_spec in H1 as (HF1 & Hm1 & Hf1).
      apply IH in H as (HF & Hm & Hf).
      split; [|split; [congruence|]].
      * eapply Forall2_compose; [|exact HF1|exact HF].
        intros x y z. apply enrich_rel_trans.
        intros Hok h [<-|Hin]; [left|right]; simpl; auto.
      * intros Hr. rewrite (Hf Hr), Hf1, <- app_assoc. reflexivity.
Qed.

(** X20. When [run_phase2] returns, every tender it selected has been
    fetched exactly once, in the order of the selection, and is settled:
    its row has phase 2 status 'success' or 'failed'.  So no tender that
    [get_tenders_for_phase2] would select afterwards is still 'pending':
    only failed fetches are left for a later run.  Phase 2 changes no
    column but the work description, the phase 2 status and the update
    time, and when it had tenders to process it sets
    'phase2_complete'. *)
Theorem run_phase2_settles_queue (env : SqlEnv) (out : Outside)
    (config : PortalConfig) (w w' : World) :
  run_phase2 env out config w = (Ok tt, w') ->
  let pid := cfg_portal_id config in
  let queue := phase2_queue pid (db (w_store w)) in
  Forall2 phase2_frame (tenders (db (w_store w))) (tenders (db (w_store w')))
  /\ fetched (w_events w')
     = fetched (w_events w) ++ map (fun x => (e_hash x, e_url x)) queue
  /\ (forall r', In r' (tenders (db (w_store w'))) -> portal_id r' = pid ->
        In (identity_hash r') (map e_hash queue) -> settled r')
  /\ (forall x, In x (phase2_queue pid (db (w_store w'))) ->
        exists r', In r' (tenders (db (w_store w')))
                   /\ row_id r' = e_id x /\ identity_hash r' = e_hash x
                   /\ phase2_status r' = "failed")
  /\ (queue <> [] -> meta (w_store w') pid "phase2_complete" = Some "true").
Proof.
  intros H pid queue. unfold run_phase2, portal in H. fold pid in H.
  apply prog_bind_inv in H as [(e & _ & E)|(l & w1 & H1 & H)]; [discriminate|].
  apply on_store_inv in H1 as [H1 (_ & _ & _ & He1)].
  pose proof (get_tenders_for_phase2_db _ _ _ _ _ H1) as Hd1.
  apply get_tenders_for_phase2_ok in H1. fold queue in H1. subst l.
  assert (Hmain :
    Forall2 (enrich_rel pid (map e_hash queue) true)
            (tenders (db (w_store w))) (tenders (db (w_store w')))
    /\ fetched (w_events w')
       = fetched (w_events w) ++ map (fun x => (e_hash x, e_url x)) queue
    /\ (queue <> [] -> meta (w_store w') pid "phase2_complete" = Some "true")).
  { destruct queue as [|q qs] eqn:Eq.
    - injection H as <-. rewrite Hd1, He1. simpl. rewrite app_nil_r.
      split; [|split; [reflexivity|congruence]].
      apply Forall2_same. intros x _. apply enrich_rel_refl.
    - apply prog_bind_inv in H as [(e & _ & E)|([] & w2 & H2 & H)];
        [discriminate|].
      apply enrich_loop_spec in H2 as (HF & Hm & Hf).
      apply on_store_inv in H as [H (_ & _ & _ & He)].
      pose proof (set_metadata_ok _ _ _ _ _ _ H) as Hmeta.
      apply set_metadata_inv in H as [Ht _].
      rewrite Ht, <- Hd1. split; [exact HF|].
      split; [|intros _; exact Hmeta].
      rewrite He, (Hf eq_refl), He1. reflexivity. }
  destruct Hmain as (HF & Hfetch & Hmeta).
  split; [|split; [exact Hfetch|split; [|split; [|exact Hmeta]]]].
  - eapply Forall2_impl; [exact HF|]. intros x y Hxy. apply Hxy.
  - intros r' Hin Hp Hh.
    destruct (Forall2_In_r _ _ _ _ HF Hin) as (x & Hx & (F & _ & _ & P)).
    destruct F as (_ & Hk & _). unfold row_key in Hk. injection Hk as Ep Eh.
    apply P; congruence.
  - intros x Hin. unfold phase2_queue in Hin.
    apply in_queue in Hin as (r' & Hin & Hq & <-). simpl.
    exists r'. split; [exact Hin|]. split; [reflexivity|].
    split; [reflexivity|].
    destruct (Forall2_In_r _ _ _ _ HF Hin) as (r & Hr & (F & S & _ & P)).
    destruct F as (_ & Hk & Hsrc & _ & Hai & _).
    unfold row_key in Hk. injection Hk as Ep Eh.
    assert (Hurl : details_url r' = details_url r).
    { unfold source_of in Hsrc. injection Hsrc as _ _ _ _ _ _ _ Hu _.
      exact Hu. }
    unfold needs_phase2 in Hq. rewrite !andb_true_iff in Hq.
    destruct Hq as [[[Hp Ha] Hst] Hu].
    apply orb_true_iff in Hst as [Hst|Hst]; apply String.eqb_eq in Hst;
      [|exact Hst].
    exfalso.
    assert (Hs : settled r').
    { destruct S as [E|E]; [|exact E].
      apply P; [reflexivity| |].
      - apply String.eqb_eq in Hp. congruence.
      - unfold queue, phase2_queue. rewrite map_map. simpl.
        apply in_map_iff. exists r. split; [congruence|].
        apply filter_In. split; [exact Hr|].
        unfold needs_phase2, in_portal in *.
        rewrite <- Ep, <- Hai, <- Hurl, <- E, Hst, Hp, Ha, Hu.
        reflexivity. }
    destruct Hs as [E|E]; rewrite Hst in E; discriminate.
Qed.

Lemma run_phase2_settles_queue_witness :
  let w' := (run_phase2 sample_env sample_out wb_config
               (fresh_world sample_store)).2 in
  fetched (w_events w')
  = map (fun x => (e_hash x, e_url x)) (phase2_queue "WB" (db sample_store)).
Proof.
  intros w'.
  assert (H : run_phase2 sample_env sample_out wb_config
                (fresh_world sample_store) = (Ok tt, w'))
    by (vm_compute; reflexivity).
  clearbody w'.
  destruct (run_phase2_settles_queue _ _ _ _ _ H) as (_ & Hf & _).
  exact Hf.
Defined.

(** ** The monitoring loop of the orchestrator *)

Section Monitoring.

Import Orchestrator.







End Monitoring.



(** ** Cleaning the text of a cell *)

Lemma lstrip_spec (s : text) :
  exists ws, s = ws ++ lstrip s
             /\ forallb isspace ws = true
             /\ forall c, head (lstrip s) = Some c -> isspace c = false.
Proof.
  induction s as [|c r (ws & E & Hws & Hh)]; simpl.
  - exists []. repeat split. discriminate.
  - destruct (isspace c) eqn:Ec.
    + exists (c :: ws). simpl. rewrite Ec, Hws. split; [congruence|auto].
    + exists []. repeat split. simpl. intros x [= <-]. exact Ec.
Qed.

Lemma rev_reverse {A : Type} (l : list A) : rev l = reverse l.
Proof. rewrite rev_alt. reflexivity. Qed.

Lemma head_rev {A : Type} (l : list A) : head (rev l) = last l.
Proof. rewrite rev_reverse. apply head_reverse. Qed.

Lemma last_rev {A : Type} (l : list A) : last (rev l) = head l.
Proof. rewrite rev_reverse. apply last_reverse. Qed.

Lemma forallb_rev (f : N -> bool) (l : list N) :
  forallb f (rev l) = forallb f l.
Proof.
  induction l as [|x l IH]; [reflexivity|]. simpl.
  rewrite forallb_app, IH. simpl. rewrite andb_true_r. apply andb_comm.
Qed.

Lemma rstrip_spec (s : text) :
  exists ws, s = rstrip s ++ ws
             /\ forallb isspace ws = true
             /\ forall c, last (rstrip s) = Some c -> isspace c = false.
Proof.
  unfold rstrip. destruct (lstrip_spec (rev s)) as (ws & E & Hws & Hh).
  exists (rev ws). split; [|split].
  - rewrite <- rev_app_distr, <- E, rev_involutive. reflexivity.
  - rewrite forallb_rev. exact Hws.
  - intros c. rewrite last_rev. apply Hh.
Qed.

Lemma strip_spec (s : text) :
  exists ws1 ws2,
    s = ws1 ++ strip s ++ ws2
    /\ forallb isspace ws1 = true /\ forallb isspace ws2 = true
    /\ trimmed (strip s).
Proof.
  unfold strip. destruct (lstrip_spec s) as (ws1 & E1 & H1 & Hh).
  destruct (rstrip_spec (lstrip s)) as (ws2 & E2 & H2 & Hl).
  exists ws1, ws2. split; [rewrite <- E2; exact E1|].
  split; [exact H1|]. split; [exact H2|]. split; [|exact Hl].
  intros c Hc. apply Hh. rewrite E2.
  destruct (rstrip (lstrip s)); [discriminate|exact Hc].
Qed.

Lemma replace_one (a b : N) (s : text) :
  replace [a] [b] s = map (fun c => if N.eqb a c then b else c) s.
Proof.
  unfold replace. induction s as [|c r IH]; [reflexivity|].
  cbn [replace_from starts length Nat.sub map]. rewrite andb_true_r, IH.
  destruct (N.eqb a c); reflexivity.
Qed.

Lemma replace_from_head (old new : text) (c : N) (r : text) :
  replace_from old new 0 (c :: r)
  = if starts old (c :: r)
    then new ++ replace_from old new (length old - 1) r
    else c :: replace_from old new 0 r.
Proof. reflexivity. Qed.

Lemma replace_from_two (c d : N) (r : text) :
  replace_from [32; 32]%N [32]%N 0 (c :: d :: r)
  = if N.eqb c 32 && N.eqb d 32
    then 32%N :: replace_from [32; 32]%N [32]%N 0 r
    else c :: replace_from [32; 32]%N [32]%N 0 (d :: r).
Proof.
  rewrite replace_from_head.
  change (starts [32; 32]%N (c :: d :: r))
    with (N.eqb 32 c && (N.eqb 32 d && true)).
  rewrite andb_true_r, (N.eqb_sym c 32), (N.eqb_sym d 32).
  reflexivity.
Qed.

Lemma replace_double_space_step (r : text) (k : nat) :
  (forall s, length s <= k ->
     replace_from [32; 32]%N [32]%N 0 s = squeeze s) ->
  forall c, length r <= k ->
    replace_from [32; 32]%N [32]%N 0 (c :: r) = squeeze (c :: r).
Proof.
  intros IH c Hr. destruct r as [|d r'].
  - cbn [replace_from starts length Nat.sub squeeze].
    rewrite andb_false_r. reflexivity.
  - rewrite replace_from_two. cbn [squeeze].
    destruct (N.eqb c 32 && N.eqb d 32).
    + f_equal. apply IH. simpl in Hr. lia.
    + f_equal. apply IH. exact Hr.
Qed.

Lemma replace_double_space (s : text) :
  replace [32; 32]%N [32]%N s = squeeze s.
Proof.
  unfold replace.
  assert (H : forall k s, length s <= k ->
            replace_from [32; 32]%N [32]%N 0 s = squeeze s).
  { induction k as [|k IH]; intros [|c r] Hs; try reflexivity.
    - simpl in Hs. lia.
    - apply (replace_double_space_step r k); [exact IH|simpl in Hs; lia]. }
  apply (H (length s)). lia.
Qed.

Lemma squeeze_facts (k : nat) :
  forall s, length s <= k ->
    head (squeeze s) = head s /\ last (squeeze s) = last s
    /\ length (squeeze s) <= length s
    /\ forall x, In x (squeeze s) -> In x s.
Proof.
  induction k as [|k IH]; intros [|c r] Hs; simpl in Hs; try lia;
    try (simpl; repeat split; auto; lia).
  destruct r as [|d r']; [simpl; repeat split; auto|].
  cbn [squeeze]. destruct (N.eqb c 32 && N.eqb d 32) eqn:E.
  - apply andb_true_iff in E as [Ec Ed].
    apply N.eqb_eq in Ec, Ed. subst c d.
    destruct (IH r') as (Hh & Hl & Hn & Hi); [simpl in Hs; lia|].
    split; [reflexivity|]. split; [|split].
    + destruct r' as [|e r'']; [reflexivity|].
      change (last (32%N :: squeeze (e :: r'')) = last (e :: r'')).
      rewrite <- Hl. clear. destruct (squeeze (e :: r'')) eqn:E; [|reflexivity].
      exfalso. simpl in E. destruct r''; [discriminate|].
      destruct (_ && _); discriminate.
    + simpl. lia.
    + intros x [<-|Hx]; [left; reflexivity|]. right. right. apply Hi, Hx.
  - destruct (IH (d :: r')) as (Hh & Hl & Hn & Hi); [simpl in *; lia|].
    split; [reflexivity|]. split; [|split].
    + change (last (c :: squeeze (d :: r')) = last (d :: r')).
      rewrite <- Hl. destruct (squeeze (d :: r')) eqn:E'; [|reflexivity].
      exfalso. simpl in E'. destruct r'; [discriminate|].
      destruct (_ && _); discriminate.
    + simpl in *. lia.
    + intros x [<-|Hx]; [left; reflexivity|]. right. apply Hi, Hx.
Qed.

Lemma isspace_line_feed (c : N) :
  isspace c = false -> c <> 10%N /\ c <> 9%N /\ c <> 32%N.
Proof.
  intros H. repeat split; intros ->; discriminate.
Qed.

(** X22. [clean_text] gives a text without line feed and without
    tab, that neither starts nor ends with a whitespace character, and
    that is no longer than the text it was given; a text of whitespace
    only, like the empty text, gives the empty text. *)
Theorem clean_text_is_clean (t : text) :
  ~ In 10%N (clean_text t)
  /\ ~ In 9%N (clean_text t)
  /\ trimmed (clean_text t)
  /\ length (clean_text t) <= length t
  /\ (forallb isspace t = true -> clean_text t = []).
Proof.
  assert (Hmain : forall s, trimmed s ->
    let c := replace [32; 32]%N [32]%N
               (replace [9]%N [32]%N (replace [10]%N [32]%N s)) in
    ~ In 10%N c /\ ~ In 9%N c /\ trimmed c /\ length c <= length s).
  { intros s [Hh Hl] c. subst c.
    rewrite replace_double_space, !replace_one, map_map.
    set (f := fun x : N =>
                if N.eqb 9 (if N.eqb 10 x then 32%N else x) then 32%N
                else if N.eqb 10 x then 32%N else x).
    destruct (squeeze_facts (length (map f s)) (map f s) (Nat.le_refl _))
      as (Sh & Sl & Sn & Si).
    assert (Hf : forall x, f x <> 10%N /\ f x <> 9%N).
    { intros x. unfold f. destruct (N.eqb_spec 10 x) as [<-|H10];
        [split; discriminate|].
      destruct (N.eqb_spec 9 x) as [<-|H9]; [split; discriminate|].
      split; congruence. }
    assert (Hfix : forall x, isspace x = false -> f x = x).
    { intros x Hx. apply isspace_line_feed in Hx as (H10 & H9 & _).
      unfold f. destruct (N.eqb_spec 10 x); [congruence|].
      destruct (N.eqb_spec 9 x); congruence. }
    split; [|split; [|split]].
    - intros Hin. apply Si, in_map_iff in Hin as (x & Hx & _).
      destruct (Hf x). congruence.
    - intros Hin. apply Si, in_map_iff in Hin as (x & Hx & _).
      destruct (Hf x). congruence.
    - split; intros x.
      + rewrite Sh. destruct s as [|y s']; [discriminate|]. simpl.
        intros [= <-]. rewrite Hfix; apply Hh; reflexivity.
      + rewrite Sl, fmap_last. destruct (last s) as [y|] eqn:Ey;
          [|discriminate]. simpl. intros [= <-].
        rewrite Hfix; apply Hl; reflexivity.
    - rewrite length_map in Sn. exact Sn. }
  assert (Hstrip : length (strip t) <= length t).
  { destruct (strip_spec t) as (w1 & w2 & E & _).
    rewrite E at 2. rewrite !length_app. lia. }
  destruct (strip_spec t) as (w1 & w2 & E & H1 & H2 & Htr).
  destruct (Hmain (strip t) Htr) as (A & B & C & D).
  split; [|split; [|split; [|split]]].
  - destruct t; [intros []|exact A].
  - destruct t; [intros []|exact B].
  - destruct t; [split; discriminate|exact C].
  - destruct t; [simpl; lia|]. unfold clean_text. lia.
  - intros Hws. destruct t as [|c r]; [reflexivity|].
    unfold clean_text.
    assert (Hs : strip (c :: r) = []).
    { destruct (strip (c :: r)) as [|x l] eqn:Es; [reflexivity|].
      exfalso. destruct Htr as [Hh _].
      assert (Hx : isspace x = false) by (apply Hh; reflexivity).
      rewrite E, !forallb_app in Hws. simpl in Hws. rewrite Hx in Hws.
      rewrite andb_false_r in Hws. simpl in Hws. discriminate. }
    rewrite Hs. reflexivity.
Qed.

(** Runs of spaces are halved, not collapsed: a cleaned text may keep two
    spaces in a row, and cleaning it again changes it. *)
Example clean_text_halves_runs :
  clean_text (chars "a    b") = chars "a  b"
  /\ clean_text (chars "a  b") = chars "a b".
Proof. split; vm_compute; reflexivity. Qed.

(** ** Joining the words of a text *)

Lemma split_from_word (w : text) :
  forallb (fun c => negb (isspace c)) w = true ->
  forall cur r, split_from cur (w ++ r) = split_from (rev w ++ cur) r.
Proof.
  induction w as [|c w IH]; intros Hw cur r; [reflexivity|].
  simpl in Hw. apply andb_true_iff in Hw as [Hc Hw].
  apply negb_true_iff in Hc. simpl. rewrite Hc, (IH Hw).
  rewrite <- app_assoc. reflexivity.
Qed.

Lemma split_from_words (s : text) :
  forall cur, forallb (fun c => negb (isspace c)) cur = true ->
    Forall word (split_from cur s).
Proof.
  assert (Hrev : forall cur, cur <> [] ->
            forallb (fun c => negb (isspace c)) cur = true -> word (rev cur)).
  { intros cur Hne Hcur. split.
    - intros E. apply Hne. rewrite <- (rev_involutive cur), E. reflexivity.
    - rewrite forallb_rev. exact Hcur. }
  induction s as [|c r IH]; intros cur Hcur; simpl.
  - destruct cur as [|x cur']; constructor; [|constructor].
    apply Hrev; [discriminate|exact Hcur].
  - destruct (isspace c) eqn:Ec.
    + destruct cur as [|x cur']; [apply IH; reflexivity|].
      constructor; [apply Hrev; [discriminate|exact Hcur]|].
      apply IH. reflexivity.
    + apply IH. simpl. rewrite Ec. exact Hcur.
Qed.

Lemma split_join (ws : list text) :
  Forall word ws -> split (join [32%N] ws) = ws.
Proof.
  unfold split. induction 1 as [|w ws [Hne Hw] Hws IH]; [reflexivity|].
  destruct ws as [|y ws'].
  - simpl. rewrite <- (app_nil_r w) at 1.
    rewrite (split_from_word w Hw), app_nil_r. simpl.
    destruct (rev w) eqn:E.
    + exfalso. apply Hne. rewrite <- (rev_involutive w), E. reflexivity.
    + rewrite <- E, rev_involutive. reflexivity.
  - change (join [32%N] (w :: y :: ws'))
      with (w ++ 32%N :: join [32%N] (y :: ws')).
    rewrite (split_from_word w Hw), app_nil_r.
    cbn [split_from]. change (isspace 32) with true. cbv iota.
    rewrite IH. destruct (rev w) eqn:E.
    + exfalso. apply Hne. rewrite <- (rev_involutive w), E. reflexivity.
    + rewrite <- E, rev_involutive. reflexivity.
Qed.

Lemma single_spaces_word (w r : text) :
  forallb (fun c => negb (isspace c)) w = true ->
  single_spaces (w ++ r) = single_spaces r.
Proof.
  induction w as [|c w IH]; intros Hw; [reflexivity|].
  simpl in Hw. apply andb_true_iff in Hw as [Hc Hw].
  apply negb_true_iff in Hc. specialize (IH Hw).
  change ((c :: w) ++ r) with (c :: (w ++ r)).
  assert (E : single_spaces (c :: (w ++ r)) = single_spaces (w ++ r)).
  { simpl. destruct (w ++ r); [reflexivity|]. rewrite Hc. reflexivity. }
  rewrite E, IH. reflexivity.
Qed.

Lemma join_facts (ws : list text) :
  Forall word ws ->
  trimmed (join [32%N] ws)
  /\ single_spaces (join [32%N] ws) = true
  /\ (forall c, In c (join [32%N] ws) -> isspace c = true -> c = 32%N).
Proof.
  assert (Hin : forall w c, forallb (fun c => negb (isspace c)) w = true ->
                  In c w -> isspace c = false).
  { intros w c Hw Hc. rewrite forallb_forall in Hw.
    apply negb_true_iff, Hw, Hc. }
  assert (Hhead : forall w r c, word w -> head (w ++ r) = Some c ->
                    isspace c = false).
  { intros [|x w] r c [Hne Hw] Hc; [contradiction|].
    injection Hc as <-. apply (Hin (x :: w)); [exact Hw|left; reflexivity]. }
  induction 1 as [|w ws Hword Hws (IHt & IHs & IHc)].
  - split; [split; discriminate|]. split; [reflexivity|intros c []].
  - pose proof Hword as [Hne Hw]. destruct ws as [|y ws'].
    + cbn [join]. split; [|split].
      * split; intros c Hc.
        -- apply (Hhead w [] c Hword). rewrite app_nil_r. exact Hc.
        -- apply (Hin w c Hw). destruct w as [|x w'] using rev_ind;
             [discriminate|]. rewrite last_snoc in Hc. injection Hc as <-.
           apply in_or_app. right. left. reflexivity.
      * rewrite <- (app_nil_r w), single_spaces_word by exact Hw.
        reflexivity.
      * intros c Hc Hs. rewrite (Hin w c Hw Hc) in Hs. discriminate.
    + change (join [32%N] (w :: y :: ws'))
        with (w ++ 32%N :: join [32%N] (y :: ws')).
      set (rest := join [32%N] (y :: ws')) in *.
      assert (Hrest : exists x r, rest = x :: r /\ isspace x = false).
      { inversion Hws as [|? ? Hy _]; subst. pose proof Hy as [Hyn Hyw].
        destruct y as [|x y']; [contradiction|].
        exists x. subst rest. destruct ws' as [|z ws''].
        - exists y'. split; [reflexivity|].
          apply (Hin (x :: y')); [exact Hyw|left; reflexivity].
        - eexists. split; [reflexivity|].
          apply (Hin (x :: y')); [exact Hyw|left; reflexivity]. }
      destruct Hrest as (x & r & Er & Hx).
      split; [|split].
      * split; intros c Hc.
        -- apply (Hhead w _ c Hword Hc).
        -- apply IHt. rewrite Er in Hc |- *.
           rewrite last_app in Hc. simpl in Hc.
           rewrite last_cons in Hc. rewrite last_cons.
           destruct (last r); exact Hc.
      * rewrite single_spaces_word by exact Hw.
        assert (E : single_spaces (32%N :: rest) = single_spaces rest).
        { rewrite Er. cbn [single_spaces]. rewrite Hx, andb_false_r.
          reflexivity. }
        rewrite E. exact IHs.
      * intros c Hc Hs. apply in_app_or in Hc as [Hc|[<-|Hc]].
        -- rewrite (Hin w c Hw Hc) in Hs. discriminate.
        -- reflexivity.
        -- apply IHc; assumption.
Qed.

Lemma split_from_nil (s : text) :
  forall cur, split_from cur s = [] -> forallb isspace s = true.
Proof.
  assert (G : forall r cur, cur <> [] -> split_from cur r <> []).
  { induction r as [|x r IH]; intros cur Hn; simpl.
    - destruct cur; [contradiction|discriminate].
    - destruct (isspace x); [destruct cur; [contradiction|discriminate]|].
      apply IH. discriminate. }
  induction s as [|c r IH]; intros cur H; [reflexivity|]. simpl in *.
  destruct (isspace c) eqn:Ec.
  - destruct cur; [apply (IH _ H)|discriminate].
  - exfalso. apply (G r (c :: cur)); [discriminate|exact H].
Qed.

(** X23. [" ".join(s.split())], the form in which
    [fetch_work_description] returns a description: the words of the
    text are kept, in order; the result neither starts nor ends with
    whitespace, holds no whitespace character but the space, never two
    spaces in a row, and joining its words again changes nothing. *)
Theorem squash_normalises (s : text) :
  split (squash s) = split s
  /\ squash (squash s) = squash s
  /\ trimmed (squash s)
  /\ single_spaces (squash s) = true
  /\ (forall c, In c (squash s) -> isspace c = true -> c = 32%N)
  /\ (squash s = [] <-> forallb isspace s = true).
Proof.
  assert (Hw : Forall word (split s)) by (apply split_from_words; reflexivity).
  assert (Hsplit : split (squash s) = split s) by (apply split_join, Hw).
  destruct (join_facts (split s) Hw) as (Ht & Hs & Hc).
  split; [exact Hsplit|].
  split; [unfold squash at 1; rewrite Hsplit; reflexivity|].
  split; [exact Ht|]. split; [exact Hs|]. split; [exact Hc|].
  unfold squash, split. split.
  - intros E. assert (Hnil : split_from [] s = []).
    { destruct (split_from [] s) as [|w ws] eqn:Es; [reflexivity|].
      exfalso. unfold split in Hw. rewrite Es in Hw.
      inversion Hw as [|? ? [Hne _] _]; subst. apply Hne.
      destruct ws; [exact E|]. simpl in E.
      apply app_eq_nil in E as [E _]. exact E. }
    apply (split_from_nil s [] Hnil).
  - intros Hall. assert (E : split_from [] s = []).
    { clear -Hall. induction s as [|c r IH]; [reflexivity|]. simpl in *.
      apply andb_true_iff in Hall as [Hc' Hr]. rewrite Hc'. apply IH, Hr. }
    rewrite E. reflexivity.
Qed.

(** ** The fields of a listing row *)






(** The sample row, as it comes out of the page. *)
Example extract_row_sample :
  rows_of_cells "https://wbtenders.gov.in" (Ok [Ok sample_cells; Ok []])
  = Ok [Some (ListingRow "1." "01-Jan-2025 09:00 AM" "08-Jan-2025 03:00 PM"
                "09-Jan-2025 03:00 PM"
                ("[Supply of pumps]" +:+ String "010" "[REF/12][2025_WB_1]")
                "https://wbtenders.gov.in/nicgep/app?id=1"
                "Irrigation Dept"); None].
Proof. vm_compute. reflexivity. Qed.

(** ** Fetching a description *)

Lemma fetch_error_result (e : string) : fetch_result (fetch_error e).
Proof. left. split; [reflexivity|]. right. right. exists e. reflexivity. Qed.

Lemma method2_rows_found (rows : list (outcome (list (outcome text))))
    (c : text) :
  method2_rows rows = Ok (Some c) ->
  exists raw, squash raw <> [] /\ c = squash raw.
Proof.
  induction rows as [|row rest IH]; [discriminate|]. simpl.
  destruct row as [cells|e]; [|discriminate]. cbn [mbind outcome_bind].
  destruct cells as [|c0 [|c1 l]]; [exact IH..|].
  destruct c0 as [caption|e]; [|discriminate]. cbn [mbind outcome_bind].
  destruct (text_contains _ caption); [|exact IH].
  destruct c1 as [work_desc|e]; [|discriminate]. cbn [mbind outcome_bind].
  destruct (squash (strip work_desc)) as [|x r] eqn:E; [exact IH|].
  intros [= <-]. exists (strip work_desc). rewrite E. split; [discriminate|].
  reflexivity.
Qed.

Lemma read_description_result (p : DetailPage) :
  fetch_result (read_description p).
Proof.
  unfold read_description.
  destruct (contains _ (dp_url p)).
  { left. split; [reflexivity|]. left. reflexivity. }
  destruct (method1 p) as [c|] eqn:E1.
  { right. unfold method1 in E1.
    destruct (_ ← dp_caption p; dp_field p) as [raw|e]; [|discriminate].
    destruct (squash raw) as [|x r] eqn:E; [discriminate|].
    injection E1 as <-. exists raw. rewrite E. split; [discriminate|].
    reflexivity. }
  destruct (method2 p) as [c|] eqn:E2.
  { right. unfold method2 in E2.
    destruct (dp_rows p) as [rows|e]; [|discriminate].
    cbn [mbind outcome_bind] in E2.
    destruct (method2_rows rows) as [found|e] eqn:E; [|discriminate].
    subst found. apply method2_rows_found in E as (raw & Hn & ->).
    exists raw. auto. }
  left. split; [reflexivity|]. right. left. reflexivity.
Qed.

Lemma finally_close_inv (page : Tab) (k : nat) (result : string)
    (r : outcome string) :
  finally_close page k result = r ->
  (r = Ok result /\ exists u, tab_close page k = Ok u)
  \/ exists e, r = Raise e /\ tab_close page k = Raise e.
Proof.
  unfold finally_close. destruct (tab_close page k) as [u|e]; intros <-.
  - left. eauto.
  - right. eauto.
Qed.

Section Fetch.

Variable new_page : nat -> outcome Tab.

Lemma fetch_returns_result (fuel : nat) :
  forall retry d,
    fetch_work_description fuel new_page retry = Some (Ok d) ->
    fetch_result d.
Proof.
  induction fuel as [|fuel IH]; intros retry d H; [discriminate|].
  simpl in H. destruct (new_page retry) as [page|e].
  2:{ injection H as <-. apply fetch_error_result. }
  assert (Hfin : forall k res, fetch_result res ->
            Some (finally_close page k res) = Some (Ok d) -> fetch_result d).
  { intros k res Hres [= E]. apply finally_close_inv in E
      as [([= <-] & _)|(e & [=] & _)]. exact Hres. }
  destruct (tab_set_default_timeout page) as [u|e].
  2:{ apply (Hfin _ _ (fetch_error_result e) H). }
  destruct (tab_goto page) as [p|e].
  { apply (Hfin _ _ (read_description_result p) H). }
  destruct (Nat.ltb retry 2).
  2:{ apply (Hfin _ _ (fetch_error_result e) H). }
  destruct (tab_close page 0) as [u'|e'].
  2:{ apply (Hfin _ _ (fetch_error_result e') H). }
  destruct (fetch_work_description fuel new_page (S retry))
    as [[res|e']|] eqn:E; [| |discriminate].
  - apply (Hfin _ _ (IH _ _ E) H).
  - apply (Hfin _ _ (fetch_error_result e') H).
Qed.

Lemma fetch_raises_at_close (fuel retry : nat) (e : string) :
  fetch_work_description fuel new_page retry = Some (Raise e) ->
  exists page k, new_page retry = Ok page /\ tab_close page k = Raise e.
Proof.
  destruct fuel as [|fuel]; [discriminate|]. simpl.
  destruct (new_page retry) as [page|e0]; [|discriminate].
  assert (Hfin : forall k res,
            Some (finally_close page k res) = Some (Raise e) ->
            exists page' k', Ok page = Ok page'
                             /\ tab_close page' k' = Raise e).
  { intros k res [= E]. apply finally_close_inv in E
      as [([=] & _)|(e1 & [= <-] & E)]. eauto. }
  destruct (tab_set_default_timeout page); [|apply Hfin].
  destruct (tab_goto page); [apply Hfin|].
  destruct (Nat.ltb retry 2); [|apply Hfin].
  destruct (tab_close page 0); [|apply Hfin].
  destruct (fetch_work_description fuel new_page (S retry)) as [[?|?]|];
    [apply Hfin..|discriminate].
Qed.

Lemma fetch_enough_fuel (fuel : nat) :
  forall retry, 1 <= fuel -> 3 <= fuel + retry ->
    exists r, fetch_work_description fuel new_page retry = Some r.
Proof.
  induction fuel as [|fuel IH]; intros retry H1 H3; [lia|]. simpl.
  destruct (new_page retry) as [page|e]; [|eauto].
  destruct (tab_set_default_timeout page); [|eauto].
  destruct (tab_goto page); [eauto|].
  destruct (Nat.ltb retry 2) eqn:En; [|eauto].
  destruct (tab_close page 0); [|eauto].
  apply Nat.ltb_lt in En.
  destruct (IH (S retry)) as ([res|e'] & ->); [lia..| |]; eauto.
Qed.

Lemma fetch_more_fuel (fuel : nat) :
  forall retry r fuel',
    fetch_work_description fuel new_page retry = Some r -> fuel <= fuel' ->
    fetch_work_description fuel' new_page retry = Some r.
Proof.
  induction fuel as [|fuel IH]; intros retry r fuel' H Hle; [discriminate|].
  destruct fuel' as [|fuel']; [lia|]. simpl in *.
  destruct (new_page retry) as [page|e]; [|exact H].
  destruct (tab_set_default_timeout page); [|exact H].
  destruct (tab_goto page); [exact H|].
  destruct (Nat.ltb retry 2); [|exact H].
  destruct (tab_close page 0); [|exact H].
  destruct (fetch_work_description fuel new_page (S retry)) as [r'|] eqn:E;
    [|discriminate].
  rewrite (IH _ _ fuel' E) by lia. exact H.
Qed.

End Fetch.

(** X25. [fetch_work_description] needs no more than three attempts,
    whatever the portal does: it returns or raises, and more fuel
    changes nothing.  What it returns is one of its three failure texts,
    which [run_phase2] takes for failures, or a description found on the
    page, joined from its words and not empty.  It raises only what a
    [close] of its first tab raises in the [finally] clause; when no
    [close] raises it returns. *)
Theorem fetch_work_description_result (new_page : nat -> outcome Tab) :
  (exists r, forall fuel, 3 <= fuel ->
     fetch_work_description fuel new_page 0 = Some r)
  /\ (forall d, fetch_work_description 3 new_page 0 = Some (Ok d) ->
        fetch_result d)
  /\ (forall e, fetch_work_description 3 new_page 0 = Some (Raise e) ->
        exists page k, new_page 0 = Ok page /\ tab_close page k = Raise e)
  /\ (closes_quietly new_page ->
        exists d, fetch_work_description 3 new_page 0 = Some (Ok d)).
Proof.
  destruct (fetch_enough_fuel new_page 3 0) as (r & Hr); [lia..|].
  split; [|split; [|split]].
  - exists r. intros fuel Hf. apply (fetch_more_fuel new_page 3 _ _ _ Hr Hf).
  - apply fetch_returns_result.
  - apply fetch_raises_at_close.
  - intros Hq. destruct r as [d|e]; [eauto|]. exfalso.
    destruct (fetch_raises_at_close new_page _ _ _ Hr) as (page & k & Hp & Hc).
    destruct (Hq 0 page k Hp) as (u & Hu). congruence.
Qed.

Lemma fetch_work_description_result_witness :
  exists d, fetch_work_description 3 slow_portal 0 = Some (Ok d).
Proof.
  apply (proj2 (proj2 (proj2 (fetch_work_description_result slow_portal)))).
  intros retry page k H. unfold slow_portal in H. injection H as <-.
  exists tt. reflexivity.
Defined.

(** The portal answers at the third attempt: the description comes out
    with single spaces. *)
Example fetch_sample :
  fetch_work_description 3 slow_portal 0 = Some (Ok "Supply of pumps").
Proof. vm_compute. reflexivity. Qed.

(** ** The count and the page numbers of phase 1 *)

Lemma visited_app (a b : list event) :
  visited (a ++ b) = visited a ++ visited b.
Proof. apply omap_app. Qed.

Lemma visited_retry_trace (n : nat) :
  1 <= n <= max_stale_retries -> visited (retry_trace n) = [].
Proof.
  unfold max_stale_retries. intros H.
  destruct n as [|[|[|[|n]]]]; try lia; reflexivity.
Qed.

Lemma navigate_attempts_events (out : Outside) (url : string) (l : list nat) :
  forall w r w',
    navigate_attempts out url l w = (r, w') ->
    exists evs, w_events w' = w_events w ++ evs /\ visited evs = [].
Proof.
  induction l as [|a l IH]; intros w r w' H; simpl in H.
  - injection H as _ <-. exists []. rewrite app_nil_r. auto.
  - destruct (load out url a) as [p|e].
    + injection H as _ <-. simpl. eexists. split; [reflexivity|reflexivity].
    + destruct (Nat.ltb a 3).
      * apply prog_bind_inv in H as [(e' & H1 & _)|([] & w1 & H1 & H)];
          apply emit_inv in H1 as (E & _ & _ & _ & _ & _ & He);
          [discriminate|].
        apply IH in H as (evs & H & Hv). rewrite H, He, <- app_assoc.
        eexists. split; [reflexivity|]. rewrite visited_app, Hv. reflexivity.
      * apply prog_bind_inv in H as [(e' & H1 & _)|([] & w1 & H1 & H)];
          [discriminate|]. injection H1 as <-. apply IH in H. exact H.
Qed.

Lemma extracted_count_tenders (pid : string) (d d' : DB) :
  tenders d' = tenders d -> extracted_count pid d' = extracted_count pid d.
Proof. unfold extracted_count, count_in. intros ->. reflexivity. Qed.

Lemma get_phase1_count_ok (env : SqlEnv) (pid : string) (s s' : Store)
    (n : nat) :
  get_phase1_count env pid s = (Ok n, s') ->
  db s' = db s /\ n = extracted_count pid (db s).
Proof.
  intros H. apply read_method_inv in H as [Hd Hr]. split; [exact Hd|].
  destruct (Hr n eq_refl) as (d & E). injection E as <- _. reflexivity.
Qed.

Section Phase1.

Variable env : SqlEnv.
Variable out : Outside.
Variable config : PortalConfig.

Lemma phase1_iteration_accounts (n t : nat) (w w' : World)
    (next : option string) (total : nat) :
  phase1_iteration env out config n t w = (Ok (next, total), w') ->
  (t = extracted_count (cfg_portal_id config) (db (w_store w)) ->
   total = extracted_count (cfg_portal_id config) (db (w_store w')))
  /\ exists evs, w_events w' = w_events w ++ evs /\ visited evs = [n].
Proof.
  unfold phase1_iteration, with_world, portal. intros H.
  apply prog_bind_inv in H as [(e & _ & E)|([] & w1 & H1 & H)];
    [discriminate|].
  apply emit_inv in H1 as (_ & _ & Hs1 & _ & _ & _ & He1).
  apply prog_bind_inv in H as [(e & _ & E)|(total0 & w2 & H2 & H)];
    [discriminate|].
  assert (Hw2 : w_events w2 = w_events w1
                /\ (t = extracted_count (cfg_portal_id config)
                           (db (w_store w)) ->
                    total0 = extracted_count (cfg_portal_id config)
                               (db (w_store w2)))).
  { destruct (extract_tenders_from_page out config (current_page w)).
    - injection H2 as <- <-. rewrite Hs1. auto.
    - apply prog_bind_inv in H2 as [(e & _ & E)|(iu & wa & Ha & H2)];
        [discriminate|].
      apply on_store_inv in Ha as [_ (_ & _ & _ & Hea)].
      apply prog_bind_inv in H2 as [(e & _ & E)|(cnt & wb & Hb & H2)];
        [discriminate|].
      apply on_store_inv in Hb as [Hb (_ & _ & _ & Heb)].
      apply get_phase1_count_ok in Hb as [Hdb Hcnt].
      apply prog_bind_inv in H2 as [(e & _ & E)|([] & wc & Hc & H2)];
        [discriminate|].
      apply on_store_inv in Hc as [Hc (_ & _ & _ & Hec)].
      apply set_metadata_inv in Hc as [Hc _].
      injection H2 as <- <-. split; [congruence|]. intros _.
      rewrite (extracted_count_tenders (cfg_portal_id config) _ _ Hc),
        (extracted_count_tenders (cfg_portal_id config) _ _
           (f_equal tenders Hdb)).
      exact Hcnt. }
  destruct Hw2 as [He2 Hc2].
  apply prog_bind_inv in H as [(e & _ & E)|([] & w3 & H3 & H)];
    [discriminate|].
  injection H3 as <-.
  destruct (get_next_page_link_cases (cfg_base_url config) (current_page w))
    as (k & rr0 & Hk & Eg & _).
  rewrite Eg in H.
  apply prog_bind_inv in H as [(e & _ & E)|([] & w4 & H4 & H)];
    [discriminate|].
  apply emit_inv in H4 as (_ & _ & Hs4 & _ & _ & _ & He4).
  cbn [w_store w_events] in Hs4, He4.
  apply prog_bind_inv in H as [(e & _ & E)|(rr & w5 & H5 & H)];
    [discriminate|].
  unfold eval in H5. injection H5 as <- <-.
  assert (Hbase : w_events w4 = w_events w ++ [EvVisit n (current_page w)]
                                ++ retry_trace k).
  { rewrite He4, He2, He1, <- app_assoc. reflexivity. }
  assert (Hvis : visited ([EvVisit n (current_page w)] ++ retry_trace k)
                 = [n]).
  { rewrite visited_app, (visited_retry_trace k Hk). reflexivity. }
  destruct (truthy rr0); cbn [negb] in H.
  - apply prog_bind_inv in H as [(e & _ & E)|(success & w6 & H6 & H)];
      [discriminate|].
    pose proof (navigate_attempts_events _ _ _ _ _ _ H6) as (evs & He6 & Hv6).
    apply navigate_attempts_inv in H6 as (_ & Hs6 & _).
    assert (Hw6 : w' = w6 /\ total = total0).
    { destruct success; injection H as _ <- <-; auto. }
    destruct Hw6 as [-> ->]. split.
    + intros Ht. rewrite Hs6, Hs4. apply Hc2, Ht.
    + eexists. split; [rewrite He6, Hbase, <- app_assoc; reflexivity|].
      rewrite visited_app, Hvis, Hv6. reflexivity.
  - injection H as _ <- <-. split.
    + intros Ht. rewrite Hs4. apply Hc2, Ht.
    + eexists. split; [exact Hbase|exact Hvis].
Qed.

Lemma phase1_loop_accounts (fuel : nat) :
  forall n t w total w',
    phase1_loop env out config fuel n t w = Some (Ok total, w') ->
    (t = extracted_count (cfg_portal_id config) (db (w_store w)) ->
     total = extracted_count (cfg_portal_id config) (db (w_store w')))
    /\ exists k evs,
         w_events w' = w_events w ++ evs /\ visited evs = seq n (S k)
         /\ w_pages_scraped w' = n + k.
Proof.
  induction fuel as [|fuel IH]; intros n t w total w' H; [discriminate|].
  simpl in H.
  destruct (phase1_iteration env out config n t w) as [[[next t1]|e] w1]
    eqn:E; [|discriminate].
  pose proof (phase1_iteration_accounts _ _ _ _ _ _ E) as (Hc & evs & He & Hv).
  apply phase1_iteration_inv in E as (_ & _ & _ & Hp & _).
  destruct next as [u|].
  - apply IH in H as (Hc' & k & evs' & He' & Hv' & Hp').
    split; [auto|]. exists (S k), (evs ++ evs').
    split; [rewrite He', He, <- app_assoc; reflexivity|].
    split; [rewrite visited_app, Hv, Hv'; reflexivity|lia].
  - injection H as <- <-. split; [exact Hc|].
    exists 0, evs. split; [exact He|]. split; [exact Hv|lia].
Qed.

End Phase1.

(** X26. What [run_phase1] returns is the count of the store: the
    number of rows of the portal with [phase1_status] 'extracted' that
    the database holds when it returns.  The pages it visited are
    numbered without gap from the start page, which is 1 or one more
    than the 'last_page_extracted' checkpoint, up to [pages_scraped]. *)
Theorem run_phase1_accounts (env : SqlEnv) (out : Outside)
    (config : PortalConfig) (fuel : nat) (w w' : World) (total : nat) :
  let pid := cfg_portal_id config in
  run_phase1 env out config fuel w = Some (Ok total, w') ->
  total = extracted_count pid (db (w_store w'))
  /\ exists start k evs,
       start_page_of (meta (w_store w) pid "last_page_extracted") = Ok start
       /\ w_events w' = w_events w ++ evs
       /\ visited evs = seq start (S k)
       /\ w_pages_scraped w' = start + k.
Proof.
  intros pid H. subst pid. unfold run_phase1, portal in H.
  apply fbind_inv in H as [(e & _ & E)|(last & w1 & H1 & H)]; [discriminate|].
  unfold lift in H1. injection H1 as H1.
  apply get_metadata_world in H1 as (Hd1 & (_ & _ & _ & He1) & Hv1).
  specialize (Hv1 _ eq_refl). subst last.
  apply fbind_inv in H as [(e & _ & E)|(start & w2 & H2 & H)]; [discriminate|].
  unfold lift, eval in H2. injection H2 as H2 <-.
  apply fbind_inv in H as [(e & _ & E)|(t & w3 & H3 & H)]; [discriminate|].
  unfold lift in H3. injection H3 as H3.
  apply on_store_inv in H3 as [H3 (_ & _ & _ & He3)].
  apply get_phase1_count_ok in H3 as [Hd3 Ht].
  apply fbind_inv in H as [(e & _ & E)|(t' & w4 & H4 & H)]; [discriminate|].
  apply phase1_loop_accounts in H4 as (Hc & k & evs & He4 & Hv4 & Hp4).
  apply fbind_inv in H as [(e & _ & E)|([] & w5 & H5 & H)]; [discriminate|].
  unfold lift in H5. injection H5 as H5.
  apply on_store_inv in H5 as [H5 (_ & _ & Hp5 & He5)].
  apply set_metadata_inv in H5 as [H5 _].
  unfold fret in H. injection H as <- <-. split.
  - rewrite (extracted_count_tenders _ _ _ H5). apply Hc.
    rewrite Ht. apply extracted_count_tenders. rewrite Hd3. reflexivity.
  - exists start, k, evs. split; [exact H2|].
    split; [rewrite He5, He4, He3, He1; reflexivity|].
    split; [exact Hv4|congruence].
Qed.

Lemma run_phase1_accounts_witness :
  exists total w',
    run_phase1 sample_env sample_out wb_config 10 (world_at page1 empty_store)
    = Some (Ok total, w')
    /\ total = extracted_count "WB" (db (w_store w')).
Proof.
  assert (Hs : match run_phase1 sample_env sample_out wb_config 10
                       (world_at page1 empty_store) with
               | Some (Ok _, _) => true
               | _ => false
               end = true) by (vm_compute; reflexivity).
  destruct (run_phase1 sample_env sample_out wb_config 10
              (world_at page1 empty_store)) as [[[total|e] w']|] eqn:E;
    [|exfalso; clear E; discriminate Hs..].
  exists total, w'. split; [reflexivity|].
  apply (proj1 (run_phase1_accounts sample_env sample_out wb_config 10
                  (world_at page1 empty_store) w' total E)).
Defined.

(** Three pages, four tenders. *)
Example run_phase1_sample :
  match run_phase1 sample_env sample_out wb_config 10
          (world_at page1 empty_store) with
  | Some (Ok total, w') =>
      (total, visited (w_events w'), w_pages_scraped w')
  | _ => (0, [], 0)
  end = (4, [1; 2; 3], 3).
Proof. vm_compute. reflexivity. Qed.

(** ** The end of the pagination *)

Lemma read_method_raise {A : Type} (env : SqlEnv)
    (stmt : nat -> DB -> outcome (A * DB)) (s s' : Store) (e : string) :
  with_connection (execute env stmt) s = (Raise e, s') ->
  fault env (tick s) = Some e
  \/ stmt (now env (tick s)) (db s) = Raise e.
Proof.
  unfold with_connection. intros H.
  destruct (execute env stmt (get_connection s)) as [r c] eqn:E.
  injection H as -> _. apply execute_raise in E as [E|[_ E]]; auto.
Qed.

Lemma write_method_raise {A : Type} (env : SqlEnv)
    (stmt : nat -> DB -> outcome (A * DB)) (s s' : Store) (e : string) :
  with_connection (_ ← execute env stmt; commit env) s = (Raise e, s') ->
  (exists k, fault env k = Some e)
  \/ stmt (now env (tick s)) (db s) = Raise e.
Proof.
  unfold with_connection. intros H.
  destruct ((_ ← execute env stmt; commit env) (get_connection s))
    as [r c] eqn:E.
  injection H as -> _.
  apply sql_bind_inv in E as [(e0 & E & [= <-])|(a & c1 & _ & E)].
  - apply execute_raise in E as [E|[_ E]]; eauto.
  - unfold commit in E. destruct (fault env (clock c1)) as [e0|] eqn:Ef;
      [|discriminate]. injection E as <- _. eauto.
Qed.

Section Pagination.

Variable env : SqlEnv.
Variable out : Outside.
Variable config : PortalConfig.

Lemma phase1_iteration_raises (n t : nat) (w w' : World) (e : string) :
  phase1_iteration env out config n t w = (Raise e, w') ->
  exists k, fault env k = Some e.
Proof.
  unfold phase1_iteration, with_world. intros H.
  apply prog_bind_inv in H as [(e0 & H1 & _)|([] & w1 & _ & H)].
  { apply emit_inv in H1 as [E _]. discriminate. }
  apply prog_bind_inv in H as [(e0 & H2 & [= <-])|(total0 & w2 & _ & H)].
  { destruct (extract_tenders_from_page out config (current_page w))
      as [|t0 l] eqn:Ep; [discriminate|].
    apply prog_bind_inv in H2 as [(e0 & Ha & [= <-])|(iu & wa & _ & H2)].
    { apply on_store_inv in Ha as [Ha _].
      apply upsert_loop_raise_store in Ha as [(x & Hx & Hm)|(k & _ & Hf)];
        [|eauto].
      exfalso. apply (missing_key_unreadable _ _ Hm).
      rewrite <- Ep in Hx. unfold extract_tenders_from_page in Hx.
      destruct (page_rows (current_page w)) as [rows|e0]; [|destruct Hx].
      apply in_map_iff in Hx as (r & <- & _). apply tender_of_row_readable. }
    apply prog_bind_inv in H2 as [(e0 & Hb & [= <-])|(cnt & wb & _ & H2)].
    { apply on_store_inv in Hb as [Hb _].
      apply read_method_raise in Hb as [Hf|Hs]; [eauto|discriminate]. }
    apply prog_bind_inv in H2 as [(e0 & Hc & [= <-])|([] & wc & _ & H2)];
      [|discriminate].
    apply on_store_inv in Hc as [Hc _].
    apply write_method_raise in Hc as [Hf|Hs]; [exact Hf|discriminate]. }
  apply prog_bind_inv in H as [(e0 & H3 & _)|([] & w3 & _ & H)];
    [discriminate|].
  destruct (get_next_page_link_cases (cfg_base_url config) (current_page w))
    as (k & rr0 & _ & Eg & _).
  rewrite Eg in H.
  apply prog_bind_inv in H as [(e0 & H4 & _)|([] & w4 & _ & H)].
  { apply emit_inv in H4 as [E _]. discriminate. }
  apply prog_bind_inv in H as [(e0 & H5 & _)|(rr & w5 & _ & H)];
    [discriminate|].
  destruct (negb (truthy rr)); [discriminate|].
  apply prog_bind_inv in H as [(e0 & H6 & _)|(success & w6 & _ & H)].
  - apply navigate_attempts_inv in H6 as (_ & _ & [[E _]|[E _]]);
      discriminate.
  - destruct success; discriminate.
Qed.

Lemma phase1_iteration_next (n t : nat) (w w' : World) (p p' : Page)
    (href : string) (next : option string) (total : nat) :
  w_page w = Some p ->
  control_available (link_fwd p 0) href ->
  link_fwd p 1 = link_fwd p 0 ->
  load out (resolve (cfg_base_url config) href) 1 = Ok p' ->
  phase1_iteration env out config n t w = (Ok (next, total), w') ->
  next = Some (resolve (cfg_base_url config) href) /\ w_page w' = Some p'.
Proof.
  intros Hp Hav Hst Hload. unfold phase1_iteration, with_world. intros H.
  assert (Hcur : current_page w = p) by (unfold current_page; rewrite Hp;
                                         reflexivity).
  rewrite Hcur in H.
  apply prog_bind_inv in H as [(e0 & _ & E)|([] & w1 & _ & H)];
    [discriminate|].
  apply prog_bind_inv in H as [(e0 & _ & E)|(total0 & w2 & _ & H)];
    [discriminate|].
  apply prog_bind_inv in H as [(e0 & _ & E)|([] & w3 & _ & H)];
    [discriminate|].
  rewrite (first_attempt_some (cfg_base_url config) p href Hav Hst) in H.
  apply prog_bind_inv in H as [(e0 & _ & E)|([] & w4 & _ & H)];
    [discriminate|].
  apply prog_bind_inv in H as [(e0 & _ & E)|(rr & w5 & H5 & H)];
    [discriminate|].
  unfold eval in H5. injection H5 as <- <-.
  assert (Hinv : invalid_href (Some href) = false).
  { destruct Hav as (el & cls & _ & _ & _ & _ & _ & _ & _ & Hi). exact Hi. }
  rewrite (resolve_truthy (cfg_base_url config) href Hinv) in H.
  cbn [negb] in H.
  apply prog_bind_inv in H as [(e0 & _ & E)|(success & w6 & H6 & H)];
    [discriminate|].
  change (default "" (Some (resolve (cfg_base_url config) href)))
    with (resolve (cfg_base_url config) href) in H6.
  cbn [navigate_attempts] in H6. rewrite Hload in H6.
  injection H6 as <- <-. injection H as <- <- <-. auto.
Qed.

End Pagination.

(** X27. The loop of [run_phase1] has no bound of its own.  On pages
    that each show an available next control whose target loads and is
    such a page again, and with SQLite never failing (the exports, left
    out of the model, are taken to go through), the loop neither returns
    nor raises, however many iterations it is given. *)
Theorem pagination_has_no_bound (env : SqlEnv) (out : Outside)
    (config : PortalConfig) (P : Page -> Prop) (fuel n t : nat) (w : World)
    (p : Page) :
  (forall k, fault env k = None) ->
  endless out (cfg_base_url config) P ->
  w_page w = Some p -> P p ->
  phase1_loop env out config fuel n t w = None.
Proof.
  intros Hf Hend. revert n t w p.
  induction fuel as [|fuel IH]; intros n t w p Hp HP; [reflexivity|].
  simpl. destruct (Hend p HP) as (href & p' & Hav & Hst & Hload & HP').
  destruct (phase1_iteration env out config n t w) as [[[next total]|e] w']
    eqn:E.
  - destruct (phase1_iteration_next _ _ _ _ _ _ _ _ _ _ _ _ Hp Hav Hst Hload E)
      as [-> Hp'].
    apply (IH _ _ _ p' Hp' HP').
  - apply phase1_iteration_raises in E as (k & Hk). rewrite Hf in Hk.
    discriminate.
Qed.

Lemma pagination_has_no_bound_witness :
  phase1_loop sample_env circular_out wb_config 1000 1 0
    (world_at page1 empty_store) = None.
Proof.
  apply (pagination_has_no_bound sample_env circular_out wb_config
           (fun p => p = page1) 1000 1 0 (world_at page1 empty_store) page1).
  - reflexivity.
  - intros p ->. exists "/nicgep/app?page=2", page1.
    split; [|split; [reflexivity|split; reflexivity]].
    exists (link_to "/nicgep/app?page=2"), (Some "nav").
    repeat split; try reflexivity. discriminate.
  - reflexivity.
  - reflexivity.
Defined.
